(** * Spatial Audio Framework: the block pipelines of [ambi_bin] and
      [binauraliser]

    A shallow embedding of [examples/ambi_bin/src/ambi_bin.c] and
    [examples/binauraliser/src/binauraliser.c].  C [float] arithmetic is
    kept behind the interface [FloatOps], so that the structure of the
    pipelines is stated for any arithmetic, and it is instantiated by
    IEEE-754 binary32 (module [Binary32], on [SpecFloat]) wherever a
    property depends on the values computed.  Fixed-size C arrays are total
    functions from indices, [int] is [Z], and the collaborators whose code
    lives outside the two files (filterbank, SH rotation, HRTF tables,
    re-initialisers) are section variables. *)

From Stdlib Require Import ZArith List Bool Lia String.
From Stdlib Require Import Floats.SpecFloat.
Import ListNotations.

Set Implicit Arguments.

(** ** Scalars *)

(** The operations on [float] the two files use.  [Fltb a b] is the C
    comparison [a < b]; [Fof_int] is the cast [(float)i]. *)
Class FloatOps (F : Type) : Type := {
  Fzero : F;
  Fone : F;
  Fadd : F -> F -> F;
  Fsub : F -> F -> F;
  Fmul : F -> F -> F;
  Fdiv : F -> F -> F;
  Fopp : F -> F;
  sqrtf : F -> F;
  Fltb : F -> F -> bool;
  Fof_int : Z -> F;
  PI : F
}.

Declare Scope float_scope.
Delimit Scope float_scope with flt.
Infix "+" := Fadd : float_scope.
Infix "-" := Fsub : float_scope.
Infix "*" := Fmul : float_scope.
Infix "/" := Fdiv : float_scope.
Notation "- x" := (Fopp x) : float_scope.

(** IEEE-754 single precision, round to nearest even. *)
Module Binary32.

Definition prec : Z := 24.
Definition emax : Z := 128.

Definition float : Type := spec_float.

Definition of_int (z : Z) : float := binary_normalize prec emax z 0 false.

(** The [float] nearest to pi, [0x40490FDB]. *)
Definition pi_f : float := S754_finite false 13176795 (-22).

#[global] Instance ops : FloatOps float := {|
  Fzero := S754_zero false;
  Fone := of_int 1;
  Fadd := SFadd prec emax;
  Fsub := SFsub prec emax;
  Fmul := SFmul prec emax;
  Fdiv := SFdiv prec emax;
  Fopp := SFopp;
  sqrtf := SFsqrt prec emax;
  Fltb := SFltb;
  Fof_int := of_int;
  PI := pi_f
|}.

(** [a <= b] and [a < b], used to state ranges. *)
Definition le (a b : float) : Prop := SFleb a b = true.
Definition lt (a b : float) : Prop := SFltb a b = true.

(** Equality of representations. *)
Definition eqb (a b : float) : bool :=
  match a, b with
  | S754_zero s1, S754_zero s2 => Bool.eqb s1 s2
  | S754_infinity s1, S754_infinity s2 => Bool.eqb s1 s2
  | S754_nan, S754_nan => true
  | S754_finite s1 m1 e1, S754_finite s2 m2 e2 =>
      (Bool.eqb s1 s2 && Pos.eqb m1 m2 && Z.eqb e1 e2)%bool
  | _, _ => false
  end.

(** [r] is [x] or one of the two [float]s next to [x]. *)
Definition near (x r : float) : bool :=
  (SFleb (SFpred prec emax x) r && SFleb r (SFsucc prec emax x))%bool.

(** The ramp [ambi_bin_init] computes for [T] time slots, and the check that
    it rises strictly from [1/T] to 1 within (0,1]. *)
Definition ramp_value (T k : nat) : float :=
  SFdiv prec emax (SFmul prec emax (of_int (Z.of_nat (k + 1))) (of_int 1))
    (of_int (Z.of_nat T)).

Fixpoint strictly_increasing (l : list float) : bool :=
  match l with
  | [] => true
  | x :: r => (forallb (SFltb x) r && strictly_increasing r)%bool
  end.

Definition ramp_ok (T : nat) : bool :=
  let l := map (ramp_value T) (seq 0 T) in
  (strictly_increasing l
   && forallb (fun x => SFltb (S754_zero false) x && SFleb x (of_int 1)) l
   && eqb (ramp_value T 0) (SFdiv prec emax (of_int 1) (of_int (Z.of_nat T)))
   && eqb (ramp_value T (T - 1)) (of_int 1))%bool.

End Binary32.

(** ** Arrays and loops *)

Section Arrays.
Context {A : Type}.

(** [a[i] = v]. *)
Definition upd (a : nat -> A) (i : nat) (v : A) : nat -> A :=
    fun k => if Nat.eqb k i then v else a k.

(** [a[i][j] = v]. *)
Definition upd2 (a : nat -> nat -> A) (i j : nat) (v : A) : nat -> nat -> A :=
    fun k => if Nat.eqb k i then upd (a i) j v else a k.

(** [a[i][j][k] = v]. *)
Definition upd3 (a : nat -> nat -> nat -> A) (i j k : nat) (v : A)
    : nat -> nat -> nat -> A :=
    fun l => if Nat.eqb l i then upd2 (a i) j k v else a l.

(** [memcpy(dst, src, n * sizeof( A ))]. *)
Definition memcpy (dst src : nat -> A) (n : nat) : nat -> A :=
    fun k => if Nat.ltb k n then src k else dst k.

(** [memset(dst, 0, n * sizeof( A ))], [z] being the all-zero-bits value. *)
Definition memset (z : A) (dst : nat -> A) (n : nat) : nat -> A :=
    fun k => if Nat.ltb k n then z else dst k.
End Arrays.

(** [for (i = 0; i < n; i++) body]: the body runs for 0, 1, ..., n-1. *)
Fixpoint for_loop {S : Type} (n : nat) (body : nat -> S -> S) (s : S) : S :=
  match n with
  | O => s
  | Datatypes.S k => body k (for_loop k body s)
  end.

(** [for (i = lo; i < hi; i++) body]. *)
Definition for_range {S : Type} (lo hi : nat) (body : nat -> S -> S) (s : S) : S :=
  for_loop (hi - lo) (fun k => body (lo + k)%nat) s.

(** Modelled from the spec: the [NUM_EARS] of the headers, which are not
    among the two files; the output has "two output channels (binaural
    ears)". *)
Definition NUM_EARS : nat := 2.

(** The other constants of the headers, as parameters. *)
Class Dims : Type := {
  FRAME_SIZE : nat;
  HOP_SIZE : nat;
  TIME_SLOTS : nat;
  HYBRID_BANDS : nat;
  MAX_SH_ORDER : nat;
  MAX_NUM_SH_SIGNALS : nat;
  MAX_NUM_INPUTS : nat
}.

(** Modelled from the spec: [MIN] and [MAX], macros of a header outside the
    two files with which values are "clamped", as the conditional
    expressions [a < b ? a : b] and [a > b ? a : b]; on [int] here, on
    [float] below. *)
Definition MINz (a b : Z) : Z := if (a <? b)%Z then a else b.

Section Scalars.
Context {F : Type} `{FloatOps F}.
Local Open Scope float_scope.

Definition MINf (a b : F) : F := if Fltb a b then a else b.
Definition MAXf (a b : F) : F := if Fltb b a then a else b.

(** Modelled from the spec: [DEG2RAD] and [RAD2DEG], macros of a header
    outside the two files, converting between the degrees of the setters
    and getters and the radians the orientation is kept in. *)
Definition DEG2RAD (x : F) : F := x * PI / Fof_int 180.
Definition RAD2DEG (x : F) : F := x * Fof_int 180 / PI.

(** ** Complex numbers

    Modelled from the spec: the complex type and operations of
    [saf_complex.h], which is not among the two files: sums and products of
    complex numbers, and a complex number times a real one ("complex×real
    promoted to complex"), componentwise. *)

Record float_complex : Type := cmplxf { crealf : F; cimagf : F }.

Definition czero : float_complex := cmplxf Fzero Fzero.

Definition ccaddf (x y : float_complex) : float_complex :=
    cmplxf (crealf x + crealf y) (cimagf x + cimagf y).

Definition ccmulf (x y : float_complex) : float_complex :=
    cmplxf (crealf x * crealf y - cimagf x * cimagf y)
           (crealf x * cimagf y + cimagf x * crealf y).

Definition crmulf (x : float_complex) (r : F) : float_complex :=
    cmplxf (crealf x * r) (cimagf x * r).

(** Modelled from the spec: the "complex matrix multiply" of CBLAS,
      [cblas_cgemm(CblasRowMajor, NoTrans, NoTrans, M, N, K, 1, A, B, 0, C)]:
      the [M] by [N] block of [C] is overwritten by the product of [A] and
      [B]; with [beta = 0] the old contents of [C] are not read.  The dot
      product is accumulated from index 0 upwards. *)
Definition cdot (K : nat) (a : nat -> float_complex) (b : nat -> float_complex)
    : float_complex :=
    for_loop K (fun l acc => ccaddf acc (ccmulf (a l) (b l))) czero.

Definition cblas_cgemm (M N K : nat) (A B C : nat -> nat -> float_complex)
    : nat -> nat -> float_complex :=
    fun i j =>
      if (Nat.ltb i M && Nat.ltb j N)%bool
      then cdot K (A i) (fun l => B l j)
      else C i j.

(** Modelled from the spec: [cblas_sgemm] with [alpha = 1], [beta = 0], the
    same product on real matrices. *)
Definition sdot (K : nat) (a b : nat -> F) : F :=
    for_loop K (fun l acc => acc + a l * b l) Fzero.

Definition cblas_sgemm (M N K : nat) (A B C : nat -> nat -> F)
    : nat -> nat -> F :=
    fun i j =>
      if (Nat.ltb i M && Nat.ltb j N)%bool
      then sdot K (A i) (fun l => B l j)
      else C i j.

(** The product a mixer takes of a matrix with [K] columns and the subbands
    of one band, at row [i] and time slot [j]. *)
Definition matmul (K : nat) (M X : nat -> nat -> float_complex) (i j : nat)
  : float_complex :=
  cdot K (M i) (fun l => X l j).

(** The cross-fade of two mixed signals at one time slot. *)
Definition crossfade (ramp : F) (cur prv : float_complex) : float_complex :=
  ccaddf (crmulf cur ramp) (crmulf prv (Fone - ramp)).

(** The HRTF-weighted subbands of the first [nsrc] sources, summed. *)
Definition source_sum (nsrc : nat)
  (inTF hi : nat -> nat -> nat -> float_complex) (band ear t : nat)
  : float_complex :=
  for_loop nsrc
    (fun ch acc => ccaddf acc (ccmulf (inTF band ch t) (hi ch band ear))) czero.

(** The buffers afSTFT reads and writes: one [re] and one [im] array per
    channel, indexed by band. *)
Record complexVector : Type := { re : nat -> F; im : nat -> F }.
End Scalars.

Arguments float_complex F : clear implicits.
Arguments complexVector F : clear implicits.

(** ** Collaborators and events *)

(** afSTFT, behind its handle: one hop of every channel in, one complex
    vector per channel out, and back.  Each call may change the state
    behind the handle and overwrites (part of) the buffer it is given. *)
Class Filterbank (F : Type) : Type := {
  stft : Type;
  afSTFTforward :
    stft -> (nat -> nat -> F) -> (nat -> complexVector F) ->
    stft * (nat -> complexVector F);
  afSTFTinverse :
    stft -> (nat -> complexVector F) -> (nat -> nat -> F) ->
    stft * (nat -> nat -> F)
}.

(** What a [process] call does, in order: writes to the re-initialisation
    flags, the rebuilds, and which branch of the block was taken. *)
Inductive subsystem : Type := TFT | Codec.

Inductive event : Type :=
| EvFlag (sub : subsystem) (v : Z)
| EvRebuild (sub : subsystem)
| EvProcess
| EvSilence.

(** The events of one guarded rebuild: nothing unless the flag is 1. *)
Definition rebuild_events (sub : subsystem) (flag : Z) : list event :=
  if (flag =? 1)%Z then [EvFlag sub 2; EvRebuild sub; EvFlag sub 0] else [].

(** [malloc(strlen(path) + 1); strcpy]: a fresh block, after all the blocks
    allocated so far; its address is its position. *)
Definition strdup_fresh (heap : list string) (path : string) : list string * nat :=
  (List.app heap [path], List.length heap).

Definition nonzero (z : Z) : bool := negb (z =? 0)%Z.

(** * ambi_bin *)

Module AmbiBin.

(** Modelled from the spec: the enumerations of [ambi_bin.h], which is not
    among the two files: the two channel orderings and the two
    normalisations ("two mutually exclusive conventions"), and the input
    orders listed by the switch of [ambi_bin_setInputOrderPreset]. *)
Inductive CH_ORDER : Type := CH_ACN | CH_FUMA.
Inductive NORM_TYPES : Type := NORM_N3D | NORM_SN3D.
Inductive INPUT_ORDERS : Type :=
| INPUT_OMNI
| INPUT_ORDER_FIRST
| INPUT_ORDER_SECOND
| INPUT_ORDER_THIRD
| INPUT_ORDER_FOURTH
| INPUT_ORDER_FIFTH
| INPUT_ORDER_SIXTH
| INPUT_ORDER_SEVENTH.


Section Engine.
Context {F : Type} `{FloatOps F} `{Dims} `{Filterbank F}.
Local Open Scope float_scope.

(** The HRIR set and the tables derived from it ([hrirs], [hrir_dirs_deg],
    [itds_s], [hrtf_fb]), only touched by [ambi_bin_initCodec]. *)
Variable HRIR : Type.

Record codecPars : Type := {
  sofa_filepath : option nat;
  hrir_set : HRIR;
  N_hrir_dirs : Z;
  hrir_len : Z;
  hrir_fs : Z;
  M_dec : nat -> nat -> nat -> float_complex F
}.

Definition set_sofa_filepath (v : option nat) (p : codecPars) : codecPars :=
  Build_codecPars v (hrir_set p) (N_hrir_dirs p) (hrir_len p) (hrir_fs p)
    (M_dec p).

(** [ambi_bin_data]; [path_heap] holds the blocks [ambi_bin_setSofaFilePath]
    has allocated, which [sofa_filepath] points into. *)
Record ambi_bin_data : Type := Build_ambi_bin_data {
  hSTFT : stft;
  STFTInputFrameTF : nat -> nat -> complexVector F;
  STFTOutputFrameTF : nat -> nat -> complexVector F;
  tempHopFrameTD : nat -> nat -> F;
  SHFrameTD : nat -> nat -> F;
  SHframeTF : nat -> nat -> nat -> float_complex F;
  prev_SHframeTF : nat -> nat -> nat -> float_complex F;
  binframeTF : nat -> nat -> nat -> float_complex F;
  current_M : nat -> nat -> nat -> float_complex F;
  prev_M : nat -> nat -> nat -> float_complex F;
  interpolator : nat -> F;
  EQ : nat -> F;
  pars : codecPars;
  path_heap : list string;
  reInitCodec : Z;
  reInitTFT : Z;
  useDefaultHRIRsFLAG : Z;
  chOrdering : CH_ORDER;
  norm : NORM_TYPES;
  rE_WEIGHT : Z;
  enableEQ : Z;
  yaw : F;
  pitch : F;
  roll : F;
  bFlipYaw : Z;
  bFlipPitch : Z;
  bFlipRoll : Z;
  orderSelected : INPUT_ORDERS;
  order : Z;
  nSH : Z;
  new_nSH : Z;
  fs : Z;
  freqVector : nat -> F
}.

Definition set_hSTFT (v : stft) (s : ambi_bin_data) : ambi_bin_data :=
  Build_ambi_bin_data v (STFTInputFrameTF s) (STFTOutputFrameTF s)
    (tempHopFrameTD s) (SHFrameTD s) (SHframeTF s) (prev_SHframeTF s)
    (binframeTF s) (current_M s) (prev_M s) (interpolator s) (EQ s) (pars s)
    (path_heap s) (reInitCodec s) (reInitTFT s) (useDefaultHRIRsFLAG s)
    (chOrdering s) (norm s) (rE_WEIGHT s) (enableEQ s) (yaw s) (pitch s) (roll
    s) (bFlipYaw s) (bFlipPitch s) (bFlipRoll s) (orderSelected s) (order s)
    (nSH s) (new_nSH s) (fs s) (freqVector s).

Definition set_STFTInputFrameTF (v : nat -> nat -> complexVector F) (s : ambi_bin_data) : ambi_bin_data :=
  Build_ambi_bin_data (hSTFT s) v (STFTOutputFrameTF s) (tempHopFrameTD s)
    (SHFrameTD s) (SHframeTF s) (prev_SHframeTF s) (binframeTF s) (current_M
    s) (prev_M s) (interpolator s) (EQ s) (pars s) (path_heap s) (reInitCodec
    s) (reInitTFT s) (useDefaultHRIRsFLAG s) (chOrdering s) (norm s)
    (rE_WEIGHT s) (enableEQ s) (yaw s) (pitch s) (roll s) (bFlipYaw s)
    (bFlipPitch s) (bFlipRoll s) (orderSelected s) (order s) (nSH s) (new_nSH
    s) (fs s) (freqVector s).

Definition set_STFTOutputFrameTF (v : nat -> nat -> complexVector F) (s : ambi_bin_data) : ambi_bin_data :=
  Build_ambi_bin_data (hSTFT s) (STFTInputFrameTF s) v (tempHopFrameTD s)
    (SHFrameTD s) (SHframeTF s) (prev_SHframeTF s) (binframeTF s) (current_M
    s) (prev_M s) (interpolator s) (EQ s) (pars s) (path_heap s) (reInitCodec
    s) (reInitTFT s) (useDefaultHRIRsFLAG s) (chOrdering s) (norm s)
    (rE_WEIGHT s) (enableEQ s) (yaw s) (pitch s) (roll s) (bFlipYaw s)
    (bFlipPitch s) (bFlipRoll s) (orderSelected s) (order s) (nSH s) (new_nSH
    s) (fs s) (freqVector s).

Definition set_tempHopFrameTD (v : nat -> nat -> F) (s : ambi_bin_data) : ambi_bin_data :=
  Build_ambi_bin_data (hSTFT s) (STFTInputFrameTF s) (STFTOutputFrameTF s) v
    (SHFrameTD s) (SHframeTF s) (prev_SHframeTF s) (binframeTF s) (current_M
    s) (prev_M s) (interpolator s) (EQ s) (pars s) (path_heap s) (reInitCodec
    s) (reInitTFT s) (useDefaultHRIRsFLAG s) (chOrdering s) (norm s)
    (rE_WEIGHT s) (enableEQ s) (yaw s) (pitch s) (roll s) (bFlipYaw s)
    (bFlipPitch s) (bFlipRoll s) (orderSelected s) (order s) (nSH s) (new_nSH
    s) (fs s) (freqVector s).

Definition set_SHFrameTD (v : nat -> nat -> F) (s : ambi_bin_data) : ambi_bin_data :=
  Build_ambi_bin_data (hSTFT s) (STFTInputFrameTF s) (STFTOutputFrameTF s)
    (tempHopFrameTD s) v (SHframeTF s) (prev_SHframeTF s) (binframeTF s)
    (current_M s) (prev_M s) (interpolator s) (EQ s) (pars s) (path_heap s)
    (reInitCodec s) (reInitTFT s) (useDefaultHRIRsFLAG s) (chOrdering s) (norm
    s) (rE_WEIGHT s) (enableEQ s) (yaw s) (pitch s) (roll s) (bFlipYaw s)
    (bFlipPitch s) (bFlipRoll s) (orderSelected s) (order s) (nSH s) (new_nSH
    s) (fs s) (freqVector s).

Definition set_SHframeTF (v : nat -> nat -> nat -> float_complex F) (s : ambi_bin_data) : ambi_bin_data :=
  Build_ambi_bin_data (hSTFT s) (STFTInputFrameTF s) (STFTOutputFrameTF s)
    (tempHopFrameTD s) (SHFrameTD s) v (prev_SHframeTF s) (binframeTF s)
    (current_M s) (prev_M s) (interpolator s) (EQ s) (pars s) (path_heap s)
    (reInitCodec s) (reInitTFT s) (useDefaultHRIRsFLAG s) (chOrdering s) (norm
    s) (rE_WEIGHT s) (enableEQ s) (yaw s) (pitch s) (roll s) (bFlipYaw s)
    (bFlipPitch s) (bFlipRoll s) (orderSelected s) (order s) (nSH s) (new_nSH
    s) (fs s) (freqVector s).

Definition set_prev_SHframeTF (v : nat -> nat -> nat -> float_complex F) (s : ambi_bin_data) : ambi_bin_data :=
  Build_ambi_bin_data (hSTFT s) (STFTInputFrameTF s) (STFTOutputFrameTF s)
    (tempHopFrameTD s) (SHFrameTD s) (SHframeTF s) v (binframeTF s) (current_M
    s) (prev_M s) (interpolator s) (EQ s) (pars s) (path_heap s) (reInitCodec
    s) (reInitTFT s) (useDefaultHRIRsFLAG s) (chOrdering s) (norm s)
    (rE_WEIGHT s) (enableEQ s) (yaw s) (pitch s) (roll s) (bFlipYaw s)
    (bFlipPitch s) (bFlipRoll s) (orderSelected s) (order s) (nSH s) (new_nSH
    s) (fs s) (freqVector s).

Definition set_binframeTF (v : nat -> nat -> nat -> float_complex F) (s : ambi_bin_data) : ambi_bin_data :=
  Build_ambi_bin_data (hSTFT s) (STFTInputFrameTF s) (STFTOutputFrameTF s)
    (tempHopFrameTD s) (SHFrameTD s) (SHframeTF s) (prev_SHframeTF s) v
    (current_M s) (prev_M s) (interpolator s) (EQ s) (pars s) (path_heap s)
    (reInitCodec s) (reInitTFT s) (useDefaultHRIRsFLAG s) (chOrdering s) (norm
    s) (rE_WEIGHT s) (enableEQ s) (yaw s) (pitch s) (roll s) (bFlipYaw s)
    (bFlipPitch s) (bFlipRoll s) (orderSelected s) (order s) (nSH s) (new_nSH
    s) (fs s) (freqVector s).

Definition set_current_M (v : nat -> nat -> nat -> float_complex F) (s : ambi_bin_data) : ambi_bin_data :=
  Build_ambi_bin_data (hSTFT s) (STFTInputFrameTF s) (STFTOutputFrameTF s)
    (tempHopFrameTD s) (SHFrameTD s) (SHframeTF s) (prev_SHframeTF s)
    (binframeTF s) v (prev_M s) (interpolator s) (EQ s) (pars s) (path_heap s)
    (reInitCodec s) (reInitTFT s) (useDefaultHRIRsFLAG s) (chOrdering s) (norm
    s) (rE_WEIGHT s) (enableEQ s) (yaw s) (pitch s) (roll s) (bFlipYaw s)
    (bFlipPitch s) (bFlipRoll s) (orderSelected s) (order s) (nSH s) (new_nSH
    s) (fs s) (freqVector s).

Definition set_prev_M (v : nat -> nat -> nat -> float_complex F) (s : ambi_bin_data) : ambi_bin_data :=
  Build_ambi_bin_data (hSTFT s) (STFTInputFrameTF s) (STFTOutputFrameTF s)
    (tempHopFrameTD s) (SHFrameTD s) (SHframeTF s) (prev_SHframeTF s)
    (binframeTF s) (current_M s) v (interpolator s) (EQ s) (pars s) (path_heap
    s) (reInitCodec s) (reInitTFT s) (useDefaultHRIRsFLAG s) (chOrdering s)
    (norm s) (rE_WEIGHT s) (enableEQ s) (yaw s) (pitch s) (roll s) (bFlipYaw
    s) (bFlipPitch s) (bFlipRoll s) (orderSelected s) (order s) (nSH s)
    (new_nSH s) (fs s) (freqVector s).

Definition set_interpolator (v : nat -> F) (s : ambi_bin_data) : ambi_bin_data :=
  Build_ambi_bin_data (hSTFT s) (STFTInputFrameTF s) (STFTOutputFrameTF s)
    (tempHopFrameTD s) (SHFrameTD s) (SHframeTF s) (prev_SHframeTF s)
    (binframeTF s) (current_M s) (prev_M s) v (EQ s) (pars s) (path_heap s)
    (reInitCodec s) (reInitTFT s) (useDefaultHRIRsFLAG s) (chOrdering s) (norm
    s) (rE_WEIGHT s) (enableEQ s) (yaw s) (pitch s) (roll s) (bFlipYaw s)
    (bFlipPitch s) (bFlipRoll s) (orderSelected s) (order s) (nSH s) (new_nSH
    s) (fs s) (freqVector s).

Definition set_pars (v : codecPars) (s : ambi_bin_data) : ambi_bin_data :=
  Build_ambi_bin_data (hSTFT s) (STFTInputFrameTF s) (STFTOutputFrameTF s)
    (tempHopFrameTD s) (SHFrameTD s) (SHframeTF s) (prev_SHframeTF s)
    (binframeTF s) (current_M s) (prev_M s) (interpolator s) (EQ s) v
    (path_heap s) (reInitCodec s) (reInitTFT s) (useDefaultHRIRsFLAG s)
    (chOrdering s) (norm s) (rE_WEIGHT s) (enableEQ s) (yaw s) (pitch s) (roll
    s) (bFlipYaw s) (bFlipPitch s) (bFlipRoll s) (orderSelected s) (order s)
    (nSH s) (new_nSH s) (fs s) (freqVector s).

Definition set_path_heap (v : list string) (s : ambi_bin_data) : ambi_bin_data :=
  Build_ambi_bin_data (hSTFT s) (STFTInputFrameTF s) (STFTOutputFrameTF s)
    (tempHopFrameTD s) (SHFrameTD s) (SHframeTF s) (prev_SHframeTF s)
    (binframeTF s) (current_M s) (prev_M s) (interpolator s) (EQ s) (pars s) v
    (reInitCodec s) (reInitTFT s) (useDefaultHRIRsFLAG s) (chOrdering s) (norm
    s) (rE_WEIGHT s) (enableEQ s) (yaw s) (pitch s) (roll s) (bFlipYaw s)
    (bFlipPitch s) (bFlipRoll s) (orderSelected s) (order s) (nSH s) (new_nSH
    s) (fs s) (freqVector s).

Definition set_reInitCodec (v : Z) (s : ambi_bin_data) : ambi_bin_data :=
  Build_ambi_bin_data (hSTFT s) (STFTInputFrameTF s) (STFTOutputFrameTF s)
    (tempHopFrameTD s) (SHFrameTD s) (SHframeTF s) (prev_SHframeTF s)
    (binframeTF s) (current_M s) (prev_M s) (interpolator s) (EQ s) (pars s)
    (path_heap s) v (reInitTFT s) (useDefaultHRIRsFLAG s) (chOrdering s) (norm
    s) (rE_WEIGHT s) (enableEQ s) (yaw s) (pitch s) (roll s) (bFlipYaw s)
    (bFlipPitch s) (bFlipRoll s) (orderSelected s) (order s) (nSH s) (new_nSH
    s) (fs s) (freqVector s).

Definition set_reInitTFT (v : Z) (s : ambi_bin_data) : ambi_bin_data :=
  Build_ambi_bin_data (hSTFT s) (STFTInputFrameTF s) (STFTOutputFrameTF s)
    (tempHopFrameTD s) (SHFrameTD s) (SHframeTF s) (prev_SHframeTF s)
    (binframeTF s) (current_M s) (prev_M s) (interpolator s) (EQ s) (pars s)
    (path_heap s) (reInitCodec s) v (useDefaultHRIRsFLAG s) (chOrdering s)
    (norm s) (rE_WEIGHT s) (enableEQ s) (yaw s) (pitch s) (roll s) (bFlipYaw
    s) (bFlipPitch s) (bFlipRoll s) (orderSelected s) (order s) (nSH s)
    (new_nSH s) (fs s) (freqVector s).

Definition set_useDefaultHRIRsFLAG (v : Z) (s : ambi_bin_data) : ambi_bin_data :=
  Build_ambi_bin_data (hSTFT s) (STFTInputFrameTF s) (STFTOutputFrameTF s)
    (tempHopFrameTD s) (SHFrameTD s) (SHframeTF s) (prev_SHframeTF s)
    (binframeTF s) (current_M s) (prev_M s) (interpolator s) (EQ s) (pars s)
    (path_heap s) (reInitCodec s) (reInitTFT s) v (chOrdering s) (norm s)
    (rE_WEIGHT s) (enableEQ s) (yaw s) (pitch s) (roll s) (bFlipYaw s)
    (bFlipPitch s) (bFlipRoll s) (orderSelected s) (order s) (nSH s) (new_nSH
    s) (fs s) (freqVector s).

Definition set_chOrdering (v : CH_ORDER) (s : ambi_bin_data) : ambi_bin_data :=
  Build_ambi_bin_data (hSTFT s) (STFTInputFrameTF s) (STFTOutputFrameTF s)
    (tempHopFrameTD s) (SHFrameTD s) (SHframeTF s) (prev_SHframeTF s)
    (binframeTF s) (current_M s) (prev_M s) (interpolator s) (EQ s) (pars s)
    (path_heap s) (reInitCodec s) (reInitTFT s) (useDefaultHRIRsFLAG s) v
    (norm s) (rE_WEIGHT s) (enableEQ s) (yaw s) (pitch s) (roll s) (bFlipYaw
    s) (bFlipPitch s) (bFlipRoll s) (orderSelected s) (order s) (nSH s)
    (new_nSH s) (fs s) (freqVector s).

Definition set_norm (v : NORM_TYPES) (s : ambi_bin_data) : ambi_bin_data :=
  Build_ambi_bin_data (hSTFT s) (STFTInputFrameTF s) (STFTOutputFrameTF s)
    (tempHopFrameTD s) (SHFrameTD s) (SHframeTF s) (prev_SHframeTF s)
    (binframeTF s) (current_M s) (prev_M s) (interpolator s) (EQ s) (pars s)
    (path_heap s) (reInitCodec s) (reInitTFT s) (useDefaultHRIRsFLAG s)
    (chOrdering s) v (rE_WEIGHT s) (enableEQ s) (yaw s) (pitch s) (roll s)
    (bFlipYaw s) (bFlipPitch s) (bFlipRoll s) (orderSelected s) (order s) (nSH
    s) (new_nSH s) (fs s) (freqVector s).

Definition set_rE_WEIGHT (v : Z) (s : ambi_bin_data) : ambi_bin_data :=
  Build_ambi_bin_data (hSTFT s) (STFTInputFrameTF s) (STFTOutputFrameTF s)
    (tempHopFrameTD s) (SHFrameTD s) (SHframeTF s) (prev_SHframeTF s)
    (binframeTF s) (current_M s) (prev_M s) (interpolator s) (EQ s) (pars s)
    (path_heap s) (reInitCodec s) (reInitTFT s) (useDefaultHRIRsFLAG s)
    (chOrdering s) (norm s) v (enableEQ s) (yaw s) (pitch s) (roll s)
    (bFlipYaw s) (bFlipPitch s) (bFlipRoll s) (orderSelected s) (order s) (nSH
    s) (new_nSH s) (fs s) (freqVector s).

Definition set_enableEQ (v : Z) (s : ambi_bin_data) : ambi_bin_data :=
  Build_ambi_bin_data (hSTFT s) (STFTInputFrameTF s) (STFTOutputFrameTF s)
    (tempHopFrameTD s) (SHFrameTD s) (SHframeTF s) (prev_SHframeTF s)
    (binframeTF s) (current_M s) (prev_M s) (interpolator s) (EQ s) (pars s)
    (path_heap s) (reInitCodec s) (reInitTFT s) (useDefaultHRIRsFLAG s)
    (chOrdering s) (norm s) (rE_WEIGHT s) v (yaw s) (pitch s) (roll s)
    (bFlipYaw s) (bFlipPitch s) (bFlipRoll s) (orderSelected s) (order s) (nSH
    s) (new_nSH s) (fs s) (freqVector s).

Definition set_yaw (v : F) (s : ambi_bin_data) : ambi_bin_data :=
  Build_ambi_bin_data (hSTFT s) (STFTInputFrameTF s) (STFTOutputFrameTF s)
    (tempHopFrameTD s) (SHFrameTD s) (SHframeTF s) (prev_SHframeTF s)
    (binframeTF s) (current_M s) (prev_M s) (interpolator s) (EQ s) (pars s)
    (path_heap s) (reInitCodec s) (reInitTFT s) (useDefaultHRIRsFLAG s)
    (chOrdering s) (norm s) (rE_WEIGHT s) (enableEQ s) v (pitch s) (roll s)
    (bFlipYaw s) (bFlipPitch s) (bFlipRoll s) (orderSelected s) (order s) (nSH
    s) (new_nSH s) (fs s) (freqVector s).

Definition set_pitch (v : F) (s : ambi_bin_data) : ambi_bin_data :=
  Build_ambi_bin_data (hSTFT s) (STFTInputFrameTF s) (STFTOutputFrameTF s)
    (tempHopFrameTD s) (SHFrameTD s) (SHframeTF s) (prev_SHframeTF s)
    (binframeTF s) (current_M s) (prev_M s) (interpolator s) (EQ s) (pars s)
    (path_heap s) (reInitCodec s) (reInitTFT s) (useDefaultHRIRsFLAG s)
    (chOrdering s) (norm s) (rE_WEIGHT s) (enableEQ s) (yaw s) v (roll s)
    (bFlipYaw s) (bFlipPitch s) (bFlipRoll s) (orderSelected s) (order s) (nSH
    s) (new_nSH s) (fs s) (freqVector s).

Definition set_roll (v : F) (s : ambi_bin_data) : ambi_bin_data :=
  Build_ambi_bin_data (hSTFT s) (STFTInputFrameTF s) (STFTOutputFrameTF s)
    (tempHopFrameTD s) (SHFrameTD s) (SHframeTF s) (prev_SHframeTF s)
    (binframeTF s) (current_M s) (prev_M s) (interpolator s) (EQ s) (pars s)
    (path_heap s) (reInitCodec s) (reInitTFT s) (useDefaultHRIRsFLAG s)
    (chOrdering s) (norm s) (rE_WEIGHT s) (enableEQ s) (yaw s) (pitch s) v
    (bFlipYaw s) (bFlipPitch s) (bFlipRoll s) (orderSelected s) (order s) (nSH
    s) (new_nSH s) (fs s) (freqVector s).

Definition set_bFlipYaw (v : Z) (s : ambi_bin_data) : ambi_bin_data :=
  Build_ambi_bin_data (hSTFT s) (STFTInputFrameTF s) (STFTOutputFrameTF s)
    (tempHopFrameTD s) (SHFrameTD s) (SHframeTF s) (prev_SHframeTF s)
    (binframeTF s) (current_M s) (prev_M s) (interpolator s) (EQ s) (pars s)
    (path_heap s) (reInitCodec s) (reInitTFT s) (useDefaultHRIRsFLAG s)
    (chOrdering s) (norm s) (rE_WEIGHT s) (enableEQ s) (yaw s) (pitch s) (roll
    s) v (bFlipPitch s) (bFlipRoll s) (orderSelected s) (order s) (nSH s)
    (new_nSH s) (fs s) (freqVector s).

Definition set_bFlipPitch (v : Z) (s : ambi_bin_data) : ambi_bin_data :=
  Build_ambi_bin_data (hSTFT s) (STFTInputFrameTF s) (STFTOutputFrameTF s)
    (tempHopFrameTD s) (SHFrameTD s) (SHframeTF s) (prev_SHframeTF s)
    (binframeTF s) (current_M s) (prev_M s) (interpolator s) (EQ s) (pars s)
    (path_heap s) (reInitCodec s) (reInitTFT s) (useDefaultHRIRsFLAG s)
    (chOrdering s) (norm s) (rE_WEIGHT s) (enableEQ s) (yaw s) (pitch s) (roll
    s) (bFlipYaw s) v (bFlipRoll s) (orderSelected s) (order s) (nSH s)
    (new_nSH s) (fs s) (freqVector s).

Definition set_bFlipRoll (v : Z) (s : ambi_bin_data) : ambi_bin_data :=
  Build_ambi_bin_data (hSTFT s) (STFTInputFrameTF s) (STFTOutputFrameTF s)
    (tempHopFrameTD s) (SHFrameTD s) (SHframeTF s) (prev_SHframeTF s)
    (binframeTF s) (current_M s) (prev_M s) (interpolator s) (EQ s) (pars s)
    (path_heap s) (reInitCodec s) (reInitTFT s) (useDefaultHRIRsFLAG s)
    (chOrdering s) (norm s) (rE_WEIGHT s) (enableEQ s) (yaw s) (pitch s) (roll
    s) (bFlipYaw s) (bFlipPitch s) v (orderSelected s) (order s) (nSH s)
    (new_nSH s) (fs s) (freqVector s).

Definition set_orderSelected (v : INPUT_ORDERS) (s : ambi_bin_data) : ambi_bin_data :=
  Build_ambi_bin_data (hSTFT s) (STFTInputFrameTF s) (STFTOutputFrameTF s)
    (tempHopFrameTD s) (SHFrameTD s) (SHframeTF s) (prev_SHframeTF s)
    (binframeTF s) (current_M s) (prev_M s) (interpolator s) (EQ s) (pars s)
    (path_heap s) (reInitCodec s) (reInitTFT s) (useDefaultHRIRsFLAG s)
    (chOrdering s) (norm s) (rE_WEIGHT s) (enableEQ s) (yaw s) (pitch s) (roll
    s) (bFlipYaw s) (bFlipPitch s) (bFlipRoll s) v (order s) (nSH s) (new_nSH
    s) (fs s) (freqVector s).

Definition set_order (v : Z) (s : ambi_bin_data) : ambi_bin_data :=
  Build_ambi_bin_data (hSTFT s) (STFTInputFrameTF s) (STFTOutputFrameTF s)
    (tempHopFrameTD s) (SHFrameTD s) (SHframeTF s) (prev_SHframeTF s)
    (binframeTF s) (current_M s) (prev_M s) (interpolator s) (EQ s) (pars s)
    (path_heap s) (reInitCodec s) (reInitTFT s) (useDefaultHRIRsFLAG s)
    (chOrdering s) (norm s) (rE_WEIGHT s) (enableEQ s) (yaw s) (pitch s) (roll
    s) (bFlipYaw s) (bFlipPitch s) (bFlipRoll s) (orderSelected s) v (nSH s)
    (new_nSH s) (fs s) (freqVector s).

Definition set_new_nSH (v : Z) (s : ambi_bin_data) : ambi_bin_data :=
  Build_ambi_bin_data (hSTFT s) (STFTInputFrameTF s) (STFTOutputFrameTF s)
    (tempHopFrameTD s) (SHFrameTD s) (SHframeTF s) (prev_SHframeTF s)
    (binframeTF s) (current_M s) (prev_M s) (interpolator s) (EQ s) (pars s)
    (path_heap s) (reInitCodec s) (reInitTFT s) (useDefaultHRIRsFLAG s)
    (chOrdering s) (norm s) (rE_WEIGHT s) (enableEQ s) (yaw s) (pitch s) (roll
    s) (bFlipYaw s) (bFlipPitch s) (bFlipRoll s) (orderSelected s) (order s)
    (nSH s) v (fs s) (freqVector s).

Definition set_fs (v : Z) (s : ambi_bin_data) : ambi_bin_data :=
  Build_ambi_bin_data (hSTFT s) (STFTInputFrameTF s) (STFTOutputFrameTF s)
    (tempHopFrameTD s) (SHFrameTD s) (SHframeTF s) (prev_SHframeTF s)
    (binframeTF s) (current_M s) (prev_M s) (interpolator s) (EQ s) (pars s)
    (path_heap s) (reInitCodec s) (reInitTFT s) (useDefaultHRIRsFLAG s)
    (chOrdering s) (norm s) (rE_WEIGHT s) (enableEQ s) (yaw s) (pitch s) (roll
    s) (bFlipYaw s) (bFlipPitch s) (bFlipRoll s) (orderSelected s) (order s)
    (nSH s) (new_nSH s) v (freqVector s).

Definition set_freqVector (v : nat -> F) (s : ambi_bin_data) : ambi_bin_data :=
  Build_ambi_bin_data (hSTFT s) (STFTInputFrameTF s) (STFTOutputFrameTF s)
    (tempHopFrameTD s) (SHFrameTD s) (SHframeTF s) (prev_SHframeTF s)
    (binframeTF s) (current_M s) (prev_M s) (interpolator s) (EQ s) (pars s)
    (path_heap s) (reInitCodec s) (reInitTFT s) (useDefaultHRIRsFLAG s)
    (chOrdering s) (norm s) (rE_WEIGHT s) (enableEQ s) (yaw s) (pitch s) (roll
    s) (bFlipYaw s) (bFlipPitch s) (bFlipRoll s) (orderSelected s) (order s)
    (nSH s) (new_nSH s) (fs s) v.


(** The collaborators of [ambi_bin_internal.c], [saf_sh] and afSTFT, and the
    build switch of the fades. *)
Variable ambi_bin_initTFT : ambi_bin_data -> ambi_bin_data.
Variable ambi_bin_initCodec : ambi_bin_data -> ambi_bin_data.
Variable yawPitchRoll2Rzyx : F -> F -> F -> nat -> nat -> F.
Variable getSHrotMtxReal : (nat -> nat -> F) -> Z -> nat -> F.
Variable __afCenterFreq44100 __afCenterFreq48e3 : nat -> F.
Variable ENABLE_FADE_IN_OUT : bool.

(** [memset] of a whole three-dimensional array. *)
Definition memset3 {A : Type} (z : A) (a : nat -> nat -> nat -> A)
  (d1 d2 d3 : nat) : nat -> nat -> nat -> A :=
  fun i j k =>
    if (Nat.ltb i d1 && Nat.ltb j d2 && Nat.ltb k d3)%bool then z else a i j k.

(** *** ambi_bin_init *)

Definition init_freqVector (sampleRate : Z) (fv : nat -> F) : nat -> F :=
  for_loop HYBRID_BANDS
    (fun band a =>
       upd a band (if (sampleRate =? 44100)%Z
                   then __afCenterFreq44100 band
                   else __afCenterFreq48e3 band))
    fv.

Definition init_interpolator (ip : nat -> F) : nat -> F :=
  for_range 1 (TIME_SLOTS + 1)
    (fun i a =>
       upd a (i - 1) (Fof_int (Z.of_nat i) * Fone / Fof_int (Z.of_nat TIME_SLOTS)))
    ip.

Definition ambi_bin_init (s : ambi_bin_data) (sampleRate : Z) : ambi_bin_data :=
  let s := set_fs sampleRate s in
  let s := set_freqVector (init_freqVector sampleRate (freqVector s)) s in
  let s := set_interpolator (init_interpolator (interpolator s)) s in
  let s := set_current_M
             (memset3 czero (current_M s) HYBRID_BANDS NUM_EARS MAX_NUM_SH_SIGNALS) s in
  let s := set_prev_M
             (memset3 czero (prev_M s) HYBRID_BANDS NUM_EARS MAX_NUM_SH_SIGNALS) s in
  set_prev_SHframeTF
    (memset3 czero (prev_SHframeTF s) HYBRID_BANDS MAX_NUM_SH_SIGNALS TIME_SLOTS) s.

(** *** ambi_bin_process *)

(** "reinitialise if needed": the filterbank first, then the codec. *)
Definition reinit_TFT_if_needed (s : ambi_bin_data) : ambi_bin_data * list event :=
  if (reInitTFT s =? 1)%Z
  then (set_reInitTFT 0 (ambi_bin_initTFT (set_reInitTFT 2 s)),
        [EvFlag TFT 2; EvRebuild TFT; EvFlag TFT 0])
  else (s, []).

Definition reinit_codec_if_needed (s : ambi_bin_data) : ambi_bin_data * list event :=
  if (reInitCodec s =? 1)%Z
  then (set_reInitCodec 0 (ambi_bin_initCodec (set_reInitCodec 2 s)),
        [EvFlag Codec 2; EvRebuild Codec; EvFlag Codec 0])
  else (s, []).

Definition reinit_if_needed (s : ambi_bin_data) : ambi_bin_data * list event :=
  let '(s1, tr1) := reinit_TFT_if_needed s in
  let '(s2, tr2) := reinit_codec_if_needed s1 in
  (s2, List.app tr1 tr2).

(** The condition guarding the decoder. *)
Definition can_process (s : ambi_bin_data) (nSamples isPlaying : Z) : bool :=
  ((nSamples =? Z.of_nat FRAME_SIZE)%Z && nonzero isPlaying
   && (reInitCodec s =? 0)%Z && (reInitTFT s =? 0)%Z)%bool.

(** "Load time-domain data". *)
Definition load_SHFrameTD (inputs : nat -> nat -> F) (nInputs : Z)
  (td : nat -> nat -> F) : nat -> nat -> F :=
  let n := Z.to_nat (MINz (Z.of_nat MAX_NUM_SH_SIGNALS) nInputs) in
  let td := for_loop n (fun i a => upd a i (memcpy (a i) (inputs i) FRAME_SIZE)) td in
  for_range n MAX_NUM_SH_SIGNALS
    (fun i a => upd a i (memset Fzero (a i) FRAME_SIZE)) td.

Definition fade_in (td : nat -> nat -> F) : nat -> nat -> F :=
  for_loop MAX_NUM_SH_SIGNALS
    (fun ch a =>
       for_loop FRAME_SIZE
         (fun i a =>
            upd2 a ch i (a ch i * (Fof_int (Z.of_nat i) / Fof_int (Z.of_nat FRAME_SIZE))))
         a)
    td.

(** "account for input normalisation scheme"; [o[n] = n*n]. *)
Definition o_table : nat -> nat :=
  for_loop (MAX_SH_ORDER + 2) (fun n a => upd a n (n * n)%nat) (fun _ => 0%nat).

Definition convert_norm (nrm : NORM_TYPES) (ord : Z) (td : nat -> nat -> F)
  : nat -> nat -> F :=
  match nrm with
  | NORM_N3D => td
  | NORM_SN3D =>
      for_loop (Z.to_nat (ord + 1))
        (fun n a =>
           for_range (o_table n) (o_table (n + 1))
             (fun ch a =>
                for_loop FRAME_SIZE
                  (fun i a =>
                     upd2 a ch i
                       (a ch i * sqrtf (Fof_int 2 * Fof_int (Z.of_nat n) + Fone)))
                  a)
             a)
        td
  end.

(** "Apply time-frequency transform (TFT)". *)
Definition forward_TFT (nsh : nat) (td : nat -> nat -> F)
  (st : stft * (nat -> nat -> F) * (nat -> nat -> complexVector F))
  : stft * (nat -> nat -> F) * (nat -> nat -> complexVector F) :=
  for_loop TIME_SLOTS
    (fun t '(h, tmp, inTF) =>
       let tmp :=
         for_loop nsh
           (fun ch a =>
              for_loop HOP_SIZE
                (fun sample a => upd2 a ch sample (td ch (sample + t * HOP_SIZE)%nat))
                a)
           tmp in
       let '(h, out) := afSTFTforward h tmp (inTF t) in
       (h, tmp, upd inTF t out))
    st.

Definition fill_SHframeTF (nsh : nat) (inTF : nat -> nat -> complexVector F)
  (tf : nat -> nat -> nat -> float_complex F) : nat -> nat -> nat -> float_complex F :=
  for_loop HYBRID_BANDS
    (fun band a =>
       for_loop nsh
         (fun ch a =>
            for_loop TIME_SLOTS
              (fun t a =>
                 upd3 a band ch t
                   (cmplxf (re (inTF t ch) band) (im (inTF t ch) band)))
              a)
         a)
    tf.

(** "Specify rotation matrix"; [M_rot] is a local array, of which only the
    leading [nSH] by [nSH] block is written and read. *)
Definition rotation_matrix (s : ambi_bin_data) (ord : Z) (nsh : nat)
  : nat -> nat -> float_complex F :=
  let Rxyz := yawPitchRoll2Rzyx (yaw s) (pitch s) (roll s) in
  let M_rot_tmp := getSHrotMtxReal Rxyz ord in
  for_loop nsh
    (fun i a =>
       for_loop nsh
         (fun j a => upd2 a i j (cmplxf (M_rot_tmp (i * nsh + j)%nat) Fzero))
         a)
    (fun _ _ => czero).

(** "Define mixing matrix per band". *)
Definition block_nSH (s : ambi_bin_data) : nat :=
  Z.to_nat ((order s + 1) * (order s + 1)).

Definition define_current_M (ord : Z) (nsh : nat)
  (dec : nat -> nat -> nat -> float_complex F)
  (M_rot : nat -> nat -> float_complex F)
  (cur : nat -> nat -> nat -> float_complex F)
  : nat -> nat -> nat -> float_complex F :=
  for_loop HYBRID_BANDS
    (fun band a =>
       if (0 <? ord)%Z
       then upd a band (cblas_cgemm NUM_EARS nsh nsh (dec band) M_rot (a band))
       else for_loop NUM_EARS
              (fun i a => upd2 a band i (memcpy (a band i) (dec band i) nsh))
              a)
    cur.

Definition block_current_M (s : ambi_bin_data)
  : nat -> nat -> nat -> float_complex F :=
  let ord := order s in
  let nsh := block_nSH s in
  let M_rot := if (0 <? ord)%Z then rotation_matrix s ord nsh else (fun _ _ => czero) in
  define_current_M ord nsh (M_dec (pars s)) M_rot (current_M s).

(** "mix to headphones"; [temp_binframeTF] is a local array. *)
Definition mix_band (nsh : nat) (ip : nat -> F)
  (cur prv : nat -> nat -> float_complex F)
  (X : nat -> nat -> float_complex F)
  (st : (nat -> nat -> float_complex F) * (nat -> nat -> float_complex F))
  : (nat -> nat -> float_complex F) * (nat -> nat -> float_complex F) :=
  let '(temp, bin) := st in
  let temp := cblas_cgemm NUM_EARS TIME_SLOTS nsh prv X temp in
  let bin := cblas_cgemm NUM_EARS TIME_SLOTS nsh cur X bin in
  let bin :=
    for_loop NUM_EARS
      (fun i a =>
         for_loop TIME_SLOTS
           (fun j a =>
              upd2 a i j (ccaddf (crmulf (a i j) (ip j))
                                 (crmulf (temp i j) (Fone - ip j))))
           a)
      bin in
  (temp, bin).

Definition mix_to_headphones (nsh : nat) (ip : nat -> F)
  (cur prv X : nat -> nat -> nat -> float_complex F)
  (bin : nat -> nat -> nat -> float_complex F)
  : nat -> nat -> nat -> float_complex F :=
  snd (for_loop HYBRID_BANDS
         (fun band '(temp, a) =>
            let '(temp, b) := mix_band nsh ip (cur band) (prv band) (X band)
                                       (temp, a band) in
            (temp, upd a band b))
         (fun _ _ => czero, bin)).

(** "for next frame". *)
Definition store_prev_SHframeTF (nsh : nat)
  (tf prev : nat -> nat -> nat -> float_complex F)
  : nat -> nat -> nat -> float_complex F :=
  for_loop HYBRID_BANDS
    (fun band a =>
       for_loop nsh
         (fun i a => upd2 a band i (memcpy (a band i) (tf band i) TIME_SLOTS))
         a)
    prev.

Definition store_prev_M (nsh : nat)
  (cur prev : nat -> nat -> nat -> float_complex F)
  : nat -> nat -> nat -> float_complex F :=
  for_loop HYBRID_BANDS
    (fun band a =>
       for_loop NUM_EARS
         (fun i a => upd2 a band i (memcpy (a band i) (cur band i) nsh))
         a)
    prev.

(** "inverse-TFT". *)
Definition set_bin (v : complexVector F) (band : nat) (c : float_complex F)
  : complexVector F :=
  {| re := upd (re v) band (crealf c); im := upd (im v) band (cimagf c) |}.

Definition fill_STFTOutputFrameTF (bin : nat -> nat -> nat -> float_complex F)
  (outTF : nat -> nat -> complexVector F) : nat -> nat -> complexVector F :=
  for_loop HYBRID_BANDS
    (fun band a =>
       for_loop NUM_EARS
         (fun ch a =>
            for_loop TIME_SLOTS
              (fun t a => upd2 a t ch (set_bin (a t ch) band (bin band ch t)))
              a)
         a)
    outTF.

Definition inverse_TFT (nOutputs : Z) (outTF : nat -> nat -> complexVector F)
  (st : stft * (nat -> nat -> F) * (nat -> nat -> F))
  : stft * (nat -> nat -> F) * (nat -> nat -> F) :=
  for_loop TIME_SLOTS
    (fun t '(h, tmp, outputs) =>
       let '(h, tmp) := afSTFTinverse h (outTF t) tmp in
       let n := Z.to_nat (MINz (Z.of_nat NUM_EARS) nOutputs) in
       let outputs :=
         for_loop n
           (fun ch a =>
              for_loop HOP_SIZE
                (fun sample a => upd2 a ch (sample + t * HOP_SIZE)%nat (tmp ch sample))
                a)
           outputs in
       let outputs :=
         for_range n (Z.to_nat nOutputs)
           (fun ch a =>
              for_loop HOP_SIZE
                (fun sample a => upd2 a ch (sample + t * HOP_SIZE)%nat Fzero)
                a)
           outputs in
       (h, tmp, outputs))
    st.

Definition fade_out (nOutputs : Z) (outputs : nat -> nat -> F) : nat -> nat -> F :=
  for_loop (Z.to_nat nOutputs)
    (fun ch a =>
       for_loop FRAME_SIZE
         (fun i a =>
            upd2 a ch i
              (a ch i * (Fone - Fof_int (Z.of_nat (i + 1)) / Fof_int (Z.of_nat FRAME_SIZE))))
         a)
    outputs.

(** The [else] branch: [memset(outputs[ch], 0, FRAME_SIZE*sizeof(float))]. *)
Definition silence (nOutputs : Z) (outputs : nat -> nat -> F) : nat -> nat -> F :=
  for_loop (Z.to_nat nOutputs)
    (fun ch a => upd a ch (memset Fzero (a ch) FRAME_SIZE))
    outputs.

(** The three stages of the decoder, entered with the flags clean: load and
    analyse the frame, mix, synthesise.  [order] only takes the values 0..7
    ([ambi_bin_setInputOrderPreset]), so [(order+1)*(order+1)] stays far from
    the limits of [int]. *)
Definition analyse (applyFadeIn : bool) (s : ambi_bin_data)
  (inputs : nat -> nat -> F) (nInputs : Z) : ambi_bin_data :=
  let nrm := norm s in
  let ord := order s in
  let nsh := block_nSH s in
  let td := load_SHFrameTD inputs nInputs (SHFrameTD s) in
  let td := if (ENABLE_FADE_IN_OUT && applyFadeIn)%bool then fade_in td else td in
  let td := convert_norm nrm ord td in
  let s := set_SHFrameTD td s in
  let '(h, tmp, inTF) :=
    forward_TFT nsh td (hSTFT s, tempHopFrameTD s, STFTInputFrameTF s) in
  let s := set_STFTInputFrameTF inTF (set_tempHopFrameTD tmp (set_hSTFT h s)) in
  set_SHframeTF (fill_SHframeTF nsh inTF (SHframeTF s)) s.

Definition mix (s : ambi_bin_data) : ambi_bin_data :=
  let nsh := block_nSH s in
  let s := set_current_M (block_current_M s) s in
  let s := set_binframeTF
             (mix_to_headphones nsh (interpolator s) (current_M s) (prev_M s)
                (prev_SHframeTF s) (binframeTF s)) s in
  let s := set_prev_SHframeTF
             (store_prev_SHframeTF nsh (SHframeTF s) (prev_SHframeTF s)) s in
  set_prev_M (store_prev_M nsh (current_M s) (prev_M s)) s.

Definition synthesise (s : ambi_bin_data) (outputs : nat -> nat -> F) (nOutputs : Z)
  : ambi_bin_data * (nat -> nat -> F) :=
  let s := set_STFTOutputFrameTF
             (fill_STFTOutputFrameTF (binframeTF s) (STFTOutputFrameTF s)) s in
  let '(h, tmp, outputs) :=
    inverse_TFT nOutputs (STFTOutputFrameTF s) (hSTFT s, tempHopFrameTD s, outputs) in
  let s := set_tempHopFrameTD tmp (set_hSTFT h s) in
  let outputs :=
    if (ENABLE_FADE_IN_OUT && (nonzero (reInitTFT s) || nonzero (reInitCodec s)))%bool
    then fade_out nOutputs outputs else outputs in
  (s, outputs).

Definition decode (applyFadeIn : bool) (s : ambi_bin_data)
  (inputs outputs : nat -> nat -> F) (nInputs nOutputs : Z)
  : ambi_bin_data * (nat -> nat -> F) :=
  synthesise (mix (analyse applyFadeIn s inputs nInputs)) outputs nOutputs.

Definition ambi_bin_process (s : ambi_bin_data)
  (inputs outputs : nat -> nat -> F) (nInputs nOutputs nSamples isPlaying : Z)
  : ambi_bin_data * (nat -> nat -> F) * list event :=
  let applyFadeIn := (nonzero (reInitTFT s) || nonzero (reInitCodec s))%bool in
  let '(s, tr) := reinit_if_needed s in
  if can_process s nSamples isPlaying
  then let '(s, outputs) := decode applyFadeIn s inputs outputs nInputs nOutputs in
       (s, outputs, List.app tr [EvProcess])
  else (s, silence nOutputs outputs, List.app tr [EvSilence]).

(** *** Set functions *)

Definition ambi_bin_refreshSettings (s : ambi_bin_data) : ambi_bin_data :=
  set_reInitTFT 1 (set_reInitCodec 1 s).


Definition ambi_bin_setSofaFilePath (s : ambi_bin_data) (path : string)
  : ambi_bin_data :=
  let '(hp, p) := strdup_fresh (path_heap s) path in
  let s := set_path_heap hp s in
  let s := set_pars (set_sofa_filepath (Some p) (pars s)) s in
  let s := set_useDefaultHRIRsFLAG 0 s in
  set_reInitCodec 1 s.

Definition order_of_preset (p : INPUT_ORDERS) : Z :=
  match p with
  | INPUT_OMNI => 0
  | INPUT_ORDER_FIRST => 1
  | INPUT_ORDER_SECOND => 2
  | INPUT_ORDER_THIRD => 3
  | INPUT_ORDER_FOURTH => 4
  | INPUT_ORDER_FIFTH => 5
  | INPUT_ORDER_SIXTH => 6
  | INPUT_ORDER_SEVENTH => 7
  end.


Definition ambi_bin_setChOrder (s : ambi_bin_data) (newOrder : CH_ORDER)
  : ambi_bin_data := set_chOrdering newOrder s.

Definition ambi_bin_setNormType (s : ambi_bin_data) (newType : NORM_TYPES)
  : ambi_bin_data := set_norm newType s.

Definition ambi_bin_setDecEnableMaxrE (s : ambi_bin_data) (newState : Z)
  : ambi_bin_data := set_rE_WEIGHT newState s.

Definition ambi_bin_setEnableEQ (s : ambi_bin_data) (newState : Z)
  : ambi_bin_data := set_enableEQ newState s.

Definition ambi_bin_setYaw (s : ambi_bin_data) (newYaw : F) : ambi_bin_data :=
  set_yaw (if (bFlipYaw s =? 1)%Z then - DEG2RAD newYaw else DEG2RAD newYaw) s.

Definition ambi_bin_setPitch (s : ambi_bin_data) (newPitch : F) : ambi_bin_data :=
  set_pitch (if (bFlipPitch s =? 1)%Z then - DEG2RAD newPitch else DEG2RAD newPitch) s.

Definition ambi_bin_setRoll (s : ambi_bin_data) (newRoll : F) : ambi_bin_data :=
  set_roll (if (bFlipRoll s =? 1)%Z then - DEG2RAD newRoll else DEG2RAD newRoll) s.

(** *** Get functions *)

Definition ambi_bin_getUseDefaultHRIRsflag (s : ambi_bin_data) : Z :=
  useDefaultHRIRsFLAG s.

Definition ambi_bin_getInputOrderPreset (s : ambi_bin_data) : INPUT_ORDERS :=
  orderSelected s.


Definition ambi_bin_getYaw (s : ambi_bin_data) : F :=
  if (bFlipYaw s =? 1)%Z then - RAD2DEG (yaw s) else RAD2DEG (yaw s).

Definition ambi_bin_getPitch (s : ambi_bin_data) : F :=
  if (bFlipPitch s =? 1)%Z then - RAD2DEG (pitch s) else RAD2DEG (pitch s).

Definition ambi_bin_getRoll (s : ambi_bin_data) : F :=
  if (bFlipRoll s =? 1)%Z then - RAD2DEG (roll s) else RAD2DEG (roll s).

Definition ambi_bin_getFlipYaw (s : ambi_bin_data) : Z := bFlipYaw s.
Definition ambi_bin_getFlipPitch (s : ambi_bin_data) : Z := bFlipPitch s.
Definition ambi_bin_getFlipRoll (s : ambi_bin_data) : Z := bFlipRoll s.

(** The flip setters come after the getters they call. *)
Definition ambi_bin_setFlipYaw (s : ambi_bin_data) (newState : Z) : ambi_bin_data :=
  if negb (newState =? bFlipYaw s)%Z
  then let s := set_bFlipYaw newState s in
       ambi_bin_setYaw s (- ambi_bin_getYaw s)
  else s.

Definition ambi_bin_setFlipPitch (s : ambi_bin_data) (newState : Z) : ambi_bin_data :=
  if negb (newState =? bFlipPitch s)%Z
  then let s := set_bFlipPitch newState s in
       ambi_bin_setPitch s (- ambi_bin_getPitch s)
  else s.

Definition ambi_bin_setFlipRoll (s : ambi_bin_data) (newState : Z) : ambi_bin_data :=
  if negb (newState =? bFlipRoll s)%Z
  then let s := set_bFlipRoll newState s in
       ambi_bin_setRoll s (- ambi_bin_getRoll s)
  else s.

End Engine.
End AmbiBin.

(** * binauraliser *)

Module Binauraliser.

Section Engine.
Context {F : Type} `{FloatOps F} `{Dims} `{Filterbank F}.
Local Open Scope float_scope.

(** The HRIR set with its VBAP tables ([hrirs], [hrir_dirs_deg], [itds_s],
    [hrtf_vbap_gtableIdx], ...), and the HRTF filterbank coefficients
    [hrtf_fb] points to; both are only touched by
    [binauraliser_initHRTFsAndGainTables]. *)
Variable HRIR : Type.
Variable HRTF : Type.

(** [binauraliser_data]; [path_heap] holds the blocks
    [binauraliser_setSofaFilePath] has allocated, which [sofa_filepath]
    points into; [hrtf_fb = None] is the NULL pointer. *)
Record binauraliser_data : Type := Build_binauraliser_data {
  hSTFT : stft;
  STFTInputFrameTF : nat -> complexVector F;
  STFTOutputFrameTF : nat -> complexVector F;
  tempHopFrameTD : nat -> nat -> F;
  inputFrameTD : nat -> nat -> F;
  inputframeTF : nat -> nat -> nat -> float_complex F;
  outputframeTF : nat -> nat -> nat -> float_complex F;
  hrir_data : HRIR;
  sofa_filepath : option nat;
  path_heap : list string;
  hrtf_fb : option HRTF;
  hrtf_interp : nat -> nat -> nat -> float_complex F;
  src_dirs_deg : nat -> nat -> F;
  src_dirs_xyz : nat -> nat -> F;
  src_dirs_rot_xyz : nat -> nat -> F;
  src_dirs_rot_deg : nat -> nat -> F;
  recalc_hrtf_interpFLAG : nat -> Z;
  recalc_M_rotFLAG : Z;
  reInitHRTFsAndGainTables : Z;
  reInitTFT : Z;
  useDefaultHRIRsFLAG : Z;
  nSources : Z;
  new_nSources : Z;
  input_nDims : Z;
  interpMode : Z;
  yaw : F;
  pitch : F;
  roll : F;
  bFlipYaw : Z;
  bFlipPitch : Z;
  bFlipRoll : Z;
  useRollPitchYawFlag : Z;
  enableRotation : Z;
  fs : Z;
  freqVector : nat -> F
}.

Definition set_hSTFT (v : stft) (s : binauraliser_data) : binauraliser_data :=
  Build_binauraliser_data v (STFTInputFrameTF s) (STFTOutputFrameTF s)
    (tempHopFrameTD s) (inputFrameTD s) (inputframeTF s) (outputframeTF s)
    (hrir_data s) (sofa_filepath s) (path_heap s) (hrtf_fb s) (hrtf_interp s)
    (src_dirs_deg s) (src_dirs_xyz s) (src_dirs_rot_xyz s) (src_dirs_rot_deg
    s) (recalc_hrtf_interpFLAG s) (recalc_M_rotFLAG s)
    (reInitHRTFsAndGainTables s) (reInitTFT s) (useDefaultHRIRsFLAG s)
    (nSources s) (new_nSources s) (input_nDims s) (interpMode s) (yaw s)
    (pitch s) (roll s) (bFlipYaw s) (bFlipPitch s) (bFlipRoll s)
    (useRollPitchYawFlag s) (enableRotation s) (fs s) (freqVector s).

Definition set_STFTInputFrameTF (v : nat -> complexVector F) (s : binauraliser_data) : binauraliser_data :=
  Build_binauraliser_data (hSTFT s) v (STFTOutputFrameTF s) (tempHopFrameTD s)
    (inputFrameTD s) (inputframeTF s) (outputframeTF s) (hrir_data s)
    (sofa_filepath s) (path_heap s) (hrtf_fb s) (hrtf_interp s) (src_dirs_deg
    s) (src_dirs_xyz s) (src_dirs_rot_xyz s) (src_dirs_rot_deg s)
    (recalc_hrtf_interpFLAG s) (recalc_M_rotFLAG s) (reInitHRTFsAndGainTables
    s) (reInitTFT s) (useDefaultHRIRsFLAG s) (nSources s) (new_nSources s)
    (input_nDims s) (interpMode s) (yaw s) (pitch s) (roll s) (bFlipYaw s)
    (bFlipPitch s) (bFlipRoll s) (useRollPitchYawFlag s) (enableRotation s)
    (fs s) (freqVector s).

Definition set_STFTOutputFrameTF (v : nat -> complexVector F) (s : binauraliser_data) : binauraliser_data :=
  Build_binauraliser_data (hSTFT s) (STFTInputFrameTF s) v (tempHopFrameTD s)
    (inputFrameTD s) (inputframeTF s) (outputframeTF s) (hrir_data s)
    (sofa_filepath s) (path_heap s) (hrtf_fb s) (hrtf_interp s) (src_dirs_deg
    s) (src_dirs_xyz s) (src_dirs_rot_xyz s) (src_dirs_rot_deg s)
    (recalc_hrtf_interpFLAG s) (recalc_M_rotFLAG s) (reInitHRTFsAndGainTables
    s) (reInitTFT s) (useDefaultHRIRsFLAG s) (nSources s) (new_nSources s)
    (input_nDims s) (interpMode s) (yaw s) (pitch s) (roll s) (bFlipYaw s)
    (bFlipPitch s) (bFlipRoll s) (useRollPitchYawFlag s) (enableRotation s)
    (fs s) (freqVector s).

Definition set_tempHopFrameTD (v : nat -> nat -> F) (s : binauraliser_data) : binauraliser_data :=
  Build_binauraliser_data (hSTFT s) (STFTInputFrameTF s) (STFTOutputFrameTF s)
    v (inputFrameTD s) (inputframeTF s) (outputframeTF s) (hrir_data s)
    (sofa_filepath s) (path_heap s) (hrtf_fb s) (hrtf_interp s) (src_dirs_deg
    s) (src_dirs_xyz s) (src_dirs_rot_xyz s) (src_dirs_rot_deg s)
    (recalc_hrtf_interpFLAG s) (recalc_M_rotFLAG s) (reInitHRTFsAndGainTables
    s) (reInitTFT s) (useDefaultHRIRsFLAG s) (nSources s) (new_nSources s)
    (input_nDims s) (interpMode s) (yaw s) (pitch s) (roll s) (bFlipYaw s)
    (bFlipPitch s) (bFlipRoll s) (useRollPitchYawFlag s) (enableRotation s)
    (fs s) (freqVector s).

Definition set_inputFrameTD (v : nat -> nat -> F) (s : binauraliser_data) : binauraliser_data :=
  Build_binauraliser_data (hSTFT s) (STFTInputFrameTF s) (STFTOutputFrameTF s)
    (tempHopFrameTD s) v (inputframeTF s) (outputframeTF s) (hrir_data s)
    (sofa_filepath s) (path_heap s) (hrtf_fb s) (hrtf_interp s) (src_dirs_deg
    s) (src_dirs_xyz s) (src_dirs_rot_xyz s) (src_dirs_rot_deg s)
    (recalc_hrtf_interpFLAG s) (recalc_M_rotFLAG s) (reInitHRTFsAndGainTables
    s) (reInitTFT s) (useDefaultHRIRsFLAG s) (nSources s) (new_nSources s)
    (input_nDims s) (interpMode s) (yaw s) (pitch s) (roll s) (bFlipYaw s)
    (bFlipPitch s) (bFlipRoll s) (useRollPitchYawFlag s) (enableRotation s)
    (fs s) (freqVector s).

Definition set_inputframeTF (v : nat -> nat -> nat -> float_complex F) (s : binauraliser_data) : binauraliser_data :=
  Build_binauraliser_data (hSTFT s) (STFTInputFrameTF s) (STFTOutputFrameTF s)
    (tempHopFrameTD s) (inputFrameTD s) v (outputframeTF s) (hrir_data s)
    (sofa_filepath s) (path_heap s) (hrtf_fb s) (hrtf_interp s) (src_dirs_deg
    s) (src_dirs_xyz s) (src_dirs_rot_xyz s) (src_dirs_rot_deg s)
    (recalc_hrtf_interpFLAG s) (recalc_M_rotFLAG s) (reInitHRTFsAndGainTables
    s) (reInitTFT s) (useDefaultHRIRsFLAG s) (nSources s) (new_nSources s)
    (input_nDims s) (interpMode s) (yaw s) (pitch s) (roll s) (bFlipYaw s)
    (bFlipPitch s) (bFlipRoll s) (useRollPitchYawFlag s) (enableRotation s)
    (fs s) (freqVector s).

Definition set_outputframeTF (v : nat -> nat -> nat -> float_complex F) (s : binauraliser_data) : binauraliser_data :=
  Build_binauraliser_data (hSTFT s) (STFTInputFrameTF s) (STFTOutputFrameTF s)
    (tempHopFrameTD s) (inputFrameTD s) (inputframeTF s) v (hrir_data s)
    (sofa_filepath s) (path_heap s) (hrtf_fb s) (hrtf_interp s) (src_dirs_deg
    s) (src_dirs_xyz s) (src_dirs_rot_xyz s) (src_dirs_rot_deg s)
    (recalc_hrtf_interpFLAG s) (recalc_M_rotFLAG s) (reInitHRTFsAndGainTables
    s) (reInitTFT s) (useDefaultHRIRsFLAG s) (nSources s) (new_nSources s)
    (input_nDims s) (interpMode s) (yaw s) (pitch s) (roll s) (bFlipYaw s)
    (bFlipPitch s) (bFlipRoll s) (useRollPitchYawFlag s) (enableRotation s)
    (fs s) (freqVector s).

Definition set_sofa_filepath (v : option nat) (s : binauraliser_data) : binauraliser_data :=
  Build_binauraliser_data (hSTFT s) (STFTInputFrameTF s) (STFTOutputFrameTF s)
    (tempHopFrameTD s) (inputFrameTD s) (inputframeTF s) (outputframeTF s)
    (hrir_data s) v (path_heap s) (hrtf_fb s) (hrtf_interp s) (src_dirs_deg s)
    (src_dirs_xyz s) (src_dirs_rot_xyz s) (src_dirs_rot_deg s)
    (recalc_hrtf_interpFLAG s) (recalc_M_rotFLAG s) (reInitHRTFsAndGainTables
    s) (reInitTFT s) (useDefaultHRIRsFLAG s) (nSources s) (new_nSources s)
    (input_nDims s) (interpMode s) (yaw s) (pitch s) (roll s) (bFlipYaw s)
    (bFlipPitch s) (bFlipRoll s) (useRollPitchYawFlag s) (enableRotation s)
    (fs s) (freqVector s).

Definition set_path_heap (v : list string) (s : binauraliser_data) : binauraliser_data :=
  Build_binauraliser_data (hSTFT s) (STFTInputFrameTF s) (STFTOutputFrameTF s)
    (tempHopFrameTD s) (inputFrameTD s) (inputframeTF s) (outputframeTF s)
    (hrir_data s) (sofa_filepath s) v (hrtf_fb s) (hrtf_interp s)
    (src_dirs_deg s) (src_dirs_xyz s) (src_dirs_rot_xyz s) (src_dirs_rot_deg
    s) (recalc_hrtf_interpFLAG s) (recalc_M_rotFLAG s)
    (reInitHRTFsAndGainTables s) (reInitTFT s) (useDefaultHRIRsFLAG s)
    (nSources s) (new_nSources s) (input_nDims s) (interpMode s) (yaw s)
    (pitch s) (roll s) (bFlipYaw s) (bFlipPitch s) (bFlipRoll s)
    (useRollPitchYawFlag s) (enableRotation s) (fs s) (freqVector s).

Definition set_hrtf_interp (v : nat -> nat -> nat -> float_complex F) (s : binauraliser_data) : binauraliser_data :=
  Build_binauraliser_data (hSTFT s) (STFTInputFrameTF s) (STFTOutputFrameTF s)
    (tempHopFrameTD s) (inputFrameTD s) (inputframeTF s) (outputframeTF s)
    (hrir_data s) (sofa_filepath s) (path_heap s) (hrtf_fb s) v (src_dirs_deg
    s) (src_dirs_xyz s) (src_dirs_rot_xyz s) (src_dirs_rot_deg s)
    (recalc_hrtf_interpFLAG s) (recalc_M_rotFLAG s) (reInitHRTFsAndGainTables
    s) (reInitTFT s) (useDefaultHRIRsFLAG s) (nSources s) (new_nSources s)
    (input_nDims s) (interpMode s) (yaw s) (pitch s) (roll s) (bFlipYaw s)
    (bFlipPitch s) (bFlipRoll s) (useRollPitchYawFlag s) (enableRotation s)
    (fs s) (freqVector s).

Definition set_src_dirs_deg (v : nat -> nat -> F) (s : binauraliser_data) : binauraliser_data :=
  Build_binauraliser_data (hSTFT s) (STFTInputFrameTF s) (STFTOutputFrameTF s)
    (tempHopFrameTD s) (inputFrameTD s) (inputframeTF s) (outputframeTF s)
    (hrir_data s) (sofa_filepath s) (path_heap s) (hrtf_fb s) (hrtf_interp s)
    v (src_dirs_xyz s) (src_dirs_rot_xyz s) (src_dirs_rot_deg s)
    (recalc_hrtf_interpFLAG s) (recalc_M_rotFLAG s) (reInitHRTFsAndGainTables
    s) (reInitTFT s) (useDefaultHRIRsFLAG s) (nSources s) (new_nSources s)
    (input_nDims s) (interpMode s) (yaw s) (pitch s) (roll s) (bFlipYaw s)
    (bFlipPitch s) (bFlipRoll s) (useRollPitchYawFlag s) (enableRotation s)
    (fs s) (freqVector s).

Definition set_src_dirs_xyz (v : nat -> nat -> F) (s : binauraliser_data) : binauraliser_data :=
  Build_binauraliser_data (hSTFT s) (STFTInputFrameTF s) (STFTOutputFrameTF s)
    (tempHopFrameTD s) (inputFrameTD s) (inputframeTF s) (outputframeTF s)
    (hrir_data s) (sofa_filepath s) (path_heap s) (hrtf_fb s) (hrtf_interp s)
    (src_dirs_deg s) v (src_dirs_rot_xyz s) (src_dirs_rot_deg s)
    (recalc_hrtf_interpFLAG s) (recalc_M_rotFLAG s) (reInitHRTFsAndGainTables
    s) (reInitTFT s) (useDefaultHRIRsFLAG s) (nSources s) (new_nSources s)
    (input_nDims s) (interpMode s) (yaw s) (pitch s) (roll s) (bFlipYaw s)
    (bFlipPitch s) (bFlipRoll s) (useRollPitchYawFlag s) (enableRotation s)
    (fs s) (freqVector s).

Definition set_src_dirs_rot_xyz (v : nat -> nat -> F) (s : binauraliser_data) : binauraliser_data :=
  Build_binauraliser_data (hSTFT s) (STFTInputFrameTF s) (STFTOutputFrameTF s)
    (tempHopFrameTD s) (inputFrameTD s) (inputframeTF s) (outputframeTF s)
    (hrir_data s) (sofa_filepath s) (path_heap s) (hrtf_fb s) (hrtf_interp s)
    (src_dirs_deg s) (src_dirs_xyz s) v (src_dirs_rot_deg s)
    (recalc_hrtf_interpFLAG s) (recalc_M_rotFLAG s) (reInitHRTFsAndGainTables
    s) (reInitTFT s) (useDefaultHRIRsFLAG s) (nSources s) (new_nSources s)
    (input_nDims s) (interpMode s) (yaw s) (pitch s) (roll s) (bFlipYaw s)
    (bFlipPitch s) (bFlipRoll s) (useRollPitchYawFlag s) (enableRotation s)
    (fs s) (freqVector s).

Definition set_src_dirs_rot_deg (v : nat -> nat -> F) (s : binauraliser_data) : binauraliser_data :=
  Build_binauraliser_data (hSTFT s) (STFTInputFrameTF s) (STFTOutputFrameTF s)
    (tempHopFrameTD s) (inputFrameTD s) (inputframeTF s) (outputframeTF s)
    (hrir_data s) (sofa_filepath s) (path_heap s) (hrtf_fb s) (hrtf_interp s)
    (src_dirs_deg s) (src_dirs_xyz s) (src_dirs_rot_xyz s) v
    (recalc_hrtf_interpFLAG s) (recalc_M_rotFLAG s) (reInitHRTFsAndGainTables
    s) (reInitTFT s) (useDefaultHRIRsFLAG s) (nSources s) (new_nSources s)
    (input_nDims s) (interpMode s) (yaw s) (pitch s) (roll s) (bFlipYaw s)
    (bFlipPitch s) (bFlipRoll s) (useRollPitchYawFlag s) (enableRotation s)
    (fs s) (freqVector s).

Definition set_recalc_hrtf_interpFLAG (v : nat -> Z) (s : binauraliser_data) : binauraliser_data :=
  Build_binauraliser_data (hSTFT s) (STFTInputFrameTF s) (STFTOutputFrameTF s)
    (tempHopFrameTD s) (inputFrameTD s) (inputframeTF s) (outputframeTF s)
    (hrir_data s) (sofa_filepath s) (path_heap s) (hrtf_fb s) (hrtf_interp s)
    (src_dirs_deg s) (src_dirs_xyz s) (src_dirs_rot_xyz s) (src_dirs_rot_deg
    s) v (recalc_M_rotFLAG s) (reInitHRTFsAndGainTables s) (reInitTFT s)
    (useDefaultHRIRsFLAG s) (nSources s) (new_nSources s) (input_nDims s)
    (interpMode s) (yaw s) (pitch s) (roll s) (bFlipYaw s) (bFlipPitch s)
    (bFlipRoll s) (useRollPitchYawFlag s) (enableRotation s) (fs s)
    (freqVector s).

Definition set_recalc_M_rotFLAG (v : Z) (s : binauraliser_data) : binauraliser_data :=
  Build_binauraliser_data (hSTFT s) (STFTInputFrameTF s) (STFTOutputFrameTF s)
    (tempHopFrameTD s) (inputFrameTD s) (inputframeTF s) (outputframeTF s)
    (hrir_data s) (sofa_filepath s) (path_heap s) (hrtf_fb s) (hrtf_interp s)
    (src_dirs_deg s) (src_dirs_xyz s) (src_dirs_rot_xyz s) (src_dirs_rot_deg
    s) (recalc_hrtf_interpFLAG s) v (reInitHRTFsAndGainTables s) (reInitTFT s)
    (useDefaultHRIRsFLAG s) (nSources s) (new_nSources s) (input_nDims s)
    (interpMode s) (yaw s) (pitch s) (roll s) (bFlipYaw s) (bFlipPitch s)
    (bFlipRoll s) (useRollPitchYawFlag s) (enableRotation s) (fs s)
    (freqVector s).

Definition set_reInitHRTFsAndGainTables (v : Z) (s : binauraliser_data) : binauraliser_data :=
  Build_binauraliser_data (hSTFT s) (STFTInputFrameTF s) (STFTOutputFrameTF s)
    (tempHopFrameTD s) (inputFrameTD s) (inputframeTF s) (outputframeTF s)
    (hrir_data s) (sofa_filepath s) (path_heap s) (hrtf_fb s) (hrtf_interp s)
    (src_dirs_deg s) (src_dirs_xyz s) (src_dirs_rot_xyz s) (src_dirs_rot_deg
    s) (recalc_hrtf_interpFLAG s) (recalc_M_rotFLAG s) v (reInitTFT s)
    (useDefaultHRIRsFLAG s) (nSources s) (new_nSources s) (input_nDims s)
    (interpMode s) (yaw s) (pitch s) (roll s) (bFlipYaw s) (bFlipPitch s)
    (bFlipRoll s) (useRollPitchYawFlag s) (enableRotation s) (fs s)
    (freqVector s).

Definition set_reInitTFT (v : Z) (s : binauraliser_data) : binauraliser_data :=
  Build_binauraliser_data (hSTFT s) (STFTInputFrameTF s) (STFTOutputFrameTF s)
    (tempHopFrameTD s) (inputFrameTD s) (inputframeTF s) (outputframeTF s)
    (hrir_data s) (sofa_filepath s) (path_heap s) (hrtf_fb s) (hrtf_interp s)
    (src_dirs_deg s) (src_dirs_xyz s) (src_dirs_rot_xyz s) (src_dirs_rot_deg
    s) (recalc_hrtf_interpFLAG s) (recalc_M_rotFLAG s)
    (reInitHRTFsAndGainTables s) v (useDefaultHRIRsFLAG s) (nSources s)
    (new_nSources s) (input_nDims s) (interpMode s) (yaw s) (pitch s) (roll s)
    (bFlipYaw s) (bFlipPitch s) (bFlipRoll s) (useRollPitchYawFlag s)
    (enableRotation s) (fs s) (freqVector s).

Definition set_useDefaultHRIRsFLAG (v : Z) (s : binauraliser_data) : binauraliser_data :=
  Build_binauraliser_data (hSTFT s) (STFTInputFrameTF s) (STFTOutputFrameTF s)
    (tempHopFrameTD s) (inputFrameTD s) (inputframeTF s) (outputframeTF s)
    (hrir_data s) (sofa_filepath s) (path_heap s) (hrtf_fb s) (hrtf_interp s)
    (src_dirs_deg s) (src_dirs_xyz s) (src_dirs_rot_xyz s) (src_dirs_rot_deg
    s) (recalc_hrtf_interpFLAG s) (recalc_M_rotFLAG s)
    (reInitHRTFsAndGainTables s) (reInitTFT s) v (nSources s) (new_nSources s)
    (input_nDims s) (interpMode s) (yaw s) (pitch s) (roll s) (bFlipYaw s)
    (bFlipPitch s) (bFlipRoll s) (useRollPitchYawFlag s) (enableRotation s)
    (fs s) (freqVector s).

Definition set_new_nSources (v : Z) (s : binauraliser_data) : binauraliser_data :=
  Build_binauraliser_data (hSTFT s) (STFTInputFrameTF s) (STFTOutputFrameTF s)
    (tempHopFrameTD s) (inputFrameTD s) (inputframeTF s) (outputframeTF s)
    (hrir_data s) (sofa_filepath s) (path_heap s) (hrtf_fb s) (hrtf_interp s)
    (src_dirs_deg s) (src_dirs_xyz s) (src_dirs_rot_xyz s) (src_dirs_rot_deg
    s) (recalc_hrtf_interpFLAG s) (recalc_M_rotFLAG s)
    (reInitHRTFsAndGainTables s) (reInitTFT s) (useDefaultHRIRsFLAG s)
    (nSources s) v (input_nDims s) (interpMode s) (yaw s) (pitch s) (roll s)
    (bFlipYaw s) (bFlipPitch s) (bFlipRoll s) (useRollPitchYawFlag s)
    (enableRotation s) (fs s) (freqVector s).

Definition set_input_nDims (v : Z) (s : binauraliser_data) : binauraliser_data :=
  Build_binauraliser_data (hSTFT s) (STFTInputFrameTF s) (STFTOutputFrameTF s)
    (tempHopFrameTD s) (inputFrameTD s) (inputframeTF s) (outputframeTF s)
    (hrir_data s) (sofa_filepath s) (path_heap s) (hrtf_fb s) (hrtf_interp s)
    (src_dirs_deg s) (src_dirs_xyz s) (src_dirs_rot_xyz s) (src_dirs_rot_deg
    s) (recalc_hrtf_interpFLAG s) (recalc_M_rotFLAG s)
    (reInitHRTFsAndGainTables s) (reInitTFT s) (useDefaultHRIRsFLAG s)
    (nSources s) (new_nSources s) v (interpMode s) (yaw s) (pitch s) (roll s)
    (bFlipYaw s) (bFlipPitch s) (bFlipRoll s) (useRollPitchYawFlag s)
    (enableRotation s) (fs s) (freqVector s).

Definition set_interpMode (v : Z) (s : binauraliser_data) : binauraliser_data :=
  Build_binauraliser_data (hSTFT s) (STFTInputFrameTF s) (STFTOutputFrameTF s)
    (tempHopFrameTD s) (inputFrameTD s) (inputframeTF s) (outputframeTF s)
    (hrir_data s) (sofa_filepath s) (path_heap s) (hrtf_fb s) (hrtf_interp s)
    (src_dirs_deg s) (src_dirs_xyz s) (src_dirs_rot_xyz s) (src_dirs_rot_deg
    s) (recalc_hrtf_interpFLAG s) (recalc_M_rotFLAG s)
    (reInitHRTFsAndGainTables s) (reInitTFT s) (useDefaultHRIRsFLAG s)
    (nSources s) (new_nSources s) (input_nDims s) v (yaw s) (pitch s) (roll s)
    (bFlipYaw s) (bFlipPitch s) (bFlipRoll s) (useRollPitchYawFlag s)
    (enableRotation s) (fs s) (freqVector s).

Definition set_yaw (v : F) (s : binauraliser_data) : binauraliser_data :=
  Build_binauraliser_data (hSTFT s) (STFTInputFrameTF s) (STFTOutputFrameTF s)
    (tempHopFrameTD s) (inputFrameTD s) (inputframeTF s) (outputframeTF s)
    (hrir_data s) (sofa_filepath s) (path_heap s) (hrtf_fb s) (hrtf_interp s)
    (src_dirs_deg s) (src_dirs_xyz s) (src_dirs_rot_xyz s) (src_dirs_rot_deg
    s) (recalc_hrtf_interpFLAG s) (recalc_M_rotFLAG s)
    (reInitHRTFsAndGainTables s) (reInitTFT s) (useDefaultHRIRsFLAG s)
    (nSources s) (new_nSources s) (input_nDims s) (interpMode s) v (pitch s)
    (roll s) (bFlipYaw s) (bFlipPitch s) (bFlipRoll s) (useRollPitchYawFlag s)
    (enableRotation s) (fs s) (freqVector s).

Definition set_pitch (v : F) (s : binauraliser_data) : binauraliser_data :=
  Build_binauraliser_data (hSTFT s) (STFTInputFrameTF s) (STFTOutputFrameTF s)
    (tempHopFrameTD s) (inputFrameTD s) (inputframeTF s) (outputframeTF s)
    (hrir_data s) (sofa_filepath s) (path_heap s) (hrtf_fb s) (hrtf_interp s)
    (src_dirs_deg s) (src_dirs_xyz s) (src_dirs_rot_xyz s) (src_dirs_rot_deg
    s) (recalc_hrtf_interpFLAG s) (recalc_M_rotFLAG s)
    (reInitHRTFsAndGainTables s) (reInitTFT s) (useDefaultHRIRsFLAG s)
    (nSources s) (new_nSources s) (input_nDims s) (interpMode s) (yaw s) v
    (roll s) (bFlipYaw s) (bFlipPitch s) (bFlipRoll s) (useRollPitchYawFlag s)
    (enableRotation s) (fs s) (freqVector s).

Definition set_roll (v : F) (s : binauraliser_data) : binauraliser_data :=
  Build_binauraliser_data (hSTFT s) (STFTInputFrameTF s) (STFTOutputFrameTF s)
    (tempHopFrameTD s) (inputFrameTD s) (inputframeTF s) (outputframeTF s)
    (hrir_data s) (sofa_filepath s) (path_heap s) (hrtf_fb s) (hrtf_interp s)
    (src_dirs_deg s) (src_dirs_xyz s) (src_dirs_rot_xyz s) (src_dirs_rot_deg
    s) (recalc_hrtf_interpFLAG s) (recalc_M_rotFLAG s)
    (reInitHRTFsAndGainTables s) (reInitTFT s) (useDefaultHRIRsFLAG s)
    (nSources s) (new_nSources s) (input_nDims s) (interpMode s) (yaw s)
    (pitch s) v (bFlipYaw s) (bFlipPitch s) (bFlipRoll s) (useRollPitchYawFlag
    s) (enableRotation s) (fs s) (freqVector s).

Definition set_bFlipYaw (v : Z) (s : binauraliser_data) : binauraliser_data :=
  Build_binauraliser_data (hSTFT s) (STFTInputFrameTF s) (STFTOutputFrameTF s)
    (tempHopFrameTD s) (inputFrameTD s) (inputframeTF s) (outputframeTF s)
    (hrir_data s) (sofa_filepath s) (path_heap s) (hrtf_fb s) (hrtf_interp s)
    (src_dirs_deg s) (src_dirs_xyz s) (src_dirs_rot_xyz s) (src_dirs_rot_deg
    s) (recalc_hrtf_interpFLAG s) (recalc_M_rotFLAG s)
    (reInitHRTFsAndGainTables s) (reInitTFT s) (useDefaultHRIRsFLAG s)
    (nSources s) (new_nSources s) (input_nDims s) (interpMode s) (yaw s)
    (pitch s) (roll s) v (bFlipPitch s) (bFlipRoll s) (useRollPitchYawFlag s)
    (enableRotation s) (fs s) (freqVector s).

Definition set_bFlipPitch (v : Z) (s : binauraliser_data) : binauraliser_data :=
  Build_binauraliser_data (hSTFT s) (STFTInputFrameTF s) (STFTOutputFrameTF s)
    (tempHopFrameTD s) (inputFrameTD s) (inputframeTF s) (outputframeTF s)
    (hrir_data s) (sofa_filepath s) (path_heap s) (hrtf_fb s) (hrtf_interp s)
    (src_dirs_deg s) (src_dirs_xyz s) (src_dirs_rot_xyz s) (src_dirs_rot_deg
    s) (recalc_hrtf_interpFLAG s) (recalc_M_rotFLAG s)
    (reInitHRTFsAndGainTables s) (reInitTFT s) (useDefaultHRIRsFLAG s)
    (nSources s) (new_nSources s) (input_nDims s) (interpMode s) (yaw s)
    (pitch s) (roll s) (bFlipYaw s) v (bFlipRoll s) (useRollPitchYawFlag s)
    (enableRotation s) (fs s) (freqVector s).

Definition set_bFlipRoll (v : Z) (s : binauraliser_data) : binauraliser_data :=
  Build_binauraliser_data (hSTFT s) (STFTInputFrameTF s) (STFTOutputFrameTF s)
    (tempHopFrameTD s) (inputFrameTD s) (inputframeTF s) (outputframeTF s)
    (hrir_data s) (sofa_filepath s) (path_heap s) (hrtf_fb s) (hrtf_interp s)
    (src_dirs_deg s) (src_dirs_xyz s) (src_dirs_rot_xyz s) (src_dirs_rot_deg
    s) (recalc_hrtf_interpFLAG s) (recalc_M_rotFLAG s)
    (reInitHRTFsAndGainTables s) (reInitTFT s) (useDefaultHRIRsFLAG s)
    (nSources s) (new_nSources s) (input_nDims s) (interpMode s) (yaw s)
    (pitch s) (roll s) (bFlipYaw s) (bFlipPitch s) v (useRollPitchYawFlag s)
    (enableRotation s) (fs s) (freqVector s).

Definition set_useRollPitchYawFlag (v : Z) (s : binauraliser_data) : binauraliser_data :=
  Build_binauraliser_data (hSTFT s) (STFTInputFrameTF s) (STFTOutputFrameTF s)
    (tempHopFrameTD s) (inputFrameTD s) (inputframeTF s) (outputframeTF s)
    (hrir_data s) (sofa_filepath s) (path_heap s) (hrtf_fb s) (hrtf_interp s)
    (src_dirs_deg s) (src_dirs_xyz s) (src_dirs_rot_xyz s) (src_dirs_rot_deg
    s) (recalc_hrtf_interpFLAG s) (recalc_M_rotFLAG s)
    (reInitHRTFsAndGainTables s) (reInitTFT s) (useDefaultHRIRsFLAG s)
    (nSources s) (new_nSources s) (input_nDims s) (interpMode s) (yaw s)
    (pitch s) (roll s) (bFlipYaw s) (bFlipPitch s) (bFlipRoll s) v
    (enableRotation s) (fs s) (freqVector s).

Definition set_enableRotation (v : Z) (s : binauraliser_data) : binauraliser_data :=
  Build_binauraliser_data (hSTFT s) (STFTInputFrameTF s) (STFTOutputFrameTF s)
    (tempHopFrameTD s) (inputFrameTD s) (inputframeTF s) (outputframeTF s)
    (hrir_data s) (sofa_filepath s) (path_heap s) (hrtf_fb s) (hrtf_interp s)
    (src_dirs_deg s) (src_dirs_xyz s) (src_dirs_rot_xyz s) (src_dirs_rot_deg
    s) (recalc_hrtf_interpFLAG s) (recalc_M_rotFLAG s)
    (reInitHRTFsAndGainTables s) (reInitTFT s) (useDefaultHRIRsFLAG s)
    (nSources s) (new_nSources s) (input_nDims s) (interpMode s) (yaw s)
    (pitch s) (roll s) (bFlipYaw s) (bFlipPitch s) (bFlipRoll s)
    (useRollPitchYawFlag s) v (fs s) (freqVector s).

Definition set_fs (v : Z) (s : binauraliser_data) : binauraliser_data :=
  Build_binauraliser_data (hSTFT s) (STFTInputFrameTF s) (STFTOutputFrameTF s)
    (tempHopFrameTD s) (inputFrameTD s) (inputframeTF s) (outputframeTF s)
    (hrir_data s) (sofa_filepath s) (path_heap s) (hrtf_fb s) (hrtf_interp s)
    (src_dirs_deg s) (src_dirs_xyz s) (src_dirs_rot_xyz s) (src_dirs_rot_deg
    s) (recalc_hrtf_interpFLAG s) (recalc_M_rotFLAG s)
    (reInitHRTFsAndGainTables s) (reInitTFT s) (useDefaultHRIRsFLAG s)
    (nSources s) (new_nSources s) (input_nDims s) (interpMode s) (yaw s)
    (pitch s) (roll s) (bFlipYaw s) (bFlipPitch s) (bFlipRoll s)
    (useRollPitchYawFlag s) (enableRotation s) v (freqVector s).

Definition set_freqVector (v : nat -> F) (s : binauraliser_data) : binauraliser_data :=
  Build_binauraliser_data (hSTFT s) (STFTInputFrameTF s) (STFTOutputFrameTF s)
    (tempHopFrameTD s) (inputFrameTD s) (inputframeTF s) (outputframeTF s)
    (hrir_data s) (sofa_filepath s) (path_heap s) (hrtf_fb s) (hrtf_interp s)
    (src_dirs_deg s) (src_dirs_xyz s) (src_dirs_rot_xyz s) (src_dirs_rot_deg
    s) (recalc_hrtf_interpFLAG s) (recalc_M_rotFLAG s)
    (reInitHRTFsAndGainTables s) (reInitTFT s) (useDefaultHRIRsFLAG s)
    (nSources s) (new_nSources s) (input_nDims s) (interpMode s) (yaw s)
    (pitch s) (roll s) (bFlipYaw s) (bFlipPitch s) (bFlipRoll s)
    (useRollPitchYawFlag s) (enableRotation s) (fs s) v.


(** The collaborators of [binauraliser_internal.c], [saf_utilities] and
    [libm], and the platform switch of [binauraliser_process]. *)
Variable binauraliser_initTFT : binauraliser_data -> binauraliser_data.
Variable binauraliser_initHRTFsAndGainTables : binauraliser_data -> binauraliser_data.
Variable binauraliser_interpHRTFs :
  binauraliser_data -> F -> F -> (nat -> nat -> float_complex F) ->
  nat -> nat -> float_complex F.
Variable binauraliser_loadPreset :
  Z -> (nat -> nat -> F) -> (nat -> nat -> F) * Z * Z.
Variable yawPitchRoll2Rzyx : F -> F -> F -> Z -> nat -> nat -> F.
Variable cosf sinf : F -> F.
Variable atan2f powf : F -> F -> F.
Variable __afCenterFreq44100 __afCenterFreq48e3 : nat -> F.
Variable __APPLE__ : bool.

(** Modelled from the spec: [utility_svvcopy(a, len, c)] of [saf_veclib],
    which copies [len] values of [a] to [c]; with the offsets of the source
    and destination pointers made explicit.  Then [memset] at an offset. *)
Definition utility_svvcopy (src : nat -> F) (soff len : nat) (dst : nat -> F)
  (doff : nat) : nat -> F :=
  fun k =>
    if (Nat.leb doff k && Nat.ltb k (doff + len))%bool
    then src (soff + (k - doff))%nat
    else dst k.

Definition memset_at (dst : nat -> F) (doff len : nat) : nat -> F :=
  fun k => if (Nat.leb doff k && Nat.ltb k (doff + len))%bool then Fzero else dst k.

Definition memset3 {A : Type} (z : A) (a : nat -> nat -> nat -> A)
  (d1 d2 d3 : nat) : nat -> nat -> nat -> A :=
  fun i j k =>
    if (Nat.ltb i d1 && Nat.ltb j d2 && Nat.ltb k d3)%bool then z else a i j k.

(** *** binauraliser_checkReInit *)

Definition reinit_TFT_if_needed (s : binauraliser_data)
  : binauraliser_data * list event :=
  if (reInitTFT s =? 1)%Z
  then (set_reInitTFT 0 (binauraliser_initTFT (set_reInitTFT 2 s)),
        [EvFlag TFT 2; EvRebuild TFT; EvFlag TFT 0])
  else (s, []).

Definition reinit_HRTFs_if_needed (s : binauraliser_data)
  : binauraliser_data * list event :=
  if (reInitHRTFsAndGainTables s =? 1)%Z
  then (set_reInitHRTFsAndGainTables 0
          (binauraliser_initHRTFsAndGainTables (set_reInitHRTFsAndGainTables 2 s)),
        [EvFlag Codec 2; EvRebuild Codec; EvFlag Codec 0])
  else (s, []).

Definition binauraliser_checkReInit (s : binauraliser_data)
  : binauraliser_data * list event :=
  let '(s1, tr1) := reinit_TFT_if_needed s in
  let '(s2, tr2) := reinit_HRTFs_if_needed s1 in
  (s2, List.app tr1 tr2).

(** *** binauraliser_init *)

Definition init_freqVector (sampleRate : Z) (fv : nat -> F) : nat -> F :=
  for_loop HYBRID_BANDS
    (fun band a =>
       upd a band (if (sampleRate =? 44100)%Z
                   then __afCenterFreq44100 band
                   else __afCenterFreq48e3 band))
    fv.

Definition binauraliser_init (s : binauraliser_data) (sampleRate : Z)
  : binauraliser_data :=
  let s := set_fs sampleRate s in
  let s := set_freqVector (init_freqVector sampleRate (freqVector s)) s in
  let s := fst (binauraliser_checkReInit s) in
  set_recalc_M_rotFLAG 1 s.

(** *** binauraliser_process *)

(** The condition guarding the panner; [isPlaying] is tested inside. *)
Definition can_process (s : binauraliser_data) (nSamples : Z) : bool :=
  ((nSamples =? Z.of_nat FRAME_SIZE)%Z
   && (match hrtf_fb s with Some _ => true | None => false end)
   && (reInitTFT s =? 0)%Z && (reInitHRTFsAndGainTables s =? 0)%Z)%bool.

(** "Load time-domain data". *)
Definition load_inputFrameTD (nsrc : Z) (inputs : nat -> nat -> F) (nInputs : Z)
  (td : nat -> nat -> F) : nat -> nat -> F :=
  let n := Z.to_nat (MINz nsrc nInputs) in
  let td :=
    for_loop n
      (fun i a => upd a i (utility_svvcopy (inputs i) 0 FRAME_SIZE (a i) 0)) td in
  for_range n MAX_NUM_INPUTS
    (fun i a => upd a i (memset Fzero (a i) FRAME_SIZE)) td.

(** "Apply time-frequency transform (TFT)". *)
Definition forward_TFT (nsrc : nat) (td : nat -> nat -> F)
  (st : stft * (nat -> nat -> F) * (nat -> complexVector F)
        * (nat -> nat -> nat -> float_complex F))
  : stft * (nat -> nat -> F) * (nat -> complexVector F)
    * (nat -> nat -> nat -> float_complex F) :=
  for_loop TIME_SLOTS
    (fun t '(h, tmp, inTF, tf) =>
       let tmp :=
         for_loop nsrc
           (fun ch a =>
              upd a ch (utility_svvcopy (td ch) (t * HOP_SIZE) HOP_SIZE (a ch) 0))
           tmp in
       let '(h, inTF) := afSTFTforward h tmp inTF in
       let tf :=
         for_loop HYBRID_BANDS
           (fun band a =>
              for_loop nsrc
                (fun ch a =>
                   upd3 a band ch t (cmplxf (re (inTF ch) band) (im (inTF ch) band)))
                a)
           tf in
       (h, tmp, inTF, tf))
    st.

(** "Rotate source directions". *)
Definition rotate_sources (nsrc : nat) (s : binauraliser_data) : binauraliser_data :=
  let Rxyz :=
    yawPitchRoll2Rzyx (yaw s) (pitch s) (roll s) (useRollPitchYawFlag s) in
  let s :=
    for_loop nsrc
      (fun i s =>
         let azi := DEG2RAD (src_dirs_deg s i 0%nat) in
         let elev := DEG2RAD (src_dirs_deg s i 1%nat) in
         let xyz := src_dirs_xyz s in
         let xyz := upd2 xyz i 0%nat (cosf elev * cosf azi) in
         let xyz := upd2 xyz i 1%nat (cosf elev * sinf azi) in
         let xyz := upd2 xyz i 2%nat (sinf elev) in
         set_recalc_hrtf_interpFLAG (upd (recalc_hrtf_interpFLAG s) i 1%Z)
           (set_src_dirs_xyz xyz s))
      s in
  let s :=
    set_src_dirs_rot_xyz
      (cblas_sgemm nsrc 3 3 (src_dirs_xyz s) Rxyz (src_dirs_rot_xyz s)) s in
  let s :=
    for_loop nsrc
      (fun i s =>
         let r := src_dirs_rot_xyz s i in
         let hypotxy :=
           sqrtf (powf (r 0%nat) (Fof_int 2) + powf (r 1%nat) (Fof_int 2)) in
         let d := src_dirs_rot_deg s in
         let d := upd2 d i 0%nat (RAD2DEG (atan2f (r 1%nat) (r 0%nat))) in
         let d := upd2 d i 1%nat (RAD2DEG (atan2f (r 2%nat) hypotxy)) in
         set_src_dirs_rot_deg d s)
      s in
  set_recalc_M_rotFLAG 0 s.

(** One source added to the output subbands. *)
Definition accumulate_source (ch : nat)
  (inTF : nat -> nat -> nat -> float_complex F)
  (hi : nat -> nat -> nat -> float_complex F)
  (out : nat -> nat -> nat -> float_complex F)
  : nat -> nat -> nat -> float_complex F :=
  for_loop HYBRID_BANDS
    (fun band a =>
       for_loop NUM_EARS
         (fun ear a =>
            for_loop TIME_SLOTS
              (fun t a =>
                 upd3 a band ear t
                   (ccaddf (a band ear t) (ccmulf (inTF band ch t) (hi ch band ear))))
              a)
         a)
    out.

(** "interpolate hrtfs and apply to each source". *)
Definition apply_source (enableRot : Z) (ch : nat) (s : binauraliser_data)
  : binauraliser_data :=
  let s :=
    if nonzero (recalc_hrtf_interpFLAG s ch)
    then
      let dirs := if nonzero enableRot then src_dirs_rot_deg s else src_dirs_deg s in
      let h := binauraliser_interpHRTFs s (dirs ch 0%nat) (dirs ch 1%nat)
                 (hrtf_interp s ch) in
      let s := set_hrtf_interp (upd (hrtf_interp s) ch h) s in
      set_recalc_hrtf_interpFLAG (upd (recalc_hrtf_interpFLAG s) ch 0%Z) s
    else s in
  set_outputframeTF
    (accumulate_source ch (inputframeTF s) (hrtf_interp s) (outputframeTF s)) s.

(** "scale by number of sources". *)
Definition scale_by_nSources (nsrc : Z) (out : nat -> nat -> nat -> float_complex F)
  : nat -> nat -> nat -> float_complex F :=
  for_loop HYBRID_BANDS
    (fun band a =>
       for_loop NUM_EARS
         (fun ear a =>
            for_loop TIME_SLOTS
              (fun t a =>
                 upd3 a band ear t
                   (crmulf (a band ear t) (Fone / sqrtf (Fof_int nsrc))))
              a)
         a)
    out.

(** "Main processing", under [if(isPlaying)]. *)
Definition main_processing (nsrc enableRot : Z) (s : binauraliser_data)
  : binauraliser_data :=
  let s :=
    if (nonzero enableRot && nonzero (recalc_M_rotFLAG s))%bool
    then rotate_sources (Z.to_nat nsrc) s else s in
  let s :=
    set_outputframeTF
      (memset3 czero (outputframeTF s) HYBRID_BANDS NUM_EARS TIME_SLOTS) s in
  let s := for_loop (Z.to_nat nsrc) (apply_source enableRot) s in
  set_outputframeTF (scale_by_nSources nsrc (outputframeTF s)) s.

(** "inverse-TFT". *)
Definition set_bin (v : complexVector F) (band : nat) (c : float_complex F)
  : complexVector F :=
  {| re := upd (re v) band (crealf c); im := upd (im v) band (cimagf c) |}.

Definition inverse_TFT (nOutputs : Z) (out : nat -> nat -> nat -> float_complex F)
  (st : stft * (nat -> complexVector F) * (nat -> nat -> F) * (nat -> nat -> F))
  : stft * (nat -> complexVector F) * (nat -> nat -> F) * (nat -> nat -> F) :=
  for_loop TIME_SLOTS
    (fun t '(h, outTF, tmp, outputs) =>
       let outTF :=
         for_loop HYBRID_BANDS
           (fun band a =>
              for_loop NUM_EARS
                (fun ch a => upd a ch (set_bin (a ch) band (out band ch t)))
                a)
           outTF in
       let '(h, tmp) := afSTFTinverse h outTF tmp in
       let n := Z.to_nat (MINz (Z.of_nat NUM_EARS) nOutputs) in
       let outputs :=
         for_loop n
           (fun ch a =>
              upd a ch (utility_svvcopy (tmp ch) 0 HOP_SIZE (a ch) (t * HOP_SIZE)))
           outputs in
       let outputs :=
         for_range n (Z.to_nat nOutputs)
           (fun ch a => upd a ch (memset_at (a ch) (t * HOP_SIZE) HOP_SIZE))
           outputs in
       (h, outTF, tmp, outputs))
    st.

Definition silence (nOutputs : Z) (outputs : nat -> nat -> F) : nat -> nat -> F :=
  for_loop (Z.to_nat nOutputs)
    (fun ch a => upd a ch (memset Fzero (a ch) FRAME_SIZE))
    outputs.

(** The three stages of the panner: load and analyse the frame, form the
    output subbands, synthesise.  The [ENABLE_FADE_IN_OUT] block of the
    function names a variable the function does not declare, so the file
    only builds with the macro undefined, and the block is left out. *)
Definition analyse (s : binauraliser_data) (inputs : nat -> nat -> F) (nInputs : Z)
  : binauraliser_data :=
  let nsrc := nSources s in
  let td := load_inputFrameTD nsrc inputs nInputs (inputFrameTD s) in
  let s := set_inputFrameTD td s in
  let '(h, tmp, inTF, tf) :=
    forward_TFT (Z.to_nat nsrc) td
      (hSTFT s, tempHopFrameTD s, STFTInputFrameTF s, inputframeTF s) in
  set_inputframeTF tf
    (set_STFTInputFrameTF inTF (set_tempHopFrameTD tmp (set_hSTFT h s))).

Definition mix (nsrc enableRot isPlaying : Z) (s : binauraliser_data)
  : binauraliser_data :=
  if nonzero isPlaying
  then main_processing nsrc enableRot s
  else set_outputframeTF
         (memset3 czero (outputframeTF s) HYBRID_BANDS NUM_EARS TIME_SLOTS) s.

Definition synthesise (s : binauraliser_data) (outputs : nat -> nat -> F)
  (nOutputs : Z) : binauraliser_data * (nat -> nat -> F) :=
  let '(h, outTF, tmp, outputs) :=
    inverse_TFT nOutputs (outputframeTF s)
      (hSTFT s, STFTOutputFrameTF s, tempHopFrameTD s, outputs) in
  (set_tempHopFrameTD tmp (set_STFTOutputFrameTF outTF (set_hSTFT h s)), outputs).

Definition pan (s : binauraliser_data) (inputs outputs : nat -> nat -> F)
  (nInputs nOutputs isPlaying : Z) : binauraliser_data * (nat -> nat -> F) :=
  let nsrc := nSources s in
  let enableRot := enableRotation s in
  let s := analyse s inputs nInputs in
  let s := mix nsrc enableRot isPlaying s in
  synthesise s outputs nOutputs.

(** "reinitialise if needed": [binauraliser_checkReInit] under [__APPLE__],
    the filterbank alone otherwise. *)
Definition reinit_if_needed (s : binauraliser_data)
  : binauraliser_data * list event :=
  if __APPLE__ then binauraliser_checkReInit s else reinit_TFT_if_needed s.

Definition binauraliser_process (s : binauraliser_data)
  (inputs outputs : nat -> nat -> F) (nInputs nOutputs nSamples isPlaying : Z)
  : binauraliser_data * (nat -> nat -> F) * list event :=
  let '(s, tr) := reinit_if_needed s in
  if can_process s nSamples
  then let '(s, outputs) := pan s inputs outputs nInputs nOutputs isPlaying in
       (s, outputs, List.app tr [EvProcess])
  else (s, silence nOutputs outputs, List.app tr [EvSilence]).

(** *** Set functions *)

Definition binauraliser_refreshSettings (s : binauraliser_data) : binauraliser_data :=
  set_reInitTFT 1 (set_reInitHRTFsAndGainTables 1 s).

Definition wrap_azi (newAzi_deg : F) : F :=
  let newAzi_deg :=
    if Fltb (Fof_int 180) newAzi_deg
    then Fof_int (-360) + newAzi_deg
    else newAzi_deg in
  let newAzi_deg := MAXf newAzi_deg (Fof_int (-180)) in
  MINf newAzi_deg (Fof_int 180).

Definition binauraliser_setSourceAzi_deg (s : binauraliser_data) (index : nat)
  (newAzi_deg : F) : binauraliser_data :=
  let newAzi_deg := wrap_azi newAzi_deg in
  let s := set_recalc_hrtf_interpFLAG (upd (recalc_hrtf_interpFLAG s) index 1%Z) s in
  let s := set_src_dirs_deg (upd2 (src_dirs_deg s) index 0%nat newAzi_deg) s in
  set_recalc_M_rotFLAG 1 s.

Definition clamp_elev (newElev_deg : F) : F :=
  let newElev_deg := MAXf newElev_deg (Fof_int (-90)) in
  MINf newElev_deg (Fof_int 90).

Definition binauraliser_setSourceElev_deg (s : binauraliser_data) (index : nat)
  (newElev_deg : F) : binauraliser_data :=
  let newElev_deg := clamp_elev newElev_deg in
  let s := set_recalc_hrtf_interpFLAG (upd (recalc_hrtf_interpFLAG s) index 1%Z) s in
  let s := set_src_dirs_deg (upd2 (src_dirs_deg s) index 1%nat newElev_deg) s in
  set_recalc_M_rotFLAG 1 s.

Definition binauraliser_setNumSources (s : binauraliser_data) (new_n : Z)
  : binauraliser_data :=
  let s :=
    set_new_nSources
      (if (Z.of_nat MAX_NUM_INPUTS <? new_n)%Z then Z.of_nat MAX_NUM_INPUTS else new_n)
      s in
  let s := if negb (nSources s =? new_nSources s)%Z then set_reInitTFT 1 s else s in
  set_recalc_M_rotFLAG 1 s.



Definition binauraliser_setInputConfigPreset (s : binauraliser_data) (newPresetID : Z)
  : binauraliser_data :=
  let '(dirs, n, dims) := binauraliser_loadPreset newPresetID (src_dirs_deg s) in
  let s := set_input_nDims dims (set_new_nSources n (set_src_dirs_deg dirs s)) in
  let s := if negb (nSources s =? new_nSources s)%Z then set_reInitTFT 1 s else s in
  set_recalc_hrtf_interpFLAG
    (for_loop MAX_NUM_INPUTS (fun ch a => upd a ch 1%Z) (recalc_hrtf_interpFLAG s)) s.

Definition binauraliser_setEnableRotation (s : binauraliser_data) (newState : Z)
  : binauraliser_data :=
  let s := set_enableRotation newState s in
  if negb (nonzero (enableRotation s))
  then set_recalc_hrtf_interpFLAG
         (for_loop MAX_NUM_INPUTS (fun ch a => upd a ch 1%Z) (recalc_hrtf_interpFLAG s))
         s
  else s.

Definition binauraliser_setYaw (s : binauraliser_data) (newYaw : F)
  : binauraliser_data :=
  let s :=
    set_yaw (if (bFlipYaw s =? 1)%Z then - DEG2RAD newYaw else DEG2RAD newYaw) s in
  set_recalc_M_rotFLAG 1 s.

Definition binauraliser_setPitch (s : binauraliser_data) (newPitch : F)
  : binauraliser_data :=
  let s :=
    set_pitch
      (if (bFlipPitch s =? 1)%Z then - DEG2RAD newPitch else DEG2RAD newPitch) s in
  set_recalc_M_rotFLAG 1 s.

Definition binauraliser_setRoll (s : binauraliser_data) (newRoll : F)
  : binauraliser_data :=
  let s :=
    set_roll (if (bFlipRoll s =? 1)%Z then - DEG2RAD newRoll else DEG2RAD newRoll) s in
  set_recalc_M_rotFLAG 1 s.

Definition binauraliser_setRPYflag (s : binauraliser_data) (newState : Z)
  : binauraliser_data := set_useRollPitchYawFlag newState s.

Definition binauraliser_setInterpMode (s : binauraliser_data) (newMode : Z)
  : binauraliser_data := set_interpMode newMode s.

(** *** Get functions *)

Definition binauraliser_getSourceAzi_deg (s : binauraliser_data) (index : nat) : F :=
  src_dirs_deg s index 0%nat.

Definition binauraliser_getSourceElev_deg (s : binauraliser_data) (index : nat) : F :=
  src_dirs_deg s index 1%nat.

Definition binauraliser_getNumSources (s : binauraliser_data) : Z := new_nSources s.

Definition binauraliser_getUseDefaultHRIRsflag (s : binauraliser_data) : Z :=
  useDefaultHRIRsFLAG s.


Definition binauraliser_getYaw (s : binauraliser_data) : F :=
  if (bFlipYaw s =? 1)%Z then - RAD2DEG (yaw s) else RAD2DEG (yaw s).

Definition binauraliser_getPitch (s : binauraliser_data) : F :=
  if (bFlipPitch s =? 1)%Z then - RAD2DEG (pitch s) else RAD2DEG (pitch s).

Definition binauraliser_getRoll (s : binauraliser_data) : F :=
  if (bFlipRoll s =? 1)%Z then - RAD2DEG (roll s) else RAD2DEG (roll s).

Definition binauraliser_getFlipYaw (s : binauraliser_data) : Z := bFlipYaw s.
Definition binauraliser_getFlipPitch (s : binauraliser_data) : Z := bFlipPitch s.
Definition binauraliser_getFlipRoll (s : binauraliser_data) : Z := bFlipRoll s.

Definition binauraliser_getProcessingDelay : nat := 12 * HOP_SIZE.

(** The flip setters come after the getters they call. *)
Definition binauraliser_setFlipYaw (s : binauraliser_data) (newState : Z)
  : binauraliser_data :=
  if negb (newState =? bFlipYaw s)%Z
  then let s := set_bFlipYaw newState s in
       binauraliser_setYaw s (- binauraliser_getYaw s)
  else s.

Definition binauraliser_setFlipPitch (s : binauraliser_data) (newState : Z)
  : binauraliser_data :=
  if negb (newState =? bFlipPitch s)%Z
  then let s := set_bFlipPitch newState s in
       binauraliser_setPitch s (- binauraliser_getPitch s)
  else s.

Definition binauraliser_setFlipRoll (s : binauraliser_data) (newState : Z)
  : binauraliser_data :=
  if negb (newState =? bFlipRoll s)%Z
  then let s := set_bFlipRoll newState s in
       binauraliser_setRoll s (- binauraliser_getRoll s)
  else s.

End Engine.
End Binauraliser.

(** * The three rotation axes

    The yaw, pitch and roll functions of each engine are the same text with
    the axis changed; these select them by axis. *)

Inductive axis : Type := Yaw | Pitch | Roll.

Section Axes.
Context {F : Type} `{FloatOps F} `{Filterbank F}.
Variable HRIR HRTF : Type.

Definition ambi_angle (ax : axis) (s : AmbiBin.ambi_bin_data HRIR) : F :=
  match ax with
  | Yaw => AmbiBin.yaw s
  | Pitch => AmbiBin.pitch s
  | Roll => AmbiBin.roll s
  end.

Definition ambi_flip (ax : axis) (s : AmbiBin.ambi_bin_data HRIR) : Z :=
  match ax with
  | Yaw => AmbiBin.ambi_bin_getFlipYaw s
  | Pitch => AmbiBin.ambi_bin_getFlipPitch s
  | Roll => AmbiBin.ambi_bin_getFlipRoll s
  end.

Definition ambi_get (ax : axis) (s : AmbiBin.ambi_bin_data HRIR) : F :=
  match ax with
  | Yaw => AmbiBin.ambi_bin_getYaw s
  | Pitch => AmbiBin.ambi_bin_getPitch s
  | Roll => AmbiBin.ambi_bin_getRoll s
  end.

Definition ambi_setFlip (ax : axis) (s : AmbiBin.ambi_bin_data HRIR) (newState : Z)
  : AmbiBin.ambi_bin_data HRIR :=
  match ax with
  | Yaw => AmbiBin.ambi_bin_setFlipYaw s newState
  | Pitch => AmbiBin.ambi_bin_setFlipPitch s newState
  | Roll => AmbiBin.ambi_bin_setFlipRoll s newState
  end.

Definition bina_angle (ax : axis) (s : Binauraliser.binauraliser_data HRIR HRTF) : F :=
  match ax with
  | Yaw => Binauraliser.yaw s
  | Pitch => Binauraliser.pitch s
  | Roll => Binauraliser.roll s
  end.

Definition bina_flip (ax : axis) (s : Binauraliser.binauraliser_data HRIR HRTF) : Z :=
  match ax with
  | Yaw => Binauraliser.binauraliser_getFlipYaw s
  | Pitch => Binauraliser.binauraliser_getFlipPitch s
  | Roll => Binauraliser.binauraliser_getFlipRoll s
  end.

Definition bina_get (ax : axis) (s : Binauraliser.binauraliser_data HRIR HRTF) : F :=
  match ax with
  | Yaw => Binauraliser.binauraliser_getYaw s
  | Pitch => Binauraliser.binauraliser_getPitch s
  | Roll => Binauraliser.binauraliser_getRoll s
  end.

Definition bina_setFlip (ax : axis) (s : Binauraliser.binauraliser_data HRIR HRTF)
  (newState : Z) : Binauraliser.binauraliser_data HRIR HRTF :=
  match ax with
  | Yaw => Binauraliser.binauraliser_setFlipYaw s newState
  | Pitch => Binauraliser.binauraliser_setFlipPitch s newState
  | Roll => Binauraliser.binauraliser_setFlipRoll s newState
  end.

End Axes.

(** * A concrete configuration

    Used to run the two engines on explicit inputs: the frame and hop sizes
    of the distributed headers (512-sample frames, four hops of 128 samples,
    133 hybrid bands, up to 64 channels), and stand-ins for the
    collaborators. *)

Module Demo.

#[export] Instance dims : Dims := {|
  FRAME_SIZE := 512;
  HOP_SIZE := 128;
  TIME_SLOTS := 4;
  HYBRID_BANDS := 133;
  MAX_SH_ORDER := 7;
  MAX_NUM_SH_SIGNALS := 64;
  MAX_NUM_INPUTS := 64
|}.

(** Modelled from the spec: the subband filterbank adapter (afSTFT itself is
    outside the two files), analysing and synthesising hop by hop "preserving
    a fixed processing latency".  This is the simplest filterbank of that
    kind: the analysis puts sample [k] of the hop into band [k], the synthesis
    reads the bands back and hands out each hop one call late; what it holds
    back is the state behind the handle. *)
Definition delay_forward {F : Type} `{FloatOps F}
  (h : nat -> nat -> F) (hop : nat -> nat -> F) (out : nat -> complexVector F)
  : (nat -> nat -> F) * (nat -> complexVector F) :=
  (h, fun ch => {| re := fun band => if Nat.ltb band 128 then hop ch band else Fzero;
                   im := fun _ => Fzero |}).

Definition delay_inverse {F : Type} `{FloatOps F}
  (h : nat -> nat -> F) (inTF : nat -> complexVector F) (hop : nat -> nat -> F)
  : (nat -> nat -> F) * (nat -> nat -> F) :=
  (fun ch k => re (inTF ch) k,
   fun ch k => if (Nat.ltb ch NUM_EARS && Nat.ltb k 128)%bool then h ch k else hop ch k).

#[export] Instance delay_bank {F : Type} `{FloatOps F} : Filterbank F := {|
  stft := nat -> nat -> F;
  afSTFTforward := delay_forward;
  afSTFTinverse := delay_inverse
|}.

Section Stock.
Context {F : Type} `{FloatOps F}.

Definition zeros : nat -> nat -> F := fun _ _ => Fzero.
Definition czeros : nat -> nat -> nat -> float_complex F := fun _ _ _ => czero.
Definition zero_vector : complexVector F :=
  {| re := fun _ => Fzero; im := fun _ => Fzero |}.
Definition identity3 : nat -> nat -> F :=
  fun i j => if Nat.eqb i j then Fone else Fzero.

(** Output buffers holding what the block before left in them: ones. *)
Definition stale : nat -> nat -> F := fun _ _ => Fone.

(** A unit sample at the start of channel 0: as a frame, an impulse; as
    the state of the filterbank, what it holds back after a block that had
    a unit sample at the start of its last hop. *)
Definition impulse : nat -> nat -> F :=
  fun ch k => if (Nat.eqb ch 0 && Nat.eqb k 0)%bool then Fone else Fzero.

(** ** ambi_bin *)

Definition unit_decoder : nat -> nat -> nat -> float_complex F :=
  fun _ _ _ => cmplxf Fone Fzero.

(** The engine before [ambi_bin_init]: everything rebuilt, nothing pending,
    the order of [ord] selected. *)
Definition zero_table : nat -> F := fun _ => Fzero.

Definition ambi_blank (ord : AmbiBin.INPUT_ORDERS) : AmbiBin.ambi_bin_data unit :=
  let n := AmbiBin.order_of_preset ord in
    {| AmbiBin.hSTFT := zeros;
       AmbiBin.STFTInputFrameTF := fun _ _ => zero_vector;
       AmbiBin.STFTOutputFrameTF := fun _ _ => zero_vector;
       AmbiBin.tempHopFrameTD := zeros;
       AmbiBin.SHFrameTD := zeros;
       AmbiBin.SHframeTF := czeros;
       AmbiBin.prev_SHframeTF := czeros;
       AmbiBin.binframeTF := czeros;
       AmbiBin.current_M := czeros;
       AmbiBin.prev_M := czeros;
       AmbiBin.interpolator := fun _ => Fzero;
       AmbiBin.EQ := fun _ => Fone;
       AmbiBin.pars :=
         {| AmbiBin.sofa_filepath := None;
            AmbiBin.hrir_set := tt;
            AmbiBin.N_hrir_dirs := 0;
            AmbiBin.hrir_len := 0;
            AmbiBin.hrir_fs := 0;
            AmbiBin.M_dec := unit_decoder |};
       AmbiBin.path_heap := [];
       AmbiBin.reInitCodec := 0;
       AmbiBin.reInitTFT := 0;
       AmbiBin.useDefaultHRIRsFLAG := 1;
       AmbiBin.chOrdering := AmbiBin.CH_ACN;
       AmbiBin.norm := AmbiBin.NORM_N3D;
       AmbiBin.rE_WEIGHT := 0;
       AmbiBin.enableEQ := 0;
       AmbiBin.yaw := Fzero;
       AmbiBin.pitch := Fzero;
       AmbiBin.roll := Fzero;
       AmbiBin.bFlipYaw := 0;
       AmbiBin.bFlipPitch := 0;
       AmbiBin.bFlipRoll := 0;
       AmbiBin.orderSelected := ord;
       AmbiBin.order := n;
       AmbiBin.nSH := (n + 1) * (n + 1);
       AmbiBin.new_nSH := (n + 1) * (n + 1);
       AmbiBin.fs := 48000;
       AmbiBin.freqVector := fun _ => Fzero |}.

(** The engine between two blocks, no signal seen yet. *)
Definition ambi_idle (ord : AmbiBin.INPUT_ORDERS) : AmbiBin.ambi_bin_data unit :=
  AmbiBin.ambi_bin_init zero_table zero_table (ambi_blank ord) 48000.

(** The rebuilds are stand-ins that leave the engine as it is; the rotation
    is the identity. *)
Definition ambi_rebuild (s : AmbiBin.ambi_bin_data unit) : AmbiBin.ambi_bin_data unit := s.

Definition no_rotation3 : F -> F -> F -> nat -> nat -> F := fun _ _ _ => identity3.

Definition no_rotation_SH : (nat -> nat -> F) -> Z -> nat -> F :=
  fun _ ord k =>
    let nsh := Z.to_nat ((ord + 1) * (ord + 1)) in
    if Nat.eqb (k / nsh) (k mod nsh) then Fone else Fzero.

Definition ambi_process :=
  AmbiBin.ambi_bin_process ambi_rebuild ambi_rebuild no_rotation3 no_rotation_SH false.

(** ** binauraliser *)

(** The engine between two blocks, with [nsrc] sources, the filterbank in
    state [h], and every HRTF interpolated to a unit gain. *)
Definition bina_idle (h : nat -> nat -> F) (nsrc : Z)
  : Binauraliser.binauraliser_data unit unit :=
  {| Binauraliser.hSTFT := h;
     Binauraliser.STFTInputFrameTF := fun _ => zero_vector;
     Binauraliser.STFTOutputFrameTF := fun _ => zero_vector;
     Binauraliser.tempHopFrameTD := zeros;
     Binauraliser.inputFrameTD := zeros;
     Binauraliser.inputframeTF := czeros;
     Binauraliser.outputframeTF := czeros;
     Binauraliser.hrir_data := tt;
     Binauraliser.sofa_filepath := None;
     Binauraliser.path_heap := [];
     Binauraliser.hrtf_fb := Some tt;
     Binauraliser.hrtf_interp := unit_decoder;
     Binauraliser.src_dirs_deg := zeros;
     Binauraliser.src_dirs_xyz := zeros;
     Binauraliser.src_dirs_rot_xyz := zeros;
     Binauraliser.src_dirs_rot_deg := zeros;
     Binauraliser.recalc_hrtf_interpFLAG := fun _ => 0%Z;
     Binauraliser.recalc_M_rotFLAG := 0;
     Binauraliser.reInitHRTFsAndGainTables := 0;
     Binauraliser.reInitTFT := 0;
     Binauraliser.useDefaultHRIRsFLAG := 1;
     Binauraliser.nSources := nsrc;
     Binauraliser.new_nSources := nsrc;
     Binauraliser.input_nDims := 2;
     Binauraliser.interpMode := 0;
     Binauraliser.yaw := Fzero;
     Binauraliser.pitch := Fzero;
     Binauraliser.roll := Fzero;
     Binauraliser.bFlipYaw := 0;
     Binauraliser.bFlipPitch := 0;
     Binauraliser.bFlipRoll := 0;
     Binauraliser.useRollPitchYawFlag := 0;
     Binauraliser.enableRotation := 0;
     Binauraliser.fs := 48000;
     Binauraliser.freqVector := fun _ => Fzero |}.

(** The rebuilds are stand-ins that leave the engine as it is, every
    interpolated HRTF is a unit gain, the rotation is the identity; the
    platform is given by [apple]. *)
Definition bina_rebuild (s : Binauraliser.binauraliser_data unit unit)
  : Binauraliser.binauraliser_data unit unit := s.

Definition unit_interp
  : Binauraliser.binauraliser_data unit unit -> F -> F ->
    (nat -> nat -> float_complex F) -> nat -> nat -> float_complex F :=
  fun _ _ _ _ _ _ => cmplxf Fone Fzero.

Definition no_rotation3_rpy : F -> F -> F -> Z -> nat -> nat -> F :=
  fun _ _ _ _ => identity3.

Definition libm1 : F -> F := fun x => x.
Definition libm2 : F -> F -> F := fun x _ => x.

Definition bina_process (apple : bool) :=
  Binauraliser.binauraliser_process bina_rebuild bina_rebuild unit_interp
    no_rotation3_rpy libm1 libm1 libm2 libm2 apple.

End Stock.

(** ** Runs in single precision *)

Definition frame_count : Z := 512.

(** One playing block of the zeroth-order decoder on an impulse. *)
Definition omni_engine : AmbiBin.ambi_bin_data (F := Binary32.float) unit :=
  ambi_idle AmbiBin.INPUT_OMNI.

Definition omni_block :=
  ambi_process omni_engine impulse zeros 1 2 frame_count 1.

(** One block of the two-source panner, playing. *)
Definition duo_engine : Binauraliser.binauraliser_data (F := Binary32.float) unit unit :=
  bina_idle zeros 2.

Definition duo_block :=
  bina_process false duo_engine impulse zeros 2 2 frame_count 1.

(** One block of the panner with playback off, the filterbank still holding
    a unit sample from the block before. *)
Definition ringing_engine : Binauraliser.binauraliser_data (F := Binary32.float) unit unit :=
  bina_idle impulse 1.

Definition paused_block :=
  bina_process false ringing_engine zeros zeros 1 2 frame_count 0.

(** One block of the panner with an HRTF rebuild requested, on a platform
    other than Apple's. *)
Definition pending_engine : Binauraliser.binauraliser_data (F := Binary32.float) unit unit :=
  Binauraliser.set_reInitHRTFsAndGainTables 1 (bina_idle zeros 1).

Definition pending_block :=
  bina_process false pending_engine impulse zeros 1 2 frame_count 1.

(** One playing block of the panner after [binauraliser_setNumSources] was
    given 0 and the filterbank was rebuilt for it. *)
Definition empty_engine : Binauraliser.binauraliser_data (F := Binary32.float) unit unit :=
  bina_idle zeros 0.

Definition empty_block :=
  bina_process false empty_engine zeros zeros 0 2 frame_count 1.

(** ** Engines turned by 90 degrees about every axis

    The angles are the radians the setters store for 90 degrees. *)

Definition turned_ambi : AmbiBin.ambi_bin_data (F := Binary32.float) unit :=
  AmbiBin.ambi_bin_setYaw (AmbiBin.ambi_bin_setPitch (AmbiBin.ambi_bin_setRoll
    (ambi_idle AmbiBin.INPUT_ORDER_FIRST) (Fof_int 90)) (Fof_int 90)) (Fof_int 90).

Definition turned_bina : Binauraliser.binauraliser_data (F := Binary32.float) unit unit :=
  Binauraliser.binauraliser_setYaw (Binauraliser.binauraliser_setPitch
    (Binauraliser.binauraliser_setRoll (bina_idle zeros 1) (Fof_int 90))
    (Fof_int 90)) (Fof_int 90).

(** The decoder with a yaw of 2^123 radians, a [float] whose value in
    degrees is beyond the largest one. *)
Definition far_turned_ambi : AmbiBin.ambi_bin_data (F := Binary32.float) unit :=
  AmbiBin.set_yaw (S754_finite false 8388608 100)
    (ambi_idle AmbiBin.INPUT_ORDER_FIRST).

End Demo.

(** * saf_sort

    [framework/saf_utilities/saf_sort.c]: sorting a vector together with the
    indices its elements came from, and the nearest grid direction of a set
    of target directions. *)

From Stdlib Require Import Sorting.Permutation Sorting.Sorted.

Module SafSort.

(** [struct saf_sort_int], [saf_sort_float] and [saf_sort_double]: a value
    and the position it had in the input. *)
Record saf_sort (V : Type) : Type := { val : V; idx : Z }.

Section Comparators.
Variable V : Type.

(** The C comparison [a < b] of the value type; [a > b] is [ltb b a]. *)
Variable ltb : V -> V -> bool.

Definition cmp_asc (a1 a2 : saf_sort V) : Z :=
  if ltb (val a1) (val a2) then (-1)%Z
  else if ltb (val a2) (val a1) then 1%Z
  else 0%Z.

Definition cmp_desc (a1 a2 : saf_sort V) : Z :=
  if ltb (val a2) (val a1) then (-1)%Z
  else if ltb (val a1) (val a2) then 1%Z
  else 0%Z.

End Comparators.

Definition cmp_asc_int : saf_sort Z -> saf_sort Z -> Z := cmp_asc Z.ltb.
Definition cmp_desc_int : saf_sort Z -> saf_sort Z -> Z := cmp_desc Z.ltb.

(** [float] and [double] are both compared by the IEEE comparison, which on
    [SpecFloat] does not depend on the precision. *)
Definition cmp_asc_float : saf_sort spec_float -> saf_sort spec_float -> Z :=
  cmp_asc SFltb.
Definition cmp_desc_float : saf_sort spec_float -> saf_sort spec_float -> Z :=
  cmp_desc SFltb.
Definition cmp_asc_double : saf_sort spec_float -> saf_sort spec_float -> Z :=
  cmp_asc SFltb.
Definition cmp_desc_double : saf_sort spec_float -> saf_sort spec_float -> Z :=
  cmp_desc SFltb.

(** *** The contract of [qsort]

    [qsort] is the C library's.  What the standard promises: when the
    comparison is consistent on the elements of the array (its sign is
    antisymmetric and "not greater" is transitive), the array is rearranged
    into ascending order according to it.  The order of elements that
    compare equal is unspecified, so nothing more is assumed. *)
Definition consistent {A : Type} (cmp : A -> A -> Z) (l : list A) : Prop :=
  (forall a b, In a l -> In b l -> (cmp a b < 0 <-> 0 < cmp b a)%Z) /\
  (forall a b c, In a l -> In b l -> In c l ->
     (cmp a b <= 0)%Z -> (cmp b c <= 0)%Z -> (cmp a c <= 0)%Z).

Definition qsort_contract
  (qsort : forall A : Type, (A -> A -> Z) -> list A -> list A) : Prop :=
  forall (A : Type) (cmp : A -> A -> Z) (l : list A),
    consistent cmp l ->
    Permutation l (qsort A cmp l) /\
    StronglySorted (fun a b => (cmp a b <= 0)%Z) (qsort A cmp l).

(** A sorting routine that meets the contract, to run the functions with:
    insertion sort. *)
Fixpoint insert_by {A : Type} (cmp : A -> A -> Z) (x : A) (l : list A) : list A :=
  match l with
  | [] => [x]
  | y :: r => if (cmp x y <=? 0)%Z then x :: y :: r else y :: insert_by cmp x r
  end.

Definition insertion_sort (A : Type) (cmp : A -> A -> Z) (l : list A) : list A :=
  fold_right (insert_by cmp) [] l.
Arguments insertion_sort A cmp l : clear implicits.

(** The first [n] entries of an array. *)
Definition prefix {A : Type} (a : nat -> A) (n : nat) : list A :=
  map a (seq 0 n).

Section Sorting.
Variable qsort : forall A : Type, (A -> A -> Z) -> list A -> list A.

Section Generic.
Variable V : Type.
Variable ltb : V -> V -> bool.

(** [data[i].val = in_vec[i]; data[i].idx = i] for [i < len]. *)
Definition load_data (in_vec : nat -> V) (len : nat) : list (saf_sort V) :=
  map (fun i => {| val := in_vec i; idx := Z.of_nat i |}) (seq 0 len).

(** One turn of the loop that writes the result back.  A [NULL] array is
    [None]. *)
Definition write_back (data : list (saf_sort V)) (i : nat)
  (st : (nat -> V) * option (nat -> V) * option (nat -> Z))
  : (nat -> V) * option (nat -> V) * option (nat -> Z) :=
  let '(in_vec, out_vec, new_idices) := st in
  let d := nth i data {| val := in_vec i; idx := Z.of_nat i |} in
  let '(in_vec, out_vec) :=
    match out_vec with
    | Some o => (in_vec, Some (upd o i (val d)))
    | None => (upd in_vec i (val d), None)
    end in
  (in_vec, out_vec,
   match new_idices with
   | Some n => Some (upd n i (idx d))
   | None => None
   end).

(** The body shared by [sorti], [sortf] and [sortd]; the result is the
    three arrays after the call.  [len] is the [int len] of the source when
    it is not negative (a negative [len] is converted to a huge [size_t] for
    [qsort]). *)
Definition sort_vec (in_vec : nat -> V) (out_vec : option (nat -> V))
  (new_idices : option (nat -> Z)) (len : nat) (descendFLAG : Z)
  : (nat -> V) * option (nat -> V) * option (nat -> Z) :=
  let data := load_data in_vec len in
  let data :=
    if nonzero descendFLAG then qsort (cmp_desc ltb) data
    else qsort (cmp_asc ltb) data in
  for_loop len (write_back data) (in_vec, out_vec, new_idices).

End Generic.

Definition sorti := sort_vec Z.ltb.
Definition sortf := sort_vec SFltb.
Definition sortd := sort_vec SFltb.

End Sorting.

(** The array that holds the sorted values after the call: [out_vec], or
    [in_vec] when [out_vec] is [NULL]. *)
Definition sorted_vec {V : Type}
  (r : (nat -> V) * option (nat -> V) * option (nat -> Z)) : nat -> V :=
  match snd (fst r) with
  | Some o => o
  | None => fst (fst r)
  end.

(** The comparison the sorting functions hand to [qsort]. *)
Definition chosen_cmp {V : Type} (ltb : V -> V -> bool) (descendFLAG : Z)
  : saf_sort V -> saf_sort V -> Z :=
  if nonzero descendFLAG then cmp_desc ltb else cmp_asc ltb.

(** [a[i] = f i] for [i < n]. *)
Definition fill {A : Type} (n : nat) (f : nat -> A) (a : nat -> A) : nat -> A :=
  for_loop n (fun i a => upd a i (f i)) a.

(** An array given by its first entries, zero after them. *)
Definition vec_of (l : list Z) : nat -> Z := fun i => nth i l 0%Z.
Definition fvec_of (l : list spec_float) : nat -> spec_float :=
  fun i => nth i l (S754_zero false).

(** A second routine that meets the contract of [qsort] and orders equal
    elements the other way round. *)
Definition insertion_sort_rev (A : Type) (cmp : A -> A -> Z) (l : list A) : list A :=
  insertion_sort A cmp (rev l).
Arguments insertion_sort_rev A cmp l : clear implicits.

(** *** [findClosestGridPoints] *)
Section Grid.
Context {F : Type} `{FloatOps F}.

(** libm. *)
Variable cosf sinf acosf : F -> F.

(** The argument [x*M_PI/180.0f]: [M_PI] is a [double], so the product and
    the quotient are computed in double precision and converted to [float]
    when passed to [sinf] or [cosf]. *)
Variable deg_arg : F -> F.

(** The contents of the two freshly allocated blocks [grid_xyz] and
    [target_xyz]. *)
Variable grid_mem target_mem : nat -> F.

(** The literal [-2.23e10f]: the [float] nearest to it. *)
Definition lowest : F := Fof_int (-22300000000).

(** One direction [(azi, elev)] to Cartesian coordinates. *)
Definition to_xyz (conv : F -> F) (dirs : nat -> F) (i : nat) (xyz : nat -> F)
  : nat -> F :=
  let xyz := upd xyz (i * 3 + 2) (sinf (conv (dirs (i * 2 + 1)%nat))) in
  let rcoselev := cosf (conv (dirs (i * 2 + 1)%nat)) in
  let xyz := upd xyz (i * 3) (rcoselev * cosf (conv (dirs (i * 2)%nat)))%flt in
  upd xyz (i * 3 + 1) (rcoselev * sinf (conv (dirs (i * 2)%nat)))%flt.

Definition all_xyz (degFLAG : Z) (dirs : nat -> F) (n : Z) (xyz : nat -> F)
  : nat -> F :=
  if nonzero degFLAG
  then for_loop (Z.to_nat n) (to_xyz deg_arg dirs) xyz
  else for_loop (Z.to_nat n) (to_xyz (fun x => x) dirs) xyz.

(** [current_val] for grid point [j] and target [i]. *)
Definition dot_xyz (grid_xyz target_xyz : nat -> F) (i j : nat) : F :=
  (grid_xyz (j * 3)%nat * target_xyz (i * 3)%nat
   + grid_xyz (j * 3 + 1)%nat * target_xyz (i * 3 + 1)%nat
   + grid_xyz (j * 3 + 2)%nat * target_xyz (i * 3 + 2)%nat)%flt.

(** The body of the inner loop, on [idx_closest], [max_val] and
    [angle_diff]. *)
Definition visit (grid_xyz target_xyz : nat -> F) (i j : nat)
  (st : (nat -> Z) * F * option (nat -> F))
  : (nat -> Z) * F * option (nat -> F) :=
  let '(idx_closest, max_val, angle_diff) := st in
  let current_val := dot_xyz grid_xyz target_xyz i j in
  let idx_closest :=
    if Fltb max_val current_val then upd idx_closest i (Z.of_nat j)
    else idx_closest in
  if Fltb max_val current_val then
    let idx_closest := upd idx_closest i (Z.of_nat j) in
    let max_val := current_val in
    (idx_closest, max_val,
     match angle_diff with
     | Some a => Some (upd a i (acosf max_val))
     | None => None
     end)
  else (idx_closest, max_val, angle_diff).

(** The inner loop for target [i], started from [max_val = -2.23e10f]. *)
Definition scan_grid (grid_xyz target_xyz : nat -> F) (nGrid : Z) (i : nat)
  (st : (nat -> Z) * option (nat -> F)) : (nat -> Z) * F * option (nat -> F) :=
  for_loop (Z.to_nat nGrid) (visit grid_xyz target_xyz i)
    (fst st, lowest, snd st).

Definition closest_indices (grid_xyz target_xyz : nat -> F) (nGrid nTarget : Z)
  (idx_closest : nat -> Z) (angle_diff : option (nat -> F))
  : (nat -> Z) * option (nat -> F) :=
  for_loop (Z.to_nat nTarget)
    (fun i st =>
       let '(idx_closest, _, angle_diff) :=
         scan_grid grid_xyz target_xyz nGrid i st in
       (idx_closest, angle_diff))
    (idx_closest, angle_diff).

(** [grid_dirs[k]].  The array holds the [2*nGrid] floats of [nGrid]
    directions; an index outside is no entry of it. *)
Definition read_grid (grid_dirs : nat -> F) (nGrid : Z) (k : Z) : option F :=
  if ((0 <=? k) && (k <? 2 * nGrid))%Z then Some (grid_dirs (Z.to_nat k))
  else None.

(** What becomes of the optional output [dirs_closest]: it was not asked for
    ([NULL]), it was written, or a read of [grid_dirs] fell outside the array
    and nothing is defined from there on. *)
Inductive directions : Type :=
| dirs_null
| dirs_written (dirs_closest : nat -> F)
| dirs_outside.

(** The body of the loop over the targets: [idx_closest[i]] is used as an
    index as it stands, whether the search wrote it or left what the caller
    had there. *)
Definition copy_dirs (grid_dirs : nat -> F) (nGrid : Z) (idx_closest : nat -> Z)
  (i : nat) (dirs_closest : option (nat -> F)) : option (nat -> F) :=
  match dirs_closest with
  | Some dirs_closest =>
      match read_grid grid_dirs nGrid (idx_closest i * 2),
            read_grid grid_dirs nGrid (idx_closest i * 2 + 1) with
      | Some azi, Some elev =>
          let dirs_closest := upd dirs_closest (i * 2) azi in
          Some (upd dirs_closest (i * 2 + 1) elev)
      | _, _ => None
      end
  | None => None
  end.

(** The arrays [idx_closest], [dirs_closest] and [angle_diff] after the
    call. *)
Definition findClosestGridPoints (grid_dirs : nat -> F) (nGrid : Z)
  (target_dirs : nat -> F) (nTarget : Z) (degFLAG : Z)
  (idx_closest : nat -> Z) (dirs_closest angle_diff : option (nat -> F))
  : (nat -> Z) * directions * option (nat -> F) :=
  let grid_xyz := all_xyz degFLAG grid_dirs nGrid grid_mem in
  let target_xyz := all_xyz degFLAG target_dirs nTarget target_mem in
  let '(idx_closest, angle_diff) :=
    closest_indices grid_xyz target_xyz nGrid nTarget idx_closest angle_diff in
  let dirs_closest :=
    match dirs_closest with
    | Some d =>
        match for_loop (Z.to_nat nTarget)
                (copy_dirs grid_dirs nGrid idx_closest) (Some d) with
        | Some d => dirs_written d
        | None => dirs_outside
        end
    | None => dirs_null
    end in
  (idx_closest, dirs_closest, angle_diff).

End Grid.

(** Entry [k] of an optional array. *)
Definition entry {A : Type} (a : option (nat -> A)) (k : nat) : option A :=
  option_map (fun f => f k) a.

(** What the scan of the first [n] grid points for target [i] leaves in
    [max_val], [idx_closest[i]] and [angle_diff[i]], the last two having
    held [v0] and [w0]: either no grid point exceeded [-2.23e10f] and
    nothing was written, or the three belong to a grid point [j]. *)
Definition scanned {F : Type} `{FloatOps F} (acosf : F -> F)
  (grid_xyz target_xyz : nat -> F) (n i : nat) (v0 : Z) (w0 : option F)
  (mx : F) (v : Z) (w : option F) : Prop :=
  (mx = lowest /\ v = v0 /\ w = w0 /\
   forall j, (j < n)%nat -> Fltb lowest (dot_xyz grid_xyz target_xyz i j) = false)
  \/
  (exists j, (j < n)%nat /\ mx = dot_xyz grid_xyz target_xyz i j /\
     v = Z.of_nat j /\
     w = option_map (fun _ => acosf (dot_xyz grid_xyz target_xyz i j)) w0 /\
     Fltb lowest (dot_xyz grid_xyz target_xyz i j) = true /\
     (forall j', (j' < n)%nat ->
        Fltb (dot_xyz grid_xyz target_xyz i j) (dot_xyz grid_xyz target_xyz i j')
        = false) /\
     (forall j', (j' < j)%nat ->
        dot_xyz grid_xyz target_xyz i j' <> dot_xyz grid_xyz target_xyz i j)).

(** The order of [SpecFloat] values that the comparison computes: the class
    (minus infinity, negative, zero, positive, plus infinity), then exponent
    and mantissa, both negated for negative numbers. *)
Definition key (x : spec_float) : Z * Z * Z :=
  match x with
  | S754_zero _ => (0, 0, 0)%Z
  | S754_infinity true => (-2, 0, 0)%Z
  | S754_infinity false => (2, 0, 0)%Z
  | S754_nan => (0, 0, 0)%Z
  | S754_finite true m e => (-1, - e, - Z.pos m)%Z
  | S754_finite false m e => (1, e, Z.pos m)%Z
  end.

Definition key_lt (k1 k2 : Z * Z * Z) : Prop :=
  let '(c1, e1, m1) := k1 in
  let '(c2, e2, m2) := k2 in
  (c1 < c2 \/ (c1 = c2 /\ (e1 < e2 \/ (e1 = e2 /\ m1 < m2))))%Z.

Definition is_nan (x : spec_float) : bool :=
  match x with S754_nan => true | _ => false end.

(** *** Directions along the axes, to run [findClosestGridPoints] with *)

(** The [float] nearest to pi/2, [0x3FC90FDB]. *)
Definition half_pi : spec_float := S754_finite false 13176795 (-23).

(** [cosf] and [sinf] of libm at the two arguments 0 and [half_pi]:
    [cosf(half_pi)] is [-4.371139e-08f], [0xB33BBD2E].  Other arguments are
    not in the table. *)
Definition cos_table (x : spec_float) : spec_float :=
  if Binary32.eqb x (S754_zero false) then Binary32.of_int 1
  else if Binary32.eqb x half_pi then S754_finite true 12303662 (-48)
  else S754_nan.

Definition sin_table (x : spec_float) : spec_float :=
  if Binary32.eqb x (S754_zero false) then S754_zero false
  else if Binary32.eqb x half_pi then Binary32.of_int 1
  else S754_nan.

(** The grid [x, y, z] as [(azi, elev)] pairs in radians, and the target
    [y]. *)
Definition axes_grid : nat -> spec_float :=
  fvec_of [S754_zero false; S754_zero false;
           half_pi; S754_zero false;
           S754_zero false; half_pi].

Definition y_target : nat -> spec_float := fvec_of [half_pi; S754_zero false].

Definition no_index : nat -> Z := fun _ => (-1)%Z.

End SafSort.

(** * More runs in single precision *)

Module Cases.
Import Demo.

(** The first-order decoder between two blocks, no signal seen yet. *)
Definition first_order_engine : AmbiBin.ambi_bin_data (F := Binary32.float) unit :=
  ambi_idle AmbiBin.INPUT_ORDER_FIRST.

End Cases.

(** * Proofs *)

Unset Implicit Arguments.

(** ** Loops that write one cell per iteration *)

Ltac nat_cases :=
  repeat match goal with
  | |- context [Nat.eqb ?a ?b] => destruct (Nat.eqb_spec a b)
  | |- context [Nat.ltb ?a ?b] => destruct (Nat.ltb_spec a b)
  | |- context [Nat.leb ?a ?b] => destruct (Nat.leb_spec a b)
  end;
  cbn [andb orb negb]; try reflexivity; try lia; try congruence.

Section LoopLemmas.
Context {X : Type}.

Lemma upd_at (a : nat -> X) (i : nat) (v : X) (k : nat) :
  upd a i v k = if Nat.eqb k i then v else a k.
Proof. reflexivity. Qed.

Lemma upd2_at (a : nat -> nat -> X) (i j : nat) (v : X) (i' j' : nat) :
  upd2 a i j v i' j' = if (Nat.eqb i' i && Nat.eqb j' j)%bool then v else a i' j'.
Proof. unfold upd2, upd. nat_cases. Qed.

Lemma upd3_at (a : nat -> nat -> nat -> X) (i j k : nat) (v : X) (i' j' k' : nat) :
  upd3 a i j k v i' j' k'
  = if (Nat.eqb i' i && Nat.eqb j' j && Nat.eqb k' k)%bool then v else a i' j' k'.
Proof. unfold upd3, upd2, upd. nat_cases. Qed.

Lemma for_loop_upd (g : nat -> X -> X) (n : nat) (a : nat -> X) (k : nat) :
  for_loop n (fun i a => upd a i (g i (a i))) a k
  = if Nat.ltb k n then g k (a k) else a k.
Proof.
  revert k. induction n as [|n IH]; intro k; cbn [for_loop]; [reflexivity|].
  rewrite upd_at, !IH. nat_cases.
Qed.

Lemma for_loop_upd_from (g : nat -> X -> X) (lo n : nat) (a : nat -> X) (k : nat) :
  for_loop n (fun i a => upd a (lo + i) (g (lo + i)%nat (a (lo + i)%nat))) a k
  = if (Nat.leb lo k && Nat.ltb k (lo + n))%bool then g k (a k) else a k.
Proof.
  revert k. induction n as [|n IH]; intro k; cbn [for_loop].
  - nat_cases.
  - rewrite upd_at, !IH. nat_cases; subst; reflexivity.
Qed.

Lemma for_range_upd (g : nat -> X -> X) (lo hi : nat) (a : nat -> X) (k : nat) :
  for_range lo hi (fun i a => upd a i (g i (a i))) a k
  = if (Nat.leb lo k && Nat.ltb k hi)%bool then g k (a k) else a k.
Proof.
  unfold for_range. rewrite for_loop_upd_from. nat_cases.
Qed.

Lemma for_loop_upd2_row (g : nat -> X -> X) (i m : nat) (a : nat -> nat -> X)
  (i' j' : nat) :
  for_loop m (fun j a => upd2 a i j (g j (a i j))) a i' j'
  = if (Nat.eqb i' i && Nat.ltb j' m)%bool then g j' (a i' j') else a i' j'.
Proof.
  revert i' j'. induction m as [|m IH]; intros i' j'; cbn [for_loop].
  - nat_cases.
  - rewrite upd2_at, !IH. nat_cases; subst; reflexivity.
Qed.

Lemma for_loop_upd2 (g : nat -> nat -> X -> X) (n m : nat) (a : nat -> nat -> X)
  (i j : nat) :
  for_loop n
    (fun i a => for_loop m (fun j a => upd2 a i j (g i j (a i j))) a) a i j
  = if (Nat.ltb i n && Nat.ltb j m)%bool then g i j (a i j) else a i j.
Proof.
  revert i j. induction n as [|n IH]; intros i j; cbn [for_loop]; [reflexivity|].
  rewrite for_loop_upd2_row, !IH. nat_cases; subst; reflexivity.
Qed.

Lemma for_loop_upd3_row (g : nat -> X -> X) (i j m : nat)
  (a : nat -> nat -> nat -> X) (i' j' k' : nat) :
  for_loop m (fun k a => upd3 a i j k (g k (a i j k))) a i' j' k'
  = if (Nat.eqb i' i && Nat.eqb j' j && Nat.ltb k' m)%bool
    then g k' (a i' j' k') else a i' j' k'.
Proof.
  revert i' j' k'. induction m as [|m IH]; intros i' j' k'; cbn [for_loop].
  - nat_cases.
  - rewrite upd3_at, !IH. nat_cases; subst; reflexivity.
Qed.

Lemma for_loop_upd3_plane (g : nat -> nat -> X -> X) (i n m : nat)
  (a : nat -> nat -> nat -> X) (i' j' k' : nat) :
  for_loop n
    (fun j a => for_loop m (fun k a => upd3 a i j k (g j k (a i j k))) a) a i' j' k'
  = if (Nat.eqb i' i && Nat.ltb j' n && Nat.ltb k' m)%bool
    then g j' k' (a i' j' k') else a i' j' k'.
Proof.
  revert i' j' k'. induction n as [|n IH]; intros i' j' k'; cbn [for_loop].
  - nat_cases.
  - rewrite for_loop_upd3_row, !IH. nat_cases; subst; reflexivity.
Qed.

Lemma for_loop_upd3 (g : nat -> nat -> nat -> X -> X) (l n m : nat)
  (a : nat -> nat -> nat -> X) (i j k : nat) :
  for_loop l
    (fun i a =>
       for_loop n
         (fun j a => for_loop m (fun k a => upd3 a i j k (g i j k (a i j k))) a) a)
    a i j k
  = if (Nat.ltb i l && Nat.ltb j n && Nat.ltb k m)%bool
    then g i j k (a i j k) else a i j k.
Proof.
  revert i j k. induction l as [|l IH]; intros i j k; cbn [for_loop]; [reflexivity|].
  rewrite for_loop_upd3_plane, !IH. nat_cases; subst; reflexivity.
Qed.

End LoopLemmas.

(** A loop whose body only reads what [f] and [f'] agree on. *)
Lemma for_loop_ext {S : Type} (n : nat) (body body' : nat -> S -> S) (s : S) :
  (forall k t, (k < n)%nat -> body k t = body' k t) ->
  for_loop n body s = for_loop n body' s.
Proof.
  induction n as [|n IH]; intro E; cbn [for_loop]; [reflexivity|].
  rewrite IH by (intros; apply E; lia). apply E. lia.
Qed.

(** Projections of updated records. *)
Ltac ambi_fields :=
  cbn [fst snd
       AmbiBin.hSTFT AmbiBin.STFTInputFrameTF AmbiBin.STFTOutputFrameTF
       AmbiBin.tempHopFrameTD AmbiBin.SHFrameTD AmbiBin.SHframeTF
       AmbiBin.prev_SHframeTF AmbiBin.binframeTF AmbiBin.current_M
       AmbiBin.prev_M AmbiBin.interpolator AmbiBin.EQ AmbiBin.pars
       AmbiBin.path_heap AmbiBin.reInitCodec AmbiBin.reInitTFT
       AmbiBin.useDefaultHRIRsFLAG AmbiBin.chOrdering AmbiBin.norm
       AmbiBin.rE_WEIGHT AmbiBin.enableEQ AmbiBin.yaw AmbiBin.pitch
       AmbiBin.roll AmbiBin.bFlipYaw AmbiBin.bFlipPitch AmbiBin.bFlipRoll
       AmbiBin.orderSelected AmbiBin.order AmbiBin.nSH AmbiBin.new_nSH
       AmbiBin.fs AmbiBin.freqVector AmbiBin.sofa_filepath
       AmbiBin.hrir_set AmbiBin.N_hrir_dirs AmbiBin.hrir_len
       AmbiBin.hrir_fs AmbiBin.M_dec AmbiBin.set_sofa_filepath
       AmbiBin.set_hSTFT AmbiBin.set_STFTInputFrameTF
       AmbiBin.set_STFTOutputFrameTF AmbiBin.set_tempHopFrameTD
       AmbiBin.set_SHFrameTD AmbiBin.set_SHframeTF
       AmbiBin.set_prev_SHframeTF AmbiBin.set_binframeTF
       AmbiBin.set_current_M AmbiBin.set_prev_M AmbiBin.set_interpolator
       AmbiBin.set_pars AmbiBin.set_path_heap AmbiBin.set_reInitCodec
       AmbiBin.set_reInitTFT AmbiBin.set_useDefaultHRIRsFLAG
       AmbiBin.set_chOrdering AmbiBin.set_norm AmbiBin.set_rE_WEIGHT
       AmbiBin.set_enableEQ AmbiBin.set_yaw AmbiBin.set_pitch
       AmbiBin.set_roll AmbiBin.set_bFlipYaw AmbiBin.set_bFlipPitch
       AmbiBin.set_bFlipRoll AmbiBin.set_orderSelected AmbiBin.set_order
       AmbiBin.set_new_nSH AmbiBin.set_fs AmbiBin.set_freqVector] in *.

Ltac bina_fields :=
  cbn [fst snd
       Binauraliser.hSTFT Binauraliser.STFTInputFrameTF
       Binauraliser.STFTOutputFrameTF Binauraliser.tempHopFrameTD
       Binauraliser.inputFrameTD Binauraliser.inputframeTF
       Binauraliser.outputframeTF Binauraliser.hrir_data
       Binauraliser.sofa_filepath Binauraliser.path_heap
       Binauraliser.hrtf_fb Binauraliser.hrtf_interp
       Binauraliser.src_dirs_deg Binauraliser.src_dirs_xyz
       Binauraliser.src_dirs_rot_xyz Binauraliser.src_dirs_rot_deg
       Binauraliser.recalc_hrtf_interpFLAG Binauraliser.recalc_M_rotFLAG
       Binauraliser.reInitHRTFsAndGainTables Binauraliser.reInitTFT
       Binauraliser.useDefaultHRIRsFLAG Binauraliser.nSources
       Binauraliser.new_nSources Binauraliser.input_nDims
       Binauraliser.interpMode Binauraliser.yaw Binauraliser.pitch
       Binauraliser.roll Binauraliser.bFlipYaw Binauraliser.bFlipPitch
       Binauraliser.bFlipRoll Binauraliser.useRollPitchYawFlag
       Binauraliser.enableRotation Binauraliser.fs Binauraliser.freqVector
       Binauraliser.set_hSTFT Binauraliser.set_STFTInputFrameTF
       Binauraliser.set_STFTOutputFrameTF Binauraliser.set_tempHopFrameTD
       Binauraliser.set_inputFrameTD Binauraliser.set_inputframeTF
       Binauraliser.set_outputframeTF Binauraliser.set_sofa_filepath
       Binauraliser.set_path_heap Binauraliser.set_hrtf_interp
       Binauraliser.set_src_dirs_deg Binauraliser.set_src_dirs_xyz
       Binauraliser.set_src_dirs_rot_xyz Binauraliser.set_src_dirs_rot_deg
       Binauraliser.set_recalc_hrtf_interpFLAG
       Binauraliser.set_recalc_M_rotFLAG
       Binauraliser.set_reInitHRTFsAndGainTables
       Binauraliser.set_reInitTFT Binauraliser.set_useDefaultHRIRsFLAG
       Binauraliser.set_new_nSources Binauraliser.set_input_nDims
       Binauraliser.set_interpMode Binauraliser.set_yaw
       Binauraliser.set_pitch Binauraliser.set_roll
       Binauraliser.set_bFlipYaw Binauraliser.set_bFlipPitch
       Binauraliser.set_bFlipRoll Binauraliser.set_useRollPitchYawFlag
       Binauraliser.set_enableRotation Binauraliser.set_fs
       Binauraliser.set_freqVector] in *.

(** ** ambi_bin: the block *)

Section AmbiBinFacts.
Context {F : Type} `{FloatOps F} `{Dims} `{Filterbank F}.
Variable HRIR : Type.
Variable initTFT initCodec : AmbiBin.ambi_bin_data HRIR -> AmbiBin.ambi_bin_data HRIR.
Variable ypr : F -> F -> F -> nat -> nat -> F.
Variable getSH : (nat -> nat -> F) -> Z -> nat -> F.
Variable fade : bool.

Local Abbreviation process := (AmbiBin.ambi_bin_process initTFT initCodec ypr getSH fade).
Local Abbreviation reinit := (AmbiBin.reinit_if_needed initTFT initCodec).
Local Abbreviation decode := (AmbiBin.decode ypr getSH fade).
Local Abbreviation analyse := (AmbiBin.analyse fade).
Local Abbreviation mix := (AmbiBin.mix ypr getSH).

(** [memset(outputs[ch], 0, FRAME_SIZE*sizeof(float))] for the channels
    below [nOutputs]: what each sample of the buffers holds afterwards. *)
Lemma ambi_silence_at (nOutputs : Z) (outputs : nat -> nat -> F) (ch i : nat) :
  AmbiBin.silence nOutputs outputs ch i
  = if ((Z.of_nat ch <? nOutputs)%Z && Nat.ltb i FRAME_SIZE)%bool
    then Fzero else outputs ch i.
Proof.
  unfold AmbiBin.silence.
  rewrite (for_loop_upd (fun _ row => memset Fzero row FRAME_SIZE)).
  unfold memset. destruct (Z.ltb_spec (Z.of_nat ch) nOutputs); nat_cases.
Qed.

Lemma ambi_can_process_false (s : AmbiBin.ambi_bin_data HRIR) (nSamples isPlaying : Z) :
  nSamples <> Z.of_nat FRAME_SIZE \/ isPlaying = 0%Z
  \/ AmbiBin.reInitCodec s <> 0%Z \/ AmbiBin.reInitTFT s <> 0%Z ->
  AmbiBin.can_process s nSamples isPlaying = false.
Proof.
  unfold AmbiBin.can_process, nonzero.
  intros [E|[E|[E|E]]];
    repeat match goal with
    | |- context [Z.eqb ?a ?b] => destruct (Z.eqb_spec a b)
    end; cbn; try reflexivity; congruence.
Qed.

Lemma ambi_process_else (s : AmbiBin.ambi_bin_data HRIR)
  (inputs outputs : nat -> nat -> F) (nInputs nOutputs nSamples isPlaying : Z) :
  AmbiBin.can_process (fst (reinit s)) nSamples isPlaying = false ->
  process s inputs outputs nInputs nOutputs nSamples isPlaying
  = (fst (reinit s), AmbiBin.silence nOutputs outputs,
     List.app (snd (reinit s)) [EvSilence]).
Proof.
  intro E. unfold AmbiBin.ambi_bin_process.
  destruct (AmbiBin.reinit_if_needed initTFT initCodec s) as [s1 tr]. cbn [fst snd] in *.
  rewrite E. reflexivity.
Qed.

Lemma ambi_process_then (s : AmbiBin.ambi_bin_data HRIR)
  (inputs outputs : nat -> nat -> F) (nInputs nOutputs nSamples isPlaying : Z) :
  AmbiBin.can_process (fst (reinit s)) nSamples isPlaying = true ->
  process s inputs outputs nInputs nOutputs nSamples isPlaying
  = (decode (nonzero (AmbiBin.reInitTFT s) || nonzero (AmbiBin.reInitCodec s))%bool
       (fst (reinit s)) inputs outputs nInputs nOutputs,
     List.app (snd (reinit s)) [EvProcess]).
Proof.
  intro E. unfold AmbiBin.ambi_bin_process.
  destruct (AmbiBin.reinit_if_needed initTFT initCodec s) as [s1 tr]. cbn [fst snd] in *.
  rewrite E.
  destruct (AmbiBin.decode ypr getSH fade _ s1 inputs outputs nInputs nOutputs).
  reflexivity.
Qed.

(** What the stages of [decode] leave in the mixing matrices and subband
    buffers. *)
Lemma analyse_keeps (b : bool) (s : AmbiBin.ambi_bin_data HRIR) inputs nInputs :
  let a := analyse b s inputs nInputs in
  AmbiBin.order a = AmbiBin.order s
  /\ AmbiBin.pars a = AmbiBin.pars s
  /\ AmbiBin.current_M a = AmbiBin.current_M s
  /\ AmbiBin.prev_M a = AmbiBin.prev_M s
  /\ AmbiBin.prev_SHframeTF a = AmbiBin.prev_SHframeTF s
  /\ AmbiBin.interpolator a = AmbiBin.interpolator s
  /\ AmbiBin.block_nSH a = AmbiBin.block_nSH s.
Proof.
  unfold AmbiBin.analyse.
  destruct (AmbiBin.forward_TFT _ _ _) as [[h tmp] inTF].
  repeat split; reflexivity.
Qed.

Lemma synthesise_keeps (s : AmbiBin.ambi_bin_data HRIR) outputs nOutputs :
  let s' := fst (AmbiBin.synthesise fade s outputs nOutputs) in
  AmbiBin.current_M s' = AmbiBin.current_M s
  /\ AmbiBin.binframeTF s' = AmbiBin.binframeTF s
  /\ AmbiBin.prev_M s' = AmbiBin.prev_M s
  /\ AmbiBin.prev_SHframeTF s' = AmbiBin.prev_SHframeTF s
  /\ AmbiBin.SHframeTF s' = AmbiBin.SHframeTF s
  /\ AmbiBin.interpolator s' = AmbiBin.interpolator s.
Proof.
  unfold AmbiBin.synthesise.
  destruct (AmbiBin.inverse_TFT _ _ _) as [[h' tmp'] out'].
  repeat split; reflexivity.
Qed.

(** One band of the mixer. *)
Lemma mix_band_spec nsh ip cur prv X temp bin ear t :
  (ear < NUM_EARS)%nat -> (t < TIME_SLOTS)%nat ->
  snd (AmbiBin.mix_band nsh ip cur prv X (temp, bin)) ear t
  = crossfade (ip t) (matmul nsh cur X ear t) (matmul nsh prv X ear t).
Proof.
  intros He Ht. unfold AmbiBin.mix_band. cbn [snd].
  rewrite (for_loop_upd2
             (fun i j old =>
                ccaddf (crmulf old (ip j))
                  (crmulf (cblas_cgemm NUM_EARS TIME_SLOTS nsh prv X temp i j)
                     (Fsub Fone (ip j))))).
  unfold cblas_cgemm, crossfade, matmul. nat_cases.
Qed.

Lemma mix_to_headphones_spec nsh ip cur prv X bin band ear t :
  (band < HYBRID_BANDS)%nat -> (ear < NUM_EARS)%nat -> (t < TIME_SLOTS)%nat ->
  AmbiBin.mix_to_headphones nsh ip cur prv X bin band ear t
  = crossfade (ip t) (matmul nsh (cur band) (X band) ear t)
      (matmul nsh (prv band) (X band) ear t).
Proof.
  intros Hb He Ht. unfold AmbiBin.mix_to_headphones.
  generalize (fun (_ _ : nat) => @czero F _) as temp0.
  revert Hb. generalize HYBRID_BANDS as n.
  induction n as [|n IH]; intros Hb temp0; [lia|].
  cbn [for_loop].
  destruct (for_loop n _ (temp0, bin)) as [temp a] eqn:E.
  destruct (AmbiBin.mix_band nsh ip (cur n) (prv n) (X n) (temp, a n)) as [temp' b] eqn:Eb.
  cbn [snd]. rewrite upd_at.
  destruct (Nat.eqb_spec band n) as [->|Hne].
  - change b with (snd (temp', b)). rewrite <- Eb. apply mix_band_spec; assumption.
  - assert (Hlt : (band < n)%nat) by lia.
    specialize (IH Hlt temp0). rewrite E in IH. exact IH.
Qed.

(** "for next frame". *)
Lemma store_prev_M_spec nsh (cur prev : nat -> nat -> nat -> float_complex F)
  band ear ch :
  (band < HYBRID_BANDS)%nat -> (ear < NUM_EARS)%nat -> (ch < nsh)%nat ->
  AmbiBin.store_prev_M nsh cur prev band ear ch = cur band ear ch.
Proof.
  intros Hb He Hc. unfold AmbiBin.store_prev_M.
  rewrite (for_loop_upd2 (fun band i row => memcpy row (cur band i) nsh)).
  nat_cases; unfold memcpy; nat_cases.
Qed.

Lemma store_prev_SHframeTF_spec nsh (tf prev : nat -> nat -> nat -> float_complex F)
  band ch t :
  (band < HYBRID_BANDS)%nat -> (ch < nsh)%nat -> (t < TIME_SLOTS)%nat ->
  AmbiBin.store_prev_SHframeTF nsh tf prev band ch t = tf band ch t.
Proof.
  intros Hb Hc Ht. unfold AmbiBin.store_prev_SHframeTF.
  rewrite (for_loop_upd2 (fun band i row => memcpy row (tf band i) TIME_SLOTS)).
  nat_cases; unfold memcpy; nat_cases.
Qed.

(** Zeroth order: the decoding matrix is copied. *)
Lemma define_current_M_order0 nsh (dec : nat -> nat -> nat -> float_complex F)
  M_rot cur band ear ch :
  (band < HYBRID_BANDS)%nat -> (ear < NUM_EARS)%nat -> (ch < nsh)%nat ->
  AmbiBin.define_current_M 0 nsh dec M_rot cur band ear ch = dec band ear ch.
Proof.
  intros Hb He Hc. unfold AmbiBin.define_current_M.
  change (0 <? 0)%Z with false. cbv iota.
  rewrite (for_loop_upd2 (fun band i row => memcpy row (dec band i) nsh)).
  nat_cases; unfold memcpy; nat_cases.
Qed.

(** Higher orders: the decoding matrix times the rotation. *)
Lemma define_current_M_rotated ord nsh (dec : nat -> nat -> nat -> float_complex F)
  M_rot cur band ear ch :
  (0 < ord)%Z ->
  (band < HYBRID_BANDS)%nat -> (ear < NUM_EARS)%nat -> (ch < nsh)%nat ->
  AmbiBin.define_current_M ord nsh dec M_rot cur band ear ch
  = matmul nsh (dec band) M_rot ear ch.
Proof.
  intros Ho Hb He Hc. unfold AmbiBin.define_current_M.
  apply Z.ltb_lt in Ho. rewrite Ho.
  rewrite (for_loop_upd
             (fun band plane => cblas_cgemm NUM_EARS nsh nsh (dec band) M_rot plane)).
  nat_cases; unfold cblas_cgemm, matmul; nat_cases.
Qed.

(** With zeroth order selected the decoder never looks at the orientation. *)
Lemma decode_order0_orientation (b : bool) (s : AmbiBin.ambi_bin_data HRIR)
  (y p r : F) inputs outputs nInputs nOutputs :
  AmbiBin.order s = 0%Z ->
  let s' := AmbiBin.set_yaw y (AmbiBin.set_pitch p (AmbiBin.set_roll r s)) in
  AmbiBin.current_M (fst (decode b s' inputs outputs nInputs nOutputs))
  = AmbiBin.current_M (fst (decode b s inputs outputs nInputs nOutputs))
  /\ snd (decode b s' inputs outputs nInputs nOutputs)
     = snd (decode b s inputs outputs nInputs nOutputs).
Proof.
  intros Ho s'. subst s'.
  unfold AmbiBin.decode, AmbiBin.analyse, AmbiBin.block_nSH.
  ambi_fields.
  destruct (AmbiBin.forward_TFT _ _ _) as [[h tmp] inTF].
  unfold AmbiBin.mix, AmbiBin.block_current_M, AmbiBin.block_nSH.
  ambi_fields. rewrite Ho. change (0 <? 0)%Z with false. cbv iota.
  unfold AmbiBin.synthesise. ambi_fields.
  destruct (AmbiBin.inverse_TFT _ _ _) as [[h' tmp'] out'].
  split; reflexivity.
Qed.

(** The ramp written by [ambi_bin_init]. *)
Lemma init_interpolator_spec (ip : nat -> F) (k : nat) :
  AmbiBin.init_interpolator ip k
  = if Nat.ltb k TIME_SLOTS
    then Fdiv (Fmul (Fof_int (Z.of_nat (k + 1))) Fone) (Fof_int (Z.of_nat TIME_SLOTS))
    else ip k.
Proof.
  unfold AmbiBin.init_interpolator, for_range.
  replace (TIME_SLOTS + 1 - 1)%nat with TIME_SLOTS by lia.
  rewrite (for_loop_ext _ _
             (fun i a =>
                upd a i
                  (Fdiv (Fmul (Fof_int (Z.of_nat (i + 1))) Fone)
                     (Fof_int (Z.of_nat TIME_SLOTS))))).
  - rewrite (for_loop_upd
               (fun i _ =>
                  Fdiv (Fmul (Fof_int (Z.of_nat (i + 1))) Fone)
                    (Fof_int (Z.of_nat TIME_SLOTS)))).
    reflexivity.
  - intros i a _.
    replace (1 + i - 1)%nat with i by lia.
    replace (1 + i)%nat with (i + 1)%nat by lia. reflexivity.
Qed.

Lemma ambi_bin_init_interpolator t44 t48 (s : AmbiBin.ambi_bin_data HRIR) rate :
  AmbiBin.interpolator (AmbiBin.ambi_bin_init t44 t48 s rate)
  = AmbiBin.init_interpolator (AmbiBin.interpolator s).
Proof. reflexivity. Qed.

(** The re-initialisation pass. *)
Lemma ambi_reinit_spec (s : AmbiBin.ambi_bin_data HRIR) :
  let s1 := fst (AmbiBin.reinit_TFT_if_needed initTFT s) in
  reinit s
  = (fst (AmbiBin.reinit_codec_if_needed initCodec s1),
     List.app (rebuild_events TFT (AmbiBin.reInitTFT s))
       (rebuild_events Codec (AmbiBin.reInitCodec s1))).
Proof.
  unfold AmbiBin.reinit_if_needed, AmbiBin.reinit_TFT_if_needed,
    AmbiBin.reinit_codec_if_needed, rebuild_events.
  destruct (AmbiBin.reInitTFT s =? 1)%Z; cbn [fst snd];
    match goal with
    | |- context [(AmbiBin.reInitCodec ?x =? 1)%Z] =>
        destruct (AmbiBin.reInitCodec x =? 1)%Z
    end; reflexivity.
Qed.

Lemma ambi_reinit_TFT_spec (s : AmbiBin.ambi_bin_data HRIR) :
  AmbiBin.reinit_TFT_if_needed initTFT s
  = (if (AmbiBin.reInitTFT s =? 1)%Z
     then AmbiBin.set_reInitTFT 0 (initTFT (AmbiBin.set_reInitTFT 2 s))
     else s,
     rebuild_events TFT (AmbiBin.reInitTFT s)).
Proof.
  unfold AmbiBin.reinit_TFT_if_needed, rebuild_events.
  destruct (AmbiBin.reInitTFT s =? 1)%Z; reflexivity.
Qed.

Lemma ambi_process_trace (s : AmbiBin.ambi_bin_data HRIR)
  (inputs outputs : nat -> nat -> F) (nInputs nOutputs nSamples isPlaying : Z) :
  snd (process s inputs outputs nInputs nOutputs nSamples isPlaying)
  = List.app (snd (reinit s))
      [if AmbiBin.can_process (fst (reinit s)) nSamples isPlaying
       then EvProcess else EvSilence].
Proof.
  destruct (AmbiBin.can_process (fst (reinit s)) nSamples isPlaying) eqn:E.
  - rewrite ambi_process_then by exact E. reflexivity.
  - rewrite ambi_process_else by exact E. reflexivity.
Qed.

(** "Load time-domain data": the frame holds the input on the channels
    below [nInputs] and zeros on the others. *)
Lemma load_SHFrameTD_at (inputs : nat -> nat -> F) (nInputs : Z)
  (td : nat -> nat -> F) (ch i : nat) :
  (ch < MAX_NUM_SH_SIGNALS)%nat -> (i < FRAME_SIZE)%nat ->
  AmbiBin.load_SHFrameTD inputs nInputs td ch i
  = if (Z.of_nat ch <? nInputs)%Z then inputs ch i else Fzero.
Proof.
  intros Hch Hi. unfold AmbiBin.load_SHFrameTD. cbv zeta.
  rewrite (for_range_upd (fun _ row => memset Fzero row FRAME_SIZE)).
  rewrite (for_loop_upd (fun c row => memcpy row (inputs c) FRAME_SIZE)).
  unfold memset, memcpy, MINz.
  destruct (Z.ltb_spec (Z.of_nat MAX_NUM_SH_SIGNALS) nInputs),
    (Z.ltb_spec (Z.of_nat ch) nInputs); nat_cases; nat_cases.
Qed.

(** "Apply time-frequency transform (TFT)": after [T] time slots, slot [t]
    below [T] of [STFTInputFrameTF] holds what [afSTFTforward] made of hop
    [t] of the frame, and the later slots are as they were. *)
Lemma forward_TFT_slots (nsh : nat) (td : nat -> nat -> F)
  (h0 : stft) (tmp0 : nat -> nat -> F) (inTF0 : nat -> nat -> complexVector F)
  (T : nat) :
  let r :=
    for_loop T
      (fun t '(h, tmp, inTF) =>
         let tmp :=
           for_loop nsh
             (fun ch a =>
                for_loop HOP_SIZE
                  (fun sample a =>
                     upd2 a ch sample (td ch (sample + t * HOP_SIZE)%nat)) a)
             tmp in
         let '(h, out) := afSTFTforward h tmp (inTF t) in
         (h, tmp, upd inTF t out))
      (h0, tmp0, inTF0) in
  (forall t, (T <= t)%nat -> snd r t = inTF0 t)
  /\ (forall t, (t < T)%nat ->
        exists (h : stft) (tmp : nat -> nat -> F),
          snd r t = snd (afSTFTforward h tmp (inTF0 t))
          /\ forall c k, (c < nsh)%nat -> (k < HOP_SIZE)%nat ->
               tmp c k = td c (k + t * HOP_SIZE)%nat).
Proof.
  induction T as [|T [IH1 IH2]]; cbn [for_loop].
  - cbn [snd]. split; [reflexivity|]. intros; lia.
  - destruct (for_loop T _ (h0, tmp0, inTF0)) as [[h tmp] inTF].
    cbn [snd] in IH1, IH2.
    set (tmp' := for_loop nsh _ tmp).
    destruct (afSTFTforward h tmp' (inTF T)) as [h' out] eqn:E.
    cbn [snd]. split.
    + intros t Ht. rewrite upd_at. nat_cases. apply IH1. lia.
    + intros t Ht. rewrite upd_at.
      destruct (Nat.eqb_spec t T) as [->|Hne].
      * exists h, tmp'. rewrite <- (IH1 T) by lia. rewrite E. cbn [snd].
        split; [reflexivity|]. intros c k Hc Hk. subst tmp'.
        rewrite (for_loop_upd2 (fun ch sample _ => td ch (sample + T * HOP_SIZE)%nat)).
        nat_cases.
      * apply IH2. lia.
Qed.

(** The subbands the analysis stores: the bins of [STFTInputFrameTF] after
    the forward transform of the frame loaded from [inputs]. *)
Lemma analyse_SHframeTF (b : bool) (s : AmbiBin.ambi_bin_data HRIR)
  (inputs : nat -> nat -> F) (nInputs : Z) (band ch t : nat) :
  let loaded := AmbiBin.load_SHFrameTD inputs nInputs (AmbiBin.SHFrameTD s) in
  let frame :=
    AmbiBin.convert_norm (AmbiBin.norm s) (AmbiBin.order s)
      (if (fade && b)%bool then AmbiBin.fade_in loaded else loaded) in
  let analysed :=
    snd (AmbiBin.forward_TFT (AmbiBin.block_nSH s) frame
           (AmbiBin.hSTFT s, AmbiBin.tempHopFrameTD s, AmbiBin.STFTInputFrameTF s)) in
  (band < HYBRID_BANDS)%nat -> (ch < AmbiBin.block_nSH s)%nat ->
  (t < TIME_SLOTS)%nat ->
  AmbiBin.SHframeTF (analyse b s inputs nInputs) band ch t
  = cmplxf (re (analysed t ch) band) (im (analysed t ch) band).
Proof.
  intros loaded frame analysed Hb Hc Ht. subst analysed frame loaded.
  unfold AmbiBin.analyse. cbv zeta. ambi_fields.
  destruct (AmbiBin.forward_TFT _ _ _) as [[h tmp] inTF]. ambi_fields.
  unfold AmbiBin.fill_SHframeTF.
  rewrite (for_loop_upd3
             (fun band ch t _ => cmplxf (re (inTF t ch) band) (im (inTF t ch) band))).
  nat_cases.
Qed.

(** C2 (amended): in every processed block of the rotation-decode engine the
    mixer computes, for each band, ear and time slot [t],
    [ramp[t] * (current_M[band] * X[band])[ear][t]
     + (1 - ramp[t]) * (prev_M[band] * X[band])[ear][t]],
    both matrices being applied to the same subbands [X]; [X] is
    [prev_SHframeTF] as the block finds it, which is where every processed
    block keeps its own subbands for the next one: after the block, [SHframeTF]
    and [prev_SHframeTF] hold, on the channels below [nSH], the bins of
    [STFTInputFrameTF] after the forward transform of this block's frame;
    slot [t] of it is what [afSTFTforward] made of hop [t] of the frame
    (samples [t*HOP_SIZE] to [(t+1)*HOP_SIZE - 1] of the channels below
    [nSH]); and the frame is the input, with zeros on the channels from
    [nInputs] on, after the fade-in, if one applies, and the conversion of
    the normalisation. *)
Theorem crossfade_mixes_previous_subbands
  (s : AmbiBin.ambi_bin_data HRIR) (inputs outputs : nat -> nat -> F)
  (nInputs nOutputs nSamples isPlaying : Z) (band ear t : nat) :
  let s1 := fst (reinit s) in
  let s' := fst (fst (process s inputs outputs nInputs nOutputs nSamples isPlaying)) in
  let nsh := AmbiBin.block_nSH s1 in
  let X := AmbiBin.prev_SHframeTF s1 in
  let loaded := AmbiBin.load_SHFrameTD inputs nInputs (AmbiBin.SHFrameTD s1) in
  let frame :=
    AmbiBin.convert_norm (AmbiBin.norm s1) (AmbiBin.order s1)
      (if (fade && (nonzero (AmbiBin.reInitTFT s) || nonzero (AmbiBin.reInitCodec s)))%bool
       then AmbiBin.fade_in loaded else loaded) in
  let analysed :=
    snd (AmbiBin.forward_TFT nsh frame
           (AmbiBin.hSTFT s1, AmbiBin.tempHopFrameTD s1,
            AmbiBin.STFTInputFrameTF s1)) in
  AmbiBin.can_process s1 nSamples isPlaying = true ->
  (band < HYBRID_BANDS)%nat -> (ear < NUM_EARS)%nat -> (t < TIME_SLOTS)%nat ->
  AmbiBin.binframeTF s' band ear t
  = crossfade (AmbiBin.interpolator s1 t)
      (matmul nsh (AmbiBin.current_M s' band) (X band) ear t)
      (matmul nsh (AmbiBin.prev_M s1 band) (X band) ear t)
  /\ (forall ch, (ch < nsh)%nat ->
        AmbiBin.prev_SHframeTF s' band ch t = AmbiBin.SHframeTF s' band ch t
        /\ AmbiBin.SHframeTF s' band ch t
           = cmplxf (re (analysed t ch) band) (im (analysed t ch) band))
  /\ (exists (h : stft) (tmp : nat -> nat -> F),
        analysed t = snd (afSTFTforward h tmp (AmbiBin.STFTInputFrameTF s1 t))
        /\ forall c k, (c < nsh)%nat -> (k < HOP_SIZE)%nat ->
             tmp c k = frame c (k + t * HOP_SIZE)%nat)
  /\ (forall c i, (c < MAX_NUM_SH_SIGNALS)%nat -> (i < FRAME_SIZE)%nat ->
        loaded c i = if (Z.of_nat c <? nInputs)%Z then inputs c i else Fzero).
Proof.
  intros s1 s' nsh X loaded frame analysed Hcan Hb He Ht.
  split; [|split; [|split]].
  - subst s' nsh X.
    rewrite ambi_process_then by exact Hcan. cbn [fst]. fold s1.
    set (b := (nonzero _ || nonzero _)%bool). unfold AmbiBin.decode.
    destruct (synthesise_keeps (mix (analyse b s1 inputs nInputs)) outputs nOutputs)
      as (Ec & Eb & _ & Eps & Esh & _).
    destruct (analyse_keeps b s1 inputs nInputs) as (_ & _ & _ & Apm & Aps & Ai & An).
    cbv zeta in *. rewrite Eb, Ec. clear Eb Ec Eps Esh.
    unfold AmbiBin.mix. ambi_fields.
    rewrite mix_to_headphones_spec by assumption.
    rewrite An, Ai, Apm, Aps. reflexivity.
  - intros ch Hch. subst s'.
    rewrite ambi_process_then by exact Hcan. cbn [fst]. fold s1.
    unfold AmbiBin.decode.
    destruct (synthesise_keeps
                (mix (analyse (nonzero (AmbiBin.reInitTFT s)
                               || nonzero (AmbiBin.reInitCodec s))%bool
                        s1 inputs nInputs)) outputs nOutputs)
      as (_ & _ & _ & Eps & Esh & _).
    destruct (analyse_keeps (nonzero (AmbiBin.reInitTFT s)
                             || nonzero (AmbiBin.reInitCodec s))%bool
                s1 inputs nInputs) as (_ & _ & _ & _ & _ & _ & An).
    cbv zeta in *. rewrite Eps, Esh. clear Eps Esh.
    unfold AmbiBin.mix. ambi_fields. rewrite An. fold nsh.
    rewrite store_prev_SHframeTF_spec by assumption.
    split; [reflexivity|].
    apply analyse_SHframeTF; assumption.
  - subst analysed. unfold AmbiBin.forward_TFT.
    destruct (forward_TFT_slots nsh frame (AmbiBin.hSTFT s1)
                (AmbiBin.tempHopFrameTD s1) (AmbiBin.STFTInputFrameTF s1) TIME_SLOTS)
      as [_ Hslots].
    exact (Hslots t Ht).
  - intros c i Hc Hi. subst loaded. apply load_SHFrameTD_at; assumption.
Qed.

(** C4: in every processed block with [order = 0] the current mixing matrix
    of every band is the decoding matrix [M_dec[band]] itself, on its one
    column; hence it, and the output of the block, are the same for all
    yaw, pitch and roll values, the rest of the engine being the same. *)
Theorem order0_matrix_is_decoder
  (s : AmbiBin.ambi_bin_data HRIR) (inputs outputs : nat -> nat -> F)
  (nInputs nOutputs nSamples isPlaying : Z) :
  let s1 := fst (reinit s) in
  let run s := fst (process s inputs outputs nInputs nOutputs nSamples isPlaying) in
  AmbiBin.can_process s1 nSamples isPlaying = true ->
  AmbiBin.order s1 = 0%Z ->
  (forall band ear ch,
     (band < HYBRID_BANDS)%nat -> (ear < NUM_EARS)%nat ->
     (ch < AmbiBin.block_nSH s1)%nat ->
     AmbiBin.current_M (fst (run s)) band ear ch
     = AmbiBin.M_dec (AmbiBin.pars s1) band ear ch)
  /\ AmbiBin.block_nSH s1 = 1%nat
  /\ (AmbiBin.reInitTFT s = 0%Z -> AmbiBin.reInitCodec s = 0%Z ->
      forall y p r,
        let s_rot := AmbiBin.set_yaw y (AmbiBin.set_pitch p (AmbiBin.set_roll r s)) in
        AmbiBin.current_M (fst (run s_rot)) = AmbiBin.current_M (fst (run s))
        /\ snd (run s_rot) = snd (run s)).
Proof.
  intros s1 run Hcan Ho. subst run. cbv beta.
  split; [|split].
  - intros band ear ch Hb He Hc.
    rewrite ambi_process_then by exact Hcan. cbn [fst]. fold s1.
    set (b := (nonzero _ || nonzero _)%bool). unfold AmbiBin.decode.
    destruct (synthesise_keeps (mix (analyse b s1 inputs nInputs)) outputs nOutputs)
      as (Ec & _).
    destruct (analyse_keeps b s1 inputs nInputs) as (Ao & Ap & Ac & _ & _ & _ & An).
    cbv zeta in *. rewrite Ec. unfold AmbiBin.mix. ambi_fields.
    unfold AmbiBin.block_current_M. cbv zeta. rewrite Ao, Ap, Ac, An, Ho.
    apply define_current_M_order0; assumption.
  - unfold AmbiBin.block_nSH. rewrite Ho. reflexivity.
  - intros Ht Hc y p r s_rot.
    assert (Es : reinit s = (s, [])).
    { unfold AmbiBin.reinit_if_needed, AmbiBin.reinit_TFT_if_needed,
        AmbiBin.reinit_codec_if_needed. rewrite Ht. cbn [Z.eqb]. rewrite Hc.
      reflexivity. }
    assert (Er : reinit s_rot = (s_rot, [])).
    { subst s_rot.
      unfold AmbiBin.reinit_if_needed, AmbiBin.reinit_TFT_if_needed,
        AmbiBin.reinit_codec_if_needed. ambi_fields. rewrite Ht. cbn [Z.eqb].
      ambi_fields. rewrite Hc. reflexivity. }
    assert (E1 : s1 = s) by (subst s1; rewrite Es; reflexivity).
    rewrite E1 in *.
    rewrite (ambi_process_then s) by (rewrite Es; exact Hcan).
    rewrite (ambi_process_then s_rot)
      by (rewrite Er; subst s_rot; unfold AmbiBin.can_process in *; ambi_fields;
          exact Hcan).
    rewrite Es, Er. cbn [fst snd].
    subst s_rot. ambi_fields.
    apply decode_order0_orientation. exact Ho.
Qed.

End AmbiBinFacts.

(** ** binauraliser: the block *)

Lemma for_loop_preserves {S A : Type} (proj : S -> A) (n : nat)
  (body : nat -> S -> S) (s : S) :
  (forall k t, proj (body k t) = proj t) ->
  proj (for_loop n body s) = proj s.
Proof.
  intro E. induction n as [|n IH]; cbn [for_loop]; [reflexivity|].
  rewrite E. exact IH.
Qed.

Section BinauraliserFacts.
Context {F : Type} `{FloatOps F} `{Dims} `{Filterbank F}.
Variable HRIR HRTF : Type.
Local Abbreviation state := (Binauraliser.binauraliser_data HRIR HRTF).
Variable initTFT initHRTFs : state -> state.
Variable interpHRTFs :
  state -> F -> F -> (nat -> nat -> float_complex F) -> nat -> nat -> float_complex F.
Variable ypr : F -> F -> F -> Z -> nat -> nat -> F.
Variable cosf sinf : F -> F.
Variable atan2f powf : F -> F -> F.
Variable apple : bool.

Local Abbreviation process :=
  (Binauraliser.binauraliser_process initTFT initHRTFs interpHRTFs ypr
     cosf sinf atan2f powf apple).
Local Abbreviation pan :=
  (Binauraliser.pan interpHRTFs ypr cosf sinf atan2f powf).
Local Abbreviation main_processing :=
  (Binauraliser.main_processing interpHRTFs ypr cosf sinf atan2f powf).
Local Abbreviation apply_source := (Binauraliser.apply_source interpHRTFs).
Local Abbreviation reinit := (Binauraliser.reinit_if_needed initTFT initHRTFs apple).
Local Abbreviation mix := (Binauraliser.mix interpHRTFs ypr cosf sinf atan2f powf).
Local Abbreviation rotate_sources :=
  (Binauraliser.rotate_sources ypr cosf sinf atan2f powf).

Lemma bina_silence_at (nOutputs : Z) (outputs : nat -> nat -> F) (ch i : nat) :
  Binauraliser.silence nOutputs outputs ch i
  = if ((Z.of_nat ch <? nOutputs)%Z && Nat.ltb i FRAME_SIZE)%bool
    then Fzero else outputs ch i.
Proof.
  unfold Binauraliser.silence.
  rewrite (for_loop_upd (fun _ row => memset Fzero row FRAME_SIZE)).
  unfold memset. destruct (Z.ltb_spec (Z.of_nat ch) nOutputs); nat_cases.
Qed.

Lemma bina_can_process_false (s : state) (nSamples : Z) :
  nSamples <> Z.of_nat FRAME_SIZE \/ Binauraliser.hrtf_fb s = None
  \/ Binauraliser.reInitTFT s <> 0%Z
  \/ Binauraliser.reInitHRTFsAndGainTables s <> 0%Z ->
  Binauraliser.can_process s nSamples = false.
Proof.
  unfold Binauraliser.can_process.
  intros [E|[E|[E|E]]]; try rewrite E;
    repeat match goal with
    | |- context [Z.eqb ?a ?b] => destruct (Z.eqb_spec a b)
    end; cbn; try reflexivity; try congruence;
    destruct (Binauraliser.hrtf_fb s); reflexivity.
Qed.

Lemma bina_process_else (s : state)
  (inputs outputs : nat -> nat -> F) (nInputs nOutputs nSamples isPlaying : Z) :
  Binauraliser.can_process (fst (reinit s)) nSamples = false ->
  process s inputs outputs nInputs nOutputs nSamples isPlaying
  = (fst (reinit s), Binauraliser.silence nOutputs outputs,
     List.app (snd (reinit s)) [EvSilence]).
Proof.
  intro E. unfold Binauraliser.binauraliser_process, Binauraliser.reinit_if_needed in *.
  destruct (if apple then _ else _) as [s1 tr]. cbn [fst snd] in *.
  rewrite E. reflexivity.
Qed.

Lemma bina_process_then (s : state)
  (inputs outputs : nat -> nat -> F) (nInputs nOutputs nSamples isPlaying : Z) :
  Binauraliser.can_process (fst (reinit s)) nSamples = true ->
  process s inputs outputs nInputs nOutputs nSamples isPlaying
  = (pan (fst (reinit s)) inputs outputs nInputs nOutputs isPlaying,
     List.app (snd (reinit s)) [EvProcess]).
Proof.
  intro E. unfold Binauraliser.binauraliser_process, Binauraliser.reinit_if_needed in *.
  destruct (if apple then _ else _) as [s1 tr]. cbn [fst snd] in *.
  rewrite E.
  destruct (Binauraliser.pan _ _ _ _ _ _ s1 inputs outputs nInputs nOutputs isPlaying).
  reflexivity.
Qed.

(** What the stages leave in the subband buffers. *)
Lemma pan_fields (s : state) inputs outputs nInputs nOutputs isPlaying :
  let s' := fst (pan s inputs outputs nInputs nOutputs isPlaying) in
  let m := mix (Binauraliser.nSources s) (Binauraliser.enableRotation s) isPlaying
             (Binauraliser.analyse s inputs nInputs) in
  Binauraliser.outputframeTF s' = Binauraliser.outputframeTF m
  /\ Binauraliser.inputframeTF s' = Binauraliser.inputframeTF m
  /\ Binauraliser.hrtf_interp s' = Binauraliser.hrtf_interp m.
Proof.
  unfold Binauraliser.pan, Binauraliser.synthesise. cbn zeta.
  destruct (Binauraliser.inverse_TFT _ _ _) as [[[h' outTF] tmp'] out'].
  repeat split; reflexivity.
Qed.

(** Not playing: the output subbands are cleared. *)
Lemma mix_not_playing nsrc rot (s : state) band ear t :
  (band < HYBRID_BANDS)%nat -> (ear < NUM_EARS)%nat -> (t < TIME_SLOTS)%nat ->
  Binauraliser.outputframeTF (mix nsrc rot 0 s) band ear t = czero.
Proof.
  intros Hb He Ht. unfold Binauraliser.mix. cbn [nonzero Z.eqb negb].
  cbn [Binauraliser.outputframeTF Binauraliser.set_outputframeTF].
  unfold Binauraliser.memset3. nat_cases.
Qed.

(** One source. *)
Lemma apply_source_inputframeTF rot ch (s : state) :
  Binauraliser.inputframeTF (apply_source rot ch s) = Binauraliser.inputframeTF s.
Proof.
  unfold Binauraliser.apply_source.
  destruct (nonzero (Binauraliser.recalc_hrtf_interpFLAG s ch)); reflexivity.
Qed.

Lemma apply_source_hrtf_interp rot ch (s : state) ch' :
  ch' <> ch ->
  Binauraliser.hrtf_interp (apply_source rot ch s) ch'
  = Binauraliser.hrtf_interp s ch'.
Proof.
  intro Hne. unfold Binauraliser.apply_source.
  destruct (nonzero (Binauraliser.recalc_hrtf_interpFLAG s ch)); [|reflexivity].
  cbn [Binauraliser.hrtf_interp Binauraliser.set_outputframeTF
       Binauraliser.set_recalc_hrtf_interpFLAG Binauraliser.set_hrtf_interp].
  rewrite upd_at. nat_cases.
Qed.

Lemma apply_source_outputframeTF rot ch (s : state) band ear t :
  (band < HYBRID_BANDS)%nat -> (ear < NUM_EARS)%nat -> (t < TIME_SLOTS)%nat ->
  Binauraliser.outputframeTF (apply_source rot ch s) band ear t
  = ccaddf (Binauraliser.outputframeTF s band ear t)
      (ccmulf (Binauraliser.inputframeTF s band ch t)
         (Binauraliser.hrtf_interp (apply_source rot ch s) ch band ear)).
Proof.
  intros Hb He Ht. unfold Binauraliser.apply_source.
  destruct (nonzero (Binauraliser.recalc_hrtf_interpFLAG s ch));
    cbn [Binauraliser.outputframeTF Binauraliser.inputframeTF
         Binauraliser.hrtf_interp Binauraliser.set_outputframeTF
         Binauraliser.set_recalc_hrtf_interpFLAG Binauraliser.set_hrtf_interp];
    unfold Binauraliser.accumulate_source;
    match goal with
    | |- for_loop _ _ ?a _ _ _ = ccaddf _ (ccmulf _ (?hi ch band ear)) =>
        rewrite (for_loop_upd3
                   (fun band ear t old =>
                      ccaddf old
                        (ccmulf (Binauraliser.inputframeTF s band ch t)
                           (hi ch band ear))))
    end; nat_cases.
Qed.

(** All sources: the accumulation loop. *)
Lemma apply_sources_spec rot (n : nat) (s : state) :
  let s' := for_loop n (apply_source rot) s in
  Binauraliser.inputframeTF s' = Binauraliser.inputframeTF s
  /\ forall band ear t,
       (band < HYBRID_BANDS)%nat -> (ear < NUM_EARS)%nat -> (t < TIME_SLOTS)%nat ->
       Binauraliser.outputframeTF s' band ear t
       = for_loop n
           (fun ch acc =>
              ccaddf acc
                (ccmulf (Binauraliser.inputframeTF s band ch t)
                   (Binauraliser.hrtf_interp s' ch band ear)))
           (Binauraliser.outputframeTF s band ear t).
Proof.
  induction n as [|n [IHi IHo]]; cbn zeta in *; cbn [for_loop].
  - split; reflexivity.
  - split.
    + rewrite apply_source_inputframeTF. exact IHi.
    + intros band ear t Hb He Ht.
      rewrite apply_source_outputframeTF by assumption.
      rewrite IHi, IHo by assumption.
      f_equal. apply for_loop_ext. intros k acc Hk.
      rewrite apply_source_hrtf_interp by lia. reflexivity.
Qed.

Lemma rotate_sources_inputframeTF n (s : state) :
  Binauraliser.inputframeTF (rotate_sources n s) = Binauraliser.inputframeTF s.
Proof.
  unfold Binauraliser.rotate_sources.
  cbn [Binauraliser.inputframeTF Binauraliser.set_recalc_M_rotFLAG].
  rewrite (for_loop_preserves (@Binauraliser.inputframeTF F _ HRIR HRTF))
    by (intros; reflexivity).
  cbn [Binauraliser.inputframeTF Binauraliser.set_src_dirs_rot_xyz].
  rewrite (for_loop_preserves (@Binauraliser.inputframeTF F _ HRIR HRTF))
    by (intros; reflexivity).
  reflexivity.
Qed.

(** "Main processing": the sum over the sources, then the scaling. *)
Lemma main_processing_spec nsrc rot (s : state) band ear t :
  (band < HYBRID_BANDS)%nat -> (ear < NUM_EARS)%nat -> (t < TIME_SLOTS)%nat ->
  let s' := main_processing nsrc rot s in
  Binauraliser.outputframeTF s' band ear t
  = crmulf
      (source_sum (Z.to_nat nsrc) (Binauraliser.inputframeTF s')
         (Binauraliser.hrtf_interp s') band ear t)
      (Fdiv Fone (sqrtf (Fof_int nsrc))).
Proof.
  intros Hb He Ht. unfold Binauraliser.main_processing.
  set (s0 := if (nonzero rot && nonzero (Binauraliser.recalc_M_rotFLAG s))%bool
             then rotate_sources (Z.to_nat nsrc) s else s).
  set (s1 := Binauraliser.set_outputframeTF _ s0).
  cbn zeta.
  cbn [Binauraliser.outputframeTF Binauraliser.inputframeTF
       Binauraliser.hrtf_interp Binauraliser.set_outputframeTF].
  unfold Binauraliser.scale_by_nSources.
  rewrite (for_loop_upd3
             (fun _ _ _ old => crmulf old (Fdiv Fone (sqrtf (Fof_int nsrc))))).
  destruct (apply_sources_spec rot (Z.to_nat nsrc) s1) as [Ei Eo].
  cbn zeta in Ei, Eo.
  rewrite Eo, Ei by assumption.
  nat_cases. f_equal. unfold source_sum. f_equal.
  subst s1. cbn [Binauraliser.outputframeTF Binauraliser.set_outputframeTF].
  unfold Binauraliser.memset3. nat_cases.
Qed.

(** The output subbands of a processed, playing block. *)
Lemma playing_block_outputframeTF
  (s : state) (inputs outputs : nat -> nat -> F)
  (nInputs nOutputs nSamples isPlaying : Z) (band ear t : nat) :
  let s1 := fst (reinit s) in
  let s' := fst (fst (process s inputs outputs nInputs nOutputs nSamples isPlaying)) in
  Binauraliser.can_process s1 nSamples = true ->
  isPlaying <> 0%Z ->
  (band < HYBRID_BANDS)%nat -> (ear < NUM_EARS)%nat -> (t < TIME_SLOTS)%nat ->
  Binauraliser.outputframeTF s' band ear t
  = crmulf
      (source_sum (Z.to_nat (Binauraliser.nSources s1))
         (Binauraliser.inputframeTF s') (Binauraliser.hrtf_interp s') band ear t)
      (Fdiv Fone (sqrtf (Fof_int (Binauraliser.nSources s1)))).
Proof.
  intros s1 s' Hcan Hplay Hb He Ht. subst s'.
  rewrite bina_process_then by exact Hcan. cbn [fst]. fold s1.
  destruct (pan_fields s1 inputs outputs nInputs nOutputs isPlaying) as (Eo & Ei & Eh).
  cbv zeta in *. rewrite Eo, Ei, Eh. clear Eo Ei Eh.
  unfold Binauraliser.mix, nonzero.
  destruct (Z.eqb_spec isPlaying 0); [contradiction|]. cbn [negb].
  apply main_processing_spec; assumption.
Qed.

(** C5: in the HRTF-interpolation engine, once the HRTF-weighted subbands of
    all [nSources] sources have been summed, every entry of the output
    subband tensor is that sum multiplied by [1/sqrt(nSources)], for every
    [nSources >= 1]. *)
Theorem output_is_scaled_source_sum
  (s : state) (inputs outputs : nat -> nat -> F)
  (nInputs nOutputs nSamples isPlaying : Z) (band ear t : nat) :
  let s1 := fst (reinit s) in
  let s' := fst (fst (process s inputs outputs nInputs nOutputs nSamples isPlaying)) in
  let n := Binauraliser.nSources s1 in
  Binauraliser.can_process s1 nSamples = true ->
  isPlaying <> 0%Z ->
  (1 <= n)%Z ->
  (band < HYBRID_BANDS)%nat -> (ear < NUM_EARS)%nat -> (t < TIME_SLOTS)%nat ->
  Binauraliser.outputframeTF s' band ear t
  = crmulf
      (source_sum (Z.to_nat n) (Binauraliser.inputframeTF s')
         (Binauraliser.hrtf_interp s') band ear t)
      (Fdiv Fone (sqrtf (Fof_int n))).
Proof.
  intros s1 s' n Hcan Hplay _ Hb He Ht.
  apply playing_block_outputframeTF; assumption.
Qed.

(** Not playing: the output subbands of a processed block are cleared. *)
Lemma idle_block_outputframeTF
  (s : state) (inputs outputs : nat -> nat -> F)
  (nInputs nOutputs nSamples : Z) (band ear t : nat) :
  let s1 := fst (reinit s) in
  let s' := fst (fst (process s inputs outputs nInputs nOutputs nSamples 0)) in
  Binauraliser.can_process s1 nSamples = true ->
  (band < HYBRID_BANDS)%nat -> (ear < NUM_EARS)%nat -> (t < TIME_SLOTS)%nat ->
  Binauraliser.outputframeTF s' band ear t = czero.
Proof.
  intros s1 s' Hcan Hb He Ht. subst s'.
  rewrite bina_process_then by exact Hcan. cbn [fst]. fold s1.
  destruct (pan_fields s1 inputs outputs nInputs nOutputs 0) as (Eo & _).
  cbv zeta in *. rewrite Eo. apply mix_not_playing; assumption.
Qed.

(** The synthesis reads the output subbands below the three bounds only. *)
Lemma bina_inverse_TFT_ext (nOutputs : Z)
  (out out' : nat -> nat -> nat -> float_complex F)
  (st : stft * (nat -> complexVector F) * (nat -> nat -> F) * (nat -> nat -> F)) :
  (forall band ch t,
     (band < HYBRID_BANDS)%nat -> (ch < NUM_EARS)%nat -> (t < TIME_SLOTS)%nat ->
     out band ch t = out' band ch t) ->
  Binauraliser.inverse_TFT nOutputs out st = Binauraliser.inverse_TFT nOutputs out' st.
Proof.
  intro E. unfold Binauraliser.inverse_TFT. apply for_loop_ext.
  intros t [[[h outTF] tmp] outputs] Ht.
  replace (for_loop HYBRID_BANDS
             (fun band a =>
                for_loop NUM_EARS
                  (fun ch a =>
                     upd a ch (Binauraliser.set_bin (a ch) band (out band ch t))) a)
             outTF)
    with (for_loop HYBRID_BANDS
            (fun band a =>
               for_loop NUM_EARS
                 (fun ch a =>
                    upd a ch (Binauraliser.set_bin (a ch) band (out' band ch t))) a)
            outTF); [reflexivity|].
  apply for_loop_ext. intros band a Hb.
  apply for_loop_ext. intros ch a' Hc.
  rewrite E by assumption. reflexivity.
Qed.

(** Not playing: the block is analysed, and the output is what the synthesis
    makes of subbands that are all zero, with the filterbank as the analysis
    of this block left it. *)
Lemma idle_block_outputs
  (s : state) (inputs outputs : nat -> nat -> F) (nInputs nOutputs nSamples : Z) :
  let s1 := fst (reinit s) in
  let a := Binauraliser.analyse s1 inputs nInputs in
  Binauraliser.can_process s1 nSamples = true ->
  snd (fst (process s inputs outputs nInputs nOutputs nSamples 0))
  = snd (Binauraliser.inverse_TFT nOutputs (fun _ _ _ => czero)
           (Binauraliser.hSTFT a, Binauraliser.STFTOutputFrameTF a,
            Binauraliser.tempHopFrameTD a, outputs)).
Proof.
  intros s1 a Hcan.
  rewrite bina_process_then by exact Hcan. cbn [fst]. fold s1.
  unfold Binauraliser.pan, Binauraliser.synthesise, Binauraliser.mix. cbn zeta.
  cbn [nonzero Z.eqb negb]. fold a.
  cbn [Binauraliser.outputframeTF Binauraliser.hSTFT Binauraliser.STFTOutputFrameTF
       Binauraliser.tempHopFrameTD Binauraliser.set_outputframeTF].
  rewrite (bina_inverse_TFT_ext nOutputs _ (fun _ _ _ => czero)).
  - destruct (Binauraliser.inverse_TFT _ _ _) as [[[h' outTF] tmp'] out'].
    reflexivity.
  - intros band ch t Hb Hc Ht. unfold Binauraliser.memset3. nat_cases.
Qed.

(** The re-initialisation passes. *)
Lemma bina_checkReInit_spec (s : state) :
  let s1 := fst (Binauraliser.reinit_TFT_if_needed initTFT s) in
  Binauraliser.binauraliser_checkReInit initTFT initHRTFs s
  = (fst (Binauraliser.reinit_HRTFs_if_needed initHRTFs s1),
     List.app (rebuild_events TFT (Binauraliser.reInitTFT s))
       (rebuild_events Codec (Binauraliser.reInitHRTFsAndGainTables s1))).
Proof.
  unfold Binauraliser.binauraliser_checkReInit, Binauraliser.reinit_TFT_if_needed,
    Binauraliser.reinit_HRTFs_if_needed, rebuild_events.
  destruct (Binauraliser.reInitTFT s =? 1)%Z; cbn [fst snd];
    match goal with
    | |- context [(Binauraliser.reInitHRTFsAndGainTables ?x =? 1)%Z] =>
        destruct (Binauraliser.reInitHRTFsAndGainTables x =? 1)%Z
    end; reflexivity.
Qed.

Lemma bina_reinit_TFT_spec (s : state) :
  Binauraliser.reinit_TFT_if_needed initTFT s
  = (if (Binauraliser.reInitTFT s =? 1)%Z
     then Binauraliser.set_reInitTFT 0
            (initTFT (Binauraliser.set_reInitTFT 2 s))
     else s,
     rebuild_events TFT (Binauraliser.reInitTFT s)).
Proof.
  unfold Binauraliser.reinit_TFT_if_needed, rebuild_events.
  destruct (Binauraliser.reInitTFT s =? 1)%Z; reflexivity.
Qed.

Lemma bina_process_trace (s : state)
  (inputs outputs : nat -> nat -> F) (nInputs nOutputs nSamples isPlaying : Z) :
  snd (process s inputs outputs nInputs nOutputs nSamples isPlaying)
  = List.app (snd (reinit s))
      [if Binauraliser.can_process (fst (reinit s)) nSamples
       then EvProcess else EvSilence].
Proof.
  destruct (Binauraliser.can_process (fst (reinit s)) nSamples) eqn:E.
  - rewrite bina_process_then by exact E. reflexivity.
  - rewrite bina_process_else by exact E. reflexivity.
Qed.

End BinauraliserFacts.

(** ** Single precision *)

Section Binary32Facts.
Import Binary32.

Lemma b32_ltb_leb (a b : float) : SFltb a b = true -> SFleb a b = true.
Proof.
  unfold SFltb, SFleb. destruct (SFcompare a b) as [[| |]|]; congruence.
Qed.

Lemma b32_eqb_eq (a b : float) : eqb a b = true -> a = b.
Proof.
  destruct a as [s1|s1| |s1 m1 e1], b as [s2|s2| |s2 m2 e2];
    cbn [eqb]; intro E; try discriminate; try reflexivity.
  - apply Bool.eqb_prop in E. congruence.
  - apply Bool.eqb_prop in E. congruence.
  - apply andb_prop in E as [E Ee]. apply andb_prop in E as [Es Em].
    apply Bool.eqb_prop in Es. apply Pos.eqb_eq in Em. apply Z.eqb_eq in Ee.
    congruence.
Qed.

(** The azimuth a source is given, whatever is asked for. *)
Lemma wrap_azi_range (x : float) :
  le (of_int (-180)) (Binauraliser.wrap_azi x)
  /\ le (Binauraliser.wrap_azi x) (of_int 180).
Proof.
  unfold Binauraliser.wrap_azi, MAXf, MINf, le.
  cbn [Fltb Fof_int Fadd ops].
  set (y := if SFltb (of_int 180) x then _ else x). clearbody y.
  destruct (SFltb (of_int (-180)) y) eqn:E1.
  - destruct (SFltb y (of_int 180)) eqn:E2.
    + split; apply b32_ltb_leb; assumption.
    + split; reflexivity.
  - split; reflexivity.
Qed.

Lemma clamp_elev_range (x : float) :
  le (of_int (-90)) (Binauraliser.clamp_elev x)
  /\ le (Binauraliser.clamp_elev x) (of_int 90).
Proof.
  unfold Binauraliser.clamp_elev, MAXf, MINf, le.
  cbn [Fltb Fof_int ops].
  destruct (SFltb (of_int (-90)) x) eqn:E1.
  - destruct (SFltb x (of_int 90)) eqn:E2.
    + split; apply b32_ltb_leb; assumption.
    + split; reflexivity.
  - split; reflexivity.
Qed.

(** Above 180 degrees a full turn is taken off before the clamp. *)
Lemma wrap_azi_above (x : float) :
  lt (of_int 180) x ->
  Binauraliser.wrap_azi x
  = MINf (MAXf (Fadd (of_int (-360)) x) (of_int (-180))) (of_int 180).
Proof.
  unfold Binauraliser.wrap_azi, lt. cbn [Fltb Fof_int ops]. intros ->. reflexivity.
Qed.

Lemma wrap_azi_190 : Binauraliser.wrap_azi (of_int 190) = of_int (-170).
Proof. vm_compute. reflexivity. Qed.

(** The ramp, for every number of time slots up to 128. *)
Lemma ramp_ok_upto_128 : forallb ramp_ok (seq 1 128) = true.
Proof. vm_compute. reflexivity. Qed.

Lemma ramp_ok_bounded (T : nat) : (1 <= T <= 128)%nat -> ramp_ok T = true.
Proof.
  intro HT. assert (A := ramp_ok_upto_128).
  rewrite forallb_forall in A. apply A. apply in_seq. lia.
Qed.

Lemma strictly_increasing_nth (l : list float) (d : float) (i j : nat) :
  strictly_increasing l = true -> (i < j < List.length l)%nat ->
  SFltb (nth i l d) (nth j l d) = true.
Proof.
  revert i j. induction l as [|x r IH]; intros i j E Hij; cbn [List.length] in Hij; [lia|].
  cbn [strictly_increasing] in E. apply andb_prop in E as [Ex Er].
  destruct j as [|j]; [lia|]. destruct i as [|i]; cbn [nth].
  - rewrite forallb_forall in Ex. apply Ex. apply nth_In. lia.
  - apply IH; [assumption | lia].
Qed.

Lemma ramp_nth (T i : nat) :
  (i < T)%nat -> nth i (map (ramp_value T) (seq 0 T)) S754_nan = ramp_value T i.
Proof.
  intro Hi.
  rewrite (nth_indep _ S754_nan (ramp_value T 0))
    by (rewrite length_map, length_seq; exact Hi).
  rewrite (map_nth (ramp_value T)), seq_nth by exact Hi. reflexivity.
Qed.

Lemma ramp_ok_spec (T : nat) :
  ramp_ok T = true ->
  (forall i j, (i < j < T)%nat -> lt (ramp_value T i) (ramp_value T j))
  /\ (forall i, (i < T)%nat ->
        lt (S754_zero false) (ramp_value T i) /\ le (ramp_value T i) (of_int 1))
  /\ ramp_value T 0 = SFdiv prec emax (of_int 1) (of_int (Z.of_nat T))
  /\ ramp_value T (T - 1) = of_int 1.
Proof.
  unfold ramp_ok. cbv zeta. intro E.
  apply andb_prop in E as [E E1]. apply andb_prop in E as [E E0].
  apply andb_prop in E as [Einc Erng].
  split; [|split; [|split]].
  - intros i j Hij. unfold lt.
    rewrite <- (ramp_nth T i), <- (ramp_nth T j) by lia.
    apply strictly_increasing_nth; [assumption|].
    rewrite length_map, length_seq. exact Hij.
  - intros i Hi. rewrite forallb_forall in Erng.
    specialize (Erng (ramp_value T i)).
    assert (A : In (ramp_value T i) (map (ramp_value T) (seq 0 T))).
    { apply in_map, in_seq. lia. }
    apply Erng in A. apply andb_prop in A. exact A.
  - apply b32_eqb_eq; assumption.
  - apply b32_eqb_eq; assumption.
Qed.

(** No sources: the scale factor is 1/0, and zero times it is no number. *)
Lemma scale_of_zero_sources :
  crmulf (czero (F := float)) (Fdiv Fone (sqrtf (Fof_int 0)))
  = cmplxf S754_nan S754_nan.
Proof. vm_compute. reflexivity. Qed.

Lemma one_over_sqrt_zero :
  Fdiv (F := float) Fone (sqrtf (Fof_int 0)) = S754_infinity false.
Proof. vm_compute. reflexivity. Qed.

End Binary32Facts.

(** ** Sign symmetry of the binary32 operations

    Rounding to nearest even acts on the magnitude: the sign of a product
    or a quotient is attached to the rounded result, so negating an operand
    negates the result, also where it is zero, infinite or not a number. *)

Section SignSymmetry.
Import Binary32.

Lemma SFopp_involutive (x : float) : SFopp (SFopp x) = x.
Proof. destruct x; cbn [SFopp]; rewrite ?Bool.negb_involutive; reflexivity. Qed.

Lemma binary_round_aux_opp (s : bool) (m e : Z) (l : location) :
  binary_round_aux prec emax (negb s) m e l
  = SFopp (binary_round_aux prec emax s m e l).
Proof.
  unfold binary_round_aux.
  destruct (shr_fexp prec emax m e l) as [mrs' e'].
  destruct (shr_fexp prec emax _ e' loc_Exact) as [mrs'' e''].
  destruct (shr_m mrs''); [reflexivity| |reflexivity].
  destruct (Z.leb e'' (emax - prec)); reflexivity.
Qed.

Lemma SFmul_opp_l (x y : float) :
  SFmul prec emax (SFopp x) y = SFopp (SFmul prec emax x y).
Proof.
  destruct x as [sx|sx| |sx mx ex], y as [sy|sy| |sy my ey];
    cbn [SFmul SFopp]; rewrite <- ?Bool.negb_xorb_l; try reflexivity.
  apply binary_round_aux_opp.
Qed.

Lemma SFdiv_opp_l (x y : float) :
  SFdiv prec emax (SFopp x) y = SFopp (SFdiv prec emax x y).
Proof.
  destruct x as [sx|sx| |sx mx ex], y as [sy|sy| |sy my ey];
    cbn [SFdiv SFopp]; rewrite <- ?Bool.negb_xorb_l; try reflexivity.
  destruct (SFdiv_core_binary prec emax (Z.pos mx) ex (Z.pos my) ey)
    as [[mz ez] lz].
  apply binary_round_aux_opp.
Qed.

(** The two conversions are odd functions of every [float]. *)
Lemma DEG2RAD_opp (x : float) : DEG2RAD (Fopp x) = Fopp (DEG2RAD x).
Proof.
  unfold DEG2RAD. cbn [Fmul Fdiv Fopp ops].
  rewrite SFmul_opp_l, SFdiv_opp_l. reflexivity.
Qed.

Lemma RAD2DEG_opp (x : float) : RAD2DEG (Fopp x) = Fopp (RAD2DEG x).
Proof.
  unfold RAD2DEG. cbn [Fmul Fdiv Fopp ops].
  rewrite SFmul_opp_l, SFdiv_opp_l. reflexivity.
Qed.

(** Degrees to radians and back, as a setter followed by a getter computes
    it.  It is the identity only up to the rounding of four operations, and
    not even that where [x * PI] leaves the range of [float] or the
    quotient falls below it. *)
Lemma round_trip_is_not_the_identity :
  RAD2DEG (DEG2RAD (of_int 11)) <> of_int 11
  /\ RAD2DEG (DEG2RAD (S754_finite false 14106058 104)) = S754_infinity false
  /\ RAD2DEG (DEG2RAD (S754_finite false 7 (-149))) = S754_zero false.
Proof. vm_compute. repeat split; try reflexivity. discriminate. Qed.

(** Whole degrees from -180 to 180, converted to radians and back, come out
    as the value itself or a neighbouring [float]. *)
Lemma whole_degrees_round_trip (d : Z) :
  (-180 <= d <= 180)%Z ->
  near (of_int d) (RAD2DEG (DEG2RAD (of_int d))) = true.
Proof.
  intro Hd.
  assert (Hall : forallb (fun n => near (of_int (Z.of_nat n - 180))
                                     (RAD2DEG (DEG2RAD (of_int (Z.of_nat n - 180)))))
                   (seq 0 361) = true) by (vm_compute; reflexivity).
  rewrite forallb_forall in Hall.
  specialize (Hall (Z.to_nat (d + 180))).
  replace (Z.of_nat (Z.to_nat (d + 180)) - 180)%Z with d in Hall by lia.
  apply Hall. apply in_seq. lia.
Qed.

(** The radians stored for whole degrees from -180 to 180, with either
    sign, are not changed by the conversion to degrees and back. *)
Lemma whole_degrees_stored (d : Z) (a : float) :
  (-180 <= d <= 180)%Z ->
  a = DEG2RAD (of_int d) \/ a = SFopp (DEG2RAD (of_int d)) ->
  DEG2RAD (RAD2DEG a) = a.
Proof.
  intros Hd Ha.
  assert (Hall : forallb (fun n => eqb (DEG2RAD (RAD2DEG (DEG2RAD
                                          (of_int (Z.of_nat n - 180)))))
                                     (DEG2RAD (of_int (Z.of_nat n - 180))))
                   (seq 0 361) = true) by (vm_compute; reflexivity).
  rewrite forallb_forall in Hall.
  specialize (Hall (Z.to_nat (d + 180))).
  replace (Z.of_nat (Z.to_nat (d + 180)) - 180)%Z with d in Hall by lia.
  assert (E : DEG2RAD (RAD2DEG (DEG2RAD (of_int d))) = DEG2RAD (of_int d))
    by (apply b32_eqb_eq, Hall, in_seq; lia).
  destruct Ha as [-> | ->]; [exact E|].
  change (SFopp (DEG2RAD (of_int d))) with (Fopp (DEG2RAD (of_int d))).
  rewrite RAD2DEG_opp, DEG2RAD_opp, E. reflexivity.
Qed.

End SignSymmetry.

(** ** Setters *)



Section SetterFacts.
Context {F : Type} `{FloatOps F} `{Filterbank F}.
Variable HRIR HRTF : Type.
Local Abbreviation ambi := (AmbiBin.ambi_bin_data HRIR).
Local Abbreviation bina := (Binauraliser.binauraliser_data HRIR HRTF).










(** Each call of the path setter takes a new block; the old one stays. *)
Lemma ambi_setSofaFilePath_fresh (s : ambi) (path : string) :
  let s' := AmbiBin.ambi_bin_setSofaFilePath s path in
  AmbiBin.sofa_filepath (AmbiBin.pars s') = Some (List.length (AmbiBin.path_heap s))
  /\ AmbiBin.path_heap s' = (AmbiBin.path_heap s ++ [path])%list.
Proof. split; reflexivity. Qed.

(** Calling a flip setter with the flag's value changes nothing. *)
Lemma ambi_setFlip_same (ax : axis) (s : ambi) (v : Z) :
  v = ambi_flip ax s -> ambi_setFlip ax s v = s.
Proof.
  intros ->. destruct ax; cbn [ambi_setFlip ambi_flip];
    unfold AmbiBin.ambi_bin_setFlipYaw, AmbiBin.ambi_bin_setFlipPitch,
      AmbiBin.ambi_bin_setFlipRoll, AmbiBin.ambi_bin_getFlipYaw,
      AmbiBin.ambi_bin_getFlipPitch, AmbiBin.ambi_bin_getFlipRoll;
    rewrite Z.eqb_refl; reflexivity.
Qed.

Lemma bina_setFlip_same (ax : axis) (s : bina) (v : Z) :
  v = bina_flip ax s -> bina_setFlip ax s v = s.
Proof.
  intros ->. destruct ax; cbn [bina_setFlip bina_flip];
    unfold Binauraliser.binauraliser_setFlipYaw, Binauraliser.binauraliser_setFlipPitch,
      Binauraliser.binauraliser_setFlipRoll, Binauraliser.binauraliser_getFlipYaw,
      Binauraliser.binauraliser_getFlipPitch, Binauraliser.binauraliser_getFlipRoll;
    rewrite Z.eqb_refl; reflexivity.
Qed.


End SetterFacts.

(** The flip setters on binary32. *)
Section FlipFacts.
Import Binary32.
Context `{Filterbank float}.
Variable HRIR HRTF : Type.
Local Abbreviation ambi := (AmbiBin.ambi_bin_data (F := float) HRIR).
Local Abbreviation bina := (Binauraliser.binauraliser_data (F := float) HRIR HRTF).

Ltac flip_cases :=
  repeat match goal with
  | |- context [Z.eqb ?a ?b] => destruct (Z.eqb_spec a b)
  end;
  cbn [negb orb andb] in *;
  repeat first [ rewrite DEG2RAD_opp | rewrite RAD2DEG_opp ];
  cbn [Fopp ops]; rewrite ?SFopp_involutive;
  try reflexivity; try congruence; try lia.

(** What a flip setter called with another value than the flag leaves
    behind, for every [float] the angle can be. *)
Lemma ambi_setFlip_spec (ax : axis) (s : ambi) (v : Z) :
  v <> ambi_flip ax s ->
  let s' := ambi_setFlip ax s v in
  ambi_flip ax s' = v
  /\ ambi_angle ax s' = SFopp (DEG2RAD (RAD2DEG (ambi_angle ax s)))
  /\ ambi_get ax s'
     = if ((ambi_flip ax s =? 1) || (v =? 1))%Z
       then RAD2DEG (DEG2RAD (ambi_get ax s))
       else SFopp (RAD2DEG (DEG2RAD (ambi_get ax s))).
Proof.
  intro Hne.
  destruct ax; cbn [ambi_setFlip ambi_flip ambi_angle ambi_get] in *;
    unfold AmbiBin.ambi_bin_setFlipYaw, AmbiBin.ambi_bin_setFlipPitch,
      AmbiBin.ambi_bin_setFlipRoll, AmbiBin.ambi_bin_getFlipYaw,
      AmbiBin.ambi_bin_getFlipPitch, AmbiBin.ambi_bin_getFlipRoll,
      AmbiBin.ambi_bin_setYaw, AmbiBin.ambi_bin_setPitch, AmbiBin.ambi_bin_setRoll,
      AmbiBin.ambi_bin_getYaw, AmbiBin.ambi_bin_getPitch, AmbiBin.ambi_bin_getRoll in *;
    cbv zeta; ambi_fields;
    match goal with
    | |- context [negb (Z.eqb v ?f)] => destruct (Z.eqb_spec v f); [contradiction|]
    end;
    cbn [negb]; ambi_fields; repeat split; flip_cases.
Qed.

Lemma bina_setFlip_spec (ax : axis) (s : bina) (v : Z) :
  v <> bina_flip ax s ->
  let s' := bina_setFlip ax s v in
  bina_flip ax s' = v
  /\ bina_angle ax s' = SFopp (DEG2RAD (RAD2DEG (bina_angle ax s)))
  /\ bina_get ax s'
     = if ((bina_flip ax s =? 1) || (v =? 1))%Z
       then RAD2DEG (DEG2RAD (bina_get ax s))
       else SFopp (RAD2DEG (DEG2RAD (bina_get ax s))).
Proof.
  intro Hne.
  destruct ax; cbn [bina_setFlip bina_flip bina_angle bina_get] in *;
    unfold Binauraliser.binauraliser_setFlipYaw, Binauraliser.binauraliser_setFlipPitch,
      Binauraliser.binauraliser_setFlipRoll, Binauraliser.binauraliser_getFlipYaw,
      Binauraliser.binauraliser_getFlipPitch, Binauraliser.binauraliser_getFlipRoll,
      Binauraliser.binauraliser_setYaw, Binauraliser.binauraliser_setPitch,
      Binauraliser.binauraliser_setRoll, Binauraliser.binauraliser_getYaw,
      Binauraliser.binauraliser_getPitch, Binauraliser.binauraliser_getRoll in *;
    cbv zeta; bina_fields;
    match goal with
    | |- context [negb (Z.eqb v ?f)] => destruct (Z.eqb_spec v f); [contradiction|]
    end;
    cbn [negb]; bina_fields; repeat split; flip_cases.
Qed.

(** A reading survives the conversions when the stored angle does. *)
Lemma ambi_get_round_trip (ax : axis) (s : ambi) :
  DEG2RAD (RAD2DEG (ambi_angle ax s)) = ambi_angle ax s ->
  RAD2DEG (DEG2RAD (ambi_get ax s)) = ambi_get ax s.
Proof.
  intro E.
  destruct ax; cbn [ambi_angle ambi_get] in *;
    unfold AmbiBin.ambi_bin_getYaw, AmbiBin.ambi_bin_getPitch,
      AmbiBin.ambi_bin_getRoll;
    match goal with |- context [Z.eqb ?a ?b] => destruct (Z.eqb a b) end;
    rewrite ?DEG2RAD_opp, ?RAD2DEG_opp, E; reflexivity.
Qed.

Lemma bina_get_round_trip (ax : axis) (s : bina) :
  DEG2RAD (RAD2DEG (bina_angle ax s)) = bina_angle ax s ->
  RAD2DEG (DEG2RAD (bina_get ax s)) = bina_get ax s.
Proof.
  intro E.
  destruct ax; cbn [bina_angle bina_get] in *;
    unfold Binauraliser.binauraliser_getYaw, Binauraliser.binauraliser_getPitch,
      Binauraliser.binauraliser_getRoll;
    match goal with |- context [Z.eqb ?a ?b] => destruct (Z.eqb a b) end;
    rewrite ?DEG2RAD_opp, ?RAD2DEG_opp, E; reflexivity.
Qed.

(** C10 (amended): on binary32, for every engine, axis and state, whatever
    [float] the angle is: a flip setter called with a value other than the
    flip flag stores the flag and replaces the stored angle [a] by
    [- DEG2RAD (RAD2DEG a)], the negated angle after its conversion to
    degrees and back in single precision; the getter, which returned [r]
    before, then returns [RAD2DEG (DEG2RAD r)] when the old or the new flag
    value is 1 (as it is when the flags only take the values 0 and 1) and
    [- RAD2DEG (DEG2RAD r)] otherwise.  Where the stored angle is not changed
    by the conversion to degrees and back, the flip stores exactly [- a] and
    the getter returns exactly the reading it returned before when the old
    or the new flag value is 1, and exactly the negated reading otherwise;
    the radians stored for a whole number of degrees from -180 to 180, with
    either sign, are such angles.  A flip setter called with the flag's
    value changes nothing. *)
Theorem flip_negates_angle_not_reading (ax : axis) :
  (forall (s : ambi) v,
     v <> ambi_flip ax s ->
     ambi_flip ax (ambi_setFlip ax s v) = v
     /\ ambi_angle ax (ambi_setFlip ax s v)
        = SFopp (DEG2RAD (RAD2DEG (ambi_angle ax s)))
     /\ (ambi_flip ax s = 1%Z \/ v = 1%Z ->
         ambi_get ax (ambi_setFlip ax s v) = RAD2DEG (DEG2RAD (ambi_get ax s)))
     /\ (ambi_flip ax s <> 1%Z -> v <> 1%Z ->
         ambi_get ax (ambi_setFlip ax s v)
         = SFopp (RAD2DEG (DEG2RAD (ambi_get ax s))))
     /\ (DEG2RAD (RAD2DEG (ambi_angle ax s)) = ambi_angle ax s ->
         ambi_angle ax (ambi_setFlip ax s v) = SFopp (ambi_angle ax s)
         /\ (ambi_flip ax s = 1%Z \/ v = 1%Z ->
             ambi_get ax (ambi_setFlip ax s v) = ambi_get ax s)
         /\ (ambi_flip ax s <> 1%Z -> v <> 1%Z ->
             ambi_get ax (ambi_setFlip ax s v) = SFopp (ambi_get ax s))))
  /\ (forall (s : ambi) v, v = ambi_flip ax s -> ambi_setFlip ax s v = s)
  /\ (forall (s : bina) v,
        v <> bina_flip ax s ->
        bina_flip ax (bina_setFlip ax s v) = v
        /\ bina_angle ax (bina_setFlip ax s v)
           = SFopp (DEG2RAD (RAD2DEG (bina_angle ax s)))
        /\ (bina_flip ax s = 1%Z \/ v = 1%Z ->
            bina_get ax (bina_setFlip ax s v) = RAD2DEG (DEG2RAD (bina_get ax s)))
        /\ (bina_flip ax s <> 1%Z -> v <> 1%Z ->
            bina_get ax (bina_setFlip ax s v)
            = SFopp (RAD2DEG (DEG2RAD (bina_get ax s))))
        /\ (DEG2RAD (RAD2DEG (bina_angle ax s)) = bina_angle ax s ->
            bina_angle ax (bina_setFlip ax s v) = SFopp (bina_angle ax s)
            /\ (bina_flip ax s = 1%Z \/ v = 1%Z ->
                bina_get ax (bina_setFlip ax s v) = bina_get ax s)
            /\ (bina_flip ax s <> 1%Z -> v <> 1%Z ->
                bina_get ax (bina_setFlip ax s v) = SFopp (bina_get ax s))))
  /\ (forall (s : bina) v, v = bina_flip ax s -> bina_setFlip ax s v = s)
  /\ (forall (d : Z) (a : float),
        (-180 <= d <= 180)%Z ->
        a = DEG2RAD (of_int d) \/ a = SFopp (DEG2RAD (of_int d)) ->
        DEG2RAD (RAD2DEG a) = a).
Proof.
  repeat match goal with |- _ /\ _ => split end.
  - intros s v Hne. destruct (ambi_setFlip_spec ax s v Hne) as (Ef & Ea & Eg).
    cbv zeta in Eg.
    assert (G1 : ambi_flip ax s = 1%Z \/ v = 1%Z ->
                 ambi_get ax (ambi_setFlip ax s v)
                 = RAD2DEG (DEG2RAD (ambi_get ax s))).
    { intro Hone. rewrite Eg.
      destruct Hone as [-> | ->]; cbn [Z.eqb Pos.eqb orb]; [reflexivity|].
      rewrite Bool.orb_true_r. reflexivity. }
    assert (G2 : ambi_flip ax s <> 1%Z -> v <> 1%Z ->
                 ambi_get ax (ambi_setFlip ax s v)
                 = SFopp (RAD2DEG (DEG2RAD (ambi_get ax s)))).
    { intros Hf Hv. rewrite Eg.
      destruct (Z.eqb_spec (ambi_flip ax s) 1); [contradiction|].
      destruct (Z.eqb_spec v 1); [contradiction|]. reflexivity. }
    split; [exact Ef|]. split; [exact Ea|]. split; [exact G1|]. split; [exact G2|].
    intro Hfix. pose proof (ambi_get_round_trip ax s Hfix) as Hget.
    split; [rewrite Ea, Hfix; reflexivity|]. split.
    + intro Hone. rewrite (G1 Hone). exact Hget.
    + intros Hf Hv. rewrite (G2 Hf Hv), Hget. reflexivity.
  - apply ambi_setFlip_same.
  - intros s v Hne. destruct (bina_setFlip_spec ax s v Hne) as (Ef & Ea & Eg).
    cbv zeta in Eg.
    assert (G1 : bina_flip ax s = 1%Z \/ v = 1%Z ->
                 bina_get ax (bina_setFlip ax s v)
                 = RAD2DEG (DEG2RAD (bina_get ax s))).
    { intro Hone. rewrite Eg.
      destruct Hone as [-> | ->]; cbn [Z.eqb Pos.eqb orb]; [reflexivity|].
      rewrite Bool.orb_true_r. reflexivity. }
    assert (G2 : bina_flip ax s <> 1%Z -> v <> 1%Z ->
                 bina_get ax (bina_setFlip ax s v)
                 = SFopp (RAD2DEG (DEG2RAD (bina_get ax s)))).
    { intros Hf Hv. rewrite Eg.
      destruct (Z.eqb_spec (bina_flip ax s) 1); [contradiction|].
      destruct (Z.eqb_spec v 1); [contradiction|]. reflexivity. }
    split; [exact Ef|]. split; [exact Ea|]. split; [exact G1|]. split; [exact G2|].
    intro Hfix. pose proof (bina_get_round_trip ax s Hfix) as Hget.
    split; [rewrite Ea, Hfix; reflexivity|]. split.
    + intro Hone. rewrite (G1 Hone). exact Hget.
    + intros Hf Hv. rewrite (G2 Hf Hv), Hget. reflexivity.
  - apply bina_setFlip_same.
  - intros d a Hd Ha. exact (whole_degrees_stored d a Hd Ha).
Qed.

End FlipFacts.

(** ** Both engines: silence and re-initialisation *)

Section BothEngines.
Context {F : Type} `{FloatOps F} `{Dims} `{Filterbank F}.
Variable HRIR HRTF : Type.
Local Abbreviation ambi := (AmbiBin.ambi_bin_data HRIR).
Local Abbreviation bina := (Binauraliser.binauraliser_data HRIR HRTF).
Variable ambi_initTFT ambi_initCodec : ambi -> ambi.
Variable ambi_ypr : F -> F -> F -> nat -> nat -> F.
Variable getSH : (nat -> nat -> F) -> Z -> nat -> F.
Variable fade : bool.
Variable bina_initTFT bina_initHRTFs : bina -> bina.
Variable interpHRTFs :
  bina -> F -> F -> (nat -> nat -> float_complex F) -> nat -> nat -> float_complex F.
Variable bina_ypr : F -> F -> F -> Z -> nat -> nat -> F.
Variable cosf sinf : F -> F.
Variable atan2f powf : F -> F -> F.

Local Abbreviation ambi_process :=
  (AmbiBin.ambi_bin_process ambi_initTFT ambi_initCodec ambi_ypr getSH fade).
Local Abbreviation bina_process :=
  (Binauraliser.binauraliser_process bina_initTFT bina_initHRTFs interpHRTFs
     bina_ypr cosf sinf atan2f powf).

(** C1 (amended): when [nSamples] is not [FRAME_SIZE], or [isPlaying] is
    false, or a re-initialisation flag is not clean at the decision,
    [ambi_bin_process] writes 0.0 to the first [FRAME_SIZE] samples of every
    output channel below [nOutputs], whatever [nSamples] is, and leaves every
    other sample of the output buffers as it was; [binauraliser_process] does
    the same when [nSamples] is not [FRAME_SIZE], or no HRTF filterbank data
    is loaded, or a flag is not clean at the decision.  With [isPlaying]
    false on an otherwise valid block [binauraliser_process] analyses the
    block, clears the whole output subband tensor and still runs the
    synthesis: the output is what the synthesis filterbank, in the state the
    analysis of this block left it in, makes of subbands that are all zero. *)
Theorem invalid_blocks_are_silent (apple : bool) :
  (forall (s : ambi) inputs outputs nInputs nOutputs nSamples isPlaying,
     let s1 := fst (AmbiBin.reinit_if_needed ambi_initTFT ambi_initCodec s) in
     nSamples <> Z.of_nat FRAME_SIZE \/ isPlaying = 0%Z
     \/ AmbiBin.reInitCodec s1 <> 0%Z \/ AmbiBin.reInitTFT s1 <> 0%Z ->
     forall ch i,
       snd (fst (ambi_process s inputs outputs nInputs nOutputs nSamples isPlaying))
         ch i
       = if ((Z.of_nat ch <? nOutputs)%Z && Nat.ltb i FRAME_SIZE)%bool
         then Fzero else outputs ch i)
  /\ (forall (s : bina) inputs outputs nInputs nOutputs nSamples isPlaying,
        let s1 := fst (Binauraliser.reinit_if_needed bina_initTFT bina_initHRTFs
                         apple s) in
        nSamples <> Z.of_nat FRAME_SIZE \/ Binauraliser.hrtf_fb s1 = None
        \/ Binauraliser.reInitTFT s1 <> 0%Z
        \/ Binauraliser.reInitHRTFsAndGainTables s1 <> 0%Z ->
        forall ch i,
          snd (fst (bina_process apple s inputs outputs nInputs nOutputs nSamples
                      isPlaying)) ch i
          = if ((Z.of_nat ch <? nOutputs)%Z && Nat.ltb i FRAME_SIZE)%bool
            then Fzero else outputs ch i)
  /\ (forall (s : bina) inputs outputs nInputs nOutputs nSamples,
        let s1 := fst (Binauraliser.reinit_if_needed bina_initTFT bina_initHRTFs
                         apple s) in
        let a := Binauraliser.analyse s1 inputs nInputs in
        Binauraliser.can_process s1 nSamples = true ->
        (forall band ear t,
           (band < HYBRID_BANDS)%nat -> (ear < NUM_EARS)%nat ->
           (t < TIME_SLOTS)%nat ->
           Binauraliser.outputframeTF
             (fst (fst (bina_process apple s inputs outputs nInputs nOutputs
                          nSamples 0)))
             band ear t
           = czero)
        /\ snd (fst (bina_process apple s inputs outputs nInputs nOutputs nSamples 0))
           = snd (Binauraliser.inverse_TFT nOutputs (fun _ _ _ => czero)
                    (Binauraliser.hSTFT a, Binauraliser.STFTOutputFrameTF a,
                     Binauraliser.tempHopFrameTD a, outputs))).
Proof.
  split; [|split].
  - intros s inputs outputs nInputs nOutputs nSamples isPlaying s1 Hbad ch i.
    rewrite ambi_process_else by (apply ambi_can_process_false; exact Hbad).
    cbn [fst snd]. apply ambi_silence_at.
  - intros s inputs outputs nInputs nOutputs nSamples isPlaying s1 Hbad ch i.
    rewrite bina_process_else by (apply bina_can_process_false; exact Hbad).
    cbn [fst snd]. apply bina_silence_at.
  - intros s inputs outputs nInputs nOutputs nSamples s1 a Hcan. split.
    + intros band ear t Hb He Ht. apply idle_block_outputframeTF; assumption.
    + apply idle_block_outputs. exact Hcan.
Qed.

(** C3 (amended): on every [ambi_bin_process] call, and on every
    [binauraliser_process] call of an [__APPLE__] build, before any signal
    processing, the filterbank flag if requested (1) is set in progress (2),
    the filterbank is rebuilt and the flag is set clean (0), and after that
    the same is done for the codec/HRTF flag; on other platforms
    [binauraliser_process] does this for the filterbank flag only, the HRTF
    flag being served, after the filterbank, by [binauraliser_checkReInit]. *)
Theorem reinit_before_processing :
  (forall (s : ambi) inputs outputs nInputs nOutputs nSamples isPlaying,
     let s1 := fst (AmbiBin.reinit_TFT_if_needed ambi_initTFT s) in
     let s2 := fst (AmbiBin.reinit_codec_if_needed ambi_initCodec s1) in
     s1 = (if (AmbiBin.reInitTFT s =? 1)%Z
           then AmbiBin.set_reInitTFT 0 (ambi_initTFT (AmbiBin.set_reInitTFT 2 s))
           else s)
     /\ s2 = (if (AmbiBin.reInitCodec s1 =? 1)%Z
              then AmbiBin.set_reInitCodec 0
                     (ambi_initCodec (AmbiBin.set_reInitCodec 2 s1))
              else s1)
     /\ (AmbiBin.reInitTFT s = 1%Z -> AmbiBin.reInitTFT s1 = 0%Z)
     /\ (AmbiBin.reInitCodec s1 = 1%Z -> AmbiBin.reInitCodec s2 = 0%Z)
     /\ snd (ambi_process s inputs outputs nInputs nOutputs nSamples isPlaying)
        = (rebuild_events TFT (AmbiBin.reInitTFT s)
           ++ rebuild_events Codec (AmbiBin.reInitCodec s1)
           ++ [if AmbiBin.can_process s2 nSamples isPlaying
               then EvProcess else EvSilence])%list)
  /\ (forall (s : bina) inputs outputs nInputs nOutputs nSamples isPlaying,
        let s1 := fst (Binauraliser.reinit_TFT_if_needed bina_initTFT s) in
        let s2 := fst (Binauraliser.reinit_HRTFs_if_needed bina_initHRTFs s1) in
        s1 = (if (Binauraliser.reInitTFT s =? 1)%Z
              then Binauraliser.set_reInitTFT 0
                     (bina_initTFT (Binauraliser.set_reInitTFT 2 s))
              else s)
        /\ s2 = (if (Binauraliser.reInitHRTFsAndGainTables s1 =? 1)%Z
                 then Binauraliser.set_reInitHRTFsAndGainTables 0
                        (bina_initHRTFs
                           (Binauraliser.set_reInitHRTFsAndGainTables 2 s1))
                 else s1)
        /\ (Binauraliser.reInitTFT s = 1%Z -> Binauraliser.reInitTFT s1 = 0%Z)
        /\ (Binauraliser.reInitHRTFsAndGainTables s1 = 1%Z ->
            Binauraliser.reInitHRTFsAndGainTables s2 = 0%Z)
        /\ Binauraliser.binauraliser_checkReInit bina_initTFT bina_initHRTFs s
           = (s2, (rebuild_events TFT (Binauraliser.reInitTFT s)
                   ++ rebuild_events Codec (Binauraliser.reInitHRTFsAndGainTables s1))%list)
        /\ snd (bina_process true s inputs outputs nInputs nOutputs nSamples isPlaying)
           = (rebuild_events TFT (Binauraliser.reInitTFT s)
              ++ rebuild_events Codec (Binauraliser.reInitHRTFsAndGainTables s1)
              ++ [if Binauraliser.can_process s2 nSamples
                  then EvProcess else EvSilence])%list
        /\ snd (bina_process false s inputs outputs nInputs nOutputs nSamples isPlaying)
           = (rebuild_events TFT (Binauraliser.reInitTFT s)
              ++ [if Binauraliser.can_process s1 nSamples
                  then EvProcess else EvSilence])%list).
Proof.
  split.
  - intros s inputs outputs nInputs nOutputs nSamples isPlaying s1 s2.
    assert (E1 : s1 = if (AmbiBin.reInitTFT s =? 1)%Z
                      then AmbiBin.set_reInitTFT 0
                             (ambi_initTFT (AmbiBin.set_reInitTFT 2 s))
                      else s).
    { subst s1. rewrite ambi_reinit_TFT_spec. reflexivity. }
    assert (E2 : s2 = if (AmbiBin.reInitCodec s1 =? 1)%Z
                      then AmbiBin.set_reInitCodec 0
                             (ambi_initCodec (AmbiBin.set_reInitCodec 2 s1))
                      else s1).
    { subst s2. unfold AmbiBin.reinit_codec_if_needed.
      destruct (AmbiBin.reInitCodec s1 =? 1)%Z; reflexivity. }
    repeat split; try assumption.
    + intro E. rewrite E1, E. reflexivity.
    + intro E. rewrite E2, E. reflexivity.
    + rewrite ambi_process_trace, ambi_reinit_spec. cbn [fst snd].
      rewrite <- app_assoc. reflexivity.
  - intros s inputs outputs nInputs nOutputs nSamples isPlaying s1 s2.
    assert (E1 : s1 = if (Binauraliser.reInitTFT s =? 1)%Z
                      then Binauraliser.set_reInitTFT 0
                             (bina_initTFT (Binauraliser.set_reInitTFT 2 s))
                      else s).
    { subst s1. rewrite bina_reinit_TFT_spec. reflexivity. }
    assert (E2 : s2 = if (Binauraliser.reInitHRTFsAndGainTables s1 =? 1)%Z
                      then Binauraliser.set_reInitHRTFsAndGainTables 0
                             (bina_initHRTFs
                                (Binauraliser.set_reInitHRTFsAndGainTables 2 s1))
                      else s1).
    { subst s2. unfold Binauraliser.reinit_HRTFs_if_needed.
      destruct (Binauraliser.reInitHRTFsAndGainTables s1 =? 1)%Z; reflexivity. }
    repeat split; try assumption.
    + intro E. rewrite E1, E. reflexivity.
    + intro E. rewrite E2, E. reflexivity.
    + apply bina_checkReInit_spec.
    + rewrite bina_process_trace. unfold Binauraliser.reinit_if_needed.
      rewrite bina_checkReInit_spec. cbn [fst snd].
      rewrite <- app_assoc. reflexivity.
    + rewrite bina_process_trace. unfold Binauraliser.reinit_if_needed.
      rewrite bina_reinit_TFT_spec. cbn [fst snd]. fold s1.
      rewrite <- E1. reflexivity.
Qed.

End BothEngines.

(** ** Source directions, the ramp and the empty panner, in single precision *)

Section Binary32Claims.
Import Binary32.
Context `{Dims} `{Filterbank float}.
Variable HRIR HRTF : Type.
Local Abbreviation ambi := (AmbiBin.ambi_bin_data (F := float) HRIR).
Local Abbreviation bina := (Binauraliser.binauraliser_data (F := float) HRIR HRTF).

Lemma stored_azimuth (s : bina) (index : nat) (x : float) :
  Binauraliser.binauraliser_getSourceAzi_deg
    (Binauraliser.binauraliser_setSourceAzi_deg s index x) index
  = Binauraliser.wrap_azi x.
Proof.
  unfold Binauraliser.binauraliser_getSourceAzi_deg,
    Binauraliser.binauraliser_setSourceAzi_deg.
  cbv zeta. bina_fields. rewrite upd2_at, !Nat.eqb_refl. reflexivity.
Qed.

Lemma stored_elevation (s : bina) (index : nat) (x : float) :
  Binauraliser.binauraliser_getSourceElev_deg
    (Binauraliser.binauraliser_setSourceElev_deg s index x) index
  = Binauraliser.clamp_elev x.
Proof.
  unfold Binauraliser.binauraliser_getSourceElev_deg,
    Binauraliser.binauraliser_setSourceElev_deg.
  cbv zeta. bina_fields. rewrite upd2_at, !Nat.eqb_refl. reflexivity.
Qed.

(** C6 (amended): after every call of [binauraliser_setSourceAzi_deg] the
    stored azimuth lies in [-180,180]: a value above 180 has 360 taken off
    (190 is stored as -170) and the result is clamped to [-180,180]; after
    every call of [binauraliser_setSourceElev_deg] the stored elevation lies
    in [-90,90], by clamping. *)
Theorem stored_directions_in_range (s : bina) (index : nat) (x : float) :
  let azi :=
    Binauraliser.binauraliser_getSourceAzi_deg
      (Binauraliser.binauraliser_setSourceAzi_deg s index x) index in
  let elev :=
    Binauraliser.binauraliser_getSourceElev_deg
      (Binauraliser.binauraliser_setSourceElev_deg s index x) index in
  (le (of_int (-180)) azi /\ le azi (of_int 180))
  /\ (lt (of_int 180) x ->
      azi = MINf (MAXf (Fadd (of_int (-360)) x) (of_int (-180))) (of_int 180))
  /\ Binauraliser.binauraliser_getSourceAzi_deg
       (Binauraliser.binauraliser_setSourceAzi_deg s index (of_int 190)) index
     = of_int (-170)
  /\ (le (of_int (-90)) elev /\ le elev (of_int 90))
  /\ elev = MINf (MAXf x (of_int (-90))) (of_int 90).
Proof.
  cbv zeta. rewrite !stored_azimuth, stored_elevation.
  split; [apply wrap_azi_range|].
  split; [apply wrap_azi_above|].
  split; [apply wrap_azi_190|].
  split; [apply clamp_elev_range|reflexivity].
Qed.

(** C8: the ramp [ambi_bin_init] writes has [TIME_SLOTS] entries, rises
    strictly, stays within (0,1], starts at [1/TIME_SLOTS] and ends at 1;
    checked for every [TIME_SLOTS] from 1 to 128. *)
Theorem ramp_rises_to_one (t44 t48 : nat -> float) (s : ambi) (sampleRate : Z) :
  (1 <= TIME_SLOTS <= 128)%nat ->
  let ramp := AmbiBin.interpolator (AmbiBin.ambi_bin_init t44 t48 s sampleRate) in
  (forall i j, (i < j < TIME_SLOTS)%nat -> lt (ramp i) (ramp j))
  /\ (forall i, (i < TIME_SLOTS)%nat -> lt Fzero (ramp i) /\ le (ramp i) Fone)
  /\ ramp 0%nat = Fdiv Fone (Fof_int (Z.of_nat TIME_SLOTS))
  /\ ramp (TIME_SLOTS - 1)%nat = Fone
  /\ (forall k, (TIME_SLOTS <= k)%nat -> ramp k = AmbiBin.interpolator s k).
Proof.
  intros HT ramp.
  assert (E : forall k, ramp k = if Nat.ltb k TIME_SLOTS
                                 then ramp_value TIME_SLOTS k
                                 else AmbiBin.interpolator s k).
  { intro k. subst ramp. rewrite ambi_bin_init_interpolator, init_interpolator_spec.
    reflexivity. }
  destruct (ramp_ok_spec TIME_SLOTS (ramp_ok_bounded TIME_SLOTS HT))
    as (Hinc & Hrng & Hfirst & Hlast).
  repeat split.
  - intros i j Hij. rewrite !E.
    destruct (Nat.ltb_spec i TIME_SLOTS); [|lia].
    destruct (Nat.ltb_spec j TIME_SLOTS); [|lia].
    apply Hinc. exact Hij.
  - rewrite E. destruct (Nat.ltb_spec i TIME_SLOTS); [|lia]. apply Hrng. assumption.
  - rewrite E. destruct (Nat.ltb_spec i TIME_SLOTS); [|lia]. apply Hrng. assumption.
  - rewrite E. destruct (Nat.ltb_spec 0 TIME_SLOTS); [|lia]. exact Hfirst.
  - rewrite E. destruct (Nat.ltb_spec (TIME_SLOTS - 1) TIME_SLOTS); [|lia]. exact Hlast.
  - intros k Hk. rewrite E. destruct (Nat.ltb_spec k TIME_SLOTS); [lia|reflexivity].
Qed.

Variable initTFT initHRTFs : bina -> bina.
Variable interpHRTFs :
  bina -> float -> float -> (nat -> nat -> float_complex float) ->
  nat -> nat -> float_complex float.
Variable ypr : float -> float -> float -> Z -> nat -> nat -> float.
Variable cosf sinf : float -> float.
Variable atan2f powf : float -> float -> float.
Variable apple : bool.

(** With no sources every entry of the output subband tensor of a playing
    block is zero times infinity. *)
Lemma no_sources_no_number (s : bina) (inputs outputs : nat -> nat -> float)
  (nInputs nOutputs nSamples isPlaying : Z) (band ear t : nat) :
  let s1 := fst (Binauraliser.reinit_if_needed initTFT initHRTFs apple s) in
  let s' :=
    fst (fst (Binauraliser.binauraliser_process initTFT initHRTFs interpHRTFs
                ypr cosf sinf atan2f powf apple
                s inputs outputs nInputs nOutputs nSamples isPlaying)) in
  Binauraliser.can_process s1 nSamples = true ->
  isPlaying <> 0%Z ->
  Binauraliser.nSources s1 = 0%Z ->
  (band < HYBRID_BANDS)%nat -> (ear < NUM_EARS)%nat -> (t < TIME_SLOTS)%nat ->
  Binauraliser.outputframeTF s' band ear t = cmplxf S754_nan S754_nan.
Proof.
  intros s1 s' Hcan Hplay Hn Hb He Ht. subst s'.
  rewrite (playing_block_outputframeTF HRIR HRTF) by assumption.
  fold s1. rewrite Hn. exact scale_of_zero_sources.
Qed.

End Binary32Claims.

(** ** The concrete runs *)

Section Runs.
Import Binary32 Demo.

(** C7: with [nSources = 0] (the engine otherwise initialised, a valid frame,
    playing) the scale factor is [1.0f/sqrtf(0.0f)], which is infinite, and
    the cleared output subbands times it are not numbers: the block does not
    degenerate to silence. *)
Theorem empty_panner_makes_nan :
  Binauraliser.nSources Demo.empty_engine = 0%Z
  /\ Binauraliser.can_process Demo.empty_engine Demo.frame_count = true
  /\ Fdiv Fone (sqrtf (Fof_int (Binauraliser.nSources Demo.empty_engine)))
     = S754_infinity false
  /\ Binauraliser.outputframeTF (fst (fst Demo.empty_block)) 0 0 0
     = cmplxf S754_nan S754_nan
  /\ Binauraliser.outputframeTF (fst (fst Demo.empty_block)) 132 1 3
     = cmplxf S754_nan S754_nan.
Proof.
  split; [reflexivity|]. split; [reflexivity|]. split; [exact one_over_sqrt_zero|].
  split;
    apply (no_sources_no_number unit unit);
    first [ reflexivity | discriminate | apply Nat.ltb_lt; reflexivity ].
Qed.

(** A block of 600 samples given to the decoder with ones in the output
    buffers; a block of the panner with an HRTF rebuild pending; a paused
    block of the panner whose filterbank holds a unit sample. *)
Lemma invalid_blocks_are_silent_witness :
  (600%Z <> Z.of_nat FRAME_SIZE
   /\ snd (fst (ambi_process omni_engine impulse stale 1 2 600 1)) 1%nat 300%nat
      = Fzero
   /\ snd (fst (ambi_process omni_engine impulse stale 1 2 600 1)) 1%nat 550%nat
      = Fone
   /\ snd (fst (ambi_process omni_engine impulse stale 1 2 600 1)) 2%nat 0%nat
      = Fone)
  /\ (Binauraliser.reInitHRTFsAndGainTables pending_engine <> 0%Z
      /\ snd (fst (bina_process false pending_engine impulse stale 1 2 frame_count 1))
           0%nat 0%nat
         = Fzero)
  /\ (Binauraliser.can_process ringing_engine frame_count = true
      /\ Binauraliser.outputframeTF
           (fst (fst (bina_process false ringing_engine zeros stale 1 2
                        frame_count 0))) 0 0 0
         = czero
      /\ snd (fst (bina_process false ringing_engine zeros stale 1 2 frame_count 0))
         = snd (Binauraliser.inverse_TFT 2 (fun _ _ _ => czero)
                  (Binauraliser.hSTFT (Binauraliser.analyse ringing_engine zeros 1),
                   Binauraliser.STFTOutputFrameTF
                     (Binauraliser.analyse ringing_engine zeros 1),
                   Binauraliser.tempHopFrameTD
                     (Binauraliser.analyse ringing_engine zeros 1), stale))).
Proof.
  pose proof (invalid_blocks_are_silent (F := float) unit unit
                ambi_rebuild ambi_rebuild no_rotation3 no_rotation_SH false
                bina_rebuild bina_rebuild unit_interp no_rotation3_rpy
                libm1 libm1 libm2 libm2 false) as (A & B & C).
  assert (Ha : 600%Z <> Z.of_nat FRAME_SIZE) by discriminate.
  assert (Hb : Binauraliser.reInitHRTFsAndGainTables pending_engine <> 0%Z)
    by discriminate.
  assert (Hc : Binauraliser.can_process ringing_engine frame_count = true)
    by reflexivity.
  split; [|split].
  - split; [exact Ha|].
    pose proof (A omni_engine impulse stale 1%Z 2%Z 600%Z 1%Z (or_introl Ha)) as A'.
    split; [exact (A' 1%nat 300%nat)|]. split; [exact (A' 1%nat 550%nat)|].
    exact (A' 2%nat 0%nat).
  - split; [exact Hb|].
    exact (B pending_engine impulse stale 1%Z 2%Z frame_count 1%Z
             (or_intror (or_intror (or_intror Hb))) 0%nat 0%nat).
  - split; [exact Hc|].
    destruct (C ringing_engine zeros stale 1%Z 2%Z frame_count Hc) as [C1 C2].
    split; [|exact C2].
    apply C1; apply Nat.ltb_lt; reflexivity.
Defined.

(** C1, as stated, fails: with [isPlaying] false and the flags clean,
    [binauraliser_process] still runs the synthesis, and the filterbank
    hands out what it held back. *)
Lemma paused_panner_is_not_silent :
  snd (fst paused_block) 0%nat 0%nat <> Fzero.
Proof. vm_compute. discriminate. Qed.

(** Nor is every sample of a block of another length cleared: of a block of
    600 samples, the decoder leaves the samples from [FRAME_SIZE] on as they
    were. *)
Lemma long_block_is_not_cleared :
  600%Z <> Z.of_nat FRAME_SIZE
  /\ snd (fst (ambi_process omni_engine impulse stale 1 2 600 1)) 0%nat 550%nat
     = Fone.
Proof. split; [discriminate|]. vm_compute. reflexivity. Qed.

(** The first block of the zeroth-order decoder, on an impulse: the mixer
    works on the subbands kept from before, and the impulse is found in the
    subbands kept for the next block. *)
Lemma crossfade_mixes_previous_subbands_witness :
  let s1 := fst (AmbiBin.reinit_if_needed ambi_rebuild ambi_rebuild omni_engine) in
  let s' := fst (fst omni_block) in
  AmbiBin.can_process s1 frame_count 1 = true
  /\ (0 < HYBRID_BANDS)%nat /\ (1 < NUM_EARS)%nat /\ (0 < TIME_SLOTS)%nat
  /\ AmbiBin.binframeTF s' 0 1 0
     = crossfade (AmbiBin.interpolator s1 0)
         (matmul (AmbiBin.block_nSH s1) (AmbiBin.current_M s' 0)
            (AmbiBin.prev_SHframeTF s1 0) 1 0)
         (matmul (AmbiBin.block_nSH s1) (AmbiBin.prev_M s1 0)
            (AmbiBin.prev_SHframeTF s1 0) 1 0)
  /\ AmbiBin.prev_SHframeTF s1 0 0 0 = czero
  /\ AmbiBin.prev_SHframeTF s' 0 0 0 = cmplxf Fone Fzero.
Proof.
  intros s1 s'.
  assert (Hcan : AmbiBin.can_process s1 frame_count 1 = true) by reflexivity.
  assert (Hb : (0 < HYBRID_BANDS)%nat) by (apply Nat.ltb_lt; reflexivity).
  assert (He : (1 < NUM_EARS)%nat) by (apply Nat.ltb_lt; reflexivity).
  assert (Ht : (0 < TIME_SLOTS)%nat) by (apply Nat.ltb_lt; reflexivity).
  assert (Hn : (0 < AmbiBin.block_nSH s1)%nat) by (apply Nat.ltb_lt; reflexivity).
  split; [exact Hcan|]. split; [exact Hb|]. split; [exact He|]. split; [exact Ht|].
  split; [|split].
  - exact (proj1 (crossfade_mixes_previous_subbands (F := float) unit
                    ambi_rebuild ambi_rebuild no_rotation3 no_rotation_SH false
                    omni_engine impulse zeros 1%Z 2%Z frame_count 1%Z
                    0%nat 1%nat 0%nat Hcan Hb He Ht)).
  - vm_compute. reflexivity.
  - destruct (proj1 (proj2 (crossfade_mixes_previous_subbands (F := float) unit
                    ambi_rebuild ambi_rebuild no_rotation3 no_rotation_SH false
                    omni_engine impulse zeros 1%Z 2%Z frame_count 1%Z
                    0%nat 1%nat 0%nat Hcan Hb He Ht)) 0%nat Hn) as [E1 E2].
    refine (eq_trans E1 (eq_trans E2 _)). vm_compute. reflexivity.
Defined.

(** C2, as stated, fails: the subbands the two matrices are applied to are
    not those analysed from the input frame of the same block.  On the first
    block after [ambi_bin_init] the mixer output is zero, whatever the
    input, while the mix of this block's subbands is not. *)
Lemma mixer_does_not_use_this_block :
  let s' := fst (fst omni_block) in
  AmbiBin.binframeTF s' 0 0 0
  <> crossfade (AmbiBin.interpolator omni_engine 0)
       (matmul 1 (AmbiBin.current_M s' 0) (AmbiBin.SHframeTF s' 0) 0 0)
       (matmul 1 (AmbiBin.prev_M omni_engine 0) (AmbiBin.SHframeTF s' 0) 0 0).
Proof. vm_compute. discriminate. Qed.

Lemma reinit_before_processing_witness :
  let s := AmbiBin.ambi_bin_refreshSettings omni_engine in
  let s1 := fst (AmbiBin.reinit_TFT_if_needed ambi_rebuild s) in
  let s2 := fst (AmbiBin.reinit_codec_if_needed ambi_rebuild s1) in
  (AmbiBin.reInitTFT s = 1%Z /\ AmbiBin.reInitTFT s1 = 0%Z)
  /\ (AmbiBin.reInitCodec s1 = 1%Z /\ AmbiBin.reInitCodec s2 = 0%Z)
  /\ snd (ambi_process s impulse zeros 1 2 frame_count 1)
     = [EvFlag TFT 2; EvRebuild TFT; EvFlag TFT 0;
        EvFlag Codec 2; EvRebuild Codec; EvFlag Codec 0; EvProcess].
Proof.
  intros s s1 s2.
  pose proof (reinit_before_processing (F := float) unit unit
                ambi_rebuild ambi_rebuild no_rotation3 no_rotation_SH false
                bina_rebuild bina_rebuild unit_interp no_rotation3_rpy
                libm1 libm1 libm2 libm2) as (A & _).
  destruct (A s impulse zeros 1%Z 2%Z frame_count 1%Z) as (_ & _ & T1 & T2 & Tr).
  split; [split; [reflexivity | apply T1; reflexivity]|].
  split; [split; [reflexivity | apply T2; reflexivity]|].
  exact Tr.
Defined.

(** C3, as stated, fails: off Apple's platforms [binauraliser_process] does
    not serve the HRTF flag; a requested rebuild stays requested, nothing is
    rebuilt, and the block is silent. *)
Lemma hrtf_request_survives_process :
  Binauraliser.reInitHRTFsAndGainTables pending_engine = 1%Z
  /\ Binauraliser.reInitHRTFsAndGainTables (fst (fst pending_block)) = 1%Z
  /\ snd pending_block = [EvSilence].
Proof. repeat split; reflexivity. Qed.

Lemma order0_matrix_is_decoder_witness :
  let s1 := fst (AmbiBin.reinit_if_needed ambi_rebuild ambi_rebuild omni_engine) in
  let run s := fst (ambi_process s impulse zeros 1 2 frame_count 1) in
  (AmbiBin.can_process s1 frame_count 1 = true
   /\ AmbiBin.order s1 = 0%Z
   /\ AmbiBin.reInitTFT omni_engine = 0%Z /\ AmbiBin.reInitCodec omni_engine = 0%Z)
  /\ AmbiBin.current_M (fst (run omni_engine)) 7 1 0
     = AmbiBin.M_dec (AmbiBin.pars s1) 7 1 0
  /\ AmbiBin.current_M
       (fst (run (AmbiBin.set_yaw Fone (AmbiBin.set_pitch Fone
                    (AmbiBin.set_roll Fone omni_engine)))))
     = AmbiBin.current_M (fst (run omni_engine)).
Proof.
  intros s1 run.
  assert (Hcan : AmbiBin.can_process s1 frame_count 1 = true) by reflexivity.
  assert (Ho : AmbiBin.order s1 = 0%Z) by reflexivity.
  assert (Ht : AmbiBin.reInitTFT omni_engine = 0%Z) by reflexivity.
  assert (Hc : AmbiBin.reInitCodec omni_engine = 0%Z) by reflexivity.
  destruct (order0_matrix_is_decoder (F := float) unit
              ambi_rebuild ambi_rebuild no_rotation3 no_rotation_SH false
              omni_engine impulse zeros 1%Z 2%Z frame_count 1%Z Hcan Ho)
    as (A & _ & B).
  split; [exact (conj Hcan (conj Ho (conj Ht Hc)))|].
  split.
  - exact (A 7%nat 1%nat 0%nat
             ltac:(apply Nat.ltb_lt; reflexivity)
             ltac:(apply Nat.ltb_lt; reflexivity)
             ltac:(apply Nat.ltb_lt; reflexivity)).
  - exact (proj1 (B Ht Hc Fone Fone Fone)).
Defined.

Lemma output_is_scaled_source_sum_witness :
  let s1 :=
    fst (Binauraliser.reinit_if_needed bina_rebuild bina_rebuild false duo_engine) in
  let s' := fst (fst duo_block) in
  let n := Binauraliser.nSources s1 in
  (Binauraliser.can_process s1 frame_count = true /\ 1%Z <> 0%Z /\ (1 <= n)%Z)
  /\ Binauraliser.outputframeTF s' 0 1 2
     = crmulf
         (source_sum (Z.to_nat n) (Binauraliser.inputframeTF s')
            (Binauraliser.hrtf_interp s') 0 1 2)
         (Fdiv Fone (sqrtf (Fof_int n))).
Proof.
  intros s1 s' n.
  assert (Hcan : Binauraliser.can_process s1 frame_count = true) by reflexivity.
  assert (Hplay : 1%Z <> 0%Z) by discriminate.
  assert (Hn : (1 <= n)%Z) by discriminate.
  split; [exact (conj Hcan (conj Hplay Hn))|].
  exact (output_is_scaled_source_sum (F := float) unit unit
           bina_rebuild bina_rebuild unit_interp no_rotation3_rpy
           libm1 libm1 libm2 libm2 false
           duo_engine impulse zeros 2%Z 2%Z frame_count 1%Z 0%nat 1%nat 2%nat
           Hcan Hplay Hn
           ltac:(apply Nat.ltb_lt; reflexivity)
           ltac:(apply Nat.ltb_lt; reflexivity)
           ltac:(apply Nat.ltb_lt; reflexivity)).
Defined.

Lemma stored_directions_in_range_witness :
  let azi :=
    Binauraliser.binauraliser_getSourceAzi_deg
      (Binauraliser.binauraliser_setSourceAzi_deg duo_engine 1 (of_int 200)) 1 in
  lt (of_int 180) (of_int 200)
  /\ azi = of_int (-160)
  /\ le (of_int (-180)) azi /\ le azi (of_int 180).
Proof.
  intro azi.
  destruct (stored_directions_in_range unit unit duo_engine 1 (of_int 200))
    as ((Ha & Hb) & Hw & _).
  split; [reflexivity|]. split; [|split; assumption].
  exact (Hw eq_refl).
Defined.

(** C6, as stated, fails: -180 itself is stored, so the range of the stored
    azimuth is closed at -180. *)
Lemma minus_180_is_stored :
  let azi :=
    Binauraliser.binauraliser_getSourceAzi_deg
      (Binauraliser.binauraliser_setSourceAzi_deg duo_engine 0 (of_int (-180))) 0 in
  azi = of_int (-180) /\ ~ lt (of_int (-180)) azi.
Proof. split; [reflexivity|]. vm_compute. discriminate. Qed.

Lemma ramp_rises_to_one_witness :
  let ramp :=
    AmbiBin.interpolator
      (AmbiBin.ambi_bin_init zero_table zero_table
         (ambi_blank (F := float) AmbiBin.INPUT_OMNI) 48000) in
  (1 <= TIME_SLOTS <= 128)%nat
  /\ (0 < 1 < TIME_SLOTS)%nat
  /\ lt (ramp 0%nat) (ramp 1%nat)
  /\ ramp 0%nat = Fdiv Fone (Fof_int (Z.of_nat TIME_SLOTS))
  /\ ramp (TIME_SLOTS - 1)%nat = Fone.
Proof.
  intro ramp.
  assert (HT : (1 <= TIME_SLOTS <= 128)%nat)
    by (split; apply Nat.leb_le; reflexivity).
  assert (H01 : (0 < 1 < TIME_SLOTS)%nat)
    by (split; apply Nat.ltb_lt; reflexivity).
  split; [exact HT|]. split; [exact H01|].
  destruct (ramp_rises_to_one unit zero_table zero_table
              (ambi_blank (F := float) AmbiBin.INPUT_OMNI) 48000 HT)
    as (Hinc & _ & Hfirst & Hlast & _).
  split; [exact (Hinc 0%nat 1%nat H01)|].
  split; [exact Hfirst | exact Hlast].
Defined.



(** The decoder and the panner turned by 90 degrees: a flip of yaw from 0
    to 1 negates the stored angle and keeps the reading, a flip of roll from
    0 to 2 negates both. *)
Lemma flip_negates_angle_not_reading_witness :
  (1%Z <> ambi_flip Yaw turned_ambi
   /\ (-180 <= 90 <= 180)%Z
   /\ ambi_angle Yaw turned_ambi = DEG2RAD (of_int 90)
   /\ ambi_angle Yaw (ambi_setFlip Yaw turned_ambi 1)
      = SFopp (ambi_angle Yaw turned_ambi)
   /\ ambi_get Yaw (ambi_setFlip Yaw turned_ambi 1) = ambi_get Yaw turned_ambi)
  /\ (2%Z <> bina_flip Roll turned_bina
      /\ bina_angle Roll (bina_setFlip Roll turned_bina 2)
         = SFopp (DEG2RAD (RAD2DEG (bina_angle Roll turned_bina)))
      /\ bina_angle Roll (bina_setFlip Roll turned_bina 2)
         = SFopp (bina_angle Roll turned_bina)
      /\ bina_get Roll (bina_setFlip Roll turned_bina 2)
         = SFopp (bina_get Roll turned_bina)).
Proof.
  assert (Ha : 1%Z <> ambi_flip Yaw turned_ambi) by discriminate.
  assert (Hb : 2%Z <> bina_flip Roll turned_bina) by discriminate.
  assert (Hb0 : bina_flip Roll turned_bina <> 1%Z) by discriminate.
  assert (Hb2 : 2%Z <> 1%Z) by discriminate.
  assert (Hd : (-180 <= 90 <= 180)%Z) by lia.
  assert (Ea : ambi_angle Yaw turned_ambi = DEG2RAD (of_int 90)) by reflexivity.
  assert (Eb : bina_angle Roll turned_bina = DEG2RAD (of_int 90)) by reflexivity.
  destruct (flip_negates_angle_not_reading unit unit Yaw) as (A & _ & _ & _ & W).
  destruct (flip_negates_angle_not_reading unit unit Roll) as (_ & _ & B & _).
  destruct (A turned_ambi 1%Z Ha) as (_ & _ & _ & _ & A3).
  destruct (B turned_bina 2%Z Hb) as (_ & B1 & _ & _ & B3).
  destruct (A3 (W 90%Z _ Hd (or_introl Ea))) as (A4 & A5 & _).
  destruct (B3 (W 90%Z _ Hd (or_introl Eb))) as (B4 & _ & B5).
  split.
  - split; [exact Ha|]. split; [exact Hd|]. split; [exact Ea|].
    split; [exact A4|]. exact (A5 (or_intror eq_refl)).
  - split; [exact Hb|]. split; [exact B1|]. split; [exact B4|].
    exact (B5 Hb0 Hb2).
Defined.

(** C10, as stated, fails: a flip setter called with 2 while the flag is 0
    is called with a different value, and the getter, which returned 90
    degrees before, then returns -90. *)
Lemma flip_to_two_negates_reading :
  2%Z <> ambi_flip Yaw turned_ambi
  /\ ambi_get Yaw turned_ambi = of_int 90
  /\ ambi_get Yaw (ambi_setFlip Yaw turned_ambi 2) = of_int (-90)
  /\ ambi_get Yaw (ambi_setFlip Yaw turned_ambi 2) <> ambi_get Yaw turned_ambi.
Proof.
  assert (Hne : 2%Z <> ambi_flip Yaw turned_ambi) by discriminate.
  assert (E0 : ambi_get Yaw turned_ambi = of_int 90)
    by (vm_compute; reflexivity).
  assert (E1 : ambi_get Yaw (ambi_setFlip Yaw turned_ambi 2) = of_int (-90))
    by (vm_compute; reflexivity).
  repeat split; try assumption. rewrite E0, E1. vm_compute. discriminate.
Qed.

(** Nor is the stored angle always negated: a yaw of 2^123 radians is, in
    degrees, beyond the largest [float], and the flip stores minus infinity
    for it. *)
Lemma flip_of_a_large_angle_stores_infinity :
  1%Z <> ambi_flip Yaw far_turned_ambi
  /\ ambi_angle Yaw far_turned_ambi = S754_finite false 8388608 100
  /\ ambi_angle Yaw (ambi_setFlip Yaw far_turned_ambi 1) = S754_infinity true.
Proof.
  split; [discriminate|]. split; vm_compute; reflexivity.
Qed.

End Runs.

(** ** saf_sort: the order of floats *)

Section FloatOrder.
Import SafSort.

Lemma SFltb_key (a b : spec_float) :
  is_nan a = false -> is_nan b = false ->
  (SFltb a b = true <-> key_lt (key a) (key b)).
Proof.
  intros Ha Hb. unfold SFltb, SFcompare.
  destruct a as [sa|sa| |sa ma ea], b as [sb|sb| |sb mb eb]; try discriminate;
    try destruct sa; try destruct sb; cbn [key key_lt];
    try (split; [intro; lia | intros; try reflexivity; lia]);
    try (split; [discriminate | lia]).
  all: destruct (Z.compare_spec ea eb);
    try (split; [intro; lia | intros; try reflexivity; lia]);
    try (split; [discriminate | lia]).
  all: change (PosDef.Pos.compare_cont Eq ma mb) with (Pos.compare ma mb);
    destruct (Pos.compare_spec ma mb); cbn [CompOpp];
    try (split; [intro; lia | intros; try reflexivity; lia]);
    try (split; [discriminate | lia]).
Qed.

Lemma SFleb_key (a b : spec_float) :
  is_nan a = false -> is_nan b = false ->
  (SFleb a b = true <-> ~ key_lt (key b) (key a)).
Proof.
  intros Ha Hb. unfold SFleb, SFcompare.
  destruct a as [sa|sa| |sa ma ea], b as [sb|sb| |sb mb eb]; try discriminate;
    try destruct sa; try destruct sb; cbn [key key_lt];
    try (split; [intro; lia | intros; try reflexivity; lia]);
    try (split; [discriminate | lia]).
  all: destruct (Z.compare_spec ea eb);
    try (split; [intro; lia | intros; try reflexivity; lia]);
    try (split; [discriminate | lia]).
  all: change (PosDef.Pos.compare_cont Eq ma mb) with (Pos.compare ma mb);
    destruct (Pos.compare_spec ma mb); cbn [CompOpp];
    try (split; [intro; lia | intros; try reflexivity; lia]);
    try (split; [discriminate | lia]).
Qed.

Lemma SFltb_not_nan (a b : spec_float) :
  SFltb a b = true -> is_nan a = false /\ is_nan b = false.
Proof.
  unfold SFltb, SFcompare.
  destruct a as [sa|sa| |sa ma ea], b as [sb|sb| |sb mb eb];
    cbn; intro; try discriminate; split; reflexivity.
Qed.

Lemma key_lt_trans (x y z : Z * Z * Z) : key_lt x y -> key_lt y z -> key_lt x z.
Proof.
  destruct x as [[? ?] ?], y as [[? ?] ?], z as [[? ?] ?]; cbn [key_lt]. lia.
Qed.

Lemma key_lt_asym (x y : Z * Z * Z) : key_lt x y -> ~ key_lt y x.
Proof.
  destruct x as [[? ?] ?], y as [[? ?] ?]; cbn [key_lt]. lia.
Qed.

Lemma key_le_trans (x y z : Z * Z * Z) :
  ~ key_lt y x -> ~ key_lt z y -> ~ key_lt z x.
Proof.
  destruct x as [[? ?] ?], y as [[? ?] ?], z as [[? ?] ?]; cbn [key_lt]. lia.
Qed.

Lemma SFltb_trans (a b c : spec_float) :
  SFltb a b = true -> SFltb b c = true -> SFltb a c = true.
Proof.
  intros Hab Hbc.
  destruct (SFltb_not_nan _ _ Hab) as [Ha Hb].
  destruct (SFltb_not_nan _ _ Hbc) as [_ Hc].
  apply SFltb_key; [assumption..|].
  apply SFltb_key in Hab; [|assumption..].
  apply SFltb_key in Hbc; [|assumption..].
  eapply key_lt_trans; eassumption.
Qed.

Lemma SFltb_asym (a b : spec_float) : SFltb a b = true -> SFltb b a = false.
Proof.
  intro Hab. destruct (SFltb_not_nan _ _ Hab) as [Ha Hb].
  destruct (SFltb b a) eqn:E; [|reflexivity].
  apply SFltb_key in Hab; [|assumption..].
  apply SFltb_key in E; [|assumption..].
  exfalso. eapply key_lt_asym; eassumption.
Qed.

Lemma SFltb_false_leb (a b : spec_float) :
  is_nan a = false -> is_nan b = false ->
  SFltb b a = false -> SFleb a b = true.
Proof.
  intros Ha Hb E. apply SFleb_key; [assumption..|].
  intro K. apply SFltb_key in K; [|assumption..]. congruence.
Qed.

Lemma SFltb_false_trans (a b c : spec_float) :
  is_nan a = false -> is_nan b = false -> is_nan c = false ->
  SFltb b a = false -> SFltb c b = false -> SFltb c a = false.
Proof.
  intros Ha Hb Hc E1 E2.
  destruct (SFltb c a) eqn:E; [|reflexivity]. exfalso.
  apply SFltb_key in E; [|assumption..].
  revert E. apply (key_le_trans (key a) (key b) (key c)).
  - intro K. apply SFltb_key in K; [|assumption..]. congruence.
  - intro K. apply SFltb_key in K; [|assumption..]. congruence.
Qed.

End FloatOrder.

(** ** saf_sort: sorting with indices *)

Section SortFacts.
Import SafSort.

Lemma insert_by_perm {A : Type} (cmp : A -> A -> Z) (x : A) (l : list A) :
  Permutation (x :: l) (insert_by cmp x l).
Proof.
  induction l as [|y r IH]; cbn [insert_by]; [reflexivity|].
  destruct (cmp x y <=? 0)%Z; [reflexivity|].
  rewrite perm_swap. apply perm_skip, IH.
Qed.

Lemma insertion_sort_perm {A : Type} (cmp : A -> A -> Z) (l : list A) :
  Permutation l (insertion_sort A cmp l).
Proof.
  induction l as [|x r IH]; cbn; [reflexivity|].
  rewrite <- insert_by_perm. apply perm_skip, IH.
Qed.

Lemma insert_by_sorted {A : Type} (cmp : A -> A -> Z) (L : list A) (x : A)
  (l : list A) :
  consistent cmp L -> In x L -> incl l L ->
  StronglySorted (fun a b => (cmp a b <= 0)%Z) l ->
  StronglySorted (fun a b => (cmp a b <= 0)%Z) (insert_by cmp x l).
Proof.
  intros [Hanti Htrans] Hx. induction l as [|y r IH]; intros Hin Hs; cbn [insert_by].
  - constructor; constructor.
  - assert (Hy : In y L) by (apply Hin; left; reflexivity).
    assert (Hr : incl r L) by (intros z Hz; apply Hin; right; exact Hz).
    apply StronglySorted_inv in Hs. destruct Hs as [Hs Hall].
    destruct (Z.leb_spec (cmp x y) 0) as [Hle|Hgt].
    + constructor; [constructor; assumption|].
      constructor; [exact Hle|].
      rewrite Forall_forall in *. intros z Hz.
      apply (Htrans x y z); auto.
    + constructor; [apply IH; assumption|].
      rewrite Forall_forall in *. intros z Hz.
      apply (Permutation_in _ (Permutation_sym (insert_by_perm cmp x r))) in Hz.
      destruct Hz as [<-|Hz]; [|auto].
      apply Z.lt_le_incl, Hanti; assumption.
Qed.

Lemma insertion_sort_sorted {A : Type} (cmp : A -> A -> Z) (L l : list A) :
  consistent cmp L -> incl l L ->
  StronglySorted (fun a b => (cmp a b <= 0)%Z) (insertion_sort A cmp l).
Proof.
  intro HL. induction l as [|x r IH]; intro Hin; cbn.
  - constructor.
  - apply (insert_by_sorted cmp L); [assumption| | |].
    + apply Hin. left. reflexivity.
    + intros z Hz. apply Hin. right.
      exact (Permutation_in _ (Permutation_sym (insertion_sort_perm cmp r)) Hz).
    + apply IH. intros z Hz. apply Hin. right. exact Hz.
Qed.

(** Insertion sort is a [qsort]. *)
Lemma insertion_sort_contract : qsort_contract insertion_sort.
Proof.
  intros A cmp l Hl. split.
  - apply insertion_sort_perm.
  - apply (insertion_sort_sorted cmp l); [assumption|apply incl_refl].
Qed.

(** The two comparisons of integers are consistent on every array. *)
Lemma cmp_asc_int_consistent (l : list (saf_sort Z)) : consistent cmp_asc_int l.
Proof.
  split; intros; unfold cmp_asc_int, cmp_asc in *;
    repeat match goal with
    | |- context [Z.ltb ?a ?b] => destruct (Z.ltb_spec a b)
    | H : context [Z.ltb ?a ?b] |- _ => destruct (Z.ltb_spec a b)
    end; lia.
Qed.

Lemma cmp_desc_int_consistent (l : list (saf_sort Z)) : consistent cmp_desc_int l.
Proof.
  split; intros; unfold cmp_desc_int, cmp_desc in *;
    repeat match goal with
    | |- context [Z.ltb ?a ?b] => destruct (Z.ltb_spec a b)
    | H : context [Z.ltb ?a ?b] |- _ => destruct (Z.ltb_spec a b)
    end; lia.
Qed.

(** ... and those of floats on an array without NaN. *)
Lemma cmp_float_sign (a b : saf_sort spec_float) :
  (cmp_asc SFltb a b <= 0)%Z <-> SFltb (val b) (val a) = false.
Proof.
  unfold cmp_asc.
  destruct (SFltb (val a) (val b)) eqn:E1.
  - rewrite (SFltb_asym _ _ E1). split; [reflexivity|lia].
  - destruct (SFltb (val b) (val a)); split; try reflexivity; try lia; discriminate.
Qed.

Lemma cmp_float_desc_sign (a b : saf_sort spec_float) :
  (cmp_desc SFltb a b <= 0)%Z <-> SFltb (val a) (val b) = false.
Proof.
  unfold cmp_desc.
  destruct (SFltb (val b) (val a)) eqn:E1.
  - rewrite (SFltb_asym _ _ E1). split; [reflexivity|lia].
  - destruct (SFltb (val a) (val b)); split; try reflexivity; try lia; discriminate.
Qed.

Lemma cmp_asc_float_consistent (l : list (saf_sort spec_float)) :
  (forall a, In a l -> is_nan (val a) = false) -> consistent (cmp_asc SFltb) l.
Proof.
  intro Hn. split.
  - intros a b _ _. unfold cmp_asc.
    destruct (SFltb (val a) (val b)) eqn:E1.
    + rewrite (SFltb_asym _ _ E1). lia.
    + destruct (SFltb (val b) (val a)); lia.
  - intros a b c Ha Hb Hc. rewrite !cmp_float_sign. intros H1 H2.
    apply (SFltb_false_trans (val a) (val b) (val c)); auto.
Qed.

Lemma cmp_desc_float_consistent (l : list (saf_sort spec_float)) :
  (forall a, In a l -> is_nan (val a) = false) -> consistent (cmp_desc SFltb) l.
Proof.
  intro Hn. split.
  - intros a b _ _. unfold cmp_desc.
    destruct (SFltb (val b) (val a)) eqn:E1.
    + rewrite (SFltb_asym _ _ E1). lia.
    + destruct (SFltb (val a) (val b)); lia.
  - intros a b c Ha Hb Hc. rewrite !cmp_float_desc_sign. intros H1 H2.
    apply (SFltb_false_trans (val c) (val b) (val a)); auto.
Qed.

(** The loop that writes the result back, array by array. *)
Lemma write_back_loop {V : Type} (data : list (saf_sort V)) (d0 : saf_sort V)
  (n : nat) (in_vec : nat -> V) (out_vec : option (nat -> V))
  (new_idices : option (nat -> Z)) :
  (n <= List.length data)%nat ->
  for_loop n (write_back data) (in_vec, out_vec, new_idices)
  = (match out_vec with
     | Some _ => in_vec
     | None => for_loop n (fun i a => upd a i (val (nth i data d0))) in_vec
     end,
     match out_vec with
     | Some o => Some (for_loop n (fun i a => upd a i (val (nth i data d0))) o)
     | None => None
     end,
     match new_idices with
     | Some x => Some (for_loop n (fun i a => upd a i (idx (nth i data d0))) x)
     | None => None
     end).
Proof.
  induction n as [|n IH]; intro Hn; cbn [for_loop].
  - destruct out_vec, new_idices; reflexivity.
  - rewrite IH by lia. unfold write_back.
    destruct out_vec, new_idices;
      rewrite (nth_indep data _ d0) by lia; reflexivity.
Qed.

Lemma prefix_nth {A : Type} (l : list A) (d : A) :
  prefix (fun i => nth i l d) (List.length l) = l.
Proof.
  unfold prefix. apply nth_ext with (d := d) (d' := d).
  - rewrite length_map, length_seq. reflexivity.
  - intros n Hn. rewrite length_map, length_seq in Hn.
    rewrite (nth_indep _ d (nth 0 l d)) by (rewrite length_map, length_seq; lia).
    rewrite (map_nth (fun i => nth i l d)), seq_nth by lia. reflexivity.
Qed.

Lemma prefix_ext {A : Type} (a b : nat -> A) (n : nat) :
  (forall i, (i < n)%nat -> a i = b i) -> prefix a n = prefix b n.
Proof.
  intro E. unfold prefix. apply map_ext_in. intros i Hi.
  apply in_seq in Hi. apply E. lia.
Qed.

Lemma prefix_map {A B : Type} (f : A -> B) (a : nat -> A) (n : nat) :
  map f (prefix a n) = prefix (fun i => f (a i)) n.
Proof. unfold prefix. rewrite map_map. reflexivity. Qed.

Lemma sorted_nth {A : Type} (R : A -> A -> Prop) (l : list A) (d : A) :
  StronglySorted R l ->
  forall i j, (i < j < List.length l)%nat -> R (nth i l d) (nth j l d).
Proof.
  induction 1 as [|x r Hs IH Hall]; intros i j Hij; cbn [List.length] in Hij; [lia|].
  destruct j as [|j]; [lia|]. destruct i as [|i]; cbn [nth].
  - rewrite Forall_forall in Hall. apply Hall, nth_In. lia.
  - apply IH. lia.
Qed.

End SortFacts.

Section SortVec.
Import SafSort.
Variable qsort : forall A : Type, (A -> A -> Z) -> list A -> list A.
Hypothesis Hq : qsort_contract qsort.
Variable V : Type.
Variable ltb : V -> V -> bool.

Local Abbreviation chosen := (chosen_cmp ltb).

Lemma load_data_length (in_vec : nat -> V) (len : nat) :
  List.length (load_data in_vec len) = len.
Proof. unfold load_data. rewrite length_map, length_seq. reflexivity. Qed.

Lemma load_data_val (in_vec : nat -> V) (len : nat) :
  map (@val V) (load_data in_vec len) = prefix in_vec len.
Proof. unfold load_data, prefix. rewrite map_map. reflexivity. Qed.

Lemma load_data_idx (in_vec : nat -> V) (len : nat) :
  map (@idx V) (load_data in_vec len) = map Z.of_nat (seq 0 len).
Proof. unfold load_data. rewrite map_map. reflexivity. Qed.

Lemma load_data_origin (in_vec : nat -> V) (len : nat) (d : saf_sort V) :
  In d (load_data in_vec len) -> val d = in_vec (Z.to_nat (idx d)).
Proof.
  unfold load_data. rewrite in_map_iff. intros (i & <- & _).
  cbn [val idx]. rewrite Nat2Z.id. reflexivity.
Qed.

Lemma fill_at {A : Type} (n : nat) (f : nat -> A) (a : nat -> A) (k : nat) :
  fill n f a k = if Nat.ltb k n then f k else a k.
Proof. unfold fill. apply (for_loop_upd (fun i _ => f i)). Qed.

Lemma sort_vec_spec (in_vec : nat -> V) (out_vec : option (nat -> V))
  (new_idices : option (nat -> Z)) (len : nat) (descendFLAG : Z) :
  consistent (chosen descendFLAG) (load_data in_vec len) ->
  exists data : list (saf_sort V),
    Permutation (load_data in_vec len) data /\
    StronglySorted (fun a b => (chosen descendFLAG a b <= 0)%Z) data /\
    List.length data = len /\
    forall d0,
      sort_vec qsort ltb in_vec out_vec new_idices len descendFLAG
      = (match out_vec with
         | Some _ => in_vec
         | None => fill len (fun k => val (nth k data d0)) in_vec
         end,
         match out_vec with
         | Some o => Some (fill len (fun k => val (nth k data d0)) o)
         | None => None
         end,
         match new_idices with
         | Some x => Some (fill len (fun k => idx (nth k data d0)) x)
         | None => None
         end).
Proof.
  intro Hc. destruct (Hq _ _ _ Hc) as [Hp Hs].
  exists (qsort _ (chosen descendFLAG) (load_data in_vec len)).
  assert (Hlen : List.length (qsort _ (chosen descendFLAG) (load_data in_vec len)) = len).
  { rewrite <- (Permutation_length Hp). apply load_data_length. }
  repeat split; try assumption.
  intro d0. unfold sort_vec.
  replace (if nonzero descendFLAG
           then qsort (saf_sort V) (cmp_desc ltb) (load_data in_vec len)
           else qsort (saf_sort V) (cmp_asc ltb) (load_data in_vec len))
    with (qsort _ (chosen descendFLAG) (load_data in_vec len))
    by (unfold chosen_cmp; destruct (nonzero descendFLAG); reflexivity).
  rewrite (write_back_loop _ d0) by lia. reflexivity.
Qed.

(** What the sorted records say about the arrays written from them. *)
Lemma sorted_values_perm (in_vec : nat -> V) (len : nat) (data : list (saf_sort V))
  (d0 : saf_sort V) (a : nat -> V) :
  Permutation (load_data in_vec len) data -> List.length data = len ->
  Permutation (prefix in_vec len) (prefix (fill len (fun k => val (nth k data d0)) a) len).
Proof.
  intros Hp Hlen.
  rewrite (prefix_ext (fill len (fun k => val (nth k data d0)) a)
             (fun k => val (nth k data d0)))
    by (intros i Hi; rewrite fill_at; nat_cases).
  rewrite <- (prefix_map (@val V) (fun k => nth k data d0)).
  rewrite <- Hlen at 2. rewrite prefix_nth, <- load_data_val.
  apply Permutation_map, Hp.
Qed.

Lemma sorted_indices_perm (in_vec : nat -> V) (len : nat) (data : list (saf_sort V))
  (d0 : saf_sort V) (x : nat -> Z) :
  Permutation (load_data in_vec len) data -> List.length data = len ->
  Permutation (map Z.of_nat (seq 0 len))
    (prefix (fill len (fun k => idx (nth k data d0)) x) len).
Proof.
  intros Hp Hlen.
  rewrite (prefix_ext (fill len (fun k => idx (nth k data d0)) x)
             (fun k => idx (nth k data d0)))
    by (intros i Hi; rewrite fill_at; nat_cases).
  rewrite <- (prefix_map (@idx V) (fun k => nth k data d0)).
  rewrite <- Hlen at 2. rewrite prefix_nth, <- (load_data_idx in_vec).
  apply Permutation_map, Hp.
Qed.

Lemma sorted_origin (in_vec : nat -> V) (len : nat) (data : list (saf_sort V))
  (d0 : saf_sort V) (i : nat) :
  Permutation (load_data in_vec len) data -> List.length data = len ->
  (i < len)%nat ->
  val (nth i data d0) = in_vec (Z.to_nat (idx (nth i data d0))).
Proof.
  intros Hp Hlen Hi. apply (load_data_origin in_vec len).
  apply (Permutation_in _ (Permutation_sym Hp)), nth_In. lia.
Qed.

End SortVec.

Section SortTheorems.
Import SafSort.

Lemma chosen_int_consistent (descendFLAG : Z) (l : list (saf_sort Z)) :
  consistent (chosen_cmp Z.ltb descendFLAG) l.
Proof.
  unfold chosen_cmp. destruct (nonzero descendFLAG).
  - apply cmp_desc_int_consistent.
  - apply cmp_asc_int_consistent.
Qed.

Lemma chosen_int_order (descendFLAG : Z) (a b : saf_sort Z) :
  (chosen_cmp Z.ltb descendFLAG a b <= 0)%Z ->
  if nonzero descendFLAG then (val b <= val a)%Z else (val a <= val b)%Z.
Proof.
  unfold chosen_cmp, cmp_desc, cmp_asc. destruct (nonzero descendFLAG);
    destruct (Z.ltb_spec (val a) (val b)), (Z.ltb_spec (val b) (val a)); lia.
Qed.

Lemma sorted_int_order (descendFLAG : Z) (data : list (saf_sort Z))
  (d0 : saf_sort Z) (i j : nat) :
  StronglySorted (fun a b => (chosen_cmp Z.ltb descendFLAG a b <= 0)%Z) data ->
  (i <= j < List.length data)%nat ->
  if nonzero descendFLAG then (val (nth j data d0) <= val (nth i data d0))%Z
  else (val (nth i data d0) <= val (nth j data d0))%Z.
Proof.
  intros Hs Hij. destruct (Nat.eq_dec i j) as [->|Hne].
  - destruct (nonzero descendFLAG); lia.
  - apply chosen_int_order. apply (sorted_nth _ _ d0 Hs). lia.
Qed.

(** X1: given an output vector, [sorti] leaves the input as it is and writes
    to the first [len] entries of the output a permutation of the first [len]
    inputs, in ascending order when [descendFLAG] is 0 and in descending order
    for every other value of the flag; the entries from [len] on are not
    written.  This holds with every [qsort] that meets its contract. *)
Theorem sorti_sorts_into_out_vec
  (qsort : forall A : Type, (A -> A -> Z) -> list A -> list A)
  (Hq : qsort_contract qsort)
  (in_vec out_vec : nat -> Z) (new_idices : option (nat -> Z))
  (len : nat) (descendFLAG : Z) :
  let r := sorti qsort in_vec (Some out_vec) new_idices len descendFLAG in
  fst (fst r) = in_vec /\
  exists sorted : nat -> Z,
    snd (fst r) = Some sorted /\
    Permutation (prefix in_vec len) (prefix sorted len) /\
    (forall i j, (i <= j < len)%nat ->
       if nonzero descendFLAG then (sorted j <= sorted i)%Z
       else (sorted i <= sorted j)%Z) /\
    (forall k, (len <= k)%nat -> sorted k = out_vec k).
Proof.
  intro r.
  destruct (sort_vec_spec qsort Hq Z Z.ltb in_vec (Some out_vec) new_idices len
              descendFLAG (chosen_int_consistent _ _))
    as (data & Hp & Hs & Hlen & E).
  pose (d0 := {| val := 0%Z; idx := 0%Z |}).
  subst r. unfold sorti. rewrite (E d0). cbn [fst snd]. split; [reflexivity|].
  eexists. split; [reflexivity|]. split; [|split].
  - apply sorted_values_perm; assumption.
  - intros i j Hij. rewrite !fill_at.
    destruct (Nat.ltb_spec i len), (Nat.ltb_spec j len); try lia.
    apply sorted_int_order; [assumption|lia].
  - intros k Hk. rewrite fill_at. nat_cases.
Qed.

(** X2: with [out_vec = NULL], [sorti] sorts in place: the first [len]
    entries of the input vector are overwritten by their sorted permutation,
    nothing is written beyond them, and no output vector appears. *)
Theorem sorti_sorts_in_place
  (qsort : forall A : Type, (A -> A -> Z) -> list A -> list A)
  (Hq : qsort_contract qsort)
  (in_vec : nat -> Z) (new_idices : option (nat -> Z))
  (len : nat) (descendFLAG : Z) :
  let r := sorti qsort in_vec None new_idices len descendFLAG in
  let sorted := fst (fst r) in
  snd (fst r) = None /\
  Permutation (prefix in_vec len) (prefix sorted len) /\
  (forall i j, (i <= j < len)%nat ->
     if nonzero descendFLAG then (sorted j <= sorted i)%Z
     else (sorted i <= sorted j)%Z) /\
  (forall k, (len <= k)%nat -> sorted k = in_vec k).
Proof.
  intros r sorted.
  destruct (sort_vec_spec qsort Hq Z Z.ltb in_vec None new_idices len
              descendFLAG (chosen_int_consistent _ _))
    as (data & Hp & Hs & Hlen & E).
  pose (d0 := {| val := 0%Z; idx := 0%Z |}).
  subst sorted r. unfold sorti. rewrite (E d0). cbn [fst snd].
  split; [reflexivity|]. split; [|split].
  - apply sorted_values_perm; assumption.
  - intros i j Hij. rewrite !fill_at.
    destruct (Nat.ltb_spec i len), (Nat.ltb_spec j len); try lia.
    apply sorted_int_order; [assumption|lia].
  - intros k Hk. rewrite fill_at. nat_cases.
Qed.

(** X3: the indices [sorti] hands out are a permutation of [0, ..., len-1],
    each within bounds, and entry [i] of the sorted vector is the input at
    index [new_idices[i]]; index entries from [len] on are not written. *)
Theorem sorti_indices_point_back
  (qsort : forall A : Type, (A -> A -> Z) -> list A -> list A)
  (Hq : qsort_contract qsort)
  (in_vec : nat -> Z) (out_vec : option (nat -> Z)) (new_idices : nat -> Z)
  (len : nat) (descendFLAG : Z) :
  let r := sorti qsort in_vec out_vec (Some new_idices) len descendFLAG in
  exists indices : nat -> Z,
    snd r = Some indices /\
    Permutation (map Z.of_nat (seq 0 len)) (prefix indices len) /\
    (forall i, (i < len)%nat ->
       (0 <= indices i < Z.of_nat len)%Z /\
       sorted_vec r i = in_vec (Z.to_nat (indices i))) /\
    (forall k, (len <= k)%nat -> indices k = new_idices k).
Proof.
  intro r.
  destruct (sort_vec_spec qsort Hq Z Z.ltb in_vec out_vec (Some new_idices) len
              descendFLAG (chosen_int_consistent _ _))
    as (data & Hp & Hs & Hlen & E).
  pose (d0 := {| val := 0%Z; idx := 0%Z |}).
  subst r. unfold sorti. rewrite (E d0). cbn [fst snd].
  eexists. split; [reflexivity|]. split; [|split].
  - apply (sorted_indices_perm _ in_vec); assumption.
  - intros i Hi. split.
    + assert (Hin : In (fill len (fun k => idx (nth k data d0)) new_idices i)
                      (map Z.of_nat (seq 0 len))).
      { apply (Permutation_in _
                 (Permutation_sym (sorted_indices_perm _ in_vec len data d0 new_idices Hp Hlen))).
        unfold prefix. apply in_map_iff. exists i. split; [reflexivity|].
        apply in_seq. lia. }
      apply in_map_iff in Hin. destruct Hin as (n & <- & Hn).
      apply in_seq in Hn. lia.
    + unfold sorted_vec. destruct out_vec; cbn [fst snd]; rewrite !fill_at;
        destruct (Nat.ltb_spec i len); try lia;
        apply (sorted_origin _ in_vec len); assumption.
  - intros k Hk. rewrite fill_at. nat_cases.
Qed.

Lemma StronglySorted_map {A B : Type} (R : A -> A -> Prop) (R' : B -> B -> Prop)
  (f : A -> B) (l : list A) :
  (forall a b, R a b -> R' (f a) (f b)) ->
  StronglySorted R l -> StronglySorted R' (map f l).
Proof.
  intros HR. induction 1 as [|x r Hs IH Hall]; cbn [map]; constructor; [assumption|].
  rewrite Forall_forall in *. intros y Hy. apply in_map_iff in Hy.
  destruct Hy as (a & <- & Ha). auto.
Qed.

Lemma sorted_perm_unique {A : Type} (R : A -> A -> Prop) (l1 l2 : list A) :
  (forall a b, R a b -> R b a -> a = b) ->
  StronglySorted R l1 -> StronglySorted R l2 -> Permutation l1 l2 -> l1 = l2.
Proof.
  intros Hanti. revert l2. induction l1 as [|x1 r1 IH]; intros l2 H1 H2 Hp.
  - apply Permutation_nil in Hp. congruence.
  - destruct l2 as [|x2 r2]; [apply Permutation_sym, Permutation_nil in Hp; discriminate|].
    apply StronglySorted_inv in H1. destruct H1 as [H1 F1].
    apply StronglySorted_inv in H2. destruct H2 as [H2 F2].
    rewrite Forall_forall in F1, F2.
    assert (E : x1 = x2).
    { assert (I1 : In x1 (x2 :: r2))
        by (apply (Permutation_in _ Hp); left; reflexivity).
      assert (I2 : In x2 (x1 :: r1))
        by (apply (Permutation_in _ (Permutation_sym Hp)); left; reflexivity).
      destruct I1 as [->|I1]; [reflexivity|].
      destruct I2 as [->|I2]; [reflexivity|].
      apply Hanti; auto. }
    subst x2. f_equal. apply IH; try assumption.
    exact (Permutation_cons_inv Hp).
Qed.

(** X4: the sorted values of [sorti] are the same with any two sorting
    routines that meet the contract of [qsort]; only the order of the indices
    of equal values is left to the library. *)
Theorem sorti_values_do_not_depend_on_qsort
  (qsort1 qsort2 : forall A : Type, (A -> A -> Z) -> list A -> list A)
  (H1 : qsort_contract qsort1) (H2 : qsort_contract qsort2)
  (in_vec : nat -> Z) (out_vec new_idices : option (nat -> Z))
  (len : nat) (descendFLAG : Z) (k : nat) :
  sorted_vec (sorti qsort1 in_vec out_vec new_idices len descendFLAG) k
  = sorted_vec (sorti qsort2 in_vec out_vec new_idices len descendFLAG) k.
Proof.
  destruct (sort_vec_spec qsort1 H1 Z Z.ltb in_vec out_vec new_idices len
              descendFLAG (chosen_int_consistent _ _))
    as (data1 & Hp1 & Hs1 & Hlen1 & E1).
  destruct (sort_vec_spec qsort2 H2 Z Z.ltb in_vec out_vec new_idices len
              descendFLAG (chosen_int_consistent _ _))
    as (data2 & Hp2 & Hs2 & Hlen2 & E2).
  pose (d0 := {| val := 0%Z; idx := 0%Z |}).
  assert (Ev : map (@val Z) data1 = map (@val Z) data2).
  { apply (sorted_perm_unique
             (fun x y => if nonzero descendFLAG then (y <= x)%Z else (x <= y)%Z)).
    - intros a b. destruct (nonzero descendFLAG); lia.
    - apply (StronglySorted_map _ _ _ _ (chosen_int_order descendFLAG) Hs1).
    - apply (StronglySorted_map _ _ _ _ (chosen_int_order descendFLAG) Hs2).
    - apply Permutation_map. rewrite <- Hp1. exact Hp2. }
  assert (En : forall i, val (nth i data1 d0) = val (nth i data2 d0)).
  { intro i. rewrite <- !(map_nth (@val Z)). rewrite Ev. reflexivity. }
  unfold sorti. rewrite (E1 d0), (E2 d0). unfold sorted_vec.
  destruct out_vec; cbn [fst snd]; rewrite !fill_at; rewrite En; reflexivity.
Qed.

End SortTheorems.

Section FloatSortTheorems.
Import SafSort.

Lemma chosen_float_consistent (descendFLAG : Z) (l : list (saf_sort spec_float)) :
  (forall a, In a l -> is_nan (val a) = false) ->
  consistent (chosen_cmp SFltb descendFLAG) l.
Proof.
  intro Hn. unfold chosen_cmp. destruct (nonzero descendFLAG).
  - apply cmp_desc_float_consistent, Hn.
  - apply cmp_asc_float_consistent, Hn.
Qed.

Lemma SFleb_refl (a : spec_float) : is_nan a = false -> SFleb a a = true.
Proof.
  intro Ha. apply SFleb_key; [assumption..|].
  intro K. exact (key_lt_asym _ _ K K).
Qed.

Lemma sorted_float_order (descendFLAG : Z) (data : list (saf_sort spec_float))
  (d0 : saf_sort spec_float) (i j : nat) :
  (forall a, In a data -> is_nan (val a) = false) ->
  StronglySorted (fun a b => (chosen_cmp SFltb descendFLAG a b <= 0)%Z) data ->
  (i <= j < List.length data)%nat ->
  if nonzero descendFLAG
  then SFleb (val (nth j data d0)) (val (nth i data d0)) = true
  else SFleb (val (nth i data d0)) (val (nth j data d0)) = true.
Proof.
  intros Hn Hs Hij.
  assert (Hi : is_nan (val (nth i data d0)) = false) by (apply Hn, nth_In; lia).
  assert (Hj : is_nan (val (nth j data d0)) = false) by (apply Hn, nth_In; lia).
  destruct (Nat.eq_dec i j) as [->|Hne].
  - destruct (nonzero descendFLAG); apply SFleb_refl; assumption.
  - assert (Hc := sorted_nth _ _ d0 Hs i j ltac:(lia)). cbv beta in Hc.
    unfold chosen_cmp in Hc. destruct (nonzero descendFLAG).
    + apply cmp_float_desc_sign in Hc. apply SFltb_false_leb; assumption.
    + apply cmp_float_sign in Hc. apply SFltb_false_leb; assumption.
Qed.

(** X5: on a vector without NaN among its first [len] entries, [sortf] (and
    [sortd], which is the same code on [double]) yields a sorted permutation,
    ascending for flag 0 and descending otherwise with respect to the IEEE
    comparison, in [out_vec] or in place, and its indices point back to the
    inputs. *)
Theorem sortf_sorts_vectors_without_nan
  (qsort : forall A : Type, (A -> A -> Z) -> list A -> list A)
  (Hq : qsort_contract qsort)
  (in_vec : nat -> spec_float) (out_vec : option (nat -> spec_float))
  (new_idices : option (nat -> Z)) (len : nat) (descendFLAG : Z)
  (Hnan : forall i, (i < len)%nat -> is_nan (in_vec i) = false) :
  let r := sortf qsort in_vec out_vec new_idices len descendFLAG in
  let sorted := sorted_vec r in
  Permutation (prefix in_vec len) (prefix sorted len) /\
  (forall i j, (i <= j < len)%nat ->
     if nonzero descendFLAG then SFleb (sorted j) (sorted i) = true
     else SFleb (sorted i) (sorted j) = true) /\
  (forall x, new_idices = Some x ->
     exists indices, snd r = Some indices /\
       forall i, (i < len)%nat -> sorted i = in_vec (Z.to_nat (indices i))) /\
  sortd qsort in_vec out_vec new_idices len descendFLAG = r.
Proof.
  intros r sorted.
  assert (Hload : forall a, In a (load_data in_vec len) -> is_nan (val a) = false).
  { intros a Ha. unfold load_data in Ha. apply in_map_iff in Ha.
    destruct Ha as (i & <- & Hi). apply in_seq in Hi. apply Hnan. lia. }
  destruct (sort_vec_spec qsort Hq spec_float SFltb in_vec out_vec new_idices len
              descendFLAG (chosen_float_consistent _ _ Hload))
    as (data & Hp & Hs & Hlen & E).
  assert (Hdata : forall a, In a data -> is_nan (val a) = false).
  { intros a Ha. apply Hload. exact (Permutation_in _ (Permutation_sym Hp) Ha). }
  pose (d0 := {| val := S754_zero false; idx := 0%Z |}).
  subst sorted r. unfold sortf, sortd, sorted_vec. rewrite (E d0).
  split; [|split; [|split]].
  - destruct out_vec; cbn [fst snd]; apply sorted_values_perm; assumption.
  - intros i j Hij.
    destruct out_vec; cbn [fst snd]; rewrite !fill_at;
      destruct (Nat.ltb_spec i len), (Nat.ltb_spec j len); try lia;
      apply sorted_float_order; try assumption; lia.
  - intros x ->. eexists. split; [reflexivity|]. intros i Hi.
    destruct out_vec; cbn [fst snd]; rewrite !fill_at;
      destruct (Nat.ltb_spec i len); try lia;
      apply (sorted_origin _ in_vec len); assumption.
  - reflexivity.
Qed.

(** X6: the float comparisons return 0 whenever one argument is NaN, so on
    an array holding a NaN next to two numbers [a < b] neither comparison is
    consistent: "not greater" fails to be transitive, and the precondition of
    [qsort] is not met. *)
Theorem nan_breaks_the_float_comparison
  (a b : spec_float) (i j k : Z) (l : list (saf_sort spec_float))
  (Hab : SFltb a b = true)
  (Ha : In {| val := a; idx := i |} l)
  (Hn : In {| val := S754_nan; idx := j |} l)
  (Hb : In {| val := b; idx := k |} l) :
  (forall x, cmp_asc_float {| val := S754_nan; idx := j |} x = 0%Z /\
             cmp_asc_float x {| val := S754_nan; idx := j |} = 0%Z /\
             cmp_desc_float {| val := S754_nan; idx := j |} x = 0%Z /\
             cmp_desc_float x {| val := S754_nan; idx := j |} = 0%Z) /\
  ~ consistent cmp_asc_float l /\ ~ consistent cmp_desc_float l.
Proof.
  assert (Hba := SFltb_asym _ _ Hab).
  split; [|split].
  - intros [x n]. unfold cmp_asc_float, cmp_desc_float, cmp_asc, cmp_desc.
    cbn [val]. destruct x as [s|s| |s m e]; repeat split; reflexivity.
  - intros [_ Ht].
    specialize (Ht _ _ _ Hb Hn Ha). unfold cmp_asc_float, cmp_asc in Ht.
    cbn [val] in Ht. rewrite Hab, Hba in Ht.
    replace (SFltb b S754_nan) with false in Ht by (destruct b; reflexivity).
    replace (SFltb S754_nan a) with false in Ht by (destruct a; reflexivity).
    replace (SFltb a S754_nan) with false in Ht by (destruct a; reflexivity).
    cbn in Ht. lia.
  - intros [_ Ht].
    specialize (Ht _ _ _ Ha Hn Hb). unfold cmp_desc_float, cmp_desc in Ht.
    cbn [val] in Ht. rewrite Hab, Hba in Ht.
    replace (SFltb b S754_nan) with false in Ht by (destruct b; reflexivity).
    replace (SFltb S754_nan a) with false in Ht by (destruct a; reflexivity).
    replace (SFltb a S754_nan) with false in Ht by (destruct a; reflexivity).
    replace (SFltb S754_nan b) with false in Ht by (destruct b; reflexivity).
    cbn in Ht. lia.
Qed.

End FloatSortTheorems.

(** ** saf_sort: the closest grid point *)

Section GridScan.
Import SafSort.
Context {F : Type} `{FloatOps F}.
Variable acosf : F -> F.
Variable grid_xyz target_xyz : nat -> F.

Local Abbreviation dot := (dot_xyz grid_xyz target_xyz).

Local Abbreviation scanned := (SafSort.scanned acosf grid_xyz target_xyz).

Lemma scanned_bound (n i : nat) (v0 : Z) (w0 : option F) (mx : F) (v : Z)
  (w : option F) :
  scanned n i v0 w0 mx v w ->
  forall j, (j < n)%nat -> Fltb mx (dot i j) = false.
Proof.
  unfold SafSort.scanned.
  intros [(-> & _ & _ & Hall)|(j & _ & -> & _ & _ & _ & Hall & _)]; exact Hall.
Qed.

Hypothesis Fltb_trans :
  forall a b c : F, Fltb a b = true -> Fltb b c = true -> Fltb a c = true.
Hypothesis Fltb_irrefl : forall a : F, Fltb a a = false.

Lemma visit_loop (i : nat) (idx0 : nat -> Z) (ad0 : option (nat -> F)) (n : nat) :
  let '(idx_closest, max_val, angle_diff) :=
    for_loop n (visit acosf grid_xyz target_xyz i) (idx0, lowest, ad0) in
  (forall k, k <> i ->
     idx_closest k = idx0 k /\ entry angle_diff k = entry ad0 k) /\
  scanned n i (idx0 i) (entry ad0 i) max_val (idx_closest i) (entry angle_diff i).
Proof.
  induction n as [|n IH]; cbn [for_loop].
  - split; [intros; split; reflexivity|].
    left. repeat split; try reflexivity. intros; lia.
  - destruct (for_loop n (visit acosf grid_xyz target_xyz i) (idx0, lowest, ad0))
      as [[idx mx] ad].
    destruct IH as (Hframe & Hscan).
    assert (Hall := scanned_bound _ _ _ _ _ _ _ Hscan).
    unfold visit. fold (dot i n).
    destruct (Fltb mx (dot i n)) eqn:E.
    + split.
      * intros k Hk. destruct (Hframe k Hk) as [E1 E2]. rewrite !upd_at.
        destruct (Nat.eqb_spec k i); [contradiction|]. split; [exact E1|].
        rewrite <- E2. destruct ad; cbn [entry option_map]; [|reflexivity].
        rewrite upd_at. destruct (Nat.eqb_spec k i); [contradiction|reflexivity].
      * right. exists n. split; [lia|]. split; [reflexivity|].
        rewrite !upd_at, Nat.eqb_refl. split; [reflexivity|].
        split; [|split; [|split]].
        -- destruct Hscan as [(_ & _ & Hw & _)|(j & _ & _ & _ & Hw & _)];
             destruct ad, ad0; cbn [entry option_map] in *; try discriminate;
             try reflexivity; rewrite upd_at, Nat.eqb_refl; reflexivity.
        -- destruct Hscan as [(-> & _)|(j & _ & -> & _ & _ & Hl & _)];
             [exact E|]. exact (Fltb_trans _ _ _ Hl E).
        -- intros j' Hj'. destruct (Nat.eq_dec j' n) as [->|Hne];
             [apply Fltb_irrefl|].
           destruct (Fltb (dot i n) (dot i j')) eqn:E'; [|reflexivity].
           rewrite <- (Hall j') by lia. symmetry. exact (Fltb_trans _ _ _ E E').
        -- intros j' Hj' Heq. specialize (Hall j' Hj').
           rewrite Heq in Hall. congruence.
    + split; [exact Hframe|].
      destruct Hscan as [(-> & Hv & Hw & Hno)|(j & Hj & -> & Hv & Hw & Hl & Hmax & Hfirst)].
      * left. repeat split; try assumption. intros j Hj.
        destruct (Nat.eq_dec j n) as [->|Hne]; [exact E|]. apply Hno. lia.
      * right. exists j. split; [lia|]. repeat split; try assumption.
        intros j' Hj'. destruct (Nat.eq_dec j' n) as [->|Hne]; [exact E|].
        apply Hmax. lia.
Qed.

(** The outer loop: every target below [nTarget] has been scanned against
    the whole grid, the other entries are as they were. *)
Lemma closest_indices_spec (nGrid nTarget : Z) (idx0 : nat -> Z)
  (ad0 : option (nat -> F)) :
  let r := closest_indices acosf grid_xyz target_xyz nGrid nTarget idx0 ad0 in
  forall i,
    if Nat.ltb i (Z.to_nat nTarget)
    then exists mx, scanned (Z.to_nat nGrid) i (idx0 i) (entry ad0 i) mx
                      (fst r i) (entry (snd r) i)
    else fst r i = idx0 i /\ entry (snd r) i = entry ad0 i.
Proof.
  unfold closest_indices. induction (Z.to_nat nTarget) as [|m IH];
    cbn [for_loop]; intros i.
  - cbn. split; reflexivity.
  - cbv zeta in IH.
    destruct (for_loop m _ (idx0, ad0)) as [idx ad] eqn:Eloop.
    cbn [fst snd] in IH. unfold scan_grid. cbn [fst snd].
    assert (L := visit_loop m idx ad (Z.to_nat nGrid)).
    destruct (for_loop (Z.to_nat nGrid) _ (idx, lowest, ad)) as [[idx' mx] ad'].
    destruct L as (Hframe & Hscan). cbn [fst snd].
    destruct (Nat.eq_dec i m) as [->|Hne].
    + replace (Nat.ltb m (S m)) with true by (symmetry; apply Nat.ltb_lt; lia).
      specialize (IH m). rewrite Nat.ltb_irrefl in IH. destruct IH as [E1 E2].
      rewrite E1, E2 in Hscan. exists mx. exact Hscan.
    + destruct (Hframe i Hne) as [E1 E2]. rewrite E1, E2.
      specialize (IH i).
      destruct (Nat.ltb_spec i m), (Nat.ltb_spec i (S m)); try lia; exact IH.
Qed.

End GridScan.

Section GridLoops.
Import SafSort.
Context {F : Type} `{FloatOps F}.

Lemma read_grid_inside (grid_dirs : nat -> F) (nGrid k : Z) :
  (0 <= k < 2 * nGrid)%Z ->
  read_grid grid_dirs nGrid k = Some (grid_dirs (Z.to_nat k)).
Proof.
  intro Hk. unfold read_grid.
  destruct (Z.leb_spec 0 k); [|lia]. destruct (Z.ltb_spec k (2 * nGrid)); [|lia].
  reflexivity.
Qed.

Lemma read_grid_outside (grid_dirs : nat -> F) (nGrid k : Z) :
  ~ (0 <= k < 2 * nGrid)%Z -> read_grid grid_dirs nGrid k = None.
Proof.
  intro Hk. unfold read_grid.
  destruct (Z.leb_spec 0 k); [|reflexivity].
  destruct (Z.ltb_spec k (2 * nGrid)); [lia|reflexivity].
Qed.

(** With every index used inside the grid, the loop writes the directions
    at those indices and nothing else. *)
Lemma copy_dirs_loop (grid_dirs : nat -> F) (nGrid : Z) (idx_closest : nat -> Z)
  (n : nat) (d : nat -> F) :
  (forall i, (i < n)%nat -> (0 <= idx_closest i < nGrid)%Z) ->
  exists d',
    for_loop n (copy_dirs grid_dirs nGrid idx_closest) (Some d) = Some d' /\
    (forall i, (i < n)%nat ->
       d' (i * 2)%nat = grid_dirs (Z.to_nat (idx_closest i * 2)) /\
       d' (i * 2 + 1)%nat = grid_dirs (Z.to_nat (idx_closest i * 2 + 1))) /\
    (forall k, (n * 2 <= k)%nat -> d' k = d k).
Proof.
  induction n as [|n IH]; intro Hin; cbn [for_loop].
  - exists d. split; [reflexivity|]. split; [intros; lia|reflexivity].
  - destruct IH as (d0 & E & IH1 & IH2); [intros; apply Hin; lia|].
    rewrite E. unfold copy_dirs.
    specialize (Hin n ltac:(lia)).
    rewrite !read_grid_inside by lia.
    eexists. split; [reflexivity|]. split.
    + intros i Hi. rewrite !upd_at.
      destruct (Nat.eq_dec i n) as [->|Hne].
      * split; nat_cases.
      * destruct (IH1 i ltac:(lia)) as [E1 E2]. rewrite <- E1, <- E2.
        split; nat_cases.
    + intros k Hk. rewrite !upd_at, IH2 by lia. nat_cases.
Qed.

(** With one index used outside the grid, it has no result. *)
Lemma copy_dirs_loop_outside (grid_dirs : nat -> F) (nGrid : Z)
  (idx_closest : nat -> Z) (n : nat) (d : nat -> F) (i : nat) :
  (i < n)%nat -> ~ (0 <= idx_closest i < nGrid)%Z ->
  for_loop n (copy_dirs grid_dirs nGrid idx_closest) (Some d) = None.
Proof.
  intros Hi Hout. induction n as [|n IH]; [lia|]. cbn [for_loop].
  destruct (Nat.eq_dec i n) as [->|Hne].
  - destruct (for_loop n _ (Some d)) as [d0|]; [|reflexivity].
    unfold copy_dirs.
    destruct (Z_lt_le_dec (idx_closest n) 0) as [Hneg|Hpos].
    + rewrite (read_grid_outside grid_dirs nGrid (idx_closest n * 2)) by lia.
      reflexivity.
    + rewrite (read_grid_outside grid_dirs nGrid (idx_closest n * 2 + 1)) by lia.
      destruct (read_grid grid_dirs nGrid (idx_closest n * 2)); reflexivity.
  - rewrite IH by lia. reflexivity.
Qed.

Variable cosf sinf : F -> F.

Lemma to_xyz_loop (conv : F -> F) (dirs : nat -> F) (n : nat) (xyz : nat -> F) :
  (forall j, (j < n)%nat ->
     for_loop n (to_xyz cosf sinf conv dirs) xyz (j * 3)
     = (cosf (conv (dirs (j * 2 + 1)%nat)) * cosf (conv (dirs (j * 2)%nat)))%flt /\
     for_loop n (to_xyz cosf sinf conv dirs) xyz (j * 3 + 1)
     = (cosf (conv (dirs (j * 2 + 1)%nat)) * sinf (conv (dirs (j * 2)%nat)))%flt /\
     for_loop n (to_xyz cosf sinf conv dirs) xyz (j * 3 + 2)
     = sinf (conv (dirs (j * 2 + 1)%nat))) /\
  (forall k, (n * 3 <= k)%nat ->
     for_loop n (to_xyz cosf sinf conv dirs) xyz k = xyz k).
Proof.
  induction n as [|n [IH1 IH2]]; cbn [for_loop].
  - split; [intros; lia|reflexivity].
  - unfold to_xyz at 1 3 5 7. split.
    + intros j Hj. rewrite !upd_at.
      destruct (Nat.eq_dec j n) as [->|Hne].
      * repeat split; nat_cases.
      * destruct (IH1 j ltac:(lia)) as (E1 & E2 & E3). rewrite <- E1, <- E2, <- E3.
        repeat split; nat_cases.
    + intros k Hk. rewrite !upd_at, IH2 by lia. nat_cases.
Qed.

End GridLoops.

Section GridTheorems.
Import SafSort Binary32.
Variable cosf sinf acosf deg_arg : float -> float.
Variable grid_mem target_mem : nat -> float.

Local Abbreviation find :=
  (findClosestGridPoints cosf sinf acosf deg_arg grid_mem target_mem).
Local Abbreviation xyz_of := (all_xyz cosf sinf deg_arg).

Lemma SFltb_irrefl (a : float) : SFltb a a = false.
Proof.
  destruct (SFltb a a) eqn:E; [|reflexivity].
  rewrite (SFltb_asym _ _ E) in E. discriminate.
Qed.

Lemma find_spec (grid_dirs : nat -> float) (nGrid : Z) (target_dirs : nat -> float)
  (nTarget degFLAG : Z) (idx_closest : nat -> Z)
  (dirs_closest angle_diff : option (nat -> float)) :
  let grid_xyz := xyz_of degFLAG grid_dirs nGrid grid_mem in
  let target_xyz := xyz_of degFLAG target_dirs nTarget target_mem in
  let r := find grid_dirs nGrid target_dirs nTarget degFLAG idx_closest
             dirs_closest angle_diff in
  forall i,
    if Nat.ltb i (Z.to_nat nTarget)
    then exists mx,
      scanned acosf grid_xyz target_xyz (Z.to_nat nGrid) i (idx_closest i)
        (entry angle_diff i) mx (fst (fst r) i) (entry (snd r) i)
    else fst (fst r) i = idx_closest i /\ entry (snd r) i = entry angle_diff i.
Proof.
  intros grid_xyz target_xyz r i. subst r. unfold findClosestGridPoints.
  fold grid_xyz target_xyz.
  assert (L := closest_indices_spec acosf grid_xyz target_xyz SFltb_trans
                 SFltb_irrefl nGrid nTarget idx_closest angle_diff i).
  cbv zeta in L.
  destruct (closest_indices acosf grid_xyz target_xyz nGrid nTarget idx_closest
              angle_diff) as [idx' ad']. exact L.
Qed.

(** X7: on binary32, for a target below [nTarget] for which some grid point
    has a dot product above [-2.23e10f], [findClosestGridPoints] stores the
    index of a grid point within the grid whose dot product no other grid
    point exceeds; no earlier grid point has the same dot product (ties go to
    the lowest index), and [angle_diff], when given, receives [acosf] of that
    dot product. *)
Theorem closest_grid_point_maximises_dot_product
  (grid_dirs : nat -> float) (nGrid : Z) (target_dirs : nat -> float)
  (nTarget degFLAG : Z) (idx_closest : nat -> Z)
  (dirs_closest angle_diff : option (nat -> float)) (i j0 : nat)
  (Hi : (Z.of_nat i < nTarget)%Z) (Hj0 : (Z.of_nat j0 < nGrid)%Z) :
  let grid_xyz := xyz_of degFLAG grid_dirs nGrid grid_mem in
  let target_xyz := xyz_of degFLAG target_dirs nTarget target_mem in
  let current_val := dot_xyz grid_xyz target_xyz i in
  let r := find grid_dirs nGrid target_dirs nTarget degFLAG idx_closest
             dirs_closest angle_diff in
  SFltb lowest (current_val j0) = true ->
  exists j : nat,
    fst (fst r) i = Z.of_nat j /\ (Z.of_nat j < nGrid)%Z /\
    (forall j', (Z.of_nat j' < nGrid)%Z ->
       SFltb (current_val j) (current_val j') = false) /\
    (forall j', (j' < j)%nat -> current_val j' <> current_val j) /\
    entry (snd r) i = option_map (fun _ => acosf (current_val j)) (entry angle_diff i).
Proof.
  intros grid_xyz target_xyz current_val r Hbeat.
  assert (L := find_spec grid_dirs nGrid target_dirs nTarget degFLAG idx_closest
                 dirs_closest angle_diff i).
  cbv zeta in L. fold grid_xyz target_xyz r in L.
  replace (Nat.ltb i (Z.to_nat nTarget)) with true in L
    by (symmetry; apply Nat.ltb_lt; lia).
  destruct L as [mx [(_ & _ & _ & Hno)|(j & Hj & _ & Hv & Hw & _ & Hmax & Hfirst)]].
  - specialize (Hno j0 ltac:(lia)).
    change (SFltb lowest (current_val j0) = false) in Hno. congruence.
  - exists j. split; [exact Hv|]. split; [lia|]. split; [|split].
    + intros j' Hj'. apply Hmax. lia.
    + exact Hfirst.
    + exact Hw.
Qed.

(** X8: [findClosestGridPoints] never stores an index outside
    [0, nGrid): each entry of [idx_closest] is either as it was found or a
    valid grid index.  An entry is left as found, and so is its [angle_diff],
    when the target index is not below [nTarget] or when no grid point has a
    dot product above [-2.23e10f] (an empty grid, or dot products that are
    all NaN). *)
Theorem index_without_candidate_is_left_as_found
  (grid_dirs : nat -> float) (nGrid : Z) (target_dirs : nat -> float)
  (nTarget degFLAG : Z) (idx_closest : nat -> Z)
  (dirs_closest angle_diff : option (nat -> float)) (i : nat) :
  let grid_xyz := xyz_of degFLAG grid_dirs nGrid grid_mem in
  let target_xyz := xyz_of degFLAG target_dirs nTarget target_mem in
  let r := find grid_dirs nGrid target_dirs nTarget degFLAG idx_closest
             dirs_closest angle_diff in
  (fst (fst r) i = idx_closest i \/ (0 <= fst (fst r) i < nGrid)%Z) /\
  ((nTarget <= Z.of_nat i)%Z \/
   (forall j, (Z.of_nat j < nGrid)%Z ->
      SFltb lowest (dot_xyz grid_xyz target_xyz i j) = false) ->
   fst (fst r) i = idx_closest i /\ entry (snd r) i = entry angle_diff i).
Proof.
  intros grid_xyz target_xyz r.
  assert (L := find_spec grid_dirs nGrid target_dirs nTarget degFLAG idx_closest
                 dirs_closest angle_diff i).
  cbv zeta in L. fold grid_xyz target_xyz r in L.
  destruct (Nat.ltb_spec i (Z.to_nat nTarget)) as [Hlt|Hge].
  - destruct L as [mx [(_ & Hv & Hw & Hno)|(j & Hj & _ & Hv & Hw & Hl & _)]].
    + split; [left; exact Hv|]. intros _. split; assumption.
    + split; [right; lia|]. intros [Hout|Hno]; [lia|].
      specialize (Hno j ltac:(lia)).
      change (SFltb lowest (dot_xyz grid_xyz target_xyz i j) = true) in Hl.
      congruence.
  - destruct L as [Hv Hw]. split; [left; exact Hv|]. intros _. split; assumption.
Qed.

(** X9: when [dirs_closest] is given, [findClosestGridPoints] reads
    [grid_dirs] at the index that [idx_closest[i]] holds after the search,
    for every target [i] below [nTarget].  If each of these indices is
    within the grid (as the ones the search stored are), entries [2i] and
    [2i+1] receive the grid direction at that index and later entries are
    not written.  If one of them is not (an entry the search left as the
    caller had it, negative or not below [nGrid]), the read is outside
    [grid_dirs] and the directions are not defined.  In particular they are
    defined when every target has a grid point with a dot product above
    [-2.23e10f]. *)
Theorem closest_directions_are_read_at_the_index
  (grid_dirs : nat -> float) (nGrid : Z) (target_dirs : nat -> float)
  (nTarget degFLAG : Z) (idx_closest : nat -> Z)
  (dirs_closest : nat -> float) (angle_diff : option (nat -> float)) :
  let grid_xyz := xyz_of degFLAG grid_dirs nGrid grid_mem in
  let target_xyz := xyz_of degFLAG target_dirs nTarget target_mem in
  let r := find grid_dirs nGrid target_dirs nTarget degFLAG idx_closest
             (Some dirs_closest) angle_diff in
  let found := fst (fst r) in
  ((forall i, (Z.of_nat i < nTarget)%Z -> (0 <= found i < nGrid)%Z) ->
   exists dirs : nat -> float,
     snd (fst r) = dirs_written dirs /\
     (forall i, (Z.of_nat i < nTarget)%Z ->
        dirs (i * 2)%nat = grid_dirs (Z.to_nat (found i * 2)) /\
        dirs (i * 2 + 1)%nat = grid_dirs (Z.to_nat (found i * 2 + 1))) /\
     (forall k, (Z.to_nat nTarget * 2 <= k)%nat -> dirs k = dirs_closest k))
  /\ (forall i, (Z.of_nat i < nTarget)%Z -> ~ (0 <= found i < nGrid)%Z ->
      snd (fst r) = dirs_outside)
  /\ ((forall i, (Z.of_nat i < nTarget)%Z ->
        exists j, (Z.of_nat j < nGrid)%Z /\
          SFltb lowest (dot_xyz grid_xyz target_xyz i j) = true) ->
      forall i, (Z.of_nat i < nTarget)%Z -> (0 <= found i < nGrid)%Z).
Proof.
  intros grid_xyz target_xyz r found.
  split; [|split].
  - subst found r. unfold findClosestGridPoints.
    destruct (closest_indices _ _ _ _ _ _ _) as [idx' ad']. cbn [fst snd].
    intro Hin.
    destruct (copy_dirs_loop grid_dirs nGrid idx' (Z.to_nat nTarget) dirs_closest)
      as (d' & E & H1 & H2); [intros i Hi; apply Hin; lia|].
    rewrite E. exists d'. split; [reflexivity|]. split; [|exact H2].
    intros i Hi. apply H1. lia.
  - subst found r. unfold findClosestGridPoints.
    destruct (closest_indices _ _ _ _ _ _ _) as [idx' ad']. cbn [fst snd].
    intros i Hi Hout.
    rewrite (copy_dirs_loop_outside grid_dirs nGrid idx' (Z.to_nat nTarget)
               dirs_closest i ltac:(lia) Hout).
    reflexivity.
  - intros Hall i Hi. destruct (Hall i Hi) as (j0 & Hj0 & Hbeat).
    assert (L := find_spec grid_dirs nGrid target_dirs nTarget degFLAG idx_closest
                   (Some dirs_closest) angle_diff i).
    cbv zeta in L. fold grid_xyz target_xyz r in L.
    replace (Nat.ltb i (Z.to_nat nTarget)) with true in L
      by (symmetry; apply Nat.ltb_lt; lia).
    destruct L as [mx [(_ & _ & _ & Hno)|(j & Hj & _ & Hv & _)]].
    + specialize (Hno j0 ltac:(lia)).
      change (SFltb lowest (dot_xyz grid_xyz target_xyz i j0) = false) in Hno.
      congruence.
    + subst found. rewrite Hv. lia.
Qed.

(** X10: the conversion loops write, for every direction [j] below [n],
    the components [cos(elev) cos(azi)], [cos(elev) sin(azi)] and
    [sin(elev)] to entries [3j], [3j+1] and [3j+2], with the angles converted
    from degrees for every non-zero [degFLAG], and nothing from entry [3n]
    on. *)
Theorem directions_become_unit_vectors
  (dirs : nat -> float) (n degFLAG : Z) (mem : nat -> float) :
  let conv := fun x => if nonzero degFLAG then deg_arg x else x in
  let xyz := xyz_of degFLAG dirs n mem in
  (forall j, (Z.of_nat j < n)%Z ->
     let azi := conv (dirs (j * 2)%nat) in
     let elev := conv (dirs (j * 2 + 1)%nat) in
     xyz (j * 3)%nat = SFmul prec emax (cosf elev) (cosf azi) /\
     xyz (j * 3 + 1)%nat = SFmul prec emax (cosf elev) (sinf azi) /\
     xyz (j * 3 + 2)%nat = sinf elev) /\
  (forall k, (Z.to_nat n * 3 <= k)%nat -> xyz k = mem k).
Proof.
  intros conv xyz. subst conv xyz. unfold all_xyz.
  destruct (nonzero degFLAG).
  - destruct (to_xyz_loop cosf sinf deg_arg dirs (Z.to_nat n) mem) as [H1 H2].
    split; [|exact H2]. intros j Hj. apply H1. lia.
  - destruct (to_xyz_loop cosf sinf (fun x => x) dirs (Z.to_nat n) mem) as [H1 H2].
    split; [|exact H2]. intros j Hj. apply H1. lia.
Qed.

End GridTheorems.

(** ** ambi_bin: more of the block pipeline *)

Section LoopsWithOffsets.
Context {X : Type}.

(** One row written at an offset. *)
Lemma for_loop_upd2_shift (g : nat -> X) (r hop off : nat) (a : nat -> nat -> X)
  (r' k : nat) :
  for_loop hop (fun sample a => upd2 a r (sample + off)%nat (g sample)) a r' k
  = if (Nat.eqb r' r && Nat.leb off k && Nat.ltb k (off + hop))%bool
    then g (k - off)%nat else a r' k.
Proof.
  revert r' k. induction hop as [|hop IH]; intros r' k; cbn [for_loop].
  - nat_cases.
  - rewrite upd2_at, IH. nat_cases; f_equal; lia.
Qed.

(** The rows [lo], ..., [lo + m - 1] written at an offset. *)
Lemma for_loop_rows_shift (g : nat -> nat -> X) (lo m hop off : nat)
  (a : nat -> nat -> X) (r k : nat) :
  for_loop m
    (fun c a =>
       for_loop hop
         (fun sample a => upd2 a (lo + c)%nat (sample + off)%nat (g (lo + c)%nat sample))
         a) a r k
  = if (Nat.leb lo r && Nat.ltb r (lo + m) && Nat.leb off k
        && Nat.ltb k (off + hop))%bool
    then g r (k - off)%nat else a r k.
Proof.
  revert r k. induction m as [|m IH]; intros r k; cbn [for_loop].
  - nat_cases.
  - rewrite (for_loop_upd2_shift (g (lo + m)%nat)), IH. nat_cases; subst; reflexivity.
Qed.

(** The rows [lo], ..., [lo + m - 1], each entry below [len] replaced by its
    image under [g]. *)
Lemma for_loop_rows_map (g : X -> X) (lo m len : nat) (a : nat -> nat -> X)
  (r k : nat) :
  for_loop m
    (fun c a =>
       for_loop len (fun i a => upd2 a (lo + c)%nat i (g (a (lo + c)%nat i))) a)
    a r k
  = if (Nat.leb lo r && Nat.ltb r (lo + m) && Nat.ltb k len)%bool
    then g (a r k) else a r k.
Proof.
  revert r k. induction m as [|m IH]; intros r k; cbn [for_loop].
  - nat_cases.
  - rewrite (for_loop_upd2_row (fun _ old => g old)), IH. nat_cases.
Qed.

End LoopsWithOffsets.

Section AmbiBinMore.
Context {F : Type} `{FloatOps F} `{Dims} `{Filterbank F}.
Variable HRIR : Type.
Variable initTFT initCodec : AmbiBin.ambi_bin_data HRIR -> AmbiBin.ambi_bin_data HRIR.
Variable ypr : F -> F -> F -> nat -> nat -> F.
Variable getSH : (nat -> nat -> F) -> Z -> nat -> F.

Local Abbreviation process := (AmbiBin.ambi_bin_process initTFT initCodec ypr getSH).
Local Abbreviation reinit := (AmbiBin.reinit_if_needed initTFT initCodec).
Local Abbreviation mix := (AmbiBin.mix ypr getSH).

(** What the stages leave in the fields the decoder does not mean to
    change. *)
Lemma analyse_frame (fade b : bool) (s : AmbiBin.ambi_bin_data HRIR) inputs nInputs :
  let a := AmbiBin.analyse fade b s inputs nInputs in
  AmbiBin.yaw a = AmbiBin.yaw s
  /\ AmbiBin.pitch a = AmbiBin.pitch s
  /\ AmbiBin.roll a = AmbiBin.roll s
  /\ AmbiBin.reInitTFT a = AmbiBin.reInitTFT s
  /\ AmbiBin.reInitCodec a = AmbiBin.reInitCodec s
  /\ AmbiBin.SHFrameTD a
     = AmbiBin.convert_norm (AmbiBin.norm s) (AmbiBin.order s)
         (if (fade && b)%bool
          then AmbiBin.fade_in (AmbiBin.load_SHFrameTD inputs nInputs (AmbiBin.SHFrameTD s))
          else AmbiBin.load_SHFrameTD inputs nInputs (AmbiBin.SHFrameTD s)).
Proof.
  unfold AmbiBin.analyse.
  destruct (AmbiBin.forward_TFT _ _ _) as [[h tmp] inTF].
  repeat split; reflexivity.
Qed.

Lemma mix_frame (s : AmbiBin.ambi_bin_data HRIR) :
  AmbiBin.reInitTFT (mix s) = AmbiBin.reInitTFT s
  /\ AmbiBin.reInitCodec (mix s) = AmbiBin.reInitCodec s
  /\ AmbiBin.SHFrameTD (mix s) = AmbiBin.SHFrameTD s
  /\ AmbiBin.hSTFT (mix s) = AmbiBin.hSTFT s
  /\ AmbiBin.tempHopFrameTD (mix s) = AmbiBin.tempHopFrameTD s
  /\ AmbiBin.STFTOutputFrameTF (mix s) = AmbiBin.STFTOutputFrameTF s.
Proof. repeat split; reflexivity. Qed.

Lemma synthesise_frame (fade : bool) (s : AmbiBin.ambi_bin_data HRIR) outputs nOutputs :
  let s' := fst (AmbiBin.synthesise fade s outputs nOutputs) in
  AmbiBin.SHFrameTD s' = AmbiBin.SHFrameTD s.
Proof.
  unfold AmbiBin.synthesise.
  destruct (AmbiBin.inverse_TFT _ _ _) as [[h' tmp'] out'].
  reflexivity.
Qed.

Lemma reinit_nothing_requested (s : AmbiBin.ambi_bin_data HRIR) :
  AmbiBin.reInitTFT s <> 1%Z -> AmbiBin.reInitCodec s <> 1%Z -> reinit s = (s, []).
Proof.
  intros Ht Hc.
  unfold AmbiBin.reinit_if_needed, AmbiBin.reinit_TFT_if_needed,
    AmbiBin.reinit_codec_if_needed.
  destruct (Z.eqb_spec (AmbiBin.reInitTFT s) 1); [contradiction|].
  destruct (Z.eqb_spec (AmbiBin.reInitCodec s) 1); [contradiction|].
  reflexivity.
Qed.

Lemma cdot_ext (K : nat) (a b b' : nat -> float_complex F) :
  (forall l, (l < K)%nat -> b l = b' l) -> cdot K a b = cdot K a b'.
Proof.
  intro E. unfold cdot. apply for_loop_ext. intros l acc Hl. rewrite E by exact Hl.
  reflexivity.
Qed.

Lemma rotation_matrix_at (s : AmbiBin.ambi_bin_data HRIR) (ord : Z) (nsh i j : nat) :
  (i < nsh)%nat -> (j < nsh)%nat ->
  AmbiBin.rotation_matrix ypr getSH s ord nsh i j
  = cmplxf
      (getSH (ypr (AmbiBin.yaw s) (AmbiBin.pitch s) (AmbiBin.roll s)) ord
         (i * nsh + j)%nat)
      Fzero.
Proof.
  intros Hi Hj. unfold AmbiBin.rotation_matrix.
  rewrite (for_loop_upd2
             (fun i j _ =>
                cmplxf
                  (getSH (ypr (AmbiBin.yaw s) (AmbiBin.pitch s) (AmbiBin.roll s)) ord
                     (i * nsh + j)%nat)
                  Fzero)).
  nat_cases.
Qed.

(** X11: in every processed block with [order > 0], the entries of the
    current mixing matrix on its first [nSH] columns are those of the product
    of the decoding matrix [M_dec[band]] with the rotation matrix, whose entry
    [(l, ch)] is [M_rot_tmp[l*nSH + ch]] with a zero imaginary part, computed
    from the yaw, pitch and roll held at the start of the block. *)
Theorem rotated_matrix_is_decoder_times_rotation (fade : bool)
  (s : AmbiBin.ambi_bin_data HRIR) (inputs outputs : nat -> nat -> F)
  (nInputs nOutputs nSamples isPlaying : Z) (band ear ch : nat) :
  let s1 := fst (reinit s) in
  let s' :=
    fst (fst (process fade s inputs outputs nInputs nOutputs nSamples isPlaying)) in
  let nsh := AmbiBin.block_nSH s1 in
  let M_rot_tmp :=
    getSH (ypr (AmbiBin.yaw s1) (AmbiBin.pitch s1) (AmbiBin.roll s1))
      (AmbiBin.order s1) in
  AmbiBin.can_process s1 nSamples isPlaying = true ->
  (0 < AmbiBin.order s1)%Z ->
  (band < HYBRID_BANDS)%nat -> (ear < NUM_EARS)%nat -> (ch < nsh)%nat ->
  AmbiBin.current_M s' band ear ch
  = cdot nsh (AmbiBin.M_dec (AmbiBin.pars s1) band ear)
      (fun l => cmplxf (M_rot_tmp (l * nsh + ch)%nat) Fzero).
Proof.
  intros s1 s' nsh M_rot_tmp Hcan Ho Hb He Hc. subst s' nsh M_rot_tmp.
  rewrite ambi_process_then by exact Hcan. cbn [fst]. fold s1.
  set (b := (nonzero _ || nonzero _)%bool). unfold AmbiBin.decode.
  destruct (synthesise_keeps HRIR fade (mix (AmbiBin.analyse fade b s1 inputs nInputs))
              outputs nOutputs) as (Ec & _).
  destruct (analyse_keeps HRIR fade b s1 inputs nInputs)
    as (Ao & Ap & Ac & _ & _ & _ & An).
  destruct (analyse_frame fade b s1 inputs nInputs) as (Ey & Ep & Er & _).
  cbv zeta in *. rewrite Ec. unfold AmbiBin.mix. ambi_fields.
  unfold AmbiBin.block_current_M. cbv zeta. rewrite Ao, Ap, Ac, An.
  replace (0 <? AmbiBin.order s1)%Z with true by (symmetry; apply Z.ltb_lt; exact Ho).
  rewrite define_current_M_rotated by assumption.
  unfold matmul. apply cdot_ext. intros l Hl.
  rewrite rotation_matrix_at by assumption. rewrite Ey, Ep, Er. reflexivity.
Qed.

(** X12: after every processed block the previous mixing matrix equals the
    current one on the [NUM_EARS] by [nSH] block: the matrix of this block is
    what the next block fades out from. *)
Theorem mixing_matrix_is_kept_for_the_next_block (fade : bool)
  (s : AmbiBin.ambi_bin_data HRIR) (inputs outputs : nat -> nat -> F)
  (nInputs nOutputs nSamples isPlaying : Z) (band ear ch : nat) :
  let s1 := fst (reinit s) in
  let s' :=
    fst (fst (process fade s inputs outputs nInputs nOutputs nSamples isPlaying)) in
  AmbiBin.can_process s1 nSamples isPlaying = true ->
  (band < HYBRID_BANDS)%nat -> (ear < NUM_EARS)%nat ->
  (ch < AmbiBin.block_nSH s1)%nat ->
  AmbiBin.prev_M s' band ear ch = AmbiBin.current_M s' band ear ch.
Proof.
  intros s1 s' Hcan Hb He Hc. subst s'.
  rewrite ambi_process_then by exact Hcan. cbn [fst]. fold s1.
  set (b := (nonzero _ || nonzero _)%bool). unfold AmbiBin.decode.
  destruct (synthesise_keeps HRIR fade (mix (AmbiBin.analyse fade b s1 inputs nInputs))
              outputs nOutputs) as (Ec & _ & Epm & _).
  destruct (analyse_keeps HRIR fade b s1 inputs nInputs)
    as (_ & _ & _ & _ & _ & _ & An).
  cbv zeta in *. rewrite Ec, Epm. unfold AmbiBin.mix. ambi_fields.
  rewrite An. apply store_prev_M_spec; assumption.
Qed.

(** X13: a block that is not decoded (wrong frame size, playback off, or a
    flag that is not clean), with no rebuild requested, leaves the whole
    engine state as it was, subband history included; its trace is the
    silent branch alone. *)
Theorem skipped_block_leaves_the_decoder_untouched (fade : bool)
  (s : AmbiBin.ambi_bin_data HRIR) (inputs outputs : nat -> nat -> F)
  (nInputs nOutputs nSamples isPlaying : Z) :
  AmbiBin.reInitTFT s <> 1%Z -> AmbiBin.reInitCodec s <> 1%Z ->
  nSamples <> Z.of_nat FRAME_SIZE \/ isPlaying = 0%Z
  \/ AmbiBin.reInitCodec s <> 0%Z \/ AmbiBin.reInitTFT s <> 0%Z ->
  fst (process fade s inputs outputs nInputs nOutputs nSamples isPlaying)
  = (s, AmbiBin.silence nOutputs outputs)
  /\ snd (process fade s inputs outputs nInputs nOutputs nSamples isPlaying)
     = [EvSilence].
Proof.
  intros Ht Hc Hskip.
  assert (Es : reinit s = (s, [])) by (apply reinit_nothing_requested; assumption).
  rewrite ambi_process_else; rewrite Es; cbn [fst snd].
  - split; reflexivity.
  - apply ambi_can_process_false. exact Hskip.
Qed.

(** The output channels of one synthesised block. *)
Lemma inverse_TFT_outputs (nOutputs : Z) (outTF : nat -> nat -> complexVector F)
  (h0 : stft) (tmp0 out0 : nat -> nat -> F) (ch k : nat) :
  let out' := snd (AmbiBin.inverse_TFT nOutputs outTF (h0, tmp0, out0)) in
  ((nOutputs <= Z.of_nat ch)%Z -> out' ch k = out0 ch k) /\
  ((TIME_SLOTS * HOP_SIZE <= k)%nat -> out' ch k = out0 ch k) /\
  ((Z.of_nat NUM_EARS <= Z.of_nat ch < nOutputs)%Z ->
   (k < TIME_SLOTS * HOP_SIZE)%nat -> out' ch k = Fzero).
Proof.
  unfold AmbiBin.inverse_TFT. generalize TIME_SLOTS as T.
  induction T as [|T IH]; cbn [for_loop].
  - cbn [snd]. repeat split; try reflexivity. intros; lia.
  - destruct (for_loop T _ (h0, tmp0, out0)) as [[h tmp] out].
    cbn [snd] in IH. destruct IH as (IH1 & IH2 & IH3).
    destruct (afSTFTinverse h (outTF T) tmp) as [h' tmp']. cbn [snd].
    unfold for_range.
    rewrite (for_loop_rows_shift (fun _ _ => Fzero)).
    rewrite (for_loop_rows_shift (fun c sample => tmp' c sample) 0).
    unfold MINz, NUM_EARS in *.
    destruct (Z.ltb_spec (Z.of_nat 2) nOutputs);
      repeat split; intros; nat_cases; auto; try (apply IH3; lia).
Qed.

Lemma synthesise_outputs (fade : bool) (s : AmbiBin.ambi_bin_data HRIR)
  (outputs : nat -> nat -> F) (nOutputs : Z) :
  AmbiBin.reInitTFT s = 0%Z -> AmbiBin.reInitCodec s = 0%Z ->
  snd (AmbiBin.synthesise fade s outputs nOutputs)
  = snd (AmbiBin.inverse_TFT nOutputs
           (AmbiBin.fill_STFTOutputFrameTF (AmbiBin.binframeTF s)
              (AmbiBin.STFTOutputFrameTF s))
           (AmbiBin.hSTFT s, AmbiBin.tempHopFrameTD s, outputs)).
Proof.
  intros Ht Hc. unfold AmbiBin.synthesise. ambi_fields.
  destruct (AmbiBin.inverse_TFT _ _ _) as [[h' tmp'] out']. ambi_fields.
  rewrite Ht, Hc. cbn. rewrite Bool.andb_false_r. reflexivity.
Qed.

Lemma can_process_flags (s : AmbiBin.ambi_bin_data HRIR) (nSamples isPlaying : Z) :
  AmbiBin.can_process s nSamples isPlaying = true ->
  AmbiBin.reInitTFT s = 0%Z /\ AmbiBin.reInitCodec s = 0%Z.
Proof.
  unfold AmbiBin.can_process. intro E.
  apply andb_prop in E. destruct E as [E Et].
  apply andb_prop in E. destruct E as [_ Ec].
  split; apply Z.eqb_eq; assumption.
Qed.

(** X14: a processed block writes nothing to output channels from
    [nOutputs] on and nothing beyond sample [TIME_SLOTS * HOP_SIZE], and it
    writes zero to every sample below that of the channels from [NUM_EARS] up
    to [nOutputs]; also with [ENABLE_FADE_IN_OUT] defined, since the fade-out
    cannot run in the branch that requires clean flags. *)
Theorem decoder_writes_only_the_requested_channels (fade : bool)
  (s : AmbiBin.ambi_bin_data HRIR) (inputs outputs : nat -> nat -> F)
  (nInputs nOutputs nSamples isPlaying : Z) (ch k : nat) :
  let s1 := fst (reinit s) in
  let out' :=
    snd (fst (process fade s inputs outputs nInputs nOutputs nSamples isPlaying)) in
  AmbiBin.can_process s1 nSamples isPlaying = true ->
  ((nOutputs <= Z.of_nat ch)%Z -> out' ch k = outputs ch k) /\
  ((TIME_SLOTS * HOP_SIZE <= k)%nat -> out' ch k = outputs ch k) /\
  ((Z.of_nat NUM_EARS <= Z.of_nat ch < nOutputs)%Z ->
   (k < TIME_SLOTS * HOP_SIZE)%nat -> out' ch k = Fzero).
Proof.
  intros s1 out' Hcan. subst out'.
  rewrite ambi_process_then by exact Hcan. cbn [fst snd]. fold s1.
  set (b := (nonzero _ || nonzero _)%bool). unfold AmbiBin.decode.
  destruct (can_process_flags _ _ _ Hcan) as [Ht Hc].
  destruct (analyse_frame fade b s1 inputs nInputs) as (_ & _ & _ & At & Ac & _).
  cbv zeta in *.
  rewrite synthesise_outputs.
  - apply inverse_TFT_outputs.
  - destruct (mix_frame (AmbiBin.analyse fade b s1 inputs nInputs)) as (Mt & _).
    rewrite Mt, At. exact Ht.
  - destruct (mix_frame (AmbiBin.analyse fade b s1 inputs nInputs)) as (_ & Mc & _).
    rewrite Mc, Ac. exact Hc.
Qed.

(** "Load time-domain data". *)
(** X15: in a processed block with N3D input and no fade-in applied, the
    time-domain buffer holds the input frame on the channels below [nInputs]
    and zeros on all the other channels up to [MAX_NUM_SH_SIGNALS]; with
    [nInputs <= 0] the whole buffer is zero. *)
Theorem missing_input_channels_are_zero_filled (fade : bool)
  (s : AmbiBin.ambi_bin_data HRIR) (inputs outputs : nat -> nat -> F)
  (nInputs nOutputs nSamples isPlaying : Z) (ch i : nat) :
  let s1 := fst (reinit s) in
  let s' :=
    fst (fst (process fade s inputs outputs nInputs nOutputs nSamples isPlaying)) in
  AmbiBin.can_process s1 nSamples isPlaying = true ->
  AmbiBin.norm s1 = AmbiBin.NORM_N3D ->
  (fade && (nonzero (AmbiBin.reInitTFT s) || nonzero (AmbiBin.reInitCodec s)))%bool
  = false ->
  (ch < MAX_NUM_SH_SIGNALS)%nat -> (i < FRAME_SIZE)%nat ->
  AmbiBin.SHFrameTD s' ch i
  = if (Z.of_nat ch <? nInputs)%Z then inputs ch i else Fzero.
Proof.
  intros s1 s' Hcan Hn Hfade Hch Hi. subst s'.
  rewrite ambi_process_then by exact Hcan. cbn [fst]. fold s1.
  unfold AmbiBin.decode.
  rewrite synthesise_frame.
  destruct (mix_frame
              (AmbiBin.analyse fade
                 (nonzero (AmbiBin.reInitTFT s) || nonzero (AmbiBin.reInitCodec s))%bool
                 s1 inputs nInputs)) as (_ & _ & Ms & _).
  rewrite Ms.
  destruct (analyse_frame fade
              (nonzero (AmbiBin.reInitTFT s) || nonzero (AmbiBin.reInitCodec s))%bool
              s1 inputs nInputs) as (_ & _ & _ & _ & _ & Atd).
  cbv zeta in Atd. rewrite Atd, Hfade, Hn. cbn [AmbiBin.convert_norm].
  apply load_SHFrameTD_at; assumption.
Qed.

Lemma o_table_at (n : nat) :
  (n < MAX_SH_ORDER + 2)%nat -> AmbiBin.o_table n = (n * n)%nat.
Proof.
  intro Hn. unfold AmbiBin.o_table.
  rewrite (for_loop_upd (fun n _ => (n * n)%nat)). nat_cases.
Qed.

Lemma convert_degrees (c : nat -> F) (N : nat) (td : nat -> nat -> F) (r k : nat) :
  (N <= MAX_SH_ORDER + 1)%nat ->
  let res :=
    for_loop N
      (fun n a =>
         for_range (AmbiBin.o_table n) (AmbiBin.o_table (n + 1))
           (fun ch a =>
              for_loop FRAME_SIZE (fun i a => upd2 a ch i (a ch i * c n)%flt) a)
           a)
      td in
  (forall n, (n < N)%nat -> (n * n <= r < (n + 1) * (n + 1))%nat ->
     (k < FRAME_SIZE)%nat -> res r k = (td r k * c n)%flt) /\
  ((N * N <= r)%nat -> res r k = td r k) /\
  ((FRAME_SIZE <= k)%nat -> res r k = td r k).
Proof.
  induction N as [|N IH]; intro HN; cbn [for_loop]; cbv zeta.
  - repeat split; try reflexivity. intros; lia.
  - destruct (IH ltac:(lia)) as (IH1 & IH2 & IH3). cbv zeta in IH1, IH2, IH3.
    unfold for_range in *.
    rewrite (for_loop_rows_map (fun x => (x * c N)%flt)).
    rewrite !o_table_at by lia.
    replace ((N + 1) * (N + 1) - N * N)%nat with (2 * N + 1)%nat by lia.
    repeat split.
    + intros n Hn Hr Hk. destruct (Nat.eq_dec n N) as [->|Hne].
      * rewrite IH2 by lia. nat_cases.
      * assert (((n + 1) * (n + 1) <= N * N)%nat) by nia.
        rewrite (IH1 n) by lia. nat_cases.
    + intro Hr. rewrite IH2 by nia. nat_cases; nia.
    + intro Hk. rewrite IH3 by lia. nat_cases.
Qed.

(** X17: the SN3D to N3D conversion multiplies the channels of degree [n],
    those from [n*n] up to [(n+1)*(n+1)], by [sqrtf(2n+1)] for every degree
    up to [order], and leaves the channels from [(order+1)*(order+1)] on as
    they are; N3D input is not touched. *)
Theorem sn3d_input_is_scaled_per_degree (ord : Z) (td : nat -> nat -> F)
  (n ch i : nat) :
  (0 <= ord <= Z.of_nat MAX_SH_ORDER)%Z ->
  let td' := AmbiBin.convert_norm AmbiBin.NORM_SN3D ord td in
  ((Z.of_nat n <= ord)%Z -> (n * n <= ch < (n + 1) * (n + 1))%nat ->
   (i < FRAME_SIZE)%nat ->
   td' ch i = (td ch i * sqrtf (Fof_int 2 * Fof_int (Z.of_nat n) + Fone))%flt) /\
  (((Z.to_nat ord + 1) * (Z.to_nat ord + 1) <= ch)%nat -> td' ch i = td ch i) /\
  AmbiBin.convert_norm AmbiBin.NORM_N3D ord td = td.
Proof.
  intros Hord td'. subst td'. cbn [AmbiBin.convert_norm].
  destruct (convert_degrees
              (fun n => sqrtf (Fof_int 2 * Fof_int (Z.of_nat n) + Fone)%flt)
              (Z.to_nat (ord + 1)) td ch i ltac:(lia)) as (C1 & C2 & _).
  cbv zeta in C1, C2. repeat split.
  - intros Hn Hr Hi. apply C1; [lia|exact Hr|exact Hi].
  - intro Hr. apply C2. replace (Z.to_nat (ord + 1)) with (Z.to_nat ord + 1)%nat by lia.
    exact Hr.
Qed.

End AmbiBinMore.

(** ** binauraliser: more of the block pipeline *)

Section BinauraliserMore.
Context {F : Type} `{FloatOps F} `{Dims} `{Filterbank F}.
Variable HRIR HRTF : Type.
Local Abbreviation state := (Binauraliser.binauraliser_data HRIR HRTF).
Variable initTFT initHRTFs : state -> state.
Variable interpHRTFs :
  state -> F -> F -> (nat -> nat -> float_complex F) -> nat -> nat -> float_complex F.
Variable ypr : F -> F -> F -> Z -> nat -> nat -> F.
Variable cosf sinf : F -> F.
Variable atan2f powf : F -> F -> F.
Variable apple : bool.

Local Abbreviation process :=
  (Binauraliser.binauraliser_process initTFT initHRTFs interpHRTFs ypr
     cosf sinf atan2f powf apple).
Local Abbreviation pan :=
  (Binauraliser.pan interpHRTFs ypr cosf sinf atan2f powf).
Local Abbreviation main_processing :=
  (Binauraliser.main_processing interpHRTFs ypr cosf sinf atan2f powf).
Local Abbreviation apply_source := (Binauraliser.apply_source interpHRTFs).
Local Abbreviation reinit := (Binauraliser.reinit_if_needed initTFT initHRTFs apple).
Local Abbreviation mix := (Binauraliser.mix interpHRTFs ypr cosf sinf atan2f powf).

(** What the analysis and the synthesis leave alone. *)
Lemma bina_analyse_frame (s : state) inputs nInputs :
  let a := Binauraliser.analyse s inputs nInputs in
  Binauraliser.hrtf_interp a = Binauraliser.hrtf_interp s
  /\ Binauraliser.recalc_hrtf_interpFLAG a = Binauraliser.recalc_hrtf_interpFLAG s
  /\ Binauraliser.recalc_M_rotFLAG a = Binauraliser.recalc_M_rotFLAG s
  /\ Binauraliser.src_dirs_deg a = Binauraliser.src_dirs_deg s
  /\ Binauraliser.src_dirs_rot_deg a = Binauraliser.src_dirs_rot_deg s
  /\ Binauraliser.inputFrameTD a
     = Binauraliser.load_inputFrameTD (Binauraliser.nSources s) inputs nInputs
         (Binauraliser.inputFrameTD s).
Proof.
  unfold Binauraliser.analyse.
  destruct (Binauraliser.forward_TFT _ _ _) as [[[h tmp] inTF] tf].
  repeat split; reflexivity.
Qed.

Lemma bina_pan_frame (s : state) inputs outputs nInputs nOutputs isPlaying :
  let s' := fst (pan s inputs outputs nInputs nOutputs isPlaying) in
  let m := mix (Binauraliser.nSources s) (Binauraliser.enableRotation s) isPlaying
             (Binauraliser.analyse s inputs nInputs) in
  Binauraliser.hrtf_interp s' = Binauraliser.hrtf_interp m
  /\ Binauraliser.recalc_hrtf_interpFLAG s' = Binauraliser.recalc_hrtf_interpFLAG m
  /\ Binauraliser.recalc_M_rotFLAG s' = Binauraliser.recalc_M_rotFLAG m
  /\ Binauraliser.src_dirs_deg s' = Binauraliser.src_dirs_deg m
  /\ Binauraliser.src_dirs_rot_deg s' = Binauraliser.src_dirs_rot_deg m
  /\ Binauraliser.inputFrameTD s' = Binauraliser.inputFrameTD m
  /\ snd (pan s inputs outputs nInputs nOutputs isPlaying)
     = snd (Binauraliser.inverse_TFT nOutputs (Binauraliser.outputframeTF m)
              (Binauraliser.hSTFT m, Binauraliser.STFTOutputFrameTF m,
               Binauraliser.tempHopFrameTD m, outputs)).
Proof.
  unfold Binauraliser.pan, Binauraliser.synthesise. cbn zeta.
  destruct (Binauraliser.inverse_TFT _ _ _) as [[[h' outTF] tmp'] out'].
  repeat split; reflexivity.
Qed.

(** The output channels of one synthesised block. *)
Lemma bina_inverse_TFT_outputs (nOutputs : Z)
  (out : nat -> nat -> nat -> float_complex F)
  (h0 : stft) (outTF0 : nat -> complexVector F) (tmp0 out0 : nat -> nat -> F)
  (ch k : nat) :
  let out' := snd (Binauraliser.inverse_TFT nOutputs out (h0, outTF0, tmp0, out0)) in
  ((nOutputs <= Z.of_nat ch)%Z -> out' ch k = out0 ch k) /\
  ((TIME_SLOTS * HOP_SIZE <= k)%nat -> out' ch k = out0 ch k) /\
  ((Z.of_nat NUM_EARS <= Z.of_nat ch < nOutputs)%Z ->
   (k < TIME_SLOTS * HOP_SIZE)%nat -> out' ch k = Fzero).
Proof.
  unfold Binauraliser.inverse_TFT. generalize TIME_SLOTS as T.
  induction T as [|T IH]; cbn [for_loop].
  - cbn [snd]. repeat split; try reflexivity. intros; lia.
  - destruct (for_loop T _ (h0, outTF0, tmp0, out0)) as [[[h outTF] tmp] o].
    cbn [snd] in IH. destruct IH as (IH1 & IH2 & IH3).
    destruct (afSTFTinverse h _ tmp) as [h' tmp']. cbn [snd].
    rewrite (for_range_upd
               (fun _ row => Binauraliser.memset_at row (T * HOP_SIZE) HOP_SIZE)).
    rewrite (for_loop_upd
               (fun c row =>
                  Binauraliser.utility_svvcopy (tmp' c) 0 HOP_SIZE row (T * HOP_SIZE))).
    unfold Binauraliser.memset_at, Binauraliser.utility_svvcopy, MINz, NUM_EARS in *.
    destruct (Z.ltb_spec (Z.of_nat 2) nOutputs);
      repeat split; intros; nat_cases; nat_cases; auto;
      first [apply IH3; lia | apply IH2; lia | apply IH1; lia].
Qed.

(** X18: a block the panner processes writes nothing to output channels
    from [nOutputs] on and nothing beyond sample [TIME_SLOTS * HOP_SIZE], and
    it writes zero to every sample below that of the channels from [NUM_EARS]
    up to [nOutputs]. *)
Theorem panner_writes_only_the_requested_channels
  (s : state) (inputs outputs : nat -> nat -> F)
  (nInputs nOutputs nSamples isPlaying : Z) (ch k : nat) :
  let s1 := fst (reinit s) in
  let out' :=
    snd (fst (process s inputs outputs nInputs nOutputs nSamples isPlaying)) in
  Binauraliser.can_process s1 nSamples = true ->
  ((nOutputs <= Z.of_nat ch)%Z -> out' ch k = outputs ch k) /\
  ((TIME_SLOTS * HOP_SIZE <= k)%nat -> out' ch k = outputs ch k) /\
  ((Z.of_nat NUM_EARS <= Z.of_nat ch < nOutputs)%Z ->
   (k < TIME_SLOTS * HOP_SIZE)%nat -> out' ch k = Fzero).
Proof.
  intros s1 out' Hcan. subst out'.
  rewrite bina_process_then by exact Hcan. cbn [fst snd]. fold s1.
  destruct (bina_pan_frame s1 inputs outputs nInputs nOutputs isPlaying)
    as (_ & _ & _ & _ & _ & _ & Eo).
  cbv zeta in Eo. rewrite Eo. apply bina_inverse_TFT_outputs.
Qed.

(** One source: its flag is cleared, and its HRTF is only touched when the
    flag was set. *)
Lemma apply_source_flag rot ch (s : state) ch' :
  Binauraliser.recalc_hrtf_interpFLAG (apply_source rot ch s) ch'
  = if Nat.eqb ch' ch then 0%Z else Binauraliser.recalc_hrtf_interpFLAG s ch'.
Proof.
  unfold Binauraliser.apply_source.
  destruct (nonzero (Binauraliser.recalc_hrtf_interpFLAG s ch)) eqn:E; bina_fields.
  - apply upd_at.
  - destruct (Nat.eqb_spec ch' ch) as [->|]; [|reflexivity].
    unfold nonzero in E. apply Bool.negb_false_iff, Z.eqb_eq in E. exact E.
Qed.

Lemma apply_source_unflagged rot ch (s : state) :
  Binauraliser.recalc_hrtf_interpFLAG s ch = 0%Z ->
  Binauraliser.hrtf_interp (apply_source rot ch s) = Binauraliser.hrtf_interp s.
Proof.
  intro E. unfold Binauraliser.apply_source. rewrite E. reflexivity.
Qed.

Lemma apply_source_keeps rot ch (s : state) :
  Binauraliser.recalc_M_rotFLAG (apply_source rot ch s)
  = Binauraliser.recalc_M_rotFLAG s.
Proof.
  unfold Binauraliser.apply_source.
  destruct (nonzero (Binauraliser.recalc_hrtf_interpFLAG s ch)); reflexivity.
Qed.

Lemma apply_sources_flags rot (n : nat) (s : state) :
  let s' := for_loop n (apply_source rot) s in
  (forall ch, (ch < n)%nat -> Binauraliser.recalc_hrtf_interpFLAG s' ch = 0%Z)
  /\ (forall ch, (n <= ch)%nat ->
        Binauraliser.recalc_hrtf_interpFLAG s' ch
        = Binauraliser.recalc_hrtf_interpFLAG s ch
        /\ Binauraliser.hrtf_interp s' ch = Binauraliser.hrtf_interp s ch)
  /\ (forall ch, Binauraliser.recalc_hrtf_interpFLAG s ch = 0%Z ->
        Binauraliser.recalc_hrtf_interpFLAG s' ch = 0%Z
        /\ Binauraliser.hrtf_interp s' ch = Binauraliser.hrtf_interp s ch)
  /\ Binauraliser.recalc_M_rotFLAG s' = Binauraliser.recalc_M_rotFLAG s.
Proof.
  induction n as [|n (I1 & I2 & I3 & I4)]; cbn zeta in *; cbn [for_loop].
  - repeat split; try reflexivity; try assumption. intros; lia.
  - set (t := for_loop n (apply_source rot) s) in *.
    repeat split.
    + intros ch Hch. rewrite apply_source_flag.
      destruct (Nat.eqb_spec ch n); [reflexivity|]. apply I1. lia.
    + rewrite apply_source_flag.
      destruct (Nat.eqb_spec ch n); [lia|]. apply I2. lia.
    + rewrite apply_source_hrtf_interp by lia. apply I2. lia.
    + rewrite apply_source_flag.
      destruct (Nat.eqb_spec ch n); [reflexivity|]. apply I3. assumption.
    + destruct (Nat.eq_dec ch n) as [->|Hne].
      * rewrite apply_source_unflagged; [apply I3; assumption|].
        destruct (I2 n (Nat.le_refl n)) as [E _]. rewrite E. assumption.
      * rewrite apply_source_hrtf_interp by exact Hne. apply I3. assumption.
    + rewrite apply_source_keeps. exact I4.
Qed.

(** "Main processing": which sources are interpolated anew. *)
Lemma main_processing_flags (nsrc rot : Z) (a : state) :
  let m := main_processing nsrc rot a in
  (forall ch, (ch < Z.to_nat nsrc)%nat ->
     Binauraliser.recalc_hrtf_interpFLAG m ch = 0%Z)
  /\ (rot = 0%Z \/ Binauraliser.recalc_M_rotFLAG a = 0%Z ->
      Binauraliser.recalc_M_rotFLAG m = Binauraliser.recalc_M_rotFLAG a
      /\ forall ch,
           Binauraliser.recalc_hrtf_interpFLAG a ch = 0%Z \/ (Z.to_nat nsrc <= ch)%nat ->
           Binauraliser.hrtf_interp m ch = Binauraliser.hrtf_interp a ch
           /\ Binauraliser.recalc_hrtf_interpFLAG m ch
              = Binauraliser.recalc_hrtf_interpFLAG a ch).
Proof.
  intro m. subst m. unfold Binauraliser.main_processing. bina_fields.
  split.
  - intros ch Hch.
    match goal with
    | |- context [for_loop ?n (Binauraliser.apply_source ?i ?r) ?t] =>
        destruct (apply_sources_flags r n t) as (I1 & _)
    end.
    cbv zeta in I1. apply I1. exact Hch.
  - intros Hrot.
    replace (nonzero rot && nonzero (Binauraliser.recalc_M_rotFLAG a))%bool
      with false.
    2:{ destruct Hrot as [-> | ->]; cbn; [reflexivity|].
        symmetry. apply Bool.andb_false_r. }
    match goal with
    | |- context [for_loop ?n (Binauraliser.apply_source ?i ?r) ?t] =>
        destruct (apply_sources_flags r n t) as (_ & I2 & I3 & I4)
    end.
    cbv zeta in I2, I3, I4. bina_fields.
    split; [exact I4|].
    intros ch [Hz | Hout].
    + destruct (I3 ch Hz) as [E1 E2]. rewrite E1, E2, Hz. split; reflexivity.
    + destruct (I2 ch Hout) as [E1 E2]. rewrite E1, E2. split; reflexivity.
Qed.

(** X19: after a playing block every source below [nSources] has its
    recalculation flag cleared.  When no rotation is due (rotation off, or the
    rotation flag clear), the rotation flag is left as it was, and a source
    whose flag was clear, or whose index is not below [nSources], keeps both
    its interpolated HRTF and its flag. *)
Theorem interpolation_only_where_flagged
  (s : state) (inputs outputs : nat -> nat -> F)
  (nInputs nOutputs nSamples isPlaying : Z) :
  let s1 := fst (reinit s) in
  let s' := fst (fst (process s inputs outputs nInputs nOutputs nSamples isPlaying)) in
  let nsrc := Z.to_nat (Binauraliser.nSources s1) in
  Binauraliser.can_process s1 nSamples = true ->
  isPlaying <> 0%Z ->
  (forall ch, (ch < nsrc)%nat -> Binauraliser.recalc_hrtf_interpFLAG s' ch = 0%Z)
  /\ (Binauraliser.enableRotation s1 = 0%Z \/ Binauraliser.recalc_M_rotFLAG s1 = 0%Z ->
      Binauraliser.recalc_M_rotFLAG s' = Binauraliser.recalc_M_rotFLAG s1
      /\ forall ch,
           Binauraliser.recalc_hrtf_interpFLAG s1 ch = 0%Z \/ (nsrc <= ch)%nat ->
           Binauraliser.hrtf_interp s' ch = Binauraliser.hrtf_interp s1 ch
           /\ Binauraliser.recalc_hrtf_interpFLAG s' ch
              = Binauraliser.recalc_hrtf_interpFLAG s1 ch).
Proof.
  intros s1 s' nsrc Hcan Hplay. subst s' nsrc.
  rewrite bina_process_then by exact Hcan. cbn [fst]. fold s1.
  destruct (bina_pan_frame s1 inputs outputs nInputs nOutputs isPlaying)
    as (Eh & Ef & Er & _).
  destruct (bina_analyse_frame s1 inputs nInputs) as (Ah & Af & Ar & _).
  cbv zeta in *. rewrite Eh, Ef, Er. clear Eh Ef Er.
  unfold Binauraliser.mix.
  replace (nonzero isPlaying) with true
    by (symmetry; apply Bool.negb_true_iff, Z.eqb_neq; exact Hplay).
  destruct (main_processing_flags (Binauraliser.nSources s1)
              (Binauraliser.enableRotation s1)
              (Binauraliser.analyse s1 inputs nInputs)) as [M1 M2].
  cbv zeta in M1, M2. rewrite Ah, Af, Ar in M2.
  split; [exact M1|exact M2].
Qed.

(** X20: a processed block with playback off leaves the interpolated
    HRTFs, the recalculation flags of the sources, the rotation flag and the
    rotated directions as they were: requests made while paused are still
    pending afterwards. *)
Theorem paused_block_keeps_interpolation_state
  (s : state) (inputs outputs : nat -> nat -> F)
  (nInputs nOutputs nSamples : Z) :
  let s1 := fst (reinit s) in
  let s' := fst (fst (process s inputs outputs nInputs nOutputs nSamples 0)) in
  Binauraliser.can_process s1 nSamples = true ->
  Binauraliser.hrtf_interp s' = Binauraliser.hrtf_interp s1
  /\ Binauraliser.recalc_hrtf_interpFLAG s' = Binauraliser.recalc_hrtf_interpFLAG s1
  /\ Binauraliser.recalc_M_rotFLAG s' = Binauraliser.recalc_M_rotFLAG s1
  /\ Binauraliser.src_dirs_rot_deg s' = Binauraliser.src_dirs_rot_deg s1.
Proof.
  intros s1 s' Hcan. subst s'.
  rewrite bina_process_then by exact Hcan. cbn [fst]. fold s1.
  destruct (bina_pan_frame s1 inputs outputs nInputs nOutputs 0)
    as (Eh & Ef & Er & _ & Ed & _).
  destruct (bina_analyse_frame s1 inputs nInputs) as (Ah & Af & Ar & _ & Ad & _).
  cbv zeta in *. rewrite Eh, Ef, Er, Ed.
  unfold Binauraliser.mix. cbn [nonzero Z.eqb negb]. bina_fields.
  repeat split; assumption.
Qed.

Lemma load_inputFrameTD_at (nsrc : Z) (inputs : nat -> nat -> F) (nInputs : Z)
  (td : nat -> nat -> F) (ch i : nat) :
  (ch < MAX_NUM_INPUTS)%nat -> (i < FRAME_SIZE)%nat ->
  Binauraliser.load_inputFrameTD nsrc inputs nInputs td ch i
  = if ((Z.of_nat ch <? nsrc) && (Z.of_nat ch <? nInputs))%Z%bool
    then inputs ch i else Fzero.
Proof.
  intros Hch Hi. unfold Binauraliser.load_inputFrameTD. cbv zeta.
  rewrite (for_range_upd (fun _ row => memset Fzero row FRAME_SIZE)).
  rewrite (for_loop_upd
             (fun c row => Binauraliser.utility_svvcopy (inputs c) 0 FRAME_SIZE row 0)).
  unfold memset, Binauraliser.utility_svvcopy, MINz.
  destruct (Z.ltb_spec nsrc nInputs), (Z.ltb_spec (Z.of_nat ch) nsrc),
    (Z.ltb_spec (Z.of_nat ch) nInputs); cbn [andb]; nat_cases; nat_cases;
    f_equal; lia.
Qed.

(** X21: in a processed block the time-domain buffer of the panner holds
    the input frame on the channels below both [nSources] and [nInputs], and
    zeros on all the other channels up to [MAX_NUM_INPUTS]. *)
Theorem unused_source_channels_are_zero_filled
  (s : state) (inputs outputs : nat -> nat -> F)
  (nInputs nOutputs nSamples isPlaying : Z) (ch i : nat) :
  let s1 := fst (reinit s) in
  let s' := fst (fst (process s inputs outputs nInputs nOutputs nSamples isPlaying)) in
  Binauraliser.can_process s1 nSamples = true ->
  (ch < MAX_NUM_INPUTS)%nat -> (i < FRAME_SIZE)%nat ->
  Binauraliser.inputFrameTD s' ch i
  = if ((Z.of_nat ch <? Binauraliser.nSources s1) && (Z.of_nat ch <? nInputs))%Z%bool
    then inputs ch i else Fzero.
Proof.
  intros s1 s' Hcan Hch Hi. subst s'.
  rewrite bina_process_then by exact Hcan. cbn [fst]. fold s1.
  destruct (bina_pan_frame s1 inputs outputs nInputs nOutputs isPlaying)
    as (_ & _ & _ & _ & _ & Et & _).
  destruct (bina_analyse_frame s1 inputs nInputs) as (_ & _ & _ & _ & _ & At).
  cbv zeta in *. rewrite Et.
  replace (Binauraliser.inputFrameTD
             (mix (Binauraliser.nSources s1) (Binauraliser.enableRotation s1)
                isPlaying (Binauraliser.analyse s1 inputs nInputs)))
    with (Binauraliser.inputFrameTD (Binauraliser.analyse s1 inputs nInputs)).
  - rewrite At. apply load_inputFrameTD_at; assumption.
  - unfold Binauraliser.mix, Binauraliser.main_processing.
    destruct (nonzero isPlaying); [|reflexivity]. bina_fields.
    rewrite (for_loop_preserves (@Binauraliser.inputFrameTD F _ HRIR HRTF)).
    2:{ intros k t. unfold Binauraliser.apply_source.
        destruct (nonzero (Binauraliser.recalc_hrtf_interpFLAG t k)); reflexivity. }
    bina_fields.
    destruct (nonzero (Binauraliser.enableRotation s1)
              && nonzero
                   (Binauraliser.recalc_M_rotFLAG
                      (Binauraliser.analyse s1 inputs nInputs)))%bool;
      [|reflexivity].
    unfold Binauraliser.rotate_sources. bina_fields.
    rewrite (for_loop_preserves (@Binauraliser.inputFrameTD F _ HRIR HRTF))
      by (intros; reflexivity).
    bina_fields.
    rewrite (for_loop_preserves (@Binauraliser.inputFrameTD F _ HRIR HRTF))
      by (intros; reflexivity).
    reflexivity.
Qed.

Lemma bina_reinit_nothing_requested (s : state) :
  Binauraliser.reInitTFT s <> 1%Z ->
  apple = false \/ Binauraliser.reInitHRTFsAndGainTables s <> 1%Z ->
  reinit s = (s, []).
Proof.
  intros Ht Hh.
  unfold Binauraliser.reinit_if_needed, Binauraliser.binauraliser_checkReInit,
    Binauraliser.reinit_TFT_if_needed, Binauraliser.reinit_HRTFs_if_needed.
  destruct (Z.eqb_spec (Binauraliser.reInitTFT s) 1); [contradiction|].
  destruct apple; [|reflexivity].
  destruct Hh as [Hh|Hh]; [discriminate|].
  destruct (Z.eqb_spec (Binauraliser.reInitHRTFsAndGainTables s) 1); [contradiction|].
  reflexivity.
Qed.

(** X22: a block the panner does not process, with no filterbank rebuild
    requested (and, on Apple platforms, no HRTF rebuild requested), leaves
    the whole engine state as it was; its trace is the silent branch
    alone. *)
Theorem skipped_block_leaves_the_panner_untouched
  (s : state) (inputs outputs : nat -> nat -> F)
  (nInputs nOutputs nSamples isPlaying : Z) :
  Binauraliser.reInitTFT s <> 1%Z ->
  apple = false \/ Binauraliser.reInitHRTFsAndGainTables s <> 1%Z ->
  nSamples <> Z.of_nat FRAME_SIZE \/ Binauraliser.hrtf_fb s = None
  \/ Binauraliser.reInitTFT s <> 0%Z
  \/ Binauraliser.reInitHRTFsAndGainTables s <> 0%Z ->
  fst (process s inputs outputs nInputs nOutputs nSamples isPlaying)
  = (s, Binauraliser.silence nOutputs outputs)
  /\ snd (process s inputs outputs nInputs nOutputs nSamples isPlaying)
     = [EvSilence].
Proof.
  intros Ht Hh Hskip.
  assert (Es : reinit s = (s, []))
    by (apply bina_reinit_nothing_requested; assumption).
  rewrite bina_process_else; rewrite Es; cbn [fst snd].
  - split; reflexivity.
  - apply bina_can_process_false. exact Hskip.
Qed.

Lemma bina_can_process_flags (s : state) (nSamples : Z) :
  Binauraliser.can_process s nSamples = true ->
  Binauraliser.reInitTFT s = 0%Z /\ Binauraliser.reInitHRTFsAndGainTables s = 0%Z.
Proof.
  unfold Binauraliser.can_process. intro E.
  apply andb_prop in E. destruct E as [E Eh].
  apply andb_prop in E. destruct E as [_ Et].
  split; apply Z.eqb_eq; assumption.
Qed.

(** X23: [binauraliser_setEnableRotation] with a non-zero state requests
    no recalculation: on an engine with clean flags, the rotation flag clear
    and no source flagged, the playing block after it leaves every
    interpolated HRTF as it was, although rotation is now enabled. *)
Theorem enabling_rotation_requests_no_recalculation
  (s : state) (inputs outputs : nat -> nat -> F)
  (nInputs nOutputs nSamples isPlaying newState : Z) :
  let s_on := Binauraliser.binauraliser_setEnableRotation s newState in
  let s' :=
    fst (fst (process s_on inputs outputs nInputs nOutputs nSamples isPlaying)) in
  Binauraliser.can_process s nSamples = true ->
  isPlaying <> 0%Z ->
  newState <> 0%Z ->
  Binauraliser.recalc_M_rotFLAG s = 0%Z ->
  (forall ch, Binauraliser.recalc_hrtf_interpFLAG s ch = 0%Z) ->
  Binauraliser.enableRotation s_on = newState
  /\ forall ch, Binauraliser.hrtf_interp s' ch = Binauraliser.hrtf_interp s ch.
Proof.
  intros s_on s' Hcan Hplay Hnew Hrot Hflags.
  assert (Eon : s_on = Binauraliser.set_enableRotation newState s).
  { subst s_on. unfold Binauraliser.binauraliser_setEnableRotation. bina_fields.
    replace (nonzero newState) with true
      by (symmetry; apply Bool.negb_true_iff, Z.eqb_neq; exact Hnew).
    reflexivity. }
  destruct (bina_can_process_flags _ _ Hcan) as [Ht Hh].
  assert (Es : reinit s_on = (s_on, [])).
  { apply bina_reinit_nothing_requested; rewrite Eon; bina_fields.
    - rewrite Ht. discriminate.
    - right. rewrite Hh. discriminate. }
  assert (Hcan' : Binauraliser.can_process (fst (reinit s_on)) nSamples = true)
    by (rewrite Es, Eon; exact Hcan).
  split; [rewrite Eon; reflexivity|].
  intro ch.
  subst s'. rewrite bina_process_then by exact Hcan'. rewrite Es. cbn [fst].
  destruct (bina_pan_frame s_on inputs outputs nInputs nOutputs isPlaying)
    as (Eh & _).
  destruct (bina_analyse_frame s_on inputs nInputs) as (Ah & Af & Ar & _).
  cbv zeta in *. rewrite Eh. clear Eh.
  unfold Binauraliser.mix.
  replace (nonzero isPlaying) with true
    by (symmetry; apply Bool.negb_true_iff, Z.eqb_neq; exact Hplay).
  destruct (main_processing_flags (Binauraliser.nSources s_on)
              (Binauraliser.enableRotation s_on)
              (Binauraliser.analyse s_on inputs nInputs)) as [_ M2].
  cbv zeta in M2.
  destruct (M2 ltac:(right; rewrite Ar, Eon; exact Hrot)) as (_ & Q).
  destruct (Q ch ltac:(left; rewrite Af, Eon; apply Hflags)) as [E _].
  rewrite E, Ah, Eon. reflexivity.
Qed.

End BinauraliserMore.

(** ** Initialisation and the parameter setters *)

Section InitFacts.
Context {F : Type} `{FloatOps F} `{Dims} `{Filterbank F}.
Variable HRIR HRTF : Type.
Variable t44 t48 : nat -> F.

(** X24: [ambi_bin_init] zeroes the current and previous mixing matrices
    and the previous subband frame over their whole extent, fills the centre
    frequencies from the 44.1 kHz table when the rate is 44100 and from the
    48 kHz table for every other rate, stores the rate, and does not touch
    the reinitialisation flags. *)
Theorem ambi_bin_init_clears_the_history
  (s : AmbiBin.ambi_bin_data HRIR) (sampleRate : Z) :
  let s' := AmbiBin.ambi_bin_init t44 t48 s sampleRate in
  (forall band ear ch,
     (band < HYBRID_BANDS)%nat -> (ear < NUM_EARS)%nat ->
     (ch < MAX_NUM_SH_SIGNALS)%nat ->
     AmbiBin.current_M s' band ear ch = czero
     /\ AmbiBin.prev_M s' band ear ch = czero)
  /\ (forall band ch t,
        (band < HYBRID_BANDS)%nat -> (ch < MAX_NUM_SH_SIGNALS)%nat ->
        (t < TIME_SLOTS)%nat ->
        AmbiBin.prev_SHframeTF s' band ch t = czero)
  /\ (forall band, (band < HYBRID_BANDS)%nat ->
        AmbiBin.freqVector s' band
        = if (sampleRate =? 44100)%Z then t44 band else t48 band)
  /\ AmbiBin.fs s' = sampleRate
  /\ AmbiBin.reInitTFT s' = AmbiBin.reInitTFT s
  /\ AmbiBin.reInitCodec s' = AmbiBin.reInitCodec s.
Proof.
  intro s'. subst s'. unfold AmbiBin.ambi_bin_init. ambi_fields.
  repeat split.
  - unfold AmbiBin.memset3. cbv beta. nat_cases.
  - unfold AmbiBin.memset3. cbv beta. nat_cases.
  - intros band ch t Hb Hc Ht. unfold AmbiBin.memset3. cbv beta. nat_cases.
  - intros band Hb. unfold AmbiBin.init_freqVector.
    rewrite (for_loop_upd
               (fun band _ => if (sampleRate =? 44100)%Z then t44 band else t48 band)).
    nat_cases.
Qed.

Local Abbreviation state := (Binauraliser.binauraliser_data HRIR HRTF).
Variable initTFT initHRTFs : state -> state.

(** X25: after [binauraliser_init] the rotation flag is set and no HRTF
    rebuild is left requested; when no rebuild was requested on entry, both
    flags are as they were, the rate is stored, and the centre frequencies
    are those of the 44.1 kHz table when the rate is 44100 and of the 48 kHz
    table for every other rate. *)
Theorem binauraliser_init_carries_out_pending_rebuilds
  (s : state) (sampleRate : Z) :
  let s' := Binauraliser.binauraliser_init initTFT initHRTFs t44 t48 s sampleRate in
  Binauraliser.recalc_M_rotFLAG s' = 1%Z
  /\ Binauraliser.reInitHRTFsAndGainTables s' <> 1%Z
  /\ (Binauraliser.reInitTFT s <> 1%Z ->
      Binauraliser.reInitHRTFsAndGainTables s <> 1%Z ->
      Binauraliser.fs s' = sampleRate
      /\ Binauraliser.reInitTFT s' = Binauraliser.reInitTFT s
      /\ Binauraliser.reInitHRTFsAndGainTables s'
         = Binauraliser.reInitHRTFsAndGainTables s
      /\ forall band, (band < HYBRID_BANDS)%nat ->
           Binauraliser.freqVector s' band
           = if (sampleRate =? 44100)%Z then t44 band else t48 band).
Proof.
  intro s'. subst s'.
  unfold Binauraliser.binauraliser_init, Binauraliser.binauraliser_checkReInit,
    Binauraliser.reinit_TFT_if_needed, Binauraliser.reinit_HRTFs_if_needed.
  bina_fields.
  destruct (Z.eqb_spec (Binauraliser.reInitTFT s) 1) as [Et|Et]; bina_fields.
  - match goal with
    | |- context [(Binauraliser.reInitHRTFsAndGainTables ?x =? 1)%Z] =>
        destruct (Z.eqb_spec (Binauraliser.reInitHRTFsAndGainTables x) 1)
    end; bina_fields.
    + repeat split; try reflexivity; try discriminate; intros; try contradiction.
    + repeat split; try reflexivity; try assumption; intros; try contradiction.
  - destruct (Z.eqb_spec (Binauraliser.reInitHRTFsAndGainTables s) 1) as [Eh|Eh];
      bina_fields.
    + repeat split; try reflexivity; try discriminate; intros; contradiction.
    + repeat split; try reflexivity; try assumption.
      intros band Hb. unfold Binauraliser.init_freqVector.
      rewrite (for_loop_upd
                 (fun band _ => if (sampleRate =? 44100)%Z then t44 band else t48 band)).
      nat_cases.
Qed.

(** X26: [binauraliser_setNumSources] stores the request bounded above by
    [MAX_NUM_INPUTS] and not bounded below (zero and negative numbers are
    stored as given), leaves the number of sources in use as it was, requests
    a filterbank rebuild exactly when the stored number differs from the one
    in use, sets the rotation flag, and is idempotent. *)
Theorem number_of_sources_is_only_bounded_above (s : state) (new_n : Z) :
  let s' := Binauraliser.binauraliser_setNumSources s new_n in
  (Binauraliser.binauraliser_getNumSources s' <= Z.of_nat MAX_NUM_INPUTS)%Z
  /\ ((new_n <= Z.of_nat MAX_NUM_INPUTS)%Z ->
      Binauraliser.binauraliser_getNumSources s' = new_n)
  /\ Binauraliser.nSources s' = Binauraliser.nSources s
  /\ Binauraliser.reInitTFT s'
     = (if (Binauraliser.nSources s =? Binauraliser.binauraliser_getNumSources s')%Z
        then Binauraliser.reInitTFT s else 1%Z)
  /\ Binauraliser.recalc_M_rotFLAG s' = 1%Z
  /\ Binauraliser.binauraliser_setNumSources s' new_n = s'.
Proof.
  intro s'. subst s'.
  unfold Binauraliser.binauraliser_setNumSources,
    Binauraliser.binauraliser_getNumSources. bina_fields.
  destruct (Z.ltb_spec (Z.of_nat MAX_NUM_INPUTS) new_n) as [Hgt|Hle];
    match goal with
    | |- context [(Binauraliser.nSources s =? ?n)%Z] =>
        destruct (Z.eqb_spec (Binauraliser.nSources s) n) as [E|E]
    end;
    cbn [negb]; bina_fields;
    repeat split; try lia;
    try (rewrite <- E; rewrite Z.eqb_refl);
    try (destruct (Z.eqb_spec (Binauraliser.nSources s) (Z.of_nat MAX_NUM_INPUTS));
         [contradiction|]);
    try (destruct (Z.eqb_spec (Binauraliser.nSources s) new_n); [contradiction|]);
    cbn [negb]; bina_fields; try reflexivity.
Qed.

(** X27: setting the azimuth (elevation) of one source stores the wrapped
    (clamped) value for that source, leaves its elevation (azimuth) and the
    directions and flags of all other sources as they were, flags that source
    and the rotation for recalculation, and requests no rebuild. *)
Theorem setting_a_source_direction_touches_that_source_only
  (s : state) (index : nat) (newAzi_deg newElev_deg : F) :
  let sa := Binauraliser.binauraliser_setSourceAzi_deg s index newAzi_deg in
  let se := Binauraliser.binauraliser_setSourceElev_deg s index newElev_deg in
  (Binauraliser.binauraliser_getSourceAzi_deg sa index
   = Binauraliser.wrap_azi newAzi_deg
   /\ Binauraliser.binauraliser_getSourceElev_deg se index
      = Binauraliser.clamp_elev newElev_deg)
  /\ (forall j,
        Binauraliser.binauraliser_getSourceElev_deg sa j
        = Binauraliser.binauraliser_getSourceElev_deg s j
        /\ Binauraliser.binauraliser_getSourceAzi_deg se j
           = Binauraliser.binauraliser_getSourceAzi_deg s j)
  /\ (forall j, j <> index ->
        Binauraliser.binauraliser_getSourceAzi_deg sa j
        = Binauraliser.binauraliser_getSourceAzi_deg s j
        /\ Binauraliser.binauraliser_getSourceElev_deg se j
           = Binauraliser.binauraliser_getSourceElev_deg s j
        /\ Binauraliser.recalc_hrtf_interpFLAG sa j
           = Binauraliser.recalc_hrtf_interpFLAG s j
        /\ Binauraliser.recalc_hrtf_interpFLAG se j
           = Binauraliser.recalc_hrtf_interpFLAG s j)
  /\ Binauraliser.recalc_hrtf_interpFLAG sa index = 1%Z
  /\ Binauraliser.recalc_hrtf_interpFLAG se index = 1%Z
  /\ Binauraliser.recalc_M_rotFLAG sa = 1%Z
  /\ Binauraliser.recalc_M_rotFLAG se = 1%Z
  /\ Binauraliser.reInitTFT sa = Binauraliser.reInitTFT s
  /\ Binauraliser.reInitHRTFsAndGainTables sa = Binauraliser.reInitHRTFsAndGainTables s.
Proof.
  intros sa se. subst sa se.
  unfold Binauraliser.binauraliser_setSourceAzi_deg,
    Binauraliser.binauraliser_setSourceElev_deg,
    Binauraliser.binauraliser_getSourceAzi_deg,
    Binauraliser.binauraliser_getSourceElev_deg.
  bina_fields.
  repeat split; intros; rewrite ?upd2_at, ?upd_at; nat_cases.
Qed.

End InitFacts.

(** ** Orientation and source directions, read back *)

Section OrientationReadBack.
Import Binary32.
Context `{Filterbank float}.
Variable HRIR HRTF : Type.
Local Abbreviation ambi := (AmbiBin.ambi_bin_data (F := float) HRIR).
Local Abbreviation bina := (Binauraliser.binauraliser_data (F := float) HRIR HRTF).

Ltac read_back :=
  cbv zeta; ambi_fields; bina_fields;
  repeat match goal with
  | |- context [Z.eqb ?a ?b] => destruct (Z.eqb_spec a b)
  end;
  cbn [Fopp ops]; rewrite ?RAD2DEG_opp; cbn [Fopp ops];
  rewrite ?SFopp_involutive; reflexivity.

(** X28: on binary32, the getter of each of yaw, pitch and roll returns,
    after the setter was given [deg], the value [RAD2DEG (DEG2RAD deg)]:
    the degrees converted to radians and back in single precision, whatever
    the flip flag and whatever [float] was given.  For a whole number of
    degrees from -180 to 180 that is the value given or one of the two
    [float]s next to it (the value itself for 90, the next one above for
    11); for 14106058 * 2^104 (2.86e38), where [deg * PI] overflows, it is
    infinity, and for 7 * 2^-149 (1e-44), where the quotient underflows, it
    is zero.  In the decoder a setter leaves the reading of the other two
    angles as it was, and in the panner every angle setter raises the
    rotation flag. *)
Theorem orientation_reads_back_as_set (s : ambi) (b : bina) (deg : float) :
  (AmbiBin.ambi_bin_getYaw (AmbiBin.ambi_bin_setYaw s deg) = RAD2DEG (DEG2RAD deg)
   /\ AmbiBin.ambi_bin_getPitch (AmbiBin.ambi_bin_setPitch s deg)
      = RAD2DEG (DEG2RAD deg)
   /\ AmbiBin.ambi_bin_getRoll (AmbiBin.ambi_bin_setRoll s deg)
      = RAD2DEG (DEG2RAD deg))
  /\ (AmbiBin.ambi_bin_getPitch (AmbiBin.ambi_bin_setYaw s deg)
      = AmbiBin.ambi_bin_getPitch s
      /\ AmbiBin.ambi_bin_getRoll (AmbiBin.ambi_bin_setYaw s deg)
         = AmbiBin.ambi_bin_getRoll s
      /\ AmbiBin.ambi_bin_getYaw (AmbiBin.ambi_bin_setPitch s deg)
         = AmbiBin.ambi_bin_getYaw s
      /\ AmbiBin.ambi_bin_getRoll (AmbiBin.ambi_bin_setPitch s deg)
         = AmbiBin.ambi_bin_getRoll s
      /\ AmbiBin.ambi_bin_getYaw (AmbiBin.ambi_bin_setRoll s deg)
         = AmbiBin.ambi_bin_getYaw s
      /\ AmbiBin.ambi_bin_getPitch (AmbiBin.ambi_bin_setRoll s deg)
         = AmbiBin.ambi_bin_getPitch s)
  /\ (Binauraliser.binauraliser_getYaw (Binauraliser.binauraliser_setYaw b deg)
      = RAD2DEG (DEG2RAD deg)
      /\ Binauraliser.binauraliser_getPitch (Binauraliser.binauraliser_setPitch b deg)
         = RAD2DEG (DEG2RAD deg)
      /\ Binauraliser.binauraliser_getRoll (Binauraliser.binauraliser_setRoll b deg)
         = RAD2DEG (DEG2RAD deg))
  /\ (Binauraliser.recalc_M_rotFLAG (Binauraliser.binauraliser_setYaw b deg) = 1%Z
      /\ Binauraliser.recalc_M_rotFLAG (Binauraliser.binauraliser_setPitch b deg) = 1%Z
      /\ Binauraliser.recalc_M_rotFLAG (Binauraliser.binauraliser_setRoll b deg) = 1%Z)
  /\ (forall d : Z, (-180 <= d <= 180)%Z ->
        near (of_int d) (RAD2DEG (DEG2RAD (of_int d))) = true)
  /\ (RAD2DEG (DEG2RAD (of_int 90)) = of_int 90
      /\ RAD2DEG (DEG2RAD (of_int 11)) = S754_finite false 11534337 (-20)
      /\ of_int 11 = S754_finite false 11534336 (-20)
      /\ RAD2DEG (DEG2RAD (S754_finite false 14106058 104)) = S754_infinity false
      /\ RAD2DEG (DEG2RAD (S754_finite false 7 (-149))) = S754_zero false).
Proof.
  unfold AmbiBin.ambi_bin_setYaw, AmbiBin.ambi_bin_setPitch, AmbiBin.ambi_bin_setRoll,
    AmbiBin.ambi_bin_getYaw, AmbiBin.ambi_bin_getPitch, AmbiBin.ambi_bin_getRoll,
    Binauraliser.binauraliser_setYaw, Binauraliser.binauraliser_setPitch,
    Binauraliser.binauraliser_setRoll, Binauraliser.binauraliser_getYaw,
    Binauraliser.binauraliser_getPitch, Binauraliser.binauraliser_getRoll.
  split; [|split; [|split; [|split; [|split]]]].
  6: repeat split; vm_compute; reflexivity.
  5: exact whole_degrees_round_trip.
  all: repeat match goal with |- _ /\ _ => split end; read_back.
Qed.

End OrientationReadBack.

Section StoredDirections.
Import Binary32.

(** X29: on binary32, the azimuth wrap and the elevation clamp of the
    source setters are idempotent: a stored direction set again is stored
    unchanged.  A NaN azimuth is stored as -180 and a NaN elevation as
    -90. *)
Theorem stored_direction_is_a_fixed_point (x : float) :
  Binauraliser.wrap_azi (Binauraliser.wrap_azi x) = Binauraliser.wrap_azi x
  /\ Binauraliser.clamp_elev (Binauraliser.clamp_elev x) = Binauraliser.clamp_elev x
  /\ Binauraliser.wrap_azi S754_nan = of_int (-180)
  /\ Binauraliser.clamp_elev S754_nan = of_int (-90).
Proof.
  split; [|split; [|split; reflexivity]].
  - unfold Binauraliser.wrap_azi at 2 3. unfold MAXf, MINf.
    cbn [Fltb Fof_int Fadd ops].
    set (y := if SFltb (of_int 180) x then _ else x). clearbody y.
    destruct (SFltb (of_int (-180)) y) eqn:E1; [|reflexivity].
    destruct (SFltb y (of_int 180)) eqn:E2; [|reflexivity].
    unfold Binauraliser.wrap_azi, MAXf, MINf. cbn [Fltb Fof_int Fadd ops].
    rewrite (SFltb_asym _ _ E2), E1, E2. reflexivity.
  - unfold Binauraliser.clamp_elev at 2 3. unfold MAXf, MINf.
    cbn [Fltb Fof_int ops].
    destruct (SFltb (of_int (-90)) x) eqn:E1; [|reflexivity].
    destruct (SFltb x (of_int 90)) eqn:E2; [|reflexivity].
    unfold Binauraliser.clamp_elev, MAXf, MINf. cbn [Fltb Fof_int ops].
    rewrite E1, E2. reflexivity.
Qed.

End StoredDirections.

(** ** saf_sort: runs *)

Section SortRuns.
Import SafSort.

Lemma insertion_sort_rev_contract : qsort_contract insertion_sort_rev.
Proof.
  intros A cmp l [Hanti Htrans]. unfold insertion_sort_rev.
  assert (Hc : consistent cmp (rev l)).
  { split.
    - intros a b Ha Hb. apply Hanti; apply in_rev; assumption.
    - intros a b c Ha Hb Hc. apply Htrans; apply in_rev; assumption. }
  destruct (insertion_sort_contract A cmp (rev l) Hc) as [Hp Hs].
  split; [|exact Hs].
  rewrite <- Hp. apply Permutation_rev.
Qed.

Lemma sorti_sorts_into_out_vec_witness :
  let r := sorti insertion_sort (vec_of [3; 1; 2]%Z) (Some (vec_of [])) None 3 0 in
  fst (fst r) = vec_of [3; 1; 2]%Z /\
  exists sorted : nat -> Z,
    snd (fst r) = Some sorted /\
    Permutation (prefix (vec_of [3; 1; 2]%Z) 3) (prefix sorted 3) /\
    (forall i j, (i <= j < 3)%nat ->
       if nonzero 0 then (sorted j <= sorted i)%Z
       else (sorted i <= sorted j)%Z) /\
    (forall k, (3 <= k)%nat -> sorted k = vec_of [] k).
Proof.
  exact (sorti_sorts_into_out_vec insertion_sort insertion_sort_contract
           (vec_of [3; 1; 2]%Z) (vec_of []) None 3 0).
Defined.

Lemma sorti_sorts_in_place_witness :
  let r := sorti insertion_sort (vec_of [3; 1; 2]%Z) None None 3 2 in
  let sorted := fst (fst r) in
  snd (fst r) = None /\
  Permutation (prefix (vec_of [3; 1; 2]%Z) 3) (prefix sorted 3) /\
  (forall i j, (i <= j < 3)%nat ->
     if nonzero 2 then (sorted j <= sorted i)%Z
     else (sorted i <= sorted j)%Z) /\
  (forall k, (3 <= k)%nat -> sorted k = vec_of [3; 1; 2]%Z k).
Proof.
  exact (sorti_sorts_in_place insertion_sort insertion_sort_contract
           (vec_of [3; 1; 2]%Z) None 3 2).
Defined.

Lemma sorti_indices_point_back_witness :
  let r := sorti insertion_sort (vec_of [3; 1; 2]%Z) None (Some (vec_of [])) 3 0 in
  exists indices : nat -> Z,
    snd r = Some indices /\
    Permutation (map Z.of_nat (seq 0 3)) (prefix indices 3) /\
    (forall i, (i < 3)%nat ->
       (0 <= indices i < Z.of_nat 3)%Z /\
       sorted_vec r i = vec_of [3; 1; 2]%Z (Z.to_nat (indices i))) /\
    (forall k, (3 <= k)%nat -> indices k = vec_of [] k).
Proof.
  exact (sorti_indices_point_back insertion_sort insertion_sort_contract
           (vec_of [3; 1; 2]%Z) None (vec_of []) 3 0).
Defined.

Lemma sorti_values_do_not_depend_on_qsort_witness :
  sorted_vec (sorti insertion_sort (vec_of [2; 1; 2]%Z) None None 3 0) 1
  = sorted_vec (sorti insertion_sort_rev (vec_of [2; 1; 2]%Z) None None 3 0) 1.
Proof.
  exact (sorti_values_do_not_depend_on_qsort insertion_sort insertion_sort_rev
           insertion_sort_contract insertion_sort_rev_contract
           (vec_of [2; 1; 2]%Z) None None 3 0 1).
Defined.

Lemma sortf_sorts_vectors_without_nan_witness :
  let in_vec := fvec_of (map Binary32.of_int [2; 1; 3]%Z) in
  let r := sortf insertion_sort in_vec None (Some (vec_of [])) 3 1 in
  let sorted := sorted_vec r in
  Permutation (prefix in_vec 3) (prefix sorted 3) /\
  (forall i j, (i <= j < 3)%nat ->
     if nonzero 1 then SFleb (sorted j) (sorted i) = true
     else SFleb (sorted i) (sorted j) = true) /\
  (forall x, Some (vec_of []) = Some x ->
     exists indices, snd r = Some indices /\
       forall i, (i < 3)%nat -> sorted i = in_vec (Z.to_nat (indices i))) /\
  sortd insertion_sort in_vec None (Some (vec_of [])) 3 1 = r.
Proof.
  assert (Hnan : forall i, (i < 3)%nat ->
            is_nan (fvec_of (map Binary32.of_int [2; 1; 3]%Z) i) = false).
  { intros i Hi. destruct i as [|[|[|i]]]; try reflexivity. lia. }
  exact (sortf_sorts_vectors_without_nan insertion_sort insertion_sort_contract
           (fvec_of (map Binary32.of_int [2; 1; 3]%Z)) None (Some (vec_of []))
           3 1 Hnan).
Defined.

Lemma nan_breaks_the_float_comparison_witness :
  let l := [ {| val := Binary32.of_int 1; idx := 0%Z |};
             {| val := S754_nan; idx := 1%Z |};
             {| val := Binary32.of_int 2; idx := 2%Z |} ] in
  (forall x, cmp_asc_float {| val := S754_nan; idx := 1%Z |} x = 0%Z /\
             cmp_asc_float x {| val := S754_nan; idx := 1%Z |} = 0%Z /\
             cmp_desc_float {| val := S754_nan; idx := 1%Z |} x = 0%Z /\
             cmp_desc_float x {| val := S754_nan; idx := 1%Z |} = 0%Z) /\
  ~ consistent cmp_asc_float l /\ ~ consistent cmp_desc_float l.
Proof.
  intro l.
  assert (Hab : SFltb (Binary32.of_int 1) (Binary32.of_int 2) = true)
    by reflexivity.
  assert (Ha : In {| val := Binary32.of_int 1; idx := 0%Z |} l)
    by (left; reflexivity).
  assert (Hn : In {| val := S754_nan; idx := 1%Z |} l)
    by (right; left; reflexivity).
  assert (Hb : In {| val := Binary32.of_int 2; idx := 2%Z |} l)
    by (right; right; left; reflexivity).
  exact (nan_breaks_the_float_comparison (Binary32.of_int 1) (Binary32.of_int 2)
           0 1 2 l Hab Ha Hn Hb).
Defined.

Lemma closest_grid_point_maximises_dot_product_witness :
  let mem := fun _ : nat => S754_nan in
  let grid_xyz := all_xyz cos_table sin_table (fun x => x) 0 axes_grid 3 mem in
  let target_xyz := all_xyz cos_table sin_table (fun x => x) 0 y_target 1 mem in
  let current_val := dot_xyz grid_xyz target_xyz 0 in
  let r := findClosestGridPoints cos_table sin_table (fun x => x) (fun x => x)
             mem mem axes_grid 3 y_target 1 0 no_index None None in
  exists j : nat,
    fst (fst r) 0%nat = Z.of_nat j /\ (Z.of_nat j < 3)%Z /\
    (forall j', (Z.of_nat j' < 3)%Z ->
       SFltb (current_val j) (current_val j') = false) /\
    (forall j', (j' < j)%nat -> current_val j' <> current_val j) /\
    entry (snd r) 0
    = option_map (fun _ => current_val j)
        (entry (None : option (nat -> spec_float)) 0).
Proof.
  intros mem grid_xyz target_xyz current_val r.
  assert (Hi : (Z.of_nat 0 < 1)%Z) by reflexivity.
  assert (Hj0 : (Z.of_nat 1 < 3)%Z) by reflexivity.
  assert (Hbeat : SFltb lowest (current_val 1%nat) = true)
    by (vm_compute; reflexivity).
  exact (closest_grid_point_maximises_dot_product cos_table sin_table
           (fun x => x) (fun x => x) mem mem axes_grid 3 y_target 1 0 no_index
           None None 0 1 Hi Hj0 Hbeat).
Defined.

(** The search among the three axes for the target [y] finds index 1 and
    reads the direction of [y]; with an empty grid the index stays at the
    -1 of the caller, and the read is outside [grid_dirs]. *)
Lemma closest_directions_are_read_at_the_index_witness :
  (exists dirs : nat -> spec_float,
     snd (fst (findClosestGridPoints cos_table sin_table (fun x => x) (fun x => x)
                 (fun _ => S754_nan) (fun _ => S754_nan) axes_grid 3 y_target 1 0
                 no_index (Some (fun _ => S754_nan)) None))
     = dirs_written dirs /\
     dirs 0%nat = half_pi /\ dirs 1%nat = S754_zero false /\
     dirs 2%nat = S754_nan)
  /\ snd (fst (findClosestGridPoints cos_table sin_table (fun x => x) (fun x => x)
                 (fun _ => S754_nan) (fun _ => S754_nan) axes_grid 0 y_target 1 0
                 no_index (Some (fun _ => S754_nan)) None))
     = dirs_outside.
Proof.
  pose proof (closest_directions_are_read_at_the_index cos_table sin_table
                (fun x => x) (fun x => x) (fun _ => S754_nan) (fun _ => S754_nan)
                axes_grid 3 y_target 1 0 no_index (fun _ => S754_nan) None) as T.
  pose proof (closest_directions_are_read_at_the_index cos_table sin_table
                (fun x => x) (fun x => x) (fun _ => S754_nan) (fun _ => S754_nan)
                axes_grid 0 y_target 1 0 no_index (fun _ => S754_nan) None) as T0.
  cbv zeta in T, T0.
  destruct T as (A & _ & C). destruct T0 as (_ & B & _).
  assert (Hall : forall i, (Z.of_nat i < 1)%Z ->
            exists j, (Z.of_nat j < 3)%Z /\
              SFltb lowest
                (dot_xyz
                   (all_xyz cos_table sin_table (fun x => x) 0 axes_grid 3
                      (fun _ => S754_nan))
                   (all_xyz cos_table sin_table (fun x => x) 0 y_target 1
                      (fun _ => S754_nan)) i j) = true).
  { intros i Hi. assert (i = 0%nat) as -> by lia.
    exists 1%nat. split; vm_compute; reflexivity. }
  split.
  - destruct (A (C Hall)) as (dirs & E & Hd & Hk).
    exists dirs. split; [exact E|].
    destruct (Hd 0%nat ltac:(lia)) as [E0 E1]. cbn [Nat.mul Nat.add] in E0, E1.
    rewrite E0, E1, (Hk 2%nat) by (cbn; lia).
    repeat split; vm_compute; reflexivity.
  - apply (B 0%nat); [reflexivity|].
    vm_compute. intros [H0 _]. apply H0. reflexivity.
Defined.

End SortRuns.

(** ** The engines: runs *)

Section EngineRuns.
Import Binary32 Demo Cases.

Local Abbreviation ambi_reinit := (AmbiBin.reinit_if_needed ambi_rebuild ambi_rebuild).
Local Abbreviation bina_reinit :=
  (Binauraliser.reinit_if_needed bina_rebuild bina_rebuild false).

Lemma rotated_matrix_is_decoder_times_rotation_witness :
  let s1 := fst (ambi_reinit first_order_engine) in
  let s' := fst (fst (ambi_process first_order_engine impulse zeros 4 2 frame_count 1)) in
  let nsh := AmbiBin.block_nSH s1 in
  let M_rot_tmp :=
    no_rotation_SH
      (no_rotation3 (AmbiBin.yaw s1) (AmbiBin.pitch s1) (AmbiBin.roll s1))
      (AmbiBin.order s1) in
  AmbiBin.current_M s' 0 1 3
  = cdot nsh (AmbiBin.M_dec (AmbiBin.pars s1) 0 1)
      (fun l => cmplxf (M_rot_tmp (l * nsh + 3)%nat) Fzero).
Proof.
  intros s1 s' nsh M_rot_tmp.
  assert (Hcan : AmbiBin.can_process s1 frame_count 1 = true) by reflexivity.
  assert (Ho : (0 < AmbiBin.order s1)%Z) by reflexivity.
  assert (Hb : (0 < HYBRID_BANDS)%nat) by (apply Nat.ltb_lt; reflexivity).
  assert (He : (1 < NUM_EARS)%nat) by (apply Nat.ltb_lt; reflexivity).
  assert (Hc : (3 < AmbiBin.block_nSH s1)%nat) by (apply Nat.ltb_lt; reflexivity).
  exact (rotated_matrix_is_decoder_times_rotation (F := float) unit
           ambi_rebuild ambi_rebuild no_rotation3 no_rotation_SH false
           first_order_engine impulse zeros 4%Z 2%Z frame_count 1%Z 0%nat 1%nat 3%nat
           Hcan Ho Hb He Hc).
Defined.

Lemma mixing_matrix_is_kept_for_the_next_block_witness :
  let s' := fst (fst (ambi_process first_order_engine impulse zeros 4 2 frame_count 1)) in
  AmbiBin.prev_M s' 5 0 2 = AmbiBin.current_M s' 5 0 2.
Proof.
  intro s'.
  assert (Hcan : AmbiBin.can_process (fst (ambi_reinit first_order_engine))
                   frame_count 1 = true) by reflexivity.
  assert (Hb : (5 < HYBRID_BANDS)%nat) by (apply Nat.ltb_lt; reflexivity).
  assert (He : (0 < NUM_EARS)%nat) by (apply Nat.ltb_lt; reflexivity).
  assert (Hc : (2 < AmbiBin.block_nSH (fst (ambi_reinit first_order_engine)))%nat)
    by (apply Nat.ltb_lt; reflexivity).
  exact (mixing_matrix_is_kept_for_the_next_block (F := float) unit
           ambi_rebuild ambi_rebuild no_rotation3 no_rotation_SH false
           first_order_engine impulse zeros 4%Z 2%Z frame_count 1%Z 5%nat 0%nat 2%nat
           Hcan Hb He Hc).
Defined.

Lemma skipped_block_leaves_the_decoder_untouched_witness :
  fst (ambi_process omni_engine impulse zeros 1 2 frame_count 0)
  = (omni_engine, AmbiBin.silence 2 zeros)
  /\ snd (ambi_process omni_engine impulse zeros 1 2 frame_count 0) = [EvSilence].
Proof.
  assert (Ht : AmbiBin.reInitTFT omni_engine <> 1%Z) by discriminate.
  assert (Hc : AmbiBin.reInitCodec omni_engine <> 1%Z) by discriminate.
  exact (skipped_block_leaves_the_decoder_untouched (F := float) unit
           ambi_rebuild ambi_rebuild no_rotation3 no_rotation_SH false
           omni_engine impulse zeros 1%Z 2%Z frame_count 0%Z Ht Hc
           (or_intror (or_introl eq_refl))).
Defined.

Lemma decoder_writes_only_the_requested_channels_witness :
  let out' := snd (fst (ambi_process omni_engine impulse impulse 1 3 frame_count 1)) in
  ((3 <= Z.of_nat 2)%Z -> out' 2%nat 0%nat = impulse 2%nat 0%nat) /\
  ((TIME_SLOTS * HOP_SIZE <= 0)%nat -> out' 2%nat 0%nat = impulse 2%nat 0%nat) /\
  ((Z.of_nat NUM_EARS <= Z.of_nat 2 < 3)%Z ->
   (0 < TIME_SLOTS * HOP_SIZE)%nat -> out' 2%nat 0%nat = Fzero).
Proof.
  intro out'.
  assert (Hcan : AmbiBin.can_process (fst (ambi_reinit omni_engine))
                   frame_count 1 = true) by reflexivity.
  exact (decoder_writes_only_the_requested_channels (F := float) unit
           ambi_rebuild ambi_rebuild no_rotation3 no_rotation_SH false
           omni_engine impulse impulse 1%Z 3%Z frame_count 1%Z 2%nat 0%nat Hcan).
Defined.

Lemma missing_input_channels_are_zero_filled_witness :
  let s' := fst (fst (ambi_process first_order_engine impulse zeros 1 2 frame_count 1)) in
  AmbiBin.SHFrameTD s' 0 0 = impulse 0%nat 0%nat
  /\ AmbiBin.SHFrameTD s' 1 0 = Fzero.
Proof.
  intro s'.
  assert (Hcan : AmbiBin.can_process (fst (ambi_reinit first_order_engine))
                   frame_count 1 = true) by reflexivity.
  assert (Hn : AmbiBin.norm (fst (ambi_reinit first_order_engine)) = AmbiBin.NORM_N3D)
    by reflexivity.
  assert (Hf : (false && (nonzero (AmbiBin.reInitTFT first_order_engine)
                          || nonzero (AmbiBin.reInitCodec first_order_engine)))%bool
               = false) by reflexivity.
  assert (H0 : (0 < MAX_NUM_SH_SIGNALS)%nat) by (apply Nat.ltb_lt; reflexivity).
  assert (H1 : (1 < MAX_NUM_SH_SIGNALS)%nat) by (apply Nat.ltb_lt; reflexivity).
  assert (Hi : (0 < FRAME_SIZE)%nat) by (apply Nat.ltb_lt; reflexivity).
  split.
  - exact (missing_input_channels_are_zero_filled (F := float) unit
             ambi_rebuild ambi_rebuild no_rotation3 no_rotation_SH false
             first_order_engine impulse zeros 1%Z 2%Z frame_count 1%Z 0%nat 0%nat
             Hcan Hn Hf H0 Hi).
  - exact (missing_input_channels_are_zero_filled (F := float) unit
             ambi_rebuild ambi_rebuild no_rotation3 no_rotation_SH false
             first_order_engine impulse zeros 1%Z 2%Z frame_count 1%Z 1%nat 0%nat
             Hcan Hn Hf H1 Hi).
Defined.

Lemma sn3d_input_is_scaled_per_degree_witness :
  AmbiBin.convert_norm (F := float) AmbiBin.NORM_SN3D 1 impulse 2%nat 0%nat
  = (impulse 2%nat 0%nat * sqrtf (Fof_int 2 * Fof_int (Z.of_nat 1) + Fone))%flt
  /\ AmbiBin.convert_norm (F := float) AmbiBin.NORM_SN3D 1 impulse 4%nat 0%nat
     = impulse 4%nat 0%nat.
Proof.
  assert (Hord : (0 <= 1 <= Z.of_nat MAX_SH_ORDER)%Z) by (split; discriminate).
  assert (Hi : (0 < FRAME_SIZE)%nat) by (apply Nat.ltb_lt; reflexivity).
  assert (Hd : (Z.of_nat 1 <= 1)%Z) by discriminate.
  assert (Hr : (1 * 1 <= 2 < (1 + 1) * (1 + 1))%nat)
    by (split; apply Nat.leb_le; reflexivity).
  assert (Ho : ((Z.to_nat 1 + 1) * (Z.to_nat 1 + 1) <= 4)%nat)
    by (apply Nat.leb_le; reflexivity).
  pose proof (sn3d_input_is_scaled_per_degree (F := float) 1%Z impulse
                1%nat 2%nat 0%nat Hord) as A.
  pose proof (sn3d_input_is_scaled_per_degree (F := float) 1%Z impulse
                0%nat 4%nat 0%nat Hord) as B.
  cbv zeta in A, B.
  exact (conj (proj1 A Hd Hr Hi) (proj1 (proj2 B) Ho)).
Defined.

Lemma panner_writes_only_the_requested_channels_witness :
  let out' := snd (fst (bina_process false duo_engine impulse impulse 2 3 frame_count 1)) in
  ((3 <= Z.of_nat 2)%Z -> out' 2%nat 0%nat = impulse 2%nat 0%nat) /\
  ((TIME_SLOTS * HOP_SIZE <= 0)%nat -> out' 2%nat 0%nat = impulse 2%nat 0%nat) /\
  ((Z.of_nat NUM_EARS <= Z.of_nat 2 < 3)%Z ->
   (0 < TIME_SLOTS * HOP_SIZE)%nat -> out' 2%nat 0%nat = Fzero).
Proof.
  intro out'.
  assert (Hcan : Binauraliser.can_process (fst (bina_reinit duo_engine)) frame_count
                 = true) by reflexivity.
  exact (panner_writes_only_the_requested_channels (F := float) unit unit
           bina_rebuild bina_rebuild unit_interp no_rotation3_rpy
           libm1 libm1 libm2 libm2 false
           duo_engine impulse impulse 2%Z 3%Z frame_count 1%Z 2%nat 0%nat Hcan).
Defined.

Lemma interpolation_only_where_flagged_witness :
  let s1 := fst (bina_reinit duo_engine) in
  let s' := fst (fst duo_block) in
  let nsrc := Z.to_nat (Binauraliser.nSources s1) in
  (forall ch, (ch < nsrc)%nat -> Binauraliser.recalc_hrtf_interpFLAG s' ch = 0%Z)
  /\ (Binauraliser.enableRotation s1 = 0%Z \/ Binauraliser.recalc_M_rotFLAG s1 = 0%Z ->
      Binauraliser.recalc_M_rotFLAG s' = Binauraliser.recalc_M_rotFLAG s1
      /\ forall ch,
           Binauraliser.recalc_hrtf_interpFLAG s1 ch = 0%Z \/ (nsrc <= ch)%nat ->
           Binauraliser.hrtf_interp s' ch = Binauraliser.hrtf_interp s1 ch
           /\ Binauraliser.recalc_hrtf_interpFLAG s' ch
              = Binauraliser.recalc_hrtf_interpFLAG s1 ch).
Proof.
  intros s1 s' nsrc.
  assert (Hcan : Binauraliser.can_process s1 frame_count = true) by reflexivity.
  assert (Hplay : 1%Z <> 0%Z) by discriminate.
  exact (interpolation_only_where_flagged (F := float) unit unit
           bina_rebuild bina_rebuild unit_interp no_rotation3_rpy
           libm1 libm1 libm2 libm2 false
           duo_engine impulse zeros 2%Z 2%Z frame_count 1%Z Hcan Hplay).
Defined.

Lemma paused_block_keeps_interpolation_state_witness :
  let s1 := fst (bina_reinit ringing_engine) in
  let s' := fst (fst paused_block) in
  Binauraliser.hrtf_interp s' = Binauraliser.hrtf_interp s1
  /\ Binauraliser.recalc_hrtf_interpFLAG s' = Binauraliser.recalc_hrtf_interpFLAG s1
  /\ Binauraliser.recalc_M_rotFLAG s' = Binauraliser.recalc_M_rotFLAG s1
  /\ Binauraliser.src_dirs_rot_deg s' = Binauraliser.src_dirs_rot_deg s1.
Proof.
  intros s1 s'.
  assert (Hcan : Binauraliser.can_process s1 frame_count = true) by reflexivity.
  exact (paused_block_keeps_interpolation_state (F := float) unit unit
           bina_rebuild bina_rebuild unit_interp no_rotation3_rpy
           libm1 libm1 libm2 libm2 false
           ringing_engine zeros zeros 1%Z 2%Z frame_count Hcan).
Defined.

Lemma unused_source_channels_are_zero_filled_witness :
  let s1 := fst (bina_reinit duo_engine) in
  let s' := fst (fst (bina_process false duo_engine impulse zeros 1 2 frame_count 1)) in
  Binauraliser.inputFrameTD s' 1 0
  = if ((Z.of_nat 1 <? Binauraliser.nSources s1) && (Z.of_nat 1 <? 1))%Z%bool
    then impulse 1%nat 0%nat else Fzero.
Proof.
  intros s1 s'.
  assert (Hcan : Binauraliser.can_process s1 frame_count = true) by reflexivity.
  assert (Hch : (1 < MAX_NUM_INPUTS)%nat) by (apply Nat.ltb_lt; reflexivity).
  assert (Hi : (0 < FRAME_SIZE)%nat) by (apply Nat.ltb_lt; reflexivity).
  exact (unused_source_channels_are_zero_filled (F := float) unit unit
           bina_rebuild bina_rebuild unit_interp no_rotation3_rpy
           libm1 libm1 libm2 libm2 false
           duo_engine impulse zeros 1%Z 2%Z frame_count 1%Z 1%nat 0%nat
           Hcan Hch Hi).
Defined.

Lemma skipped_block_leaves_the_panner_untouched_witness :
  fst (bina_process false pending_engine impulse zeros 1 2 frame_count 1)
  = (pending_engine, Binauraliser.silence 2 zeros)
  /\ snd (bina_process false pending_engine impulse zeros 1 2 frame_count 1)
     = [EvSilence].
Proof.
  assert (Ht : Binauraliser.reInitTFT pending_engine <> 1%Z) by discriminate.
  assert (Hh : Binauraliser.reInitHRTFsAndGainTables pending_engine <> 0%Z)
    by discriminate.
  exact (skipped_block_leaves_the_panner_untouched (F := float) unit unit
           bina_rebuild bina_rebuild unit_interp no_rotation3_rpy
           libm1 libm1 libm2 libm2 false
           pending_engine impulse zeros 1%Z 2%Z frame_count 1%Z Ht
           (or_introl eq_refl)
           (or_intror (or_intror (or_intror Hh)))).
Defined.

Lemma enabling_rotation_requests_no_recalculation_witness :
  let s_on := Binauraliser.binauraliser_setEnableRotation duo_engine 1 in
  let s' := fst (fst (bina_process false s_on impulse zeros 2 2 frame_count 1)) in
  Binauraliser.enableRotation s_on = 1%Z
  /\ forall ch, Binauraliser.hrtf_interp s' ch = Binauraliser.hrtf_interp duo_engine ch.
Proof.
  intros s_on s'.
  assert (Hcan : Binauraliser.can_process duo_engine frame_count = true)
    by reflexivity.
  assert (Hplay : 1%Z <> 0%Z) by discriminate.
  assert (Hrot : Binauraliser.recalc_M_rotFLAG duo_engine = 0%Z) by reflexivity.
  assert (Hflags : forall ch, Binauraliser.recalc_hrtf_interpFLAG duo_engine ch = 0%Z)
    by (intro ch; reflexivity).
  exact (enabling_rotation_requests_no_recalculation (F := float) unit unit
           bina_rebuild bina_rebuild unit_interp no_rotation3_rpy
           libm1 libm1 libm2 libm2 false
           duo_engine impulse zeros 2%Z 2%Z frame_count 1%Z 1%Z
           Hcan Hplay Hplay Hrot Hflags).
Defined.

(** The decoder and the panner turned by one radian, given 90 degrees. *)
Lemma orientation_reads_back_as_set_witness :
  (-180 <= 90 <= 180)%Z
  /\ AmbiBin.ambi_bin_getYaw (AmbiBin.ambi_bin_setYaw turned_ambi (of_int 90))
     = of_int 90
  /\ Binauraliser.binauraliser_getRoll
       (Binauraliser.binauraliser_setRoll turned_bina (of_int 90))
     = of_int 90
  /\ near (of_int 90) (RAD2DEG (DEG2RAD (of_int 90))) = true.
Proof.
  assert (Hd : (-180 <= 90 <= 180)%Z) by lia.
  destruct (orientation_reads_back_as_set unit unit turned_ambi turned_bina
              (of_int 90)) as ((A & _) & _ & (_ & _ & B) & _ & N & (E & _)).
  split; [exact Hd|]. split; [|split].
  - exact (eq_trans A E).
  - exact (eq_trans B E).
  - exact (N 90%Z Hd).
Defined.

End EngineRuns.
